(** * toykern: region allocator (mem.c) and cooperative process manager (proc.c)

    A shallow embedding of the two subsystems of the toy kernel and the
    properties of its natural-language specification.

    Modelling conventions.
    - Target: x86-64 (proc.c says so), hence pointers and [size_t] are 64 bit,
      [int] is 32 bit, [sizeof(mcb_t)] = 8 + 4 + 4 = 16 and
      [sizeof(freelist_links_t)] = 16.
    - [int] values are elements of [Z]; every conversion back to [int] is the
      two's-complement wrap [wrap32], every conversion to [size_t] is [u64].
    - Pointers are elements of [Z], [NULL] is [0]; pointer arithmetic is exact
      (a region never straddles the end of the address space).
    - Memory is one flat store [Z -> Z] read and written one field at a time:
      the key is the address of the field.  Two fields are the same cell iff
      they start at the same address; partial overlap of fields that start at
      different addresses is not represented.  Under the allocator's
      invariants all live fields are at least a field apart.
    - Loops that follow links take a [fuel]; running out of it is the
      result [Err OutOfFuel].  Dereferencing a pointer the source does not
      guard is checked and is the result [Err (NullDeref _)].
    - The stack switch of the scheduler is the exchange of the machine stack
      pointer [rsp], a component of the state; which code runs next is not
      part of the state.
    - A call that ends in a switch ([procCreate], [procYield], [procDelete])
      is modelled up to the switch: its state is the one in which the
      selected process goes on.  What such a call returns is read when its
      caller is resumed: the constant 0 for [procDelete], and for
      [procCreate] the [pid] field of the new PCB as it is then
      ([procCreate_resume]).  Between two calls the running code moves
      [rsp]: [yields] takes its value at each call as a parameter, the
      concrete runs ([run_created] and the like) call again with the value
      the last switch loaded.
    - The call of [sanityCheck] that UNIT_TEST compiles into the end of
      [memInit], [memAlloc] and [memFree] is not part of the models of these
      functions: [sanityCheck] is modelled on its own, and shown to pass in
      every state that a client who keeps to the interface can reach. *)

From Stdlib Require Import ZArith List Lia Bool Permutation.
Import ListNotations.
Local Open Scope Z_scope.

(** ** Machine integers *)

Definition INT_MAX : Z := 2147483647.
Definition INT_MIN : Z := -2147483648.

(** Conversion to [int] (gcc: reduction modulo 2^32 into the signed range). *)
Definition wrap32 (x : Z) : Z := (x + 2147483648) mod 4294967296 - 2147483648.

(** Conversion to [size_t] / [unsigned long]. *)
Definition u64 (x : Z) : Z := x mod 18446744073709551616.

Definition in_int (x : Z) : Prop := INT_MIN <= x <= INT_MAX.

(** ** Results *)

Inductive fault : Type :=
| OutOfFuel
| NullDeref_runningProc   (* [runningProc->pid] in procDelete *)
| NullDeref_readyQEnd.    (* [readyQEnd->next = ...] in sched *)

Inductive res (A : Type) : Type :=
| Ok  (a : A)
| Err (f : fault).
Arguments Ok {A} a.
Arguments Err {A} f.

Definition bind {A B : Type} (r : res A) (k : A -> res B) : res B :=
  match r with
  | Ok a => k a
  | Err f => Err f
  end.

Notation "x <- r ;; k" := (bind r (fun x => k))
  (at level 61, r at next level, right associativity).
Notation "' p <- r ;; k" := (bind r (fun p => k))
  (at level 61, p pattern, r at next level, right associativity).

(** ** Memory *)

Definition memory : Type := Z -> Z.

Definition upd (m : memory) (a v : Z) : memory :=
  fun x => if Z.eqb x a then v else m x.

Definition NULL : Z := 0.

(** ** mem.c *)

Module Mem.

Definition MAGIC_USED : Z := 0x4D454D55.
Definition MAGIC_FREE : Z := 0x4D454D46.

(** [sizeof(mcb_t)], [sizeof(freelist_links_t)], [sizeof(int)]. *)
Definition SZ_MCB : Z := 16.
Definition SZ_LINKS : Z := 16.
Definition SZ_INT : Z := 4.
Definition MIN_FREE_BLOCK : Z := SZ_MCB + SZ_LINKS.

(** Field offsets of [mcb_t] and of [freelist_links_t]. *)
Definition OFF_prev : Z := 0.
Definition OFF_magic : Z := 8.
Definition OFF_size : Z := 12.
Definition OFF_larger : Z := 0.
Definition OFF_smaller : Z := 8.

(** The globals [mcb], [endMem], [freelist] and the store. *)
Record state : Type := mkState {
  mem : memory;
  mcb : Z;
  endMem : Z;
  freelist : Z
}.

Definition set_mem (st : state) (m : memory) : state :=
  mkState m (mcb st) (endMem st) (freelist st).
Definition set_freelist (st : state) (f : Z) : state :=
  mkState (mem st) (mcb st) (endMem st) f.

Definition store (st : state) (a v : Z) : state := set_mem st (upd (mem st) a v).

Definition mcbAddr (m : Z) : Z := m + SZ_MCB.

Definition get_prev (st : state) (m : Z) : Z := mem st (m + OFF_prev).
Definition get_magic (st : state) (m : Z) : Z := mem st (m + OFF_magic).
Definition get_size (st : state) (m : Z) : Z := mem st (m + OFF_size).
Definition get_larger (st : state) (m : Z) : Z := mem st (mcbAddr m + OFF_larger).
Definition get_smaller (st : state) (m : Z) : Z := mem st (mcbAddr m + OFF_smaller).

Definition set_prev (st : state) (m v : Z) : state := store st (m + OFF_prev) v.
Definition set_magic (st : state) (m v : Z) : state := store st (m + OFF_magic) v.
Definition set_size (st : state) (m v : Z) : state := store st (m + OFF_size) v.
Definition set_larger (st : state) (m v : Z) : state := store st (mcbAddr m + OFF_larger) v.
Definition set_smaller (st : state) (m v : Z) : state := store st (mcbAddr m + OFF_smaller) v.

(** [mcbNext]: the header that follows [m], [NULL] at the end of the region. *)
Definition mcbNext (st : state) (m : Z) : Z :=
  let next := m + SZ_MCB + get_size st m in
  if next =? endMem st then NULL else next.

(** The search loop of [insertFree]: returns the pair [(l, s)] between which
    [m] goes. *)
Fixpoint insertFree_scan (fuel : nat) (st : state) (m l s : Z) : res (Z * Z) :=
  match fuel with
  | O => Err OutOfFuel
  | S fuel' =>
      if negb (s =? NULL) && (get_size st m <? get_size st s)
      then insertFree_scan fuel' st m s (get_smaller st s)
      else Ok (l, s)
  end.

Definition insertFree (fuel : nat) (st : state) (m : Z) : res state :=
  ' (l, s) <- insertFree_scan fuel st m NULL (freelist st) ;;
  let st := set_larger st m l in
  let st := if negb (l =? NULL) then set_smaller st l m else set_freelist st m in
  let st := set_smaller st m s in
  let st := if negb (s =? NULL) then set_larger st s m else st in
  Ok st.

Definition removeFree (st : state) (m : Z) : state :=
  let st := if negb (get_smaller st m =? NULL)
            then set_larger st (get_smaller st m) (get_larger st m) else st in
  let st := if negb (get_larger st m =? NULL)
            then set_smaller st (get_larger st m) (get_smaller st m)
            else set_freelist st (get_smaller st m) in
  (* mf->smaller = mf->larger = NULL *)
  let st := set_larger st m NULL in
  set_smaller st m NULL.

(** [memInit(addr, size)]; the previous contents of the store are whatever
    they were. *)
Definition memInit (fuel : nat) (m0 : memory) (addr size : Z) : res state :=
  let m := addr in
  let st := mkState m0 0 0 0 in
  let st := set_size st m (wrap32 (u64 (u64 size - SZ_MCB))) in
  let st := set_magic st m MAGIC_FREE in
  let st := set_prev st m NULL in
  let st := mkState (mem st) m (addr + size) NULL in
  insertFree fuel st m.

(** Lines 462-466 of memAlloc: the request as the code adjusts it.  The
    comparison with [sizeof] and the rounding are done in [size_t]; the
    result is converted back to [int]. *)
Definition adjust (size : Z) : Z :=
  let size := if u64 size <? SZ_LINKS then SZ_LINKS else size in
  wrap32 (Z.land (u64 (u64 size + SZ_INT - 1)) (u64 (Z.lnot (SZ_INT - 1)))).

Definition memAlloc (fuel : nat) (st : state) (size : Z) : res (Z * state) :=
  let size := adjust size in
  let m := freelist st in
  if (m =? NULL) || (get_size st m <? size) then Ok (NULL, st) else
  let balance := wrap32 (get_size st m - size) in
  ' (st, size) <-
    (if u64 balance >? MIN_FREE_BLOCK then
       let n := mcbAddr m + size in
       let st := set_prev st n m in
       let next := mcbNext st m in
       let st := if negb (next =? NULL) then set_prev st next n else st in
       let st := set_magic st n MAGIC_FREE in
       let st := set_size st n (wrap32 (u64 (u64 balance - SZ_MCB))) in
       (* nf->smaller = nf->larger = NULL *)
       let st := set_larger st n NULL in
       let st := set_smaller st n NULL in
       st <- insertFree fuel st n ;;
       Ok (st, size)
     else Ok (st, wrap32 (size + balance))) ;;
  let st := removeFree st m in
  let st := set_magic st m MAGIC_USED in
  let st := set_size st m size in
  Ok (mcbAddr m, st).

(** memFree, "Merge with preceeding block, if possible": the result is the
    state and the block [m] that the function goes on with. *)
Definition memFree_prev (fuel : nat) (st : state) (m : Z) : res (state * Z) :=
  if negb (get_prev st m =? NULL) && (get_magic st (get_prev st m) =? MAGIC_FREE)
  then
    let st := set_magic st m 0 in
    let st := set_size st (get_prev st m)
                (wrap32 (u64 (u64 (get_size st (get_prev st m))
                              + (u64 (get_size st m) + SZ_MCB)))) in
    let next := mcbNext st m in
    let st := if negb (next =? NULL) then set_prev st next (get_prev st m) else st in
    let m := get_prev st m in
    (* Since size of 'm' is increased, put it back into freelist in sorted
       order. *)
    let st := removeFree st m in
    st <- insertFree fuel st m ;;
    Ok (st, m)
  else
    st <- insertFree fuel st m ;;
    Ok (st, m).

(** memFree, "Merge with succeeding block, if possible". *)
Definition memFree_next (fuel : nat) (st : state) (m : Z) : res state :=
  let next := mcbNext st m in
  if negb (next =? NULL) && (get_magic st next =? MAGIC_FREE) then
    let st := removeFree st next in
    let st := set_magic st next 0 in
    let st := set_size st m
                (wrap32 (u64 (u64 (get_size st m)
                              + (SZ_MCB + u64 (get_size st next))))) in
    let nnext := mcbNext st next in
    let st := if negb (nnext =? NULL) then set_prev st nnext m else st in
    let st := removeFree st m in
    insertFree fuel st m
  else Ok st.

(** memFree, "Mark block as free", with [mf->smaller = mf->larger = NULL]. *)
Definition mark_free (st : state) (m : Z) : state :=
  let st := set_magic st m MAGIC_FREE in
  let st := set_larger st m NULL in
  set_smaller st m NULL.

Definition memFree (fuel : nat) (st : state) (addr : Z) : res state :=
  if addr =? NULL then Ok st else
  let m := addr - SZ_MCB in
  if negb (get_magic st m =? MAGIC_USED) then Ok st else
  if m =? NULL then Ok st else
  let st := mark_free st m in
  ' (st, m) <- memFree_prev fuel st m ;;
  memFree_next fuel st m.

(** [sanityCheck] (compiled in with UNIT_TEST): the result is [true] when
    no assertion fails.  First the checks of the first loop on the block
    [m] of the chain. *)
Definition sanityCheck_block (st : state) (m : Z) : bool :=
  let next := mcbNext st m in
  (* MCB must have a valid magic#. *)
  if negb (get_magic st m =? MAGIC_USED) && negb (get_magic st m =? MAGIC_FREE)
  then false else
  (* First element will have 'prev' as NULL. *)
  if (get_prev st m =? NULL) && negb (mcb st =? m) then false else
  (* Address in successive MCBs must be increasing. *)
  if negb (next =? NULL) && (next <=? m) then false else
  (* Check if linked-list prev/next are sane. *)
  if (if negb (get_prev st m =? NULL)
      then negb (mcbNext st (get_prev st m) =? m)
      else negb (mcb st =? m))
  then false else
  if negb (next =? NULL) && negb (get_prev st next =? m) then false else
  if get_magic st m =? MAGIC_FREE then
    (* If no MCB is larger than this one, it must be at head of freelist. *)
    if (get_larger st m =? NULL) && negb (freelist st =? m) then false else
    if negb (get_larger st m =? NULL)
       && negb (get_magic st (get_larger st m) =? MAGIC_FREE) then false else
    if negb (get_smaller st m =? NULL)
       && negb (get_magic st (get_smaller st m) =? MAGIC_FREE) then false else
    (* The larger MCB must have a larger (or same) size *)
    if negb (get_larger st m =? NULL)
       && (get_size st (get_larger st m) <? get_size st m) then false else
    (* The smaller MCB must have smaller (or same) size *)
    if negb (get_smaller st m =? NULL)
       && (get_size st (get_smaller st m) >? get_size st m) then false else
    (* The must not be 2 contiguous free memory blocks. *)
    if negb (get_prev st m =? NULL)
       && negb (get_magic st (get_prev st m) =? MAGIC_USED) then false else
    if negb (next =? NULL) && negb (get_magic st next =? MAGIC_USED) then false else
    true
  else true.

Fixpoint sanityCheck_chain (fuel : nat) (st : state) (m : Z) : res bool :=
  match fuel with
  | O => Err OutOfFuel
  | S fuel' =>
      if m =? NULL then Ok true
      else if sanityCheck_block st m then sanityCheck_chain fuel' st (mcbNext st m)
      else Ok false
  end.

(** The checks of the second loop on the header [m] of the free list. *)
Definition sanityCheck_free (st : state) (m : Z) : bool :=
  if negb (get_magic st m =? MAGIC_FREE) then false else
  if negb (get_smaller st m =? NULL)
     && negb (get_magic st (get_smaller st m) =? MAGIC_FREE) then false else
  if negb (get_smaller st m =? NULL)
     && (get_size st m <? get_size st (get_smaller st m)) then false else
  if negb (get_smaller st m =? NULL)
     && negb (get_larger st (get_smaller st m) =? m) then false else
  if (if negb (get_larger st m =? NULL)
      then negb (get_smaller st (get_larger st m) =? m)
      else negb (freelist st =? m))
  then false else true.

Fixpoint sanityCheck_freelist (fuel : nat) (st : state) (m : Z) : res bool :=
  match fuel with
  | O => Err OutOfFuel
  | S fuel' =>
      if m =? NULL then Ok true
      else if sanityCheck_free st m
           then sanityCheck_freelist fuel' st (get_smaller st m)
           else Ok false
  end.

Definition sanityCheck (fuel : nat) (st : state) : res bool :=
  ok <- sanityCheck_chain fuel st (mcb st) ;;
  if ok then sanityCheck_freelist fuel st (freelist st) else Ok false.

End Mem.


(** ** proc.c *)

Module Proc.

Definition STACKSZ : Z := 128 * 1024.
Definition MAGIC_PROC : Z := 0x50524F43.

(** [procState_t] *)
Definition READY : Z := 0.
Definition SLEEPING : Z := 2.
Definition WAITING : Z := 3.

(** [sizeof(pcb_t)], [sizeof(void * )] and the field offsets of [pcb_t]. *)
Definition SZ_PCB : Z := 56.
Definition SZ_PTR : Z := 8.
Definition OFF_next : Z := 0.
Definition OFF_magic : Z := 8.
Definition OFF_pid : Z := 12.
Definition OFF_state : Z := 16.
Definition OFF_stackAddr : Z := 24.
Definition OFF_resumeAddr : Z := 32.
Definition OFF_stackPtr : Z := 40.
Definition OFF_framePtr : Z := 48.

(** The allocator (whose store also holds the PCBs and the stacks), the
    globals of proc.c and the machine stack pointer. *)
Record state : Type := mkState {
  heap : Mem.state;
  procId : Z;
  readyQ : Z;
  readyQEnd : Z;
  runningProc : Z;
  rsp : Z
}.

Definition set_heap (st : state) (h : Mem.state) : state :=
  mkState h (procId st) (readyQ st) (readyQEnd st) (runningProc st) (rsp st).
Definition set_procId (st : state) (v : Z) : state :=
  mkState (heap st) v (readyQ st) (readyQEnd st) (runningProc st) (rsp st).
Definition set_readyQ (st : state) (v : Z) : state :=
  mkState (heap st) (procId st) v (readyQEnd st) (runningProc st) (rsp st).
Definition set_readyQEnd (st : state) (v : Z) : state :=
  mkState (heap st) (procId st) (readyQ st) v (runningProc st) (rsp st).
Definition set_runningProc (st : state) (v : Z) : state :=
  mkState (heap st) (procId st) (readyQ st) (readyQEnd st) v (rsp st).
Definition set_rsp (st : state) (v : Z) : state :=
  mkState (heap st) (procId st) (readyQ st) (readyQEnd st) (runningProc st) v.

Definition load (st : state) (a : Z) : Z := Mem.mem (heap st) a.
Definition store (st : state) (a v : Z) : state := set_heap st (Mem.store (heap st) a v).

Definition get_next (st : state) (p : Z) : Z := load st (p + OFF_next).
Definition get_pid (st : state) (p : Z) : Z := load st (p + OFF_pid).
Definition get_state (st : state) (p : Z) : Z := load st (p + OFF_state).
Definition get_stackAddr (st : state) (p : Z) : Z := load st (p + OFF_stackAddr).
Definition get_stackPtr (st : state) (p : Z) : Z := load st (p + OFF_stackPtr).

Definition set_next (st : state) (p v : Z) : state := store st (p + OFF_next) v.
Definition set_magic (st : state) (p v : Z) : state := store st (p + OFF_magic) v.
Definition set_pid (st : state) (p v : Z) : state := store st (p + OFF_pid) v.
Definition set_state (st : state) (p v : Z) : state := store st (p + OFF_state) v.
Definition set_stackAddr (st : state) (p v : Z) : state := store st (p + OFF_stackAddr) v.
Definition set_stackPtr (st : state) (p v : Z) : state := store st (p + OFF_stackPtr) v.

(** [sched]. *)
Definition sched (st : state) : res state :=
  let proc := readyQ st in
  if proc =? NULL then Ok st else
  let oldProc := runningProc st in
  (* Dequeue process from readyQ *)
  let st := set_readyQ st (get_next st proc) in
  let st := if readyQ st =? NULL then set_readyQEnd st NULL else st in
  (* Put current running proc into readyQ *)
  st <- (if readyQ st =? NULL
         then Ok (set_readyQ (set_readyQEnd st (runningProc st)) (runningProc st))
         else if readyQEnd st =? NULL then Err NullDeref_readyQEnd
         else Ok (set_readyQEnd (set_next st (readyQEnd st) (runningProc st))
                                (runningProc st))) ;;
  let newStackPtr := get_stackPtr st proc in
  let st := set_runningProc st proc in
  let st := set_next st (runningProc st) NULL in
  (* mov %rsp, oldStackPtr ; mov newStackPtr, %rsp *)
  let oldStackPtr := rsp st in
  let st := set_rsp st newStackPtr in
  let st := if negb (oldProc =? NULL) then set_stackPtr st oldProc oldStackPtr else st in
  Ok st.

(** [procInit]. *)
Definition procInit (fuel : nat) (st : state) : res state :=
  let st := set_readyQ st NULL in
  let st := set_readyQEnd st NULL in
  let st := set_runningProc st NULL in
  let st := set_procId st 0 in
  ' (proc, h) <- Mem.memAlloc fuel (heap st) SZ_PCB ;;
  let st := set_heap st h in
  if proc =? NULL then Ok st else
  let stack := rsp st in
  let st := set_magic st proc MAGIC_PROC in
  let st := set_pid st proc (procId st) in
  let st := set_procId st (wrap32 (procId st + 1)) in
  let st := set_state st proc READY in
  let st := set_stackAddr st proc NULL in
  let st := set_stackPtr st proc stack in
  Ok (set_runningProc st proc).

(** [procCreate] up to, and not including, its call of the scheduler:
    the result is the new PCB and the state in which [sched] is entered, or
    [NULL] when the function returns -1 before. *)
Definition procCreate_enqueue (fuel : nat) (st : state) (start : Z) : res (Z * state) :=
  ' (proc, h) <- Mem.memAlloc fuel (heap st) SZ_PCB ;;
  let st := set_heap st h in
  if proc =? NULL then Ok (NULL, st) else
  ' (stack, h) <- Mem.memAlloc fuel (heap st) STACKSZ ;;
  let st := set_heap st h in
  if stack =? NULL then
    h <- Mem.memFree fuel (heap st) proc ;;
    Ok (NULL, set_heap st h)
  else
  let st := set_pid st proc (procId st) in
  let st := set_procId st (wrap32 (procId st + 1)) in
  let st := set_state st proc READY in
  let st := set_stackAddr st proc stack in
  let st := set_stackPtr st proc (stack + STACKSZ - SZ_PTR) in
  let st := store st (get_stackPtr st proc) start in
  let st := set_stackPtr st proc (get_stackPtr st proc - SZ_PTR) in
  (* Put process into ready list *)
  let st := set_next st proc (readyQ st) in
  let st := set_readyQ st proc in
  let st := if get_next st proc =? NULL then set_readyQEnd st proc else st in
  Ok (proc, st).

(** How control leaves a call of [procCreate]: the call returns the value
    [v] to its caller at once, or it is suspended in the scheduler, which
    has switched to another process; [proc] is then the local variable of
    the suspended call, and line 157 is run when the scheduler switches back
    to the caller. *)
Inductive outcome : Type :=
| Returned (v : Z)
| Suspended (proc : Z).

(** [procCreate], up to the switch: the state is the one in which the new
    process starts. *)
Definition procCreate (fuel : nat) (st : state) (start : Z) : res (outcome * state) :=
  ' (proc, st) <- procCreate_enqueue fuel st start ;;
  if proc =? NULL then Ok (Returned (-1), st) else
  st <- sched st ;;
  Ok (Suspended proc, st).

(** Line 157, [return (proc->pid)], of a suspended call of [procCreate]: the
    value the creator gets when it is resumed in the state [st].  The
    field is read as the store holds it while the PCB is a block in use;
    once the PCB is freed the link pair of the allocator overlaps it. *)
Definition procCreate_resume (st : state) (proc : Z) : Z := get_pid st proc.

(** The search loop of [procDelete]: the result is [(proc, prevProc)]. *)
Fixpoint procDelete_find (fuel : nat) (st : state) (pid proc prevProc : Z)
  : res (Z * Z) :=
  match fuel with
  | O => Err OutOfFuel
  | S fuel' =>
      if proc =? NULL then Ok (proc, prevProc)
      else if get_pid st proc =? pid then Ok (proc, prevProc)
      else procDelete_find fuel' st pid (get_next st proc) proc
  end.

(** [procDelete] up to, and not including, its call of the scheduler. *)
Definition procDelete_unlink (fuel : nat) (st : state) (pid : Z) : res state :=
  ' (proc, prevProc) <- procDelete_find fuel st pid (readyQ st) NULL ;;
  if negb (proc =? NULL) then
    let st :=
      if proc =? readyQ st then
        let st := set_readyQ st (get_next st proc) in
        if readyQ st =? NULL then set_readyQEnd st NULL else st
      else if proc =? readyQEnd st then
        let st := set_readyQEnd st prevProc in
        set_next st prevProc NULL
      else set_next st prevProc (get_next st proc) in
    (* Free the memory allocated for process management *)
    h <- Mem.memFree fuel (heap st) (get_stackAddr st proc) ;;
    let st := set_heap st h in
    h <- Mem.memFree fuel (heap st) proc ;;
    Ok (set_heap st h)
  else if runningProc st =? NULL then Err NullDeref_runningProc
  else if get_pid st (runningProc st) =? pid then Ok (set_runningProc st NULL)
  else Ok st.

(** [procDelete]. *)
Definition procDelete (fuel : nat) (st : state) (pid : Z) : res (Z * state) :=
  st <- procDelete_unlink fuel st pid ;;
  st <- sched st ;;
  Ok (0, st).

(** [procYield]. *)
Definition procYield (st : state) : res state := sched st.

End Proc.

(** ** memtest.c

    The three blocks of [main].  What [random()] returns is a parameter:
    the sizes of the second block, and the pairs of an index and a size of
    the third one. *)
Module MemTest.

(** [for (i = 0; i < n; i++) ptr[i] = memAlloc(sz)]. *)
Fixpoint allocAll (fuel : nat) (st : Mem.state) (sizes : list Z)
  : res (list Z * Mem.state) :=
  match sizes with
  | [] => Ok ([], st)
  | sz :: r =>
      ' (p, st) <- Mem.memAlloc fuel st sz ;;
      ' (ps, st) <- allocAll fuel st r ;;
      Ok (p :: ps, st)
  end.

(** [memFree] of the pointers [ps], one after the other. *)
Fixpoint freeAll (fuel : nat) (st : Mem.state) (ps : list Z) : res Mem.state :=
  match ps with
  | [] => Ok st
  | p :: r => st <- Mem.memFree fuel st p ;; freeAll fuel st r
  end.

(** The first block. *)
Definition block1 (fuel : nat) (m0 : memory) (space : Z) : res (list Z * Mem.state) :=
  st <- Mem.memInit fuel m0 space (610 + 32 * 3) ;;
  ' (p0, st) <- Mem.memAlloc fuel st 100 ;;
  ' (p1, st) <- Mem.memAlloc fuel st 200 ;;
  ' (p2, st) <- Mem.memAlloc fuel st 300 ;;
  ' (p3, st) <- Mem.memAlloc fuel st 30 ;;
  st <- Mem.memFree fuel st p0 ;;
  st <- Mem.memFree fuel st p2 ;;
  st <- Mem.memFree fuel st p1 ;;
  st <- Mem.memFree fuel st p3 ;;
  Ok ([p0; p1; p2; p3], st).

(** The second block: the allocations, then [memFree] from the last
    pointer to the first. *)
Definition block2 (fuel : nat) (m0 : memory) (space : Z) (sizes : list Z)
  : res (list Z * Mem.state) :=
  st <- Mem.memInit fuel m0 space (1 * 1024 * 1024) ;;
  ' (ps, st) <- allocAll fuel st sizes ;;
  st <- freeAll fuel st (rev ps) ;;
  Ok (ps, st).

(** One turn of the loop of the third block, with the array [ptr]. *)
Definition step3 (fuel : nat) (ptr : Z -> Z) (st : Mem.state) (idx sz : Z)
  : res ((Z -> Z) * Mem.state) :=
  if ptr idx =? 0 then
    ' (p, st) <- Mem.memAlloc fuel st sz ;;
    Ok (upd ptr idx p, st)
  else
    st <- Mem.memFree fuel st (ptr idx) ;;
    Ok (upd ptr idx 0, st).

Fixpoint loop3 (fuel : nat) (ptr : Z -> Z) (st : Mem.state) (rnd : list (Z * Z))
  : res ((Z -> Z) * Mem.state) :=
  match rnd with
  | [] => Ok (ptr, st)
  | (idx, sz) :: r =>
      ' (ptr, st) <- step3 fuel ptr st idx sz ;;
      loop3 fuel ptr st r
  end.

Definition block3 (fuel : nat) (m0 : memory) (space : Z) (rnd : list (Z * Z))
  : res ((Z -> Z) * Mem.state) :=
  st <- Mem.memInit fuel m0 space (1 * 1024 * 1024) ;;
  loop3 fuel (fun _ => 0) st rnd.

End MemTest.

(** * Abstract view of the allocator *)

(** The adjusted request in the words of the specification: raised to the
    size of the link pair, then rounded up to a multiple of [sizeof(int)]. *)
Definition adjust_spec (size : Z) : Z :=
  4 * ((Z.max size Mem.SZ_LINKS + 3) / 4).

(** Two headers are [far] apart when neither the header nor the link pair of
    one can touch those of the other. *)
Definition far (a b : Z) : Prop := a + 32 <= b \/ b + 32 <= a.

Definition sepl (l : list Z) : Prop :=
  forall a b, In a l -> In b l -> a = b \/ far a b.

(** [lseg mm L p fl q]: in the store [mm], following the [smaller] links
    from [p] visits the headers [fl] and ends with the pointer [q]; the
    [larger] link of each header is its predecessor, that of the first one
    is [L]. *)
Fixpoint lseg (mm : memory) (L p : Z) (fl : list Z) (q : Z) : Prop :=
  match fl with
  | [] => p = q
  | a :: r => p = a /\ a <> NULL /\ mm (a + 16) = L /\ lseg mm a (mm (a + 24)) r q
  end.

(** Insertion in front of the first header that is not larger, as
    [insertFree] does it, and removal, on the list of the free headers. *)
Fixpoint ins (sz : Z -> Z) (m : Z) (fl : list Z) : list Z :=
  match fl with
  | [] => [m]
  | s :: r => if sz m <? sz s then s :: ins sz m r else m :: s :: r
  end.

Definition rem (m : Z) (fl : list Z) : list Z := remove Z.eq_dec m fl.

(** Non-increasing in size. *)
Fixpoint desc (sz : Z -> Z) (fl : list Z) : Prop :=
  match fl with
  | [] => True
  | a :: r => (forall b, In b r -> sz b <= sz a) /\ desc sz r
  end.

(** [mm'] differs from [mm] at most in the link pairs of the headers [L]. *)
Definition frameL (L : list Z) (mm mm' : memory) : Prop :=
  forall x, (forall a, In a L -> x <> a + 16 /\ x <> a + 24) -> mm' x = mm x.

(** [mm'] differs from [mm] at most between [lo] and [hi] and in the link
    pairs of the headers [L]. *)
Definition span_frame (lo hi : Z) (L : list Z) (mm mm' : memory) : Prop :=
  forall x, x < lo \/ hi < x ->
            (forall a, In a L -> x <> a + 16 /\ x <> a + 24) -> mm' x = mm x.

(** The header and link pair at [a] lie outside the block at [m] with
    payload size [S]. *)
Definition outside (m S a : Z) : Prop := a + 32 <= m \/ m + 16 + S <= a.

(** A block of the region: the address of its header, the size of its
    payload and its magic. *)
Definition blk : Type := Z * Z * Z.
Definition b_addr (b : blk) : Z := fst (fst b).
Definition b_size (b : blk) : Z := snd (fst b).
Definition b_magic (b : blk) : Z := snd b.

(** The blocks [bs] tile the addresses from [a] to [e]; every payload can
    hold the link pair. *)
Fixpoint layout (a : Z) (bs : list blk) (e : Z) : Prop :=
  match bs with
  | [] => a = e
  | b :: r => b_addr b = a /\ 16 <= b_size b /\ layout (a + 16 + b_size b) r e
  end.

(** The headers of the blocks [bs] as the store has them; [prev] is the
    back link of the first one. *)
Fixpoint hdrs (mm : memory) (prev : Z) (bs : list blk) : Prop :=
  match bs with
  | [] => True
  | b :: r =>
      mm (b_addr b) = prev /\ mm (b_addr b + 8) = b_magic b /\
      mm (b_addr b + 12) = b_size b /\ hdrs mm (b_addr b) r
  end.

Definition is_free (b : blk) : bool := b_magic b =? Mem.MAGIC_FREE.
Definition is_used (b : blk) : bool := b_magic b =? Mem.MAGIC_USED.

Definition free_addrs (bs : list blk) : list Z := map b_addr (filter is_free bs).
Definition used_addrs (bs : list blk) : list Z := map b_addr (filter is_used bs).

(** No two neighbours are both free. *)
Fixpoint no_adj_free (bs : list blk) : Prop :=
  match bs with
  | [] => True
  | b :: r =>
      match r with
      | [] => True
      | c :: _ => ~ (is_free b = true /\ is_free c = true)
      end /\ no_adj_free r
  end.

(** [Rep st bs fl]: the state [st] holds the blocks [bs], in address order,
    and the free list [fl], from its head on.  These are invariants 1, 2,
    4, 5 and 7 of the specification. *)
Record Rep (st : Mem.state) (bs : list blk) (fl : list Z) : Prop := mkRep {
  rep_nonempty : bs <> [];
  rep_base : 0 < Mem.mcb st;
  rep_len : Mem.endMem st - Mem.mcb st <= INT_MAX;
  rep_layout : layout (Mem.mcb st) bs (Mem.endMem st);
  rep_hdrs : hdrs (Mem.mem st) NULL bs;
  rep_magic : forall b, In b bs ->
      b_magic b = Mem.MAGIC_USED \/ b_magic b = Mem.MAGIC_FREE;
  rep_links : lseg (Mem.mem st) NULL (Mem.freelist st) fl NULL;
  rep_nodup : NoDup fl;
  rep_free : forall a, In a fl <-> In a (free_addrs bs);
  rep_desc : desc (Mem.get_size st) fl
}.

(** The invariants of the allocator, invariant 3 (eager coalescing)
    included. *)
Definition Inv (st : Mem.state) : Prop :=
  exists bs fl, Rep st bs fl /\ no_adj_free bs.

(** The addresses inside the payload of a block in use. *)
Definition in_used_payload (bs : list blk) (x : Z) : Prop :=
  exists b, In b bs /\ b_magic b = Mem.MAGIC_USED /\
            b_addr b + 16 <= x < b_addr b + 16 + b_size b.

(** The block before, and the block after, a place in the chain is not
    free. *)
Definition last_not_free (pre : list blk) : Prop :=
  forall pre' q, pre = pre' ++ [q] -> b_magic q <> Mem.MAGIC_FREE.
Definition head_not_free (post : list blk) : Prop :=
  forall c r, post = c :: r -> b_magic c <> Mem.MAGIC_FREE.

(** What an allocation of [sz] bytes from the block at [m] does to the
    chain: the block is handed out whole, or split. *)
Inductive alloc_step (sz m : Z) : list blk -> list blk -> Prop :=
| alloc_whole pre S post :
    sz <= S -> S - sz <= 32 ->
    alloc_step sz m (pre ++ (m, S, Mem.MAGIC_FREE) :: post)
                    (pre ++ (m, S, Mem.MAGIC_USED) :: post)
| alloc_split pre S post :
    32 < S - sz ->
    alloc_step sz m (pre ++ (m, S, Mem.MAGIC_FREE) :: post)
                    (pre ++ (m, sz, Mem.MAGIC_USED)
                         :: (m + 16 + sz, S - sz - 16, Mem.MAGIC_FREE) :: post).

(** What freeing the block at [m] does to the chain: the block becomes
    free and absorbs, or is absorbed by, its free neighbours. *)
Inductive free_step (m : Z) : list blk -> list blk -> Prop :=
| free_alone pre S post :
    last_not_free pre -> head_not_free post ->
    free_step m (pre ++ (m, S, Mem.MAGIC_USED) :: post)
                (pre ++ (m, S, Mem.MAGIC_FREE) :: post)
| free_with_prev pre p P S post :
    head_not_free post ->
    free_step m (pre ++ (p, P, Mem.MAGIC_FREE) :: (m, S, Mem.MAGIC_USED) :: post)
                (pre ++ (p, P + 16 + S, Mem.MAGIC_FREE) :: post)
| free_with_next pre S x X post :
    last_not_free pre ->
    free_step m (pre ++ (m, S, Mem.MAGIC_USED) :: (x, X, Mem.MAGIC_FREE) :: post)
                (pre ++ (m, S + 16 + X, Mem.MAGIC_FREE) :: post)
| free_with_both pre p P S x X post :
    free_step m (pre ++ (p, P, Mem.MAGIC_FREE) :: (m, S, Mem.MAGIC_USED)
                     :: (x, X, Mem.MAGIC_FREE) :: post)
                (pre ++ (p, P + 16 + S + 16 + X, Mem.MAGIC_FREE) :: post).

(** Fuel that lets every loop of the allocator finish: a region of [n]
    bytes holds at most [n / 32] free blocks. *)
Definition enough_fuel (st : Mem.state) : nat :=
  Z.to_nat ((Mem.endMem st - Mem.mcb st) / 32) + 2.

(** The states the allocator reaches from [memInit(base, size)] when the
    client keeps to the interface: it asks for [0 <= sz <= INT_MAX - 3]
    bytes, frees only what it was given and has not freed yet, and writes
    only into what it holds.  The list holds the live payload pointers. *)
Inductive reach (base size : Z) : Mem.state -> list Z -> Prop :=
| reach_init fuel m0 st :
    Mem.memInit fuel m0 base size = Ok st ->
    reach base size st []
| reach_alloc st live fuel sz p st' :
    reach base size st live ->
    0 <= sz <= INT_MAX - 3 ->
    Mem.memAlloc fuel st sz = Ok (p, st') -> p <> NULL ->
    reach base size st' (p :: live)
| reach_alloc_fail st live fuel sz st' :
    reach base size st live ->
    Mem.memAlloc fuel st sz = Ok (NULL, st') ->
    reach base size st' live
| reach_free st live fuel p st' :
    reach base size st live -> In p live ->
    Mem.memFree fuel st p = Ok st' ->
    reach base size st' (rem p live)
| reach_free_null st live fuel st' :
    reach base size st live ->
    Mem.memFree fuel st NULL = Ok st' ->
    reach base size st' live
| reach_write st live p x v :
    reach base size st live -> In p live ->
    p <= x < p + Mem.get_size st (p - 16) ->
    reach base size (Mem.store st x v) live.

(** The blocks in use are the live allocations. *)
Definition live_used (live : list Z) (bs : list blk) : Prop :=
  NoDup live /\ forall p, In p live <-> exists S, In (p - 16, S, Mem.MAGIC_USED) bs.

(** * Abstract view of the process manager *)

(** [qseg mm p q e]: in the store [mm], following the [next] links from [p]
    visits the PCBs [q] and ends with the pointer [e]. *)
Fixpoint qseg (mm : memory) (p : Z) (q : list Z) (e : Z) : Prop :=
  match q with
  | [] => p = e
  | a :: r => p = a /\ a <> NULL /\ qseg mm (mm (a + Proc.OFF_next)) r e
  end.

(** The ready queue holds the PCBs [q], and [readyQEnd] is its last one, or
    null when it is empty (invariant 3 of the process manager). *)
Definition queue_ok (st : Proc.state) (q : list Z) : Prop :=
  qseg (Mem.mem (Proc.heap st)) (Proc.readyQ st) q NULL /\
  Proc.readyQEnd st = last q NULL.

(** PCBs do not overlap. *)
Definition psep (l : list Z) : Prop :=
  forall a b, In a l -> In b l -> a = b \/ a + Proc.SZ_PCB <= b \/ b + Proc.SZ_PCB <= a.

(** The running process, if there is one. *)
Definition running_list (st : Proc.state) : list Z :=
  if Proc.runningProc st =? NULL then [] else [Proc.runningProc st].

(** A PCB is the payload of a block in use that has room for it. *)
Definition pcb_block (bs : list blk) (p : Z) : Prop :=
  exists S, In (p - 16, S, Mem.MAGIC_USED) bs /\ Proc.SZ_PCB <= S.

(** The state of the process manager over a heap with the chain [bs] and
    the free list [fl]: the ready queue holds the PCBs [q] with [readyQEnd]
    its last one, the running PCB and the queued ones are distinct
    allocations, and the [next] of the running PCB is null. *)
Record PInv (st : Proc.state) (bs : list blk) (fl : list Z) (q : list Z) : Prop :=
  mkPInv {
  pinv_rep : Rep (Proc.heap st) bs fl;
  pinv_queue : queue_ok st q;
  pinv_nodup : NoDup (running_list st ++ q);
  pinv_pcb : forall p, In p (running_list st ++ q) -> pcb_block bs p;
  pinv_next : Proc.runningProc st <> NULL ->
              Proc.get_next st (Proc.runningProc st) = NULL
}.

(** What a process holds of the heap: its PCB and, unless it is the first
    process, its stack. *)
Definition owned (st : Proc.state) (p : Z) : list Z :=
  p :: (if Proc.get_stackAddr st p =? NULL then [] else [Proc.get_stackAddr st p]).

(** [PInv] together with the stacks: the stack of a process is a block in
    use of at least [STACKSZ] bytes, and no two processes share a block. *)
Record PInvS (st : Proc.state) (bs : list blk) (fl : list Z) (q : list Z) : Prop :=
  mkPInvS {
  pinvs_inv : PInv st bs fl q;
  pinvs_stack : forall p, In p (running_list st ++ q) ->
      Proc.get_stackAddr st p = NULL \/
      exists T, In (Proc.get_stackAddr st p - 16, T, Mem.MAGIC_USED) bs /\
                Proc.STACKSZ <= T;
  pinvs_apart : NoDup (flat_map (owned st) (running_list st ++ q))
}.

(** The stack pointer of a process: the machine register for the running
    one, the saved one for the others. *)
Definition cur_sp (st : Proc.state) (p : Z) : Z :=
  if p =? Proc.runningProc st then Proc.rsp st else Proc.get_stackPtr st p.

(** Calls of [procYield], one after the other, each by the process that
    runs then.  Between two calls that process runs its own code and moves
    the machine stack pointer: [sps] gives, call by call, the value the
    scheduler reads from [rsp]. *)
Fixpoint yields (sps : list Z) (st : Proc.state) : res Proc.state :=
  match sps with
  | [] => Ok st
  | sp :: r => st <- Proc.procYield (Proc.set_rsp st sp) ;; yields r st
  end.

(** ** The run of proctest.c

    [main] hands the array [space] of 1 MiB to the allocator and calls
    [procInit]; the address of the array and the stack pointer at entry are
    fixed here to concrete values.  The start addresses of the created
    processes are opaque numbers. *)
Definition space : Z := 4096.
Definition SPACE_SIZE : Z := 1 * 1024 * 1024.
Definition rsp_main : Z := 77777.
(** Fuel that lets every loop finish on a region of this size. *)
Definition run_fuel : nat := Z.to_nat (SPACE_SIZE / 32) + 2.

Definition boot : res Proc.state :=
  h <- Mem.memInit run_fuel (fun _ => 0) space SPACE_SIZE ;;
  Proc.procInit run_fuel (Proc.mkState h 0 0 0 0 rsp_main).


(** [procInit]; [procCreate]; [procCreate]: the process with PID 2 runs,
    the processes with PID 0 and PID 1 are queued. *)
Definition run_created : res Proc.state :=
  st <- boot ;;
  ' (_, st) <- Proc.procCreate run_fuel st 11 ;;
  ' (_, st) <- Proc.procCreate run_fuel st 22 ;;
  Ok st.

(** ... and then the running process deletes itself. *)
Definition run_self_delete : res Proc.state :=
  st <- run_created ;;
  ' (_, st) <- Proc.procDelete run_fuel st 2 ;;
  Ok st.

(** [procInit]; [procDelete(0)]: the only process deletes itself. *)
Definition run_lone_self_delete : res Proc.state :=
  st <- boot ;;
  ' (_, st) <- Proc.procDelete run_fuel st 0 ;;
  Ok st.

(** The pointers that allocations of [sizes] return when each one is cut
    from the front of one free block whose payload starts at [a]. *)
Fixpoint bump (a : Z) (sizes : list Z) : list Z :=
  match sizes with
  | [] => []
  | s :: r => a :: bump (a + Mem.adjust s + 16) r
  end.

Fixpoint bump_blocks (a : Z) (sizes : list Z) : list blk :=
  match sizes with
  | [] => []
  | s :: r => (a - 16, Mem.adjust s, Mem.MAGIC_USED) :: bump_blocks (a + Mem.adjust s + 16) r
  end.

Fixpoint bump_total (sizes : list Z) : Z :=
  match sizes with
  | [] => 0
  | s :: r => Mem.adjust s + 16 + bump_total r
  end.

(** The pointers in the array of the third block are the live
    allocations, each in one entry. *)
Definition ptrs_live (ptr : Z -> Z) (live : list Z) : Prop :=
  (forall p, In p live <-> p <> 0 /\ exists i, ptr i = p) /\
  (forall i j, ptr i = ptr j -> ptr i <> 0 -> i = j).

(** The ring of the processes, the running one first, after one switch. *)
Definition rot1 (l : list Z) : list Z :=
  match l with
  | [] => []
  | x :: r => r ++ [x]
  end.

(** Every block starts a multiple of 4 bytes from the base of the region
    and holds a multiple of 4 bytes. *)
Definition aligned (base : Z) (bs : list blk) : Prop :=
  forall b, In b bs -> (4 | b_addr b - base) /\ (4 | b_size b).

(** * Properties *)

(** ** Machine arithmetic *)

Lemma wrap32_id (x : Z) : in_int x -> wrap32 x = x.
Proof.
  unfold in_int, wrap32, INT_MIN, INT_MAX. intros H.
  rewrite Z.mod_small by lia. lia.
Qed.

Lemma u64_id (x : Z) : 0 <= x < 18446744073709551616 -> u64 x = x.
Proof. unfold u64. intros H. apply Z.mod_small. exact H. Qed.

Lemma u64_neg (x : Z) : -18446744073709551616 <= x < 0 -> u64 x = x + 18446744073709551616.
Proof.
  unfold u64. intros H.
  symmetry. apply Z.mod_unique with (q := -1); lia.
Qed.

Lemma wrap32_range (x : Z) : in_int (wrap32 x).
Proof.
  unfold in_int, wrap32, INT_MIN, INT_MAX.
  pose proof (Z.mod_pos_bound (x + 2147483648) 4294967296). lia.
Qed.

(** Clearing the two low bits of a [size_t]. *)
Lemma land_mask4 (x : Z) :
  0 <= x < 18446744073709551616 ->
  Z.land x (u64 (Z.lnot 3)) = 4 * (x / 4).
Proof.
  intros H.
  replace (u64 (Z.lnot 3)) with (Z.land (Z.lnot 3) (Z.ones 64)) by reflexivity.
  rewrite (Z.land_comm (Z.lnot 3)), Z.land_assoc.
  rewrite (Z.land_ones x 64) by lia.
  change (2 ^ 64) with 18446744073709551616.
  rewrite Z.mod_small by lia.
  change 3 with (Z.ones 2).
  change (Z.land x (Z.lnot (Z.ones 2))) with (Z.ldiff x (Z.ones 2)).
  rewrite Z.ldiff_ones_r by lia.
  rewrite Z.shiftr_div_pow2, Z.shiftl_mul_pow2 by lia.
  change (2 ^ 2) with 4. lia.
Qed.

Lemma adjust_spec_bounds (size : Z) :
  16 <= adjust_spec size /\ size <= adjust_spec size /\
  adjust_spec size <= Z.max size 16 + 3 /\ adjust_spec size mod 4 = 0.
Proof.
  unfold adjust_spec, Mem.SZ_LINKS.
  pose proof (Z.div_mod (Z.max size 16 + 3) 4 ltac:(lia)) as E.
  pose proof (Z.mod_pos_bound (Z.max size 16 + 3) 4 ltac:(lia)) as B.
  split; [lia|]. split; [lia|]. split; [lia|].
  rewrite Z.mul_comm. apply Z.mod_mul. lia.
Qed.

(** On the requests whose rounded size is an [int], the code computes the
    adjusted request of the specification. *)
Lemma adjust_in_range (size : Z) :
  0 <= size <= INT_MAX - 3 -> Mem.adjust size = adjust_spec size.
Proof.
  unfold INT_MAX. intros H. unfold Mem.adjust, adjust_spec, Mem.SZ_LINKS, Mem.SZ_INT.
  rewrite (u64_id size) by lia.
  assert (E : (if size <? 16 then 16 else size) = Z.max size 16).
  { destruct (Z.ltb_spec size 16); lia. }
  rewrite E.
  rewrite (u64_id (Z.max size 16)) by lia.
  replace (Z.max size 16 + 4 - 1) with (Z.max size 16 + 3) by lia.
  rewrite (u64_id (Z.max size 16 + 3)) by lia.
  replace (4 - 1) with 3 by lia.
  rewrite land_mask4 by lia.
  apply wrap32_id. unfold in_int, INT_MIN, INT_MAX.
  pose proof (Z.div_mod (Z.max size 16 + 3) 4 ltac:(lia)).
  pose proof (Z.mod_pos_bound (Z.max size 16 + 3) 4 ltac:(lia)).
  lia.
Qed.

Lemma adjust_range (size : Z) : in_int (Mem.adjust size).
Proof. unfold Mem.adjust. apply wrap32_range. Qed.

(** A negative request is not raised: its conversion to [size_t] is huge. *)
Lemma adjust_negative (size : Z) :
  INT_MIN <= size < 0 -> Mem.adjust size <= 0.
Proof.
  unfold INT_MIN. intros H. unfold Mem.adjust, Mem.SZ_LINKS, Mem.SZ_INT.
  rewrite (u64_neg size) by lia.
  destruct (Z.ltb_spec (size + 18446744073709551616) 16); [lia|].
  rewrite (u64_neg size) by lia.
  replace (size + 18446744073709551616 + 4 - 1) with (size + 3 + 18446744073709551616) by lia.
  replace (4 - 1) with 3 by lia.
  destruct (Z_lt_ge_dec (size + 3) 0) as [Hn | Hp].
  - rewrite (u64_id (size + 3 + 18446744073709551616)) by lia.
    rewrite land_mask4 by lia.
    pose proof (Z.div_mod (size + 3 + 18446744073709551616) 4 ltac:(lia)).
    pose proof (Z.mod_pos_bound (size + 3 + 18446744073709551616) 4 ltac:(lia)).
    set (q := (size + 3 + 18446744073709551616) / 4) in *.
    unfold wrap32.
    replace (4 * q + 2147483648) with ((4 * q - 18446744073709551616 + 2147483648) + 4294967296 * 4294967296) by lia.
    rewrite Z.add_mod by lia. rewrite Z.mod_mul by lia. rewrite Z.add_0_r, Z.mod_mod by lia.
    rewrite Z.mod_small by lia. lia.
  - assert (E : u64 (size + 3 + 18446744073709551616) = size + 3).
    { unfold u64. symmetry. apply Z.mod_unique with (q := 1); lia. }
    rewrite E. rewrite land_mask4 by lia.
    replace ((size + 3) / 4) with 0 by (symmetry; apply Z.div_small; lia).
    reflexivity.
Qed.

(** ** The store *)

Lemma upd_same (m : memory) (a v : Z) : upd m a v a = v.
Proof. unfold upd. rewrite Z.eqb_refl. reflexivity. Qed.

Lemma upd_other (m : memory) (a v x : Z) : x <> a -> upd m a v x = m x.
Proof. unfold upd. intros H. destruct (Z.eqb_spec x a); [contradiction | reflexivity]. Qed.

Lemma upd_eq (m : memory) (a v x : Z) : x = a -> upd m a v x = v.
Proof. intros ->. apply upd_same. Qed.

Lemma off_smaller (a : Z) : a + 16 + 8 = a + 24.
Proof. lia. Qed.

(** Field accesses as accesses of the store at [header + offset]. *)
Ltac cells :=
  unfold Mem.get_prev, Mem.get_magic, Mem.get_size, Mem.get_larger, Mem.get_smaller,
    Mem.set_prev, Mem.set_magic, Mem.set_size, Mem.set_larger, Mem.set_smaller,
    Mem.store, Mem.set_mem, Mem.set_freelist, Mem.mcbAddr,
    Mem.MIN_FREE_BLOCK, Mem.SZ_MCB, Mem.SZ_LINKS, Mem.OFF_prev, Mem.OFF_magic, Mem.OFF_size,
    Mem.OFF_larger, Mem.OFF_smaller in *;
  cbn [Mem.mem Mem.mcb Mem.endMem Mem.freelist] in *;
  rewrite ?Z.add_0_r, ?off_smaller in *.

(** Decide every address comparison of a chain of updates by arithmetic. *)
Ltac upd_tac :=
  repeat match goal with
         | |- context [upd ?m ?a ?v ?x] =>
             first [ rewrite (upd_other m a v x) by lia
                   | rewrite (upd_eq m a v x) by lia ]
         end;
  try reflexivity; try lia; try (f_equal; lia).

(** Simplify the reads of updated stores whose addresses arithmetic decides. *)
Ltac upd_simpl :=
  repeat match goal with
         | |- context [upd ?m ?a ?v ?x] =>
             first [ rewrite (upd_other m a v x) by lia
                   | rewrite (upd_eq m a v x) by lia ]
         end.

Ltac split_all := repeat match goal with |- _ /\ _ => split end.

(** ** Lists of free headers *)

Lemma last_cons {A : Type} (a : A) (l : list A) (d : A) :
  last (a :: l) d = last l a.
Proof.
  revert a d. induction l as [| b l IH]; intros a d; [reflexivity|].
  change (last (a :: b :: l) d) with (last (b :: l) d).
  rewrite (IH b d), (IH b a). reflexivity.
Qed.

Lemma exists_last_or_nil {A : Type} (l : list A) :
  l = [] \/ exists l' a, l = l' ++ [a].
Proof.
  destruct l as [| b r]; [left; reflexivity | right].
  destruct (@exists_last A (b :: r) ltac:(discriminate)) as (l' & a & E).
  exists l', a. exact E.
Qed.

Lemma rem_app_mid (m : Z) (l1 l2 : list Z) :
  ~ In m l1 -> ~ In m l2 -> rem m (l1 ++ m :: l2) = l1 ++ l2.
Proof.
  intros H1 H2. unfold rem. rewrite remove_app. simpl.
  destruct (Z.eq_dec m m) as [_ | N]; [| contradiction].
  rewrite !notin_remove by assumption. reflexivity.
Qed.

Lemma rem_head (m : Z) (l : list Z) : ~ In m l -> rem m (m :: l) = l.
Proof. intros H. apply (rem_app_mid m [] l); simpl; tauto. Qed.

Lemma rem_notin (m : Z) (l : list Z) : ~ In m l -> rem m l = l.
Proof. apply notin_remove. Qed.

Lemma in_rem (m a : Z) (l : list Z) : In a (rem m l) <-> In a l /\ a <> m.
Proof.
  unfold rem. split.
  - apply in_remove.
  - intros [H N]. apply in_in_remove; assumption.
Qed.

Lemma NoDup_rem (m : Z) (l : list Z) : NoDup l -> NoDup (rem m l).
Proof.
  unfold rem. induction 1 as [| a l Hn Hd IH]; simpl; [constructor|].
  destruct (Z.eq_dec m a); [assumption|].
  constructor; [| assumption].
  intros Hin. apply in_remove in Hin. tauto.
Qed.

Lemma in_ins (sz : Z -> Z) (m a : Z) (l : list Z) :
  In a (ins sz m l) <-> a = m \/ In a l.
Proof.
  induction l as [| s r IH]; simpl.
  - intuition.
  - destruct (sz m <? sz s); simpl; rewrite ?IH; intuition.
Qed.

Lemma NoDup_ins (sz : Z -> Z) (m : Z) (l : list Z) :
  NoDup l -> ~ In m l -> NoDup (ins sz m l).
Proof.
  induction 1 as [| s r Hn Hd IH]; intros Hm; simpl.
  - constructor; [intros [] | constructor].
  - destruct (sz m <? sz s).
    + constructor.
      * rewrite in_ins. simpl in Hm. intuition.
      * apply IH. simpl in Hm. tauto.
    + constructor; [exact Hm | constructor; assumption].
Qed.

Lemma length_ins (sz : Z -> Z) (m : Z) (l : list Z) :
  length (ins sz m l) = S (length l).
Proof.
  induction l as [| s r IH]; simpl; [reflexivity|].
  destruct (sz m <? sz s); simpl; [rewrite IH|]; reflexivity.
Qed.

Lemma length_rem (m : Z) (l : list Z) : (length (rem m l) <= length l)%nat.
Proof. apply remove_length_le. Qed.

Lemma desc_ext (sz sz' : Z -> Z) (l : list Z) :
  (forall a, In a l -> sz' a = sz a) -> desc sz l -> desc sz' l.
Proof.
  induction l as [| a r IH]; simpl; intros E H; [exact I|].
  destruct H as [H1 H2]. split.
  - intros b Hb. rewrite (E a), (E b) by auto. auto.
  - apply IH; auto.
Qed.

Lemma desc_rem (sz : Z -> Z) (m : Z) (l : list Z) : desc sz l -> desc sz (rem m l).
Proof.
  unfold rem. induction l as [| a r IH]; simpl; intros H; [exact I|].
  destruct H as [H1 H2]. destruct (Z.eq_dec m a); [auto|].
  simpl. split; [| auto].
  intros b Hb. apply in_remove in Hb. apply H1. tauto.
Qed.

Lemma desc_ins (sz : Z -> Z) (m : Z) (l : list Z) : desc sz l -> desc sz (ins sz m l).
Proof.
  induction l as [| s r IH]; simpl; intros H.
  - split; [intros b [] | exact I].
  - destruct H as [H1 H2]. destruct (Z.ltb_spec (sz m) (sz s)); simpl.
    + split; [| auto].
      intros b Hb. apply in_ins in Hb. destruct Hb as [-> | Hb]; [lia | auto].
    + split; [| split; assumption].
      intros b [<- | Hb]; [lia|]. specialize (H1 b Hb). lia.
Qed.

(** The head of a non-increasing list is a largest element. *)
Lemma desc_head_max (sz : Z -> Z) (a : Z) (l : list Z) (b : Z) :
  desc sz (a :: l) -> In b (a :: l) -> sz b <= sz a.
Proof.
  simpl. intros [H _] [<- | Hb]; [lia | auto].
Qed.

(** A header at least as large as all the others goes to the front. *)
Lemma ins_head (sz : Z -> Z) (m : Z) (l : list Z) :
  (forall b, In b l -> sz b <= sz m) -> ins sz m l = m :: l.
Proof.
  destruct l as [| s r]; simpl; intros H; [reflexivity|].
  destruct (Z.ltb_spec (sz m) (sz s)); [| reflexivity].
  specialize (H s (or_introl eq_refl)). lia.
Qed.

Lemma ins_ext (sz sz' : Z -> Z) (m : Z) (l : list Z) :
  sz' m = sz m -> (forall a, In a l -> sz' a = sz a) -> ins sz' m l = ins sz m l.
Proof.
  intros Em. induction l as [| s r IH]; simpl; intros E; [reflexivity|].
  rewrite Em, (E s) by auto. rewrite IH by auto. reflexivity.
Qed.

Lemma rem_ins_same (sz : Z -> Z) (m : Z) (l : list Z) :
  ~ In m l -> rem m (ins sz m l) = l.
Proof.
  unfold rem. induction l as [| s r IH]; simpl; intros H.
  - destruct (Z.eq_dec m m); [reflexivity | contradiction].
  - destruct (sz m <? sz s); simpl.
    + destruct (Z.eq_dec m s); [subst; tauto|]. rewrite IH by tauto. reflexivity.
    + destruct (Z.eq_dec m m); [| contradiction].
      destruct (Z.eq_dec m s); [subst; tauto|].
      rewrite notin_remove by tauto. reflexivity.
Qed.


(** ** The free list in the store *)

Lemma lseg_app (mm : memory) (l1 l2 : list Z) (L p q : Z) :
  lseg mm L p (l1 ++ l2) q <->
  exists x, lseg mm L p l1 x /\ lseg mm (last l1 L) x l2 q.
Proof.
  revert L p. induction l1 as [| a r IH]; intros L p.
  - simpl. split.
    + intros H. exists p. auto.
    + intros [x [-> H]]. exact H.
  - rewrite last_cons. simpl. rewrite IH. split.
    + intros (E & N & HL & x & H1 & H2). exists x. auto.
    + intros (x & (E & N & HL & H1) & H2). repeat split; auto. exists x. auto.
Qed.

Lemma lseg_frame (mm mm' : memory) (l : list Z) (L p q : Z) :
  (forall a, In a l -> mm' (a + 16) = mm (a + 16) /\ mm' (a + 24) = mm (a + 24)) ->
  lseg mm L p l q -> lseg mm' L p l q.
Proof.
  revert L p. induction l as [| a r IH]; intros L p E; simpl; [auto|].
  intros (Ep & N & HL & H).
  destruct (E a (or_introl eq_refl)) as [E1 E2].
  rewrite E1, E2. repeat split; auto.
  apply IH; auto. intros b Hb. apply E. right. exact Hb.
Qed.

Lemma lseg_nonnull (mm : memory) (l : list Z) (L p q : Z) :
  lseg mm L p l q -> forall a, In a l -> a <> NULL.
Proof.
  revert L p. induction l as [| a r IH]; simpl; intros L p H b Hb; [contradiction|].
  destruct H as (_ & N & _ & H). destruct Hb as [<- | Hb]; [exact N | eauto].
Qed.

Lemma lseg_head (mm : memory) (l : list Z) (L p : Z) :
  lseg mm L p l NULL -> p = hd NULL l.
Proof. destruct l; simpl; tauto. Qed.

Lemma frameL_refl (L : list Z) (mm : memory) : frameL L mm mm.
Proof. intros x _. reflexivity. Qed.

Lemma frameL_trans (L : list Z) (m1 m2 m3 : memory) :
  frameL L m1 m2 -> frameL L m2 m3 -> frameL L m1 m3.
Proof. intros H1 H2 x Hx. rewrite H2, H1 by assumption. reflexivity. Qed.

Lemma frameL_incl (L L' : list Z) (m1 m2 : memory) :
  incl L L' -> frameL L m1 m2 -> frameL L' m1 m2.
Proof. intros Hi H x Hx. apply H. intros a Ha. apply Hx, Hi, Ha. Qed.

Section FreeListOps.
Import Mem.

Lemma insertFree_scan_spec (st : state) (m : Z) (fl : list Z) :
  forall (fuel : nat) (L p : Z),
    lseg (mem st) L p fl NULL ->
    (length fl < fuel)%nat ->
    exists fl1 fl2,
      fl = fl1 ++ fl2 /\
      insertFree_scan fuel st m L p = Ok (last fl1 L, hd NULL fl2) /\
      ins (get_size st) m fl = fl1 ++ m :: fl2.
Proof.
  induction fl as [| a r IH]; intros fuel L p H Hf.
  - simpl in H. subst p. exists [], []. destruct fuel as [| fuel]; [simpl in Hf; lia|].
    simpl. auto.
  - simpl in H. destruct H as (-> & N & HL & H).
    destruct fuel as [| fuel]; [simpl in Hf; lia|].
    simpl. destruct (Z.eqb_spec a NULL) as [E | _]; [contradiction|]. simpl.
    destruct (get_size st m <? get_size st a) eqn:Hlt.
    + destruct (IH fuel a (mem st (a + 24)) H ltac:(simpl in Hf; lia))
        as (fl1 & fl2 & E & Hs & Hi).
      exists (a :: fl1), fl2. rewrite last_cons. repeat split.
      * simpl. rewrite E. reflexivity.
      * cells. exact Hs.
      * simpl. rewrite Hi. reflexivity.
    + exists [], (a :: r). simpl. auto.
Qed.

Lemma insertFree_spec (fuel : nat) (st : state) (m : Z) (fl : list Z) :
  lseg (mem st) NULL (freelist st) fl NULL ->
  NoDup fl -> sepl (m :: fl) -> ~ In m fl -> m <> NULL ->
  (length fl < fuel)%nat ->
  exists st',
    insertFree fuel st m = Ok st' /\
    lseg (mem st') NULL (freelist st') (ins (get_size st) m fl) NULL /\
    frameL (m :: fl) (mem st) (mem st') /\
    mcb st' = mcb st /\ endMem st' = endMem st.
Proof.
  intros Hl Hnd Hsep Hm Hm0 Hf.
  destruct (insertFree_scan_spec st m fl fuel NULL (freelist st) Hl Hf)
    as (fl1 & fl2 & E & Hs & Hi).
  unfold insertFree. rewrite Hs. simpl bind. cbv beta iota.
  eexists. split; [reflexivity|]. rewrite Hi. subst fl.
  apply lseg_app in Hl. destruct Hl as (x & H1 & H2).
  assert (Hfar : forall a, In a (fl1 ++ fl2) -> far a m).
  { intros a Ha. destruct (Hsep a m (or_intror Ha) (or_introl eq_refl)) as [-> | F];
      [contradiction | exact F]. }
  assert (Hx : x = hd NULL fl2) by (eapply lseg_head; exact H2).
  (* the second half: m, then fl2 *)
  assert (Hfar12 : forall a b, In a fl1 -> In b fl2 -> far a b).
  { intros a b Ha Hb.
    destruct (Hsep a b) as [-> | F]; [right; apply in_or_app; auto ..| | exact F].
    exfalso. revert Ha Hb. clear - Hnd.
    induction fl1 as [| c r IH]; simpl; [tauto|].
    inversion Hnd as [| ? ? Hc Hr]; subst.
    intros [-> | Ha] Hb; [apply Hc, in_or_app; auto | eauto]. }
  destruct fl1 as [| a0 r0] eqn:Efl1.
  - (* insertion at the head *)
    simpl in H1. subst x. simpl last in *. simpl app in *.
    rewrite Z.eqb_refl. simpl negb. cbv iota.
    destruct fl2 as [| s r2].
    + simpl in H2. simpl hd. rewrite Z.eqb_refl. simpl.
      cells. unfold NULL in *. split_all; auto; try upd_tac.
      intros y Hy. specialize (Hy m (or_introl eq_refl)). upd_tac.
    + simpl in H2. destruct H2 as (Ef & Ns & HLs & H2). simpl hd.
      destruct (Z.eqb_spec s NULL) as [? | _]; [contradiction|]. simpl negb. cbv iota.
      pose proof (Hfar s (or_introl eq_refl)) as Fs. unfold far in Fs.
      simpl. cells. split_all; auto; try upd_tac.
      * eapply lseg_frame; [| exact H2].
        intros a Ha. pose proof (Hfar a (or_intror Ha)) as Fa. unfold far in Fa.
        assert (far a s).
        { destruct (Hsep a s) as [-> | F]; [simpl; auto .. | | exact F].
          inversion Hnd; subst. contradiction. }
        unfold far in *. split; upd_tac.
      * intros y Hy. pose proof (Hy m (or_introl eq_refl)).
        pose proof (Hy s (or_intror (or_introl eq_refl))). upd_tac.
  - (* insertion after l = last fl1 *)
    rewrite <- Efl1 in *.
    assert (Hne : fl1 <> []) by (rewrite Efl1; discriminate).
    destruct (exists_last Hne) as (l1 & l & El). rewrite El in *.
    rewrite last_last in *.
    apply lseg_app in H1. destruct H1 as (y & H1a & H1b).
    simpl in H1b. destruct H1b as (-> & Nl & HLl & Hlx).
    destruct (Z.eqb_spec l NULL) as [? | _]; [contradiction|]. simpl negb. cbv iota.
    assert (Fl : far l m) by (apply Hfar, in_or_app; left; apply in_or_app; right; simpl; auto).
    assert (Hl1 : forall a, In a l1 -> far a l).
    { intros a Ha. destruct (Hsep a l) as [-> | F];
        [right; apply in_or_app; left; apply in_or_app; simpl; auto ..| | exact F].
      exfalso. pose proof Hnd as Hnd'.
      rewrite <- app_assoc in Hnd'. apply NoDup_remove_2 in Hnd'.
      apply Hnd', in_or_app. auto. }
    assert (Hl1m : forall a, In a l1 -> far a m).
    { intros a Ha. apply Hfar, in_or_app. left. apply in_or_app. auto. }
    unfold far in Fl.
    destruct fl2 as [| s r2].
    + simpl in H2. simpl hd. rewrite Z.eqb_refl. simpl negb. cbv iota.
      simpl. cells. split_all; auto.
      * apply lseg_app. exists m. split.
        -- apply lseg_app. exists l. split.
           ++ eapply lseg_frame; [| exact H1a].
              intros a Ha. pose proof (Hl1 a Ha) as F1. pose proof (Hl1m a Ha) as F2.
              unfold far in *. split; upd_tac.
           ++ simpl. split_all; auto; upd_tac.
        -- rewrite last_last. simpl. unfold NULL. split_all; auto; upd_tac.
      * intros z Hz. pose proof (Hz m (or_introl eq_refl)).
        pose proof (Hz l ltac:(right; apply in_or_app; left; apply in_or_app; simpl; auto)).
        upd_tac.
    + simpl in H2. destruct H2 as (Ef & Ns & HLs & H2). simpl hd.
      destruct (Z.eqb_spec s NULL) as [? | _]; [contradiction|]. simpl negb. cbv iota.
      pose proof (Hfar s ltac:(apply in_or_app; simpl; auto)) as Fs.
      assert (Fls : far l s).
      { apply Hfar12; [apply in_or_app|]; simpl; auto. }
      unfold far in Fs, Fls.
      simpl. cells. split_all; auto.
      * apply lseg_app. exists m. split.
        -- apply lseg_app. exists l. split.
           ++ eapply lseg_frame; [| exact H1a].
              intros a Ha. pose proof (Hl1 a Ha) as F1. pose proof (Hl1m a Ha) as F2.
              assert (F3 : far a s) by (apply Hfar12; [apply in_or_app|]; simpl; auto).
              unfold far in *. split; upd_tac.
           ++ simpl. split_all; auto; upd_tac.
        -- rewrite last_last. simpl. split_all; auto; try upd_tac.
           eapply lseg_frame; [| exact H2].
           intros a Ha.
           pose proof (Hfar a ltac:(apply in_or_app; simpl; auto)) as F1.
           assert (F2 : far l a) by (apply Hfar12; [apply in_or_app|]; simpl; auto).
           assert (F3 : far a s).
           { destruct (Hsep a s) as [-> | F];
               [right; apply in_or_app; simpl; auto ..| | exact F].
             apply NoDup_app_remove_l in Hnd. inversion Hnd; subst. contradiction. }
           unfold far in *. split; upd_tac.
      * intros z Hz. pose proof (Hz m (or_introl eq_refl)).
        pose proof (Hz l ltac:(right; apply in_or_app; left; apply in_or_app; simpl; auto)).
        pose proof (Hz s ltac:(right; apply in_or_app; simpl; auto)).
        upd_tac.
Qed.

Lemma NoDup_app_far (l1 l2 : list Z) :
  NoDup (l1 ++ l2) -> sepl (l1 ++ l2) ->
  forall a b, In a l1 -> In b l2 -> far a b.
Proof.
  intros Hnd Hsep a b Ha Hb.
  destruct (Hsep a b) as [-> | F]; [apply in_or_app; auto ..| | exact F].
  exfalso. revert Ha Hb. clear - Hnd.
  induction l1 as [| c r IH]; simpl; [tauto|].
  inversion Hnd as [| ? ? Hc Hr]; subst.
  intros [-> | Ha] Hb; [apply Hc, in_or_app; auto | eauto].
Qed.

Lemma sepl_incl (l l' : list Z) : incl l l' -> sepl l' -> sepl l.
Proof. intros Hi H a b Ha Hb. apply H; apply Hi; assumption. Qed.

Lemma removeFree_spec (st : state) (m : Z) (fl : list Z) :
  lseg (mem st) NULL (freelist st) fl NULL ->
  NoDup fl -> sepl fl -> In m fl ->
  lseg (mem (removeFree st m)) NULL (freelist (removeFree st m)) (rem m fl) NULL /\
  frameL fl (mem st) (mem (removeFree st m)) /\
  mem (removeFree st m) (m + 16) = NULL /\
  mem (removeFree st m) (m + 24) = NULL /\
  mcb (removeFree st m) = mcb st /\ endMem (removeFree st m) = endMem st.
Proof.
  intros Hl Hnd Hsep Hm.
  destruct (in_split _ _ Hm) as (fl1 & fl2 & ->).
  pose proof (NoDup_remove_2 _ _ _ Hnd) as Hnm.
  rewrite rem_app_mid by (intros ?; apply Hnm, in_or_app; auto).
  apply lseg_app in Hl. destruct Hl as (x & H1 & H2).
  simpl in H2. destruct H2 as (-> & Nm & HLm & H2).
  pose proof (lseg_head _ _ _ _ H2) as Hs.
  assert (F1m : forall a, In a fl1 -> far a m).
  { intros a Ha. eapply (NoDup_app_far fl1 (m :: fl2)); simpl; eauto. }
  assert (F2m : forall a, In a fl2 -> far a m).
  { intros a Ha. destruct (Hsep a m) as [-> | F];
      [apply in_or_app; simpl; auto ..| | exact F].
    exfalso. apply Hnm, in_or_app. auto. }
  assert (F12 : forall a b, In a fl1 -> In b fl2 -> far a b).
  { intros a b Ha Hb. eapply (NoDup_app_far fl1 (m :: fl2)); simpl; eauto. }
  unfold removeFree.
  assert (Hmn : (NULL =? NULL) = true) by reflexivity.
  destruct fl1 as [| a0 r0] eqn:Efl1.
  - (* m is the head *)
    simpl in H1. simpl last in HLm. simpl app in *.
    destruct fl2 as [| s r2].
    + simpl in H2.
      repeat (first [progress cells | progress cbn [negb] | rewrite H2 | rewrite HLm | rewrite Hmn | progress cbv iota]).
      unfold NULL in *. cbn [lseg app]. split_all; auto; try upd_tac.
      intros y Hy. pose proof (Hy m (or_introl eq_refl)). upd_tac.
    + simpl in H2. destruct H2 as (Es & Ns & HLs & H2).
      assert (Hsn : (s =? NULL) = false) by (apply Z.eqb_neq; auto).
      pose proof (F2m s (or_introl eq_refl)) as Fs. unfold far in Fs.
      repeat (first [progress cells | progress cbn [negb] | rewrite Es | rewrite HLm | rewrite Hmn | rewrite Hsn
                                       | rewrite upd_other by lia | progress cbv iota]).
      unfold NULL in *. cbn [lseg app]. split_all; auto; try upd_tac.
      * eapply lseg_frame; [| exact H2].
        intros a Ha. pose proof (F2m a (or_intror Ha)) as Fa.
        assert (far a s).
        { destruct (Hsep a s) as [-> | F]; [simpl; auto ..| | exact F].
          inversion Hnd as [| ? ? ? Hnd2]; subst. inversion Hnd2; subst. contradiction. }
        unfold far in *. split; upd_tac.
      * intros y Hy. pose proof (Hy m (or_introl eq_refl)).
        pose proof (Hy s (or_intror (or_introl eq_refl))). upd_tac.
  - (* m follows l = last fl1 *)
    rewrite <- Efl1 in *.
    assert (Hne : fl1 <> []) by (rewrite Efl1; discriminate).
    destruct (exists_last Hne) as (l1 & l & El). rewrite El in *.
    rewrite last_last in *.
    apply lseg_app in H1. destruct H1 as (y & H1a & H1b).
    simpl in H1b. destruct H1b as (-> & Nl & HLl & Hlx).
    assert (Hln : (l =? NULL) = false) by (apply Z.eqb_neq; auto).
    assert (Fl : far l m) by (apply F1m, in_or_app; simpl; auto).
    assert (Hl1 : forall a, In a l1 -> far a l).
    { intros a Ha. destruct (Hsep a l) as [-> | F];
        [apply in_or_app; left; apply in_or_app; simpl; auto ..| | exact F].
      exfalso. pose proof Hnd as Hnd'. rewrite <- app_assoc in Hnd'.
      apply NoDup_remove_2 in Hnd'. apply Hnd', in_or_app. auto. }
    assert (Hl1m : forall a, In a l1 -> far a m).
    { intros a Ha. apply F1m, in_or_app. auto. }
    unfold far in Fl.
    destruct fl2 as [| s r2].
    + simpl in H2.
      repeat (first [progress cells | progress cbn [negb] | rewrite H2 | rewrite HLm | rewrite Hmn | rewrite Hln
                                       | progress cbv iota]).
      unfold NULL in *. cbn [lseg app]. split_all; auto; try upd_tac.
      * rewrite app_nil_r. apply lseg_app. exists l. split.
        -- eapply lseg_frame; [| exact H1a].
           intros a Ha. pose proof (Hl1 a Ha). pose proof (Hl1m a Ha).
           unfold far in *. split; upd_tac.
        -- simpl. split_all; auto; upd_tac.
      * intros z Hz. pose proof (Hz m ltac:(apply in_or_app; simpl; auto)).
        pose proof (Hz l ltac:(apply in_or_app; left; apply in_or_app; simpl; auto)).
        upd_tac.
    + simpl in H2. destruct H2 as (Es & Ns & HLs & H2).
      assert (Hsn : (s =? NULL) = false) by (apply Z.eqb_neq; auto).
      pose proof (F2m s (or_introl eq_refl)) as Fs.
      assert (Fls : far l s) by (apply F12; [apply in_or_app|]; simpl; auto).
      unfold far in Fs, Fls.
      repeat (first [progress cells | progress cbn [negb] | rewrite Es | rewrite HLm | rewrite Hmn | rewrite Hsn
                                       | rewrite Hln | rewrite upd_other by lia
                                       | progress cbv iota]).
      unfold NULL in *. cbn [lseg app]. split_all; auto; try upd_tac.
      * apply lseg_app. exists s. split.
        -- apply lseg_app. exists l. split.
           ++ eapply lseg_frame; [| exact H1a].
              intros a Ha. pose proof (Hl1 a Ha). pose proof (Hl1m a Ha).
              assert (far a s) by (apply F12; [apply in_or_app|]; simpl; auto).
              unfold far in *. split; upd_tac.
           ++ simpl. split_all; auto; upd_tac.
        -- rewrite last_last. simpl. split_all; auto; try upd_tac.
           eapply lseg_frame; [| exact H2].
           intros a Ha. pose proof (F2m a (or_intror Ha)).
           assert (far l a) by (apply F12; [apply in_or_app|]; simpl; auto).
           assert (far a s).
           { destruct (Hsep a s) as [-> | F];
               [apply in_or_app; simpl; auto ..| | exact F].
             apply NoDup_app_remove_l in Hnd. inversion Hnd as [| ? ? ? Hnd2]; subst.
             inversion Hnd2; subst. contradiction. }
           unfold far in *. split; upd_tac.
      * intros z Hz. pose proof (Hz m ltac:(apply in_or_app; simpl; auto)).
        pose proof (Hz l ltac:(apply in_or_app; left; apply in_or_app; simpl; auto)).
        pose proof (Hz s ltac:(apply in_or_app; simpl; auto)).
        upd_tac.
Qed.

End FreeListOps.

(** ** The block chain *)

Lemma layout_app (l1 l2 : list blk) (a e : Z) :
  layout a (l1 ++ l2) e <-> exists x, layout a l1 x /\ layout x l2 e.
Proof.
  revert a. induction l1 as [| b r IH]; intros a; simpl.
  - split.
    + intros H. exists a. auto.
    + intros (x & -> & H). exact H.
  - rewrite IH. split.
    + intros (E & S & x & H1 & H2). exists x. auto.
    + intros (x & (E & S & H1) & H2). split_all; auto. exists x. auto.
Qed.

Lemma layout_le (l : list blk) (a e : Z) : layout a l e -> a <= e.
Proof.
  revert a. induction l as [| b r IH]; intros a; simpl.
  - lia.
  - intros (_ & S & H). apply IH in H. lia.
Qed.

(** Every block lies inside the tiled range. *)
Lemma layout_in (l : list blk) (a e : Z) (b : blk) :
  layout a l e -> In b l ->
  a <= b_addr b /\ 16 <= b_size b /\ b_addr b + 16 + b_size b <= e.
Proof.
  revert a. induction l as [| c r IH]; intros a; simpl; [tauto|].
  intros (E & S & H) [-> | Hb].
  - apply layout_le in H. lia.
  - destruct (IH _ H Hb). lia.
Qed.

Lemma layout_nil_iff (l : list blk) (a : Z) : layout a l a -> l = [].
Proof.
  destruct l as [| b r]; [reflexivity|]. simpl.
  intros (_ & S & H). apply layout_le in H. lia.
Qed.

(** In [pre ++ b :: post] the blocks of [pre] end before [b] and those of
    [post] start after it. *)
Lemma layout_split (pre post : list blk) (b : blk) (a e : Z) :
  layout a (pre ++ b :: post) e ->
  layout a pre (b_addr b) /\ 16 <= b_size b /\
  layout (b_addr b + 16 + b_size b) post e /\
  (forall c, In c pre -> a <= b_addr c /\ 16 <= b_size c /\
                         b_addr c + 16 + b_size c <= b_addr b) /\
  (forall c, In c post -> b_addr b + 16 + b_size b <= b_addr c /\ 16 <= b_size c /\
                          b_addr c + 16 + b_size c <= e).
Proof.
  intros H. apply layout_app in H. destruct H as (x & H1 & H2).
  simpl in H2. destruct H2 as (E & S & H2). subst x.
  split_all; auto.
  - intros c Hc. eapply layout_in; eauto.
  - intros c Hc. eapply layout_in; eauto.
Qed.

Lemma hdrs_app (mm : memory) (l1 l2 : list blk) (p : Z) :
  hdrs mm p (l1 ++ l2) <-> hdrs mm p l1 /\ hdrs mm (last (map b_addr l1) p) l2.
Proof.
  revert p. induction l1 as [| b r IH]; intros p.
  - simpl. tauto.
  - cbn [app hdrs map]. rewrite last_cons, IH. tauto.
Qed.

Lemma hdrs_frame (mm mm' : memory) (l : list blk) (p : Z) :
  (forall b, In b l -> mm' (b_addr b) = mm (b_addr b) /\
                       mm' (b_addr b + 8) = mm (b_addr b + 8) /\
                       mm' (b_addr b + 12) = mm (b_addr b + 12)) ->
  hdrs mm p l -> hdrs mm' p l.
Proof.
  revert p. induction l as [| b r IH]; intros p E; simpl; [auto|].
  intros (H1 & H2 & H3 & H).
  destruct (E b (or_introl eq_refl)) as (E1 & E2 & E3).
  rewrite E1, E2, E3. split_all; auto.
  apply IH; auto. intros c Hc. apply E. right. exact Hc.
Qed.

(** The same, when the back link of the first block is rewritten. *)
Lemma hdrs_frame_head (mm mm' : memory) (b : blk) (r : list blk) (p p' : Z) :
  mm' (b_addr b) = p' ->
  mm' (b_addr b + 8) = mm (b_addr b + 8) ->
  mm' (b_addr b + 12) = mm (b_addr b + 12) ->
  (forall c, In c r -> mm' (b_addr c) = mm (b_addr c) /\
                       mm' (b_addr c + 8) = mm (b_addr c + 8) /\
                       mm' (b_addr c + 12) = mm (b_addr c + 12)) ->
  hdrs mm p (b :: r) -> hdrs mm' p' (b :: r).
Proof.
  intros E1 E2 E3 E. simpl. intros (H1 & H2 & H3 & H).
  rewrite E2, E3. split_all; auto. eapply hdrs_frame; eauto.
Qed.

Lemma hdrs_in (mm : memory) (l : list blk) (p : Z) (b : blk) :
  hdrs mm p l -> In b l ->
  mm (b_addr b + 8) = b_magic b /\ mm (b_addr b + 12) = b_size b.
Proof.
  revert p. induction l as [| c r IH]; intros p; simpl; [tauto|].
  intros (H1 & H2 & H3 & H) [-> | Hb]; [auto | eauto].
Qed.

Lemma in_free_addrs (bs : list blk) (a : Z) :
  In a (free_addrs bs) <-> exists s, In (a, s, Mem.MAGIC_FREE) bs.
Proof.
  unfold free_addrs. rewrite in_map_iff. split.
  - intros (b & E & Hb). apply filter_In in Hb. destruct Hb as [Hb Hf].
    destruct b as [[a' s] g]. unfold is_free, b_magic, b_addr in *. simpl in *.
    apply Z.eqb_eq in Hf. subst. exists s. exact Hb.
  - intros (s & Hb). exists (a, s, Mem.MAGIC_FREE). split; [reflexivity|].
    apply filter_In. split; [exact Hb | reflexivity].
Qed.

Lemma free_addrs_cons_free (a s : Z) (l : list blk) :
  free_addrs ((a, s, Mem.MAGIC_FREE) :: l) = a :: free_addrs l.
Proof. reflexivity. Qed.

Lemma free_addrs_cons_used (a s : Z) (l : list blk) :
  free_addrs ((a, s, Mem.MAGIC_USED) :: l) = free_addrs l.
Proof. reflexivity. Qed.

Lemma free_addrs_app (l1 l2 : list blk) :
  free_addrs (l1 ++ l2) = free_addrs l1 ++ free_addrs l2.
Proof. unfold free_addrs. rewrite filter_app, map_app. reflexivity. Qed.

(** Distinct blocks of a layout are [far] apart. *)
Lemma layout_sepl (l : list blk) (a e : Z) :
  layout a l e -> sepl (map b_addr l).
Proof.
  revert a. induction l as [| b r IH]; intros a H x y Hx Hy; simpl in *; [tauto|].
  destruct H as (E & S & H).
  destruct Hx as [<- | Hx], Hy as [<- | Hy].
  - left. reflexivity.
  - right. apply in_map_iff in Hy. destruct Hy as (c & <- & Hc).
    pose proof (layout_in _ _ _ _ H Hc). unfold far. lia.
  - right. apply in_map_iff in Hx. destruct Hx as (c & <- & Hc).
    pose proof (layout_in _ _ _ _ H Hc). unfold far. lia.
  - eapply IH; eauto.
Qed.

Lemma layout_nodup (l : list blk) (a e : Z) :
  layout a l e -> NoDup (map b_addr l).
Proof.
  revert a. induction l as [| b r IH]; intros a H; simpl in *; [constructor|].
  destruct H as (E & S & H). constructor; [| eauto].
  intros Hin. apply in_map_iff in Hin. destruct Hin as (c & Ec & Hc).
  pose proof (layout_in _ _ _ _ H Hc). lia.
Qed.

Lemma free_addrs_incl (bs : list blk) : incl (free_addrs bs) (map b_addr bs).
Proof.
  intros a Ha. unfold free_addrs in Ha. apply in_map_iff in Ha.
  destruct Ha as (b & <- & Hb). apply filter_In in Hb. apply in_map. tauto.
Qed.

Lemma hdr_cell_not_link (U : list Z) (c k : Z) :
  sepl U -> In c U -> k = 0 \/ k = 8 \/ k = 12 ->
  forall a, In a U -> c + k <> a + 16 /\ c + k <> a + 24.
Proof.
  intros Hsep Hc Hk a Ha.
  destruct (Hsep c a Hc Ha) as [-> | F]; unfold far in *; lia.
Qed.

Section AllocatorSpecs.
Import Mem.

(** *** memInit *)

Lemma memInit_spec (fuel : nat) (m0 : memory) (addr size : Z) :
  0 < addr -> 32 <= size <= INT_MAX -> (0 < fuel)%nat ->
  exists st,
    memInit fuel m0 addr size = Ok st /\
    Rep st [(addr, size - 16, MAGIC_FREE)] [addr] /\
    mcb st = addr /\ endMem st = addr + size.
Proof.
  unfold INT_MAX. intros Ha Hs Hf. unfold memInit. cells.
  rewrite (u64_id size) by lia. rewrite u64_id by lia.
  rewrite wrap32_id by (unfold in_int, INT_MIN, INT_MAX; lia).
  match goal with |- context [insertFree fuel ?s addr] => set (st0 := s) end.
  destruct (insertFree_spec fuel st0 addr []) as (st & E & Hl & Hfr & Hm & He).
  - simpl. reflexivity.
  - constructor.
  - intros a b [<- | []] [<- | []]. left. reflexivity.
  - intros [].
  - unfold NULL. lia.
  - simpl. lia.
  - exists st. split; [exact E|]. simpl in Hm, He.
    split; [| split; assumption].
    assert (Hc : forall k, k = 0 \/ k = 8 \/ k = 12 ->
                           mem st (addr + k) = mem st0 (addr + k)).
    { intros k Hk. apply Hfr. intros a [<- | []]. lia. }
    constructor; rewrite ?Hm, ?He.
    + discriminate.
    + exact Ha.
    + unfold INT_MAX. lia.
    + simpl. unfold b_addr, b_size. simpl. lia.
    + simpl. unfold b_addr, b_size, b_magic. simpl.
      rewrite <- (Z.add_0_r addr) at 1. rewrite !Hc by lia.
      subst st0. simpl. unfold NULL. split_all; auto; upd_tac.
    + intros b [<- | []]. right. reflexivity.
    + exact Hl.
    + constructor; [intros [] | constructor].
    + intros a. simpl. tauto.
    + simpl. split; [intros b [] | exact I].
Qed.

(** *** Facts about a block of a represented state *)

Lemma Rep_free_block (st : state) (bs : list blk) (fl : list Z) (m : Z) :
  Rep st bs fl -> In m fl ->
  exists pre S post, bs = pre ++ (m, S, MAGIC_FREE) :: post.
Proof.
  intros R Hm. apply (rep_free _ _ _ R) in Hm. apply in_free_addrs in Hm.
  destruct Hm as (S & Hb). apply in_split in Hb. destruct Hb as (pre & post & E).
  exists pre, S, post. exact E.
Qed.

Lemma Rep_block_hdr (st : state) (pre post : list blk) (fl : list Z) (b : blk) :
  Rep st (pre ++ b :: post) fl ->
  mem st (b_addr b) = last (map b_addr pre) NULL /\
  mem st (b_addr b + 8) = b_magic b /\
  mem st (b_addr b + 12) = b_size b.
Proof.
  intros R. pose proof (rep_hdrs _ _ _ R) as H. apply hdrs_app in H.
  destruct H as [_ H]. simpl in H. tauto.
Qed.

Lemma Rep_block_bounds (st : state) (bs : list blk) (fl : list Z) (b : blk) :
  Rep st bs fl -> In b bs ->
  0 < b_addr b /\ 16 <= b_size b <= INT_MAX /\
  mcb st <= b_addr b /\ b_addr b + 16 + b_size b <= endMem st.
Proof.
  intros R Hb.
  pose proof (layout_in _ _ _ _ (rep_layout _ _ _ R) Hb).
  pose proof (rep_base _ _ _ R). pose proof (rep_len _ _ _ R). lia.
Qed.

Lemma Rep_fl_addr (st : state) (bs : list blk) (fl : list Z) (a : Z) :
  Rep st bs fl -> In a fl -> In a (map b_addr bs).
Proof.
  intros R Ha. apply free_addrs_incl. apply (rep_free _ _ _ R). exact Ha.
Qed.

Lemma Rep_sepl_fl (st : state) (bs : list blk) (fl : list Z) :
  Rep st bs fl -> sepl fl.
Proof.
  intros R. eapply sepl_incl; [| eapply layout_sepl, (rep_layout _ _ _ R)].
  intros a Ha. eapply Rep_fl_addr; eauto.
Qed.

(** The blocks other than [b] lie outside of it. *)
Lemma layout_outside (pre post : list blk) (b : blk) (a e : Z) :
  layout a (pre ++ b :: post) e ->
  forall x, In x (map b_addr (pre ++ post)) -> outside (b_addr b) (b_size b) x.
Proof.
  intros H x Hx. apply layout_split in H. destruct H as (_ & _ & _ & H1 & H2).
  apply in_map_iff in Hx. destruct Hx as (c & <- & Hc).
  apply in_app_or in Hc. destruct Hc as [Hc | Hc].
  - specialize (H1 c Hc). unfold outside. lia.
  - specialize (H2 c Hc). unfold outside. lia.
Qed.

Lemma free_addrs_mid (pre post : list blk) (b : blk) (a e : Z) (x : Z) :
  layout a (pre ++ b :: post) e ->
  In x (free_addrs (pre ++ post)) ->
  x <> b_addr b /\ outside (b_addr b) (b_size b) x.
Proof.
  intros H Hx. apply free_addrs_incl in Hx.
  pose proof (layout_outside _ _ _ _ _ H x Hx) as O.
  apply layout_split in H. destruct H as (_ & S & _).
  unfold outside in *. split; [lia | exact O].
Qed.

(** Replacing a run of blocks: the headers before it are kept, those of the
    new run are as given, and the block after it gets its back link. *)
Lemma hdrs_replace (mm mm' : memory) (pre mid mid' post : list blk) :
  hdrs mm NULL (pre ++ mid ++ post) ->
  (forall c, In c pre -> mm' (b_addr c) = mm (b_addr c) /\
                         mm' (b_addr c + 8) = mm (b_addr c + 8) /\
                         mm' (b_addr c + 12) = mm (b_addr c + 12)) ->
  hdrs mm' (last (map b_addr pre) NULL) mid' ->
  (forall c, In c post -> mm' (b_addr c + 8) = mm (b_addr c + 8) /\
                          mm' (b_addr c + 12) = mm (b_addr c + 12)) ->
  (forall c, In c (tl post) -> mm' (b_addr c) = mm (b_addr c)) ->
  (forall c r, post = c :: r ->
               mm' (b_addr c) = last (map b_addr mid') (last (map b_addr pre) NULL)) ->
  hdrs mm' NULL (pre ++ mid' ++ post).
Proof.
  intros H Hpre Hmid Hpost Htl Hhd.
  apply hdrs_app in H. destruct H as [H1 H2].
  apply hdrs_app in H2. destruct H2 as [_ H2].
  apply hdrs_app. split; [eapply hdrs_frame; eauto|].
  apply hdrs_app. split; [exact Hmid|].
  destruct post as [| c r]; [exact I|].
  eapply hdrs_frame_head; [| | | | exact H2].
  - apply (Hhd c r eq_refl).
  - apply Hpost. left. reflexivity.
  - apply Hpost. left. reflexivity.
  - intros d Hd. split; [apply Htl; exact Hd | apply Hpost; right; exact Hd].
Qed.

Lemma layout_replace (pre mid mid' post : list blk) (a e : Z) :
  layout a (pre ++ mid ++ post) e ->
  (forall x y, layout x mid y -> layout x mid' y) ->
  layout a (pre ++ mid' ++ post) e.
Proof.
  intros H Hm. apply layout_app in H. destruct H as (x & H1 & H2).
  apply layout_app in H2. destruct H2 as (y & H2 & H3).
  apply layout_app. exists x. split; [exact H1|].
  apply layout_app. exists y. split; [apply Hm; exact H2 | exact H3].
Qed.

(** The address of the block that follows a run. *)
Lemma layout_next (pre mid post : list blk) (a e x : Z) :
  layout a (pre ++ mid ++ post) e ->
  (forall u v, layout u mid v -> v = x) ->
  layout x post e /\
  (post = [] -> x = e) /\
  (forall c r, post = c :: r -> b_addr c = x /\ x + 32 <= e) /\
  (forall c, In c (tl post) -> x + 32 <= b_addr c).
Proof.
  intros H Hx. apply layout_app in H. destruct H as (u & H1 & H2).
  apply layout_app in H2. destruct H2 as (v & H2 & H3).
  apply Hx in H2. subst v. split; [exact H3|]. split; [| split].
  - intros ->. simpl in H3. exact H3.
  - intros c r ->. simpl in H3. destruct H3 as (E & S & H3).
    apply layout_le in H3. lia.
  - intros c Hc. destruct post as [| d r]; simpl in *; [tauto|].
    destruct H3 as (E & S & H3).
    pose proof (layout_in _ _ _ _ H3 Hc). lia.
Qed.

Lemma last_map_snoc (l : list blk) (b : blk) (d : Z) :
  last (map b_addr (l ++ [b])) d = b_addr b.
Proof. rewrite map_app. simpl. apply last_last. Qed.

Lemma layout_disjoint (l : list blk) (a e : Z) (b c : blk) :
  layout a l e -> In b l -> In c l ->
  b = c \/ b_addr b + 16 + b_size b <= b_addr c \/ b_addr c + 16 + b_size c <= b_addr b.
Proof.
  revert a. induction l as [| d r IH]; intros a H Hb Hc; simpl in *; [tauto|].
  destruct H as (E & S & H).
  destruct Hb as [<- | Hb], Hc as [<- | Hc].
  - left. reflexivity.
  - pose proof (layout_in _ _ _ _ H Hc). right. left. lia.
  - pose proof (layout_in _ _ _ _ H Hb). right. right. lia.
  - eapply IH; eauto.
Qed.

(** The link pair of a free header is not inside the payload of a block in
    use. *)
Lemma used_payload_not_link (st : state) (bs : list blk) (fl : list Z) (x : Z) :
  Rep st bs fl -> in_used_payload bs x ->
  forall a, In a fl -> x <> a + 16 /\ x <> a + 24.
Proof.
  intros R (c & Hc & Hu & Hx) a Ha.
  apply (rep_free _ _ _ R) in Ha. apply in_free_addrs in Ha. destruct Ha as (s & Hb).
  destruct (layout_disjoint _ _ _ _ _ (rep_layout _ _ _ R) Hc Hb) as [-> | D].
  - unfold b_magic in Hu. simpl in Hu. discriminate.
  - pose proof (layout_in _ _ _ _ (rep_layout _ _ _ R) Hb).
    unfold b_addr, b_size in *. simpl in *. lia.
Qed.

(** Nor is it a header cell. *)
Lemma used_payload_not_hdr (st : state) (bs : list blk) (fl : list Z) (x : Z) :
  Rep st bs fl -> in_used_payload bs x ->
  forall b, In b bs -> x <> b_addr b /\ x <> b_addr b + 8 /\ x <> b_addr b + 12.
Proof.
  intros R (c & Hc & Hu & Hx) b Hb.
  pose proof (layout_in _ _ _ _ (rep_layout _ _ _ R) Hb).
  destruct (layout_disjoint _ _ _ _ _ (rep_layout _ _ _ R) Hc Hb) as [-> | D]; lia.
Qed.

(** *** memAlloc *)

Lemma memAlloc_fail (fuel : nat) (st : state) (size : Z) :
  freelist st = NULL \/ get_size st (freelist st) < adjust size ->
  memAlloc fuel st size = Ok (NULL, st).
Proof.
  intros H. unfold memAlloc.
  destruct (Z.eqb_spec (freelist st) NULL) as [E | N]; [reflexivity|].
  destruct (Z.ltb_spec (get_size st (freelist st)) (adjust size)); [reflexivity|].
  simpl. destruct H; [contradiction | lia].
Qed.

(** The head of the free list serves the request and nothing worth a block
    is left over: the whole block is handed out. *)
Lemma memAlloc_whole (fuel : nat) (st : state) (pre post : list blk)
      (rest : list Z) (m S size : Z) :
  Rep st (pre ++ (m, S, MAGIC_FREE) :: post) (m :: rest) ->
  adjust size <= S -> S - adjust size <= 32 ->
  exists st',
    memAlloc fuel st size = Ok (m + 16, st') /\
    Rep st' (pre ++ (m, S, MAGIC_USED) :: post) rest /\
    (forall x, in_used_payload (pre ++ (m, S, MAGIC_FREE) :: post) x ->
               mem st' x = mem st x) /\
    mem st' (m + 16) = NULL /\
    mcb st' = mcb st /\ endMem st' = endMem st.
Proof.
  intros R Hle Hbal.
  pose proof (Rep_block_hdr _ _ _ _ _ R) as (Hp & Hg & Hs).
  pose proof (Rep_block_bounds _ _ _ (m, S, MAGIC_FREE) R
                ltac:(apply in_or_app; simpl; auto)) as (Hm0 & HS & _).
  unfold b_addr, b_size, b_magic in *. simpl in Hp, Hg, Hs, Hm0, HS.
  pose proof (rep_links _ _ _ R) as Hl. simpl in Hl. destruct Hl as (Ef & _ & _).
  pose proof (adjust_range size) as Hadj. unfold in_int, INT_MIN in Hadj.
  unfold INT_MAX in *.
  unfold memAlloc. cells. rewrite Ef, Hs.
  destruct (Z.eqb_spec m NULL) as [E | _]; [unfold NULL in E; lia|].
  destruct (Z.ltb_spec S (adjust size)); [lia|]. cbn [orb].
  rewrite (wrap32_id (S - adjust size)) by (unfold in_int, INT_MIN, INT_MAX; lia).
  rewrite u64_id by lia.
  destruct (Z.gtb_spec (S - adjust size) (16 + 16)); [lia|].
  cbn [bind]. cbv beta iota.
  replace (adjust size + (S - adjust size)) with S by lia.
  rewrite (wrap32_id S) by (unfold in_int, INT_MIN, INT_MAX; lia).
  eexists. split; [reflexivity|].
  destruct (removeFree_spec st m (m :: rest) (rep_links _ _ _ R) (rep_nodup _ _ _ R)
              (Rep_sepl_fl _ _ _ R) (or_introl eq_refl))
    as (Hl' & Hfr & Hz1 & Hz2 & Hmcb & Hend).
  remember (removeFree st m) as st1 eqn:Est1. clear Est1.
  pose proof (rep_nodup _ _ _ R) as Hnd. apply NoDup_cons_iff in Hnd.
  destruct Hnd as [Hnm Hnd'].
  rewrite rem_head in Hl' by exact Hnm.
  pose proof (rep_layout _ _ _ R) as Hlay.
  pose proof (layout_sepl _ _ _ Hlay) as HsepU.
  (* header cells are kept by the removal *)
  assert (Hcell : forall c k, In c (map b_addr (pre ++ (m, S, MAGIC_FREE) :: post)) ->
                              k = 0 \/ k = 8 \/ k = 12 ->
                              mem st1 (c + k) = mem st (c + k)).
  { intros c k Hc Hk. apply Hfr. intros a Ha.
    eapply hdr_cell_not_link; eauto. eapply Rep_fl_addr; eauto. }
  assert (Hout : forall c, In c (pre ++ post) -> outside m S (b_addr c)).
  { intros c Hc. apply (layout_outside _ _ _ _ _ Hlay). apply in_map. exact Hc. }
  assert (Hkeep : forall c, In c (pre ++ post) ->
            upd (upd (mem st1) (m + 8) MAGIC_USED) (m + 12) S (b_addr c) = mem st (b_addr c) /\
            upd (upd (mem st1) (m + 8) MAGIC_USED) (m + 12) S (b_addr c + 8) = mem st (b_addr c + 8) /\
            upd (upd (mem st1) (m + 8) MAGIC_USED) (m + 12) S (b_addr c + 12) = mem st (b_addr c + 12)).
  { intros c Hc. pose proof (Hout c Hc) as O. unfold outside in O.
    assert (Hin : In (b_addr c) (map b_addr (pre ++ (m, S, MAGIC_FREE) :: post))).
    { apply in_map. apply in_app_or in Hc. apply in_or_app. simpl. tauto. }
    pose proof (Hcell _ 0 Hin ltac:(lia)) as E0. rewrite Z.add_0_r in E0.
    pose proof (Hcell _ 8 Hin ltac:(lia)) as E8.
    pose proof (Hcell _ 12 Hin ltac:(lia)) as E12.
    split_all; upd_tac. }
  cells. split_all.
  - constructor; cbn [mem mcb endMem freelist]; rewrite ?Hmcb, ?Hend.
    + destruct pre; discriminate.
    + apply (rep_base _ _ _ R).
    + apply (rep_len _ _ _ R).
    + change (pre ++ (m, S, MAGIC_USED) :: post)
        with (pre ++ [(m, S, MAGIC_USED)] ++ post).
      eapply (layout_replace pre [(m, S, MAGIC_FREE)]); [exact Hlay|]. simpl. auto.
    + change (pre ++ (m, S, MAGIC_USED) :: post)
        with (pre ++ [(m, S, MAGIC_USED)] ++ post).
      eapply (hdrs_replace (mem st) _ pre [(m, S, MAGIC_FREE)]).
      * exact (rep_hdrs _ _ _ R).
      * intros c Hc. apply Hkeep, in_or_app. auto.
      * simpl. unfold b_addr, b_size, b_magic. simpl.
        assert (Hin : In m (map b_addr (pre ++ (m, S, MAGIC_FREE) :: post))).
        { rewrite map_app. apply in_or_app. simpl. auto. }
        pose proof (Hcell _ 0 Hin ltac:(lia)) as E0. rewrite Z.add_0_r in E0.
        split_all; auto; upd_tac.
      * intros c Hc. apply Hkeep, in_or_app. auto.
      * intros c Hc. apply Hkeep, in_or_app. right.
        destruct post; simpl in *; tauto.
      * intros c r ->. simpl.
        destruct (Hkeep c ltac:(apply in_or_app; simpl; auto)) as (E0 & _).
        rewrite E0. pose proof (rep_hdrs _ _ _ R) as Hh.
        apply hdrs_app in Hh. destruct Hh as [_ Hh]. simpl in Hh. tauto.
    + intros b Hb. apply in_app_or in Hb. destruct Hb as [Hb | [<- | Hb]].
      * apply (rep_magic _ _ _ R), in_or_app. auto.
      * left. reflexivity.
      * apply (rep_magic _ _ _ R), in_or_app. simpl. auto.
    + eapply lseg_frame; [| exact Hl'].
      intros a Ha.
      assert (O : outside m S a).
      { pose proof (proj1 (rep_free _ _ _ R a) (or_intror Ha)) as Hfa.
        rewrite free_addrs_app in Hfa. apply in_app_or in Hfa.
        eapply (free_addrs_mid pre post (m, S, MAGIC_FREE)); [exact Hlay|].
        rewrite free_addrs_app. apply in_or_app.
        destruct Hfa as [Hfa | Hfa]; [auto|].
        unfold free_addrs in Hfa. simpl in Hfa. destruct Hfa as [<- | Hfa]; [contradiction|].
        right. exact Hfa. }
      unfold outside in O. split; upd_tac.
    + exact Hnd'.
    + intros a. rewrite free_addrs_app.
      pose proof (rep_free _ _ _ R a) as Hfa. rewrite free_addrs_app in Hfa.
      unfold free_addrs in *. simpl in *. rewrite in_app_iff in *. simpl in Hfa.
      split.
      * intros Ha. destruct (proj1 Hfa (or_intror Ha)) as [H1 | [<- | H1]]; tauto.
      * intros Ha.
        assert (Hne : a <> m).
        { eapply (free_addrs_mid pre post (m, S, MAGIC_FREE)); [exact Hlay|].
          rewrite free_addrs_app. apply in_or_app. exact Ha. }
        destruct (proj2 Hfa) as [<- | H1]; tauto.
    + pose proof (rep_desc _ _ _ R) as Hd. simpl in Hd. destruct Hd as [_ Hd].
      eapply desc_ext; [| exact Hd]. intros a Ha. unfold get_size. cells.
      assert (Hin : In a (map b_addr (pre ++ (m, S, MAGIC_FREE) :: post))).
      { eapply Rep_fl_addr; [exact R|]. right. exact Ha. }
      pose proof (Hcell _ 12 Hin ltac:(lia)) as E12.
      destruct (HsepU a m Hin ltac:(rewrite map_app; apply in_or_app; simpl; auto))
        as [-> | F]; [contradiction|].
      unfold far in F. upd_tac.
  - intros x Hx.
    pose proof (used_payload_not_link _ _ _ x R Hx) as Hnl.
    pose proof (used_payload_not_hdr _ _ _ x R Hx (m, S, MAGIC_FREE)
                  ltac:(apply in_or_app; simpl; auto)) as Hnh.
    unfold b_addr in Hnh. simpl in Hnh.
    rewrite <- (Hfr x Hnl). upd_tac.
  - rewrite <- Hz1. upd_tac.
  - exact Hmcb.
  - exact Hend.
Qed.

(** The head of the free list serves the request and is split: the rest
    becomes a new free block, inserted by size. *)
Lemma memAlloc_split (fuel : nat) (st : state) (pre post : list blk)
      (rest : list Z) (m S size : Z) :
  Rep st (pre ++ (m, S, MAGIC_FREE) :: post) (m :: rest) ->
  16 <= adjust size -> 32 < S - adjust size ->
  (Datatypes.S (length rest) < fuel)%nat ->
  exists st',
    memAlloc fuel st size = Ok (m + 16, st') /\
    Rep st' (pre ++ (m, adjust size, MAGIC_USED)
                 :: (m + 16 + adjust size, S - adjust size - 16, MAGIC_FREE) :: post)
        (ins (get_size st') (m + 16 + adjust size) rest) /\
    (forall x, in_used_payload (pre ++ (m, S, MAGIC_FREE) :: post) x ->
               mem st' x = mem st x) /\
    mem st' (m + 16) = NULL /\
    mcb st' = mcb st /\ endMem st' = endMem st.
Proof.
  intros R Hsz Hbal Hfuel.
  set (sz := adjust size) in *. set (n := m + 16 + sz).
  pose proof (Rep_block_hdr _ _ _ _ _ R) as (Hp & Hg & Hs).
  pose proof (Rep_block_bounds _ _ _ (m, S, MAGIC_FREE) R
                ltac:(apply in_or_app; simpl; auto)) as (Hm0 & HS & Hlo & Hhi).
  unfold b_addr, b_size, b_magic in Hp, Hg, Hs, Hm0, HS, Hlo, Hhi.
  simpl in Hp, Hg, Hs, Hm0, HS, Hlo, Hhi.
  pose proof (rep_links _ _ _ R) as Hl. pose proof Hl as Hl0.
  simpl in Hl0. destruct Hl0 as (Ef & _ & _).
  unfold INT_MAX in *.
  pose proof (rep_nodup _ _ _ R) as Hnd. pose proof Hnd as Hnd0.
  apply NoDup_cons_iff in Hnd0. destruct Hnd0 as [Hnm Hnd'].
  pose proof (rep_layout _ _ _ R) as Hlay.
  pose proof (layout_sepl _ _ _ Hlay) as HsepB.
  assert (Hout : forall c, In c (pre ++ post) -> outside m S (b_addr c)).
  { intros c Hc. apply (layout_outside _ _ _ _ _ Hlay). apply in_map. exact Hc. }
  assert (Hrest : forall a, In a rest -> outside m S a).
  { intros a Ha.
    pose proof (proj1 (rep_free _ _ _ R a) (or_intror Ha)) as Hfa.
    rewrite free_addrs_app in Hfa. apply in_app_or in Hfa.
    eapply (free_addrs_mid pre post (m, S, MAGIC_FREE)); [exact Hlay|].
    rewrite free_addrs_app. apply in_or_app.
    destruct Hfa as [Hfa | Hfa]; [auto|].
    unfold free_addrs in Hfa. simpl in Hfa. destruct Hfa as [<- | Hfa]; [contradiction|].
    right. exact Hfa. }
  (* the universe of headers: the blocks and the new header *)
  set (U := n :: map b_addr (pre ++ (m, S, MAGIC_FREE) :: post)).
  assert (HmU : In m U).
  { right. rewrite map_app. apply in_or_app. simpl. auto. }
  assert (HsepU : sepl U).
  { assert (Hn : forall b, In b (map b_addr (pre ++ (m, S, MAGIC_FREE) :: post)) -> far n b).
    { intros b Hb. rewrite map_app in Hb. apply in_app_or in Hb.
      assert (Hb' : b = m \/ In b (map b_addr (pre ++ post))).
      { rewrite map_app. rewrite in_app_iff. simpl in Hb.
        destruct Hb as [Hb | [Hb | Hb]]; [tauto | left; symmetry; exact Hb | tauto]. }
      destruct Hb' as [-> | Hb'].
      - unfold far, n. lia.
      - apply (layout_outside _ _ _ _ _ Hlay) in Hb'.
        unfold outside, b_addr, b_size in Hb'. simpl in Hb'. unfold far, n. lia. }
    intros a b [<- | Ha] [<- | Hb].
    - left. reflexivity.
    - right. apply Hn. exact Hb.
    - right. specialize (Hn a Ha). unfold far in *. lia.
    - apply HsepB; assumption. }
  assert (HflU : incl (n :: m :: rest) U).
  { intros a [<- | Ha]; [left; reflexivity | right].
    eapply Rep_fl_addr; eauto. }
  assert (Hnrest : ~ In n (m :: rest)).
  { intros [E | Hn]; [unfold n in E; lia|].
    apply Hrest in Hn. unfold outside, n in Hn. lia. }
  assert (Hnext : layout (m + 16 + S) post (endMem st) /\
                  (post = [] -> m + 16 + S = endMem st) /\
                  (forall c r, post = c :: r -> b_addr c = m + 16 + S /\
                                                m + 16 + S + 32 <= endMem st) /\
                  (forall c, In c (tl post) -> m + 16 + S + 32 <= b_addr c)).
  { apply (layout_next pre [(m, S, MAGIC_FREE)] post (mcb st)); [exact Hlay|].
    simpl. unfold b_addr, b_size. simpl. intros u v (-> & _ & <-). reflexivity. }
  destruct Hnext as (Hlaypost & Hpn & Hpc & Hptl).
  unfold memAlloc. fold sz. cells. rewrite Ef, Hs.
  destruct (Z.eqb_spec m NULL) as [E | _]; [unfold NULL in E; lia|].
  destruct (Z.ltb_spec S sz); [lia|]. cbn [orb].
  rewrite (wrap32_id (S - sz)) by (unfold in_int, INT_MIN, INT_MAX; lia).
  rewrite (u64_id (S - sz)) by lia.
  destruct (Z.gtb_spec (S - sz) (16 + 16)); [| lia].
  rewrite (u64_id (S - sz - 16)) by lia.
  rewrite (wrap32_id (S - sz - 16)) by (unfold in_int, INT_MIN, INT_MAX; lia).
  fold n.
  (* the successor of m, read after the first write *)
  set (nx := if match post with [] => true | _ => false end then NULL else m + 16 + S).
  assert (Hmn : mcbNext {| mem := upd (mem st) n m; mcb := mcb st;
                           endMem := endMem st; freelist := m |} m = nx).
  { unfold mcbNext. cells. rewrite upd_other by (unfold n; lia). rewrite Hs.
    unfold nx. destruct post as [| c r].
    - rewrite (Hpn eq_refl), Z.eqb_refl. reflexivity.
    - destruct (Hpc c r eq_refl) as [_ Hc].
      destruct (Z.eqb_spec (m + 16 + S) (endMem st)); [lia | reflexivity]. }
  rewrite Hmn.
  assert (Hnx : (nx =? NULL) = match post with [] => true | _ => false end).
  { unfold nx. destruct post; [reflexivity | apply Z.eqb_neq; unfold NULL; lia]. }
  rewrite Hnx.
  match goal with |- context [insertFree fuel ?s n] => set (st1 := s) end.
  assert (Hmem1 : mem st1 =
            upd (upd (upd (upd
              (if match post with [] => true | _ => false end
               then upd (mem st) n m
               else upd (upd (mem st) n m) (m + 16 + S) n)
              (n + 8) MAGIC_FREE) (n + 12) (S - sz - 16)) (n + 16) NULL) (n + 24) NULL).
  { subst st1 nx. destruct post; reflexivity. }
  assert (Hg1 : mcb st1 = mcb st /\ endMem st1 = endMem st /\ freelist st1 = m).
  { subst st1 nx. destruct post; auto. }
  destruct Hg1 as (Hmcb1 & Hend1 & Hfl1).
  clearbody st1. clear Hmn Hnx.
  (* the free list is untouched by the header writes *)
  assert (Hl1 : lseg (mem st1) NULL (freelist st1) (m :: rest) NULL).
  { rewrite Hfl1. pose proof Hl as Hl'. rewrite Ef in Hl'.
    eapply lseg_frame; [| exact Hl'].
    intros a [<- | Ha].
    - rewrite Hmem1. unfold n. destruct post; split; upd_tac.
    - pose proof (Hrest a Ha) as O. unfold outside in O.
      rewrite Hmem1. unfold n. destruct post; split; upd_tac. }
  assert (Hsz1 : forall a, In a (m :: rest) -> get_size st1 a = get_size st a).
  { intros a Ha. cells. rewrite Hmem1. destruct Ha as [<- | Ha].
    - unfold n. destruct post; upd_tac.
    - pose proof (Hrest a Ha) as O. unfold outside in O.
      unfold n. destruct post; upd_tac. }
  assert (Hszn : get_size st1 n = S - sz - 16).
  { cells. rewrite Hmem1. upd_tac. }
  destruct (insertFree_spec fuel st1 n (m :: rest) Hl1 Hnd
              (sepl_incl _ _ HflU HsepU) Hnrest ltac:(unfold NULL, n; lia)
              ltac:(simpl; lia))
    as (st2 & E2 & Hl2 & Hfr2 & Hmcb2 & Hend2).
  rewrite E2. cbn [bind]. cbv beta iota.
  assert (Eins : ins (get_size st1) n (m :: rest) = m :: ins (get_size st1) n rest).
  { simpl. rewrite Hszn, (Hsz1 m (or_introl eq_refl)). cells. rewrite Hs.
    destruct (Z.ltb_spec (S - sz - 16) S); [reflexivity | lia]. }
  rewrite Eins in Hl2.
  assert (Hnd2 : NoDup (m :: ins (get_size st1) n rest)).
  { constructor.
    - rewrite in_ins. intros [E | Hin]; [unfold n in E; lia | contradiction].
    - apply NoDup_ins; [exact Hnd'|]. intros Hin. apply Hnrest. right. exact Hin. }
  assert (Hincl2 : incl (m :: ins (get_size st1) n rest) U).
  { intros a [<- | Ha]; [exact HmU|]. apply in_ins in Ha.
    apply HflU. destruct Ha as [-> | Ha]; simpl; auto. }
  destruct (removeFree_spec st2 m _ Hl2 Hnd2 (sepl_incl _ _ Hincl2 HsepU)
              (or_introl eq_refl))
    as (Hl3 & Hfr3 & Hz1 & Hz2 & Hmcb3 & Hend3).
  remember (removeFree st2 m) as st3 eqn:Est3. clear Est3.
  rewrite rem_head in Hl3 by (apply NoDup_cons_iff in Hnd2; tauto).
  eexists. split; [reflexivity|].
  (* header cells survive both list operations *)
  assert (Hcell : forall c k, In c U -> k = 0 \/ k = 8 \/ k = 12 ->
                              mem st3 (c + k) = mem st1 (c + k)).
  { intros c k Hc Hk. rewrite Hfr3, Hfr2; [reflexivity | |].
    - intros a Ha. eapply hdr_cell_not_link; eauto.
    - intros a Ha. eapply hdr_cell_not_link; eauto. }
  assert (Hcell0 : forall c, In c U -> mem st3 c = mem st1 c).
  { intros c Hc. pose proof (Hcell c 0 Hc ltac:(lia)) as E. rewrite Z.add_0_r in E.
    exact E. }
  assert (HinU : forall c, In c (pre ++ post) -> In (b_addr c) U).
  { intros c Hc. right. apply in_map. apply in_app_or in Hc.
    apply in_or_app. simpl. tauto. }
  assert (Hkeep : forall c, In c (pre ++ post) ->
            (b_addr c <> m + 16 + S ->
             upd (upd (mem st3) (m + 8) MAGIC_USED) (m + 12) sz (b_addr c)
             = mem st (b_addr c)) /\
            upd (upd (mem st3) (m + 8) MAGIC_USED) (m + 12) sz (b_addr c + 8)
            = mem st (b_addr c + 8) /\
            upd (upd (mem st3) (m + 8) MAGIC_USED) (m + 12) sz (b_addr c + 12)
            = mem st (b_addr c + 12)).
  { intros c Hc. pose proof (Hout c Hc) as O. unfold outside in O.
    pose proof (HinU c Hc) as Hin.
    pose proof (Hcell0 _ Hin) as E0.
    pose proof (Hcell _ 8 Hin ltac:(lia)) as E8.
    pose proof (Hcell _ 12 Hin ltac:(lia)) as E12.
    rewrite Hmem1 in E0, E8, E12. unfold n in *.
    split_all.
    - intros Hne. rewrite upd_other by lia. rewrite upd_other by lia. rewrite E0.
      destruct post; upd_tac.
    - rewrite upd_other by lia. rewrite upd_other by lia. rewrite E8.
      destruct post; upd_tac.
    - rewrite upd_other by lia. rewrite upd_other by lia. rewrite E12.
      destruct post; upd_tac. }
  cells. rewrite Hmcb3, Hend3, Hmcb2, Hend2, Hmcb1, Hend1.
  split_all; try reflexivity.
  - constructor; cbn [mem mcb endMem freelist].
    + destruct pre; discriminate.
    + apply (rep_base _ _ _ R).
    + apply (rep_len _ _ _ R).
    + change (pre ++ (m, sz, MAGIC_USED) :: (n, S - sz - 16, MAGIC_FREE) :: post)
        with (pre ++ [(m, sz, MAGIC_USED); (n, S - sz - 16, MAGIC_FREE)] ++ post).
      eapply (layout_replace pre [(m, S, MAGIC_FREE)]); [exact Hlay|].
      simpl. unfold b_addr, b_size. simpl. unfold n.
      intros x y (-> & _ & <-). split_all; auto; lia.
    + change (pre ++ (m, sz, MAGIC_USED) :: (n, S - sz - 16, MAGIC_FREE) :: post)
        with (pre ++ [(m, sz, MAGIC_USED); (n, S - sz - 16, MAGIC_FREE)] ++ post).
      eapply (hdrs_replace (mem st) _ pre [(m, S, MAGIC_FREE)]).
      * exact (rep_hdrs _ _ _ R).
      * intros c Hc.
        destruct (Hkeep c ltac:(apply in_or_app; auto)) as (K0 & K8 & K12).
        split_all; auto. apply K0.
        pose proof (Hout c ltac:(apply in_or_app; auto)) as O.
        apply layout_split in Hlay. destruct Hlay as (_ & _ & _ & Hpre & _).
        specialize (Hpre c Hc). unfold b_addr, b_size in Hpre |- *. simpl in Hpre. lia.
      * simpl. unfold b_addr, b_size, b_magic. simpl.
        pose proof (Hcell0 m HmU) as E0.
        pose proof (Hcell0 n ltac:(left; reflexivity)) as En0.
        pose proof (Hcell n 8 ltac:(left; reflexivity) ltac:(lia)) as En8.
        pose proof (Hcell n 12 ltac:(left; reflexivity) ltac:(lia)) as En12.
        rewrite Hmem1 in E0, En0, En8, En12. unfold n in *.
        split_all; auto.
        -- rewrite upd_other by lia. rewrite upd_other by lia. rewrite E0.
           rewrite <- Hp. destruct post; upd_tac.
        -- upd_tac.
        -- upd_tac.
        -- rewrite upd_other by lia. rewrite upd_other by lia. rewrite En0.
           destruct post as [| c r]; [upd_tac|].
           destruct (Hpc c r eq_refl). upd_tac.
        -- rewrite upd_other by lia. rewrite upd_other by lia. rewrite En8. upd_tac.
        -- rewrite upd_other by lia. rewrite upd_other by lia. rewrite En12. upd_tac.
      * intros c Hc. apply Hkeep, in_or_app. auto.
      * intros c Hc.
        destruct (Hkeep c ltac:(apply in_or_app; right; destruct post; simpl in *; tauto))
          as (K0 & _).
        apply K0. specialize (Hptl c Hc). lia.
      * intros c r ->. simpl. unfold b_addr at 2. simpl.
        destruct (Hpc c r eq_refl) as [Ec Hc]. rewrite Ec.
        pose proof (Hcell0 (m + 16 + S)
                      ltac:(rewrite <- Ec; apply HinU, in_or_app; simpl; auto)) as E0.
        rewrite Hmem1 in E0. unfold n in *.
        rewrite upd_other by lia. rewrite upd_other by lia. rewrite E0. upd_tac.
    + intros b Hb. apply in_app_or in Hb. destruct Hb as [Hb | [<- | [<- | Hb]]].
      * apply (rep_magic _ _ _ R), in_or_app. auto.
      * left. reflexivity.
      * right. reflexivity.
      * apply (rep_magic _ _ _ R), in_or_app. simpl. auto.
    + assert (Ei : ins (fun a => upd (upd (mem st3) (m + 8) MAGIC_USED) (m + 12) sz (a + 12))
                       n rest = ins (get_size st1) n rest).
      { apply ins_ext.
        - cbv beta. cells. rewrite upd_other by (unfold n; lia).
          rewrite upd_other by (unfold n; lia).
          apply (Hcell n 12 ltac:(left; reflexivity) ltac:(lia)).
        - intros a Ha. cbv beta. cells.
          pose proof (Hrest a Ha) as O. unfold outside in O.
          rewrite upd_other by lia. rewrite upd_other by lia.
          apply (Hcell a 12 ltac:(apply HflU; simpl; auto) ltac:(lia)). }
      rewrite Ei. eapply lseg_frame; [| exact Hl3].
      intros a Ha. apply in_ins in Ha. destruct Ha as [-> | Ha].
      * unfold n. split; upd_tac.
      * pose proof (Hrest a Ha) as O. unfold outside in O. split; upd_tac.
    + apply NoDup_ins; [exact Hnd'|]. intros Hin. apply Hnrest. right. exact Hin.
    + intros a. rewrite in_ins.
      pose proof (rep_free _ _ _ R a) as Hfa.
      rewrite free_addrs_app, free_addrs_cons_free, in_app_iff in Hfa.
      rewrite free_addrs_app, free_addrs_cons_used, free_addrs_cons_free, in_app_iff.
      assert (Hne : In a (free_addrs pre) \/ In a (free_addrs post) -> a <> m).
      { intros Ha. eapply (free_addrs_mid pre post (m, S, MAGIC_FREE)); [exact Hlay|].
        rewrite free_addrs_app. apply in_or_app. exact Ha. }
      simpl in Hfa |- *. split.
      * intros [-> | Ha]; [tauto|].
        destruct (proj1 Hfa (or_intror Ha)) as [H1 | [<- | H1]]; tauto.
      * intros [Ha | [<- | Ha]]; [| tauto |].
        -- destruct (proj2 Hfa (or_introl Ha)) as [<- | H1]; [| tauto].
           exfalso. apply Hne; auto.
        -- destruct (proj2 Hfa (or_intror (or_intror Ha))) as [<- | H1]; [| tauto].
           exfalso. apply Hne; auto.
    + apply desc_ins.
      pose proof (rep_desc _ _ _ R) as Hd. simpl in Hd. destruct Hd as [_ Hd].
      eapply desc_ext; [| exact Hd]. intros a Ha. cells.
      pose proof (Hrest a Ha) as O. unfold outside in O.
      rewrite upd_other by lia. rewrite upd_other by lia.
      rewrite (Hcell a 12 ltac:(apply HflU; simpl; auto) ltac:(lia)).
      apply (Hsz1 a). right. exact Ha.
  - intros x Hx.
    pose proof (used_payload_not_link _ _ _ x R Hx) as Hnl.
    pose proof (used_payload_not_hdr _ _ _ x R Hx) as Hnh.
    pose proof (Hnh (m, S, MAGIC_FREE) ltac:(apply in_or_app; simpl; auto)) as Hnm'.
    unfold b_addr in Hnm'. simpl in Hnm'.
    assert (Hxo : x < m \/ m + 16 + S <= x).
    { destruct Hx as (c & Hc & Hu & Hx).
      destruct (layout_disjoint _ _ _ _ (m, S, MAGIC_FREE) Hlay Hc
                  ltac:(apply in_or_app; simpl; auto)) as [-> | D].
      - unfold b_magic in Hu. simpl in Hu. discriminate.
      - unfold b_addr, b_size in D, Hx. simpl in D. lia. }
    rewrite upd_other by lia. rewrite upd_other by lia.
    rewrite Hfr3, Hfr2.
    + rewrite Hmem1. unfold n. destruct post as [| c r]; [upd_tac|].
      destruct (Hpc c r eq_refl) as [Ec _].
      pose proof (Hnh c ltac:(apply in_or_app; simpl; auto)) as Hnc.
      rewrite Ec in Hnc. upd_tac.
    + intros a [<- | Ha]; [unfold n; lia | apply Hnl; exact Ha].
    + intros a [<- | Ha]; [lia|]. apply in_ins in Ha. destruct Ha as [-> | Ha].
      * unfold n. lia.
      * apply Hnl. right. exact Ha.
  - rewrite upd_other by lia. rewrite upd_other by lia. exact Hz1.
Qed.

(** *** Rebuilding the representation after a run of blocks was rewritten *)

Lemma layout_tl (l : list blk) (a e : Z) (c : blk) :
  layout a l e -> In c (tl l) -> a + 32 <= b_addr c.
Proof.
  destruct l as [| d r]; simpl; [tauto|].
  intros (E & S & H) Hc. pose proof (layout_in _ _ _ _ H Hc). lia.
Qed.

Lemma layout_det (l : list blk) (a x y : Z) : layout a l x -> layout a l y -> x = y.
Proof.
  revert a. induction l as [| b r IH]; intros a; simpl.
  - intros <- <-. reflexivity.
  - intros (_ & _ & H1) (_ & _ & H2). eauto.
Qed.

Lemma layout_mid (pre mid post : list blk) (a e lo hi : Z) :
  layout a (pre ++ mid ++ post) e -> layout a pre lo -> layout lo mid hi ->
  layout hi post e.
Proof.
  intros H H1 H2. apply layout_app in H. destruct H as (x & Hx & H).
  apply layout_app in H. destruct H as (y & Hy & H).
  pose proof (layout_det _ _ _ _ Hx H1). subst x.
  pose proof (layout_det _ _ _ _ Hy H2). subst y. exact H.
Qed.

Lemma span_frame_refl (lo hi : Z) (L : list Z) (mm : memory) :
  span_frame lo hi L mm mm.
Proof. intros x _ _. reflexivity. Qed.

Lemma span_frame_trans (lo hi : Z) (L : list Z) (m1 m2 m3 : memory) :
  span_frame lo hi L m1 m2 -> span_frame lo hi L m2 m3 -> span_frame lo hi L m1 m3.
Proof. intros H1 H2 x Hx Hl. rewrite H2, H1 by assumption. reflexivity. Qed.

Lemma span_frame_upd (lo hi : Z) (L : list Z) (mm : memory) (a v : Z) :
  lo <= a <= hi -> span_frame lo hi L mm (upd mm a v).
Proof. intros Ha x Hx _. apply upd_other. lia. Qed.

Lemma span_frame_frameL (lo hi : Z) (L L' : list Z) (mm mm' : memory) :
  frameL L' mm mm' -> incl L' L -> span_frame lo hi L mm mm'.
Proof. intros H Hi x _ Hl. apply H. intros a Ha. apply Hl, Hi, Ha. Qed.

Section Rebuild.

Variables (st st' : state) (pre mid mid' post : list blk) (fl : list Z)
          (L : list Z) (lo hi : Z).
Hypothesis R : Rep st (pre ++ mid ++ post) fl.
Hypothesis Hpre : layout (mcb st) pre lo.
Hypothesis Hmid : layout lo mid hi.
Hypothesis Hfr : span_frame lo hi L (mem st) (mem st').
Hypothesis HL : incl L (map b_addr (pre ++ mid ++ post)).

Lemma rebuild_post : layout hi post (endMem st).
Proof. exact (layout_mid _ _ _ _ _ _ _ (rep_layout _ _ _ R) Hpre Hmid). Qed.

(** The headers outside of the run are kept, the back link of the block
    that follows the run apart. *)
Lemma rebuild_hdr_keep (c : blk) (k : Z) :
  In c (pre ++ post) -> k = 0 \/ k = 8 \/ k = 12 ->
  b_addr c + k <> hi ->
  mem st' (b_addr c + k) = mem st (b_addr c + k).
Proof.
  intros Hc Hk Hne. apply Hfr.
  - apply in_app_or in Hc. destruct Hc as [Hc | Hc].
    + pose proof (layout_in _ _ _ _ Hpre Hc). lia.
    + pose proof (layout_in _ _ _ _ rebuild_post Hc). lia.
  - intros a Ha. eapply hdr_cell_not_link.
    + eapply layout_sepl, (rep_layout _ _ _ R).
    + apply in_map. apply in_app_or in Hc. rewrite !in_app_iff. tauto.
    + exact Hk.
    + apply HL, Ha.
Qed.

Lemma rebuild_size_keep (a : Z) :
  In a (map b_addr (pre ++ post)) -> get_size st' a = get_size st a.
Proof.
  intros Ha. apply in_map_iff in Ha. destruct Ha as (c & <- & Hc).
  cells. apply rebuild_hdr_keep; [exact Hc | lia |].
  pose proof (layout_le _ _ _ Hmid).
  apply in_app_or in Hc. destruct Hc as [Hc | Hc].
  - pose proof (layout_in _ _ _ _ Hpre Hc). lia.
  - pose proof (layout_in _ _ _ _ rebuild_post Hc). lia.
Qed.

Hypothesis HLfree : forall a, In a L -> In a fl \/ (lo <= a /\ a + 32 <= hi).

(** The payloads of the blocks in use outside of the run are kept. *)
Lemma rebuild_payload_keep (x : Z) :
  in_used_payload (pre ++ post) x -> mem st' x = mem st x.
Proof.
  intros (c & Hc & Hu & Hx).
  assert (Hc' : In c (pre ++ mid ++ post)).
  { apply in_app_or in Hc. rewrite !in_app_iff. tauto. }
  assert (Hxo : x < lo \/ hi < x).
  { apply in_app_or in Hc. destruct Hc as [Hc | Hc].
    - pose proof (layout_in _ _ _ _ Hpre Hc). lia.
    - pose proof (layout_in _ _ _ _ rebuild_post Hc). lia. }
  apply Hfr; [exact Hxo|].
  intros a Ha. destruct (HLfree a Ha) as [Hf | Hs]; [| lia].
  eapply used_payload_not_link; eauto. exists c. auto.
Qed.

Hypothesis Hmid' : layout lo mid' hi.
Hypothesis Hlt : lo < hi.
Hypothesis Hmcb : mcb st' = mcb st.
Hypothesis Hend : endMem st' = endMem st.
Hypothesis Hh : hdrs (mem st') (last (map b_addr pre) NULL) mid'.
Hypothesis Hmg : forall b, In b mid' -> b_magic b = MAGIC_USED \/ b_magic b = MAGIC_FREE.
Hypothesis Hnext : post <> [] ->
  mem st' hi = last (map b_addr mid') (last (map b_addr pre) NULL).

Variable fl' : list Z.
Hypothesis Hl : lseg (mem st') NULL (freelist st') fl' NULL.
Hypothesis Hnd : NoDup fl'.
Hypothesis Hfree : forall a, In a fl' <-> In a (free_addrs (pre ++ mid' ++ post)).
Hypothesis Hdesc : desc (get_size st') fl'.

Lemma Rep_rebuild : Rep st' (pre ++ mid' ++ post) fl'.
Proof.
  pose proof rebuild_post as Hpost.
  constructor; rewrite ?Hmcb, ?Hend.
  - intros E. apply app_eq_nil in E. destruct E as [_ E].
    apply app_eq_nil in E. destruct E as [E _]. subst mid'. simpl in Hmid'. lia.
  - apply (rep_base _ _ _ R).
  - apply (rep_len _ _ _ R).
  - apply layout_app. exists lo. split; [exact Hpre|].
    apply layout_app. exists hi. split; assumption.
  - eapply (hdrs_replace (mem st) _ pre mid).
    + exact (rep_hdrs _ _ _ R).
    + intros c Hc. pose proof (layout_in _ _ _ _ Hpre Hc).
      rewrite <- (Z.add_0_r (b_addr c)) at 1 2.
      split_all; apply rebuild_hdr_keep; try lia; apply in_or_app; auto.
    + exact Hh.
    + intros c Hc. pose proof (layout_in _ _ _ _ Hpost Hc).
      split; apply rebuild_hdr_keep; try lia; apply in_or_app; auto.
    + intros c Hc. pose proof (layout_tl _ _ _ _ Hpost Hc).
      rewrite <- (Z.add_0_r (b_addr c)).
      apply rebuild_hdr_keep; try lia. apply in_or_app. right.
      destruct post; simpl in Hc |- *; auto.
    + intros c r E. rewrite E in Hpost. simpl in Hpost.
      destruct Hpost as (Ec & _). rewrite Ec. apply Hnext. rewrite E. discriminate.
  - intros b Hb. apply in_app_or in Hb. destruct Hb as [Hb | Hb].
    + apply (rep_magic _ _ _ R). apply in_or_app. auto.
    + apply in_app_or in Hb. destruct Hb as [Hb | Hb]; [auto|].
      apply (rep_magic _ _ _ R). rewrite !in_app_iff. auto.
  - exact Hl.
  - exact Hnd.
  - exact Hfree.
  - exact Hdesc.
Qed.

End Rebuild.

(** *** memFree *)

Lemma frameL_hdr (L U : list Z) (mm mm' : memory) (c k : Z) :
  frameL L mm mm' -> sepl U -> incl L U -> In c U ->
  k = 0 \/ k = 8 \/ k = 12 -> mm' (c + k) = mm (c + k).
Proof.
  intros Hf Hs Hi Hc Hk. apply Hf. intros a Ha.
  eapply hdr_cell_not_link; eauto.
Qed.

Lemma frameL_hdr0 (L U : list Z) (mm mm' : memory) (c : Z) :
  frameL L mm mm' -> sepl U -> incl L U -> In c U -> mm' c = mm c.
Proof.
  intros Hf Hs Hi Hc. rewrite <- (Z.add_0_r c). eapply frameL_hdr; eauto.
Qed.

Lemma mark_free_mem (st : state) (m : Z) :
  mem (mark_free st m) =
  upd (upd (upd (mem st) (m + 8) MAGIC_FREE) (m + 16) NULL) (m + 24) NULL.
Proof. unfold mark_free. cells. reflexivity. Qed.

Lemma mark_free_globals (st : state) (m : Z) :
  mcb (mark_free st m) = mcb st /\ endMem (mark_free st m) = endMem st /\
  freelist (mark_free st m) = freelist st.
Proof. unfold mark_free. cells. auto. Qed.

(** The block before [m] is in use, or [m] is the first block: [m] joins
    the free list as it is. *)
Lemma memFree_prev_keep (fuel : nat) (st : state) (pre post : list blk)
      (fl : list Z) (m S : Z) :
  Rep st (pre ++ (m, S, MAGIC_USED) :: post) fl ->
  (forall pre' q, pre = pre' ++ [q] -> b_magic q <> MAGIC_FREE) ->
  (length fl < fuel)%nat ->
  exists st1,
    memFree_prev fuel (mark_free st m) m = Ok (st1, m) /\
    Rep st1 (pre ++ (m, S, MAGIC_FREE) :: post) (ins (get_size st1) m fl) /\
    (forall x, in_used_payload (pre ++ post) x -> mem st1 x = mem st x) /\
    mcb st1 = mcb st /\ endMem st1 = endMem st.
Proof.
  intros R Hprev Hfuel.
  pose proof (Rep_block_hdr _ _ _ _ _ R) as (Hp & Hg & Hs).
  pose proof (Rep_block_bounds _ _ _ (m, S, MAGIC_USED) R
                ltac:(apply in_or_app; simpl; auto)) as (Hm0 & HS & Hlo & Hhi).
  unfold b_addr, b_size, b_magic in Hp, Hg, Hs, Hm0, HS, Hlo, Hhi.
  simpl in Hp, Hg, Hs, Hm0, HS, Hlo, Hhi.
  pose proof (rep_layout _ _ _ R) as Hlay.
  pose proof (layout_sepl _ _ _ Hlay) as HsepU.
  set (U := map b_addr (pre ++ (m, S, MAGIC_USED) :: post)) in *.
  assert (HmU : In m U).
  { unfold U. rewrite map_app. apply in_or_app. simpl. auto. }
  assert (HflU : incl fl U).
  { intros a Ha. eapply Rep_fl_addr; eauto. }
  assert (Hmfl : ~ In m fl).
  { intros Hin. apply (rep_free _ _ _ R) in Hin. apply in_free_addrs in Hin.
    destruct Hin as (s & Hin).
    pose proof (layout_nodup _ _ _ Hlay) as Hnd.
    destruct (layout_disjoint _ _ _ _ (m, S, MAGIC_USED) Hlay Hin
                ltac:(apply in_or_app; simpl; auto)) as [E | D].
    - inversion E.
    - pose proof (layout_in _ _ _ _ Hlay Hin) as B.
      unfold b_addr, b_size in D, B. simpl in D, B. lia. }
  assert (Hfar : forall a, In a fl -> far a m).
  { intros a Ha. destruct (HsepU a m (HflU a Ha) HmU) as [-> | F];
      [contradiction | exact F]. }
  pose proof (mark_free_mem st m) as Hm0mem.
  destruct (mark_free_globals st m) as (Hmcb0 & Hend0 & Hfl0).
  remember (mark_free st m) as st0 eqn:Est0. clear Est0.
  (* the condition of the merge is false *)
  assert (Hcond : negb (get_prev st0 m =? NULL)
                  && (get_magic st0 (get_prev st0 m) =? MAGIC_FREE) = false).
  { cells. rewrite Hm0mem. upd_simpl. rewrite Hp.
    destruct (exists_last_or_nil pre) as [-> | (pre' & q & ->)].
    - reflexivity.
    - rewrite last_map_snoc.
      apply layout_split in Hlay. destruct Hlay as (_ & _ & _ & Hpre & _).
      specialize (Hpre q ltac:(apply in_or_app; simpl; auto)).
      change (b_addr (m, S, MAGIC_USED)) with m in Hpre.
      upd_simpl.
      pose proof (hdrs_in _ _ _ q (rep_hdrs _ _ _ R)
                    ltac:(rewrite !in_app_iff; simpl; auto)) as [Hq _].
      rewrite Hq. apply andb_false_intro2. apply Z.eqb_neq. eauto. }
  unfold memFree_prev. rewrite Hcond.
  destruct (insertFree_spec fuel st0 m fl) as (st1 & E1 & Hl1 & Hfr1 & Hmcb1 & Hend1).
  { rewrite Hfl0. eapply lseg_frame; [| exact (rep_links _ _ _ R)].
    intros a Ha. pose proof (Hfar a Ha) as F. unfold far in F.
    rewrite Hm0mem. split; upd_tac. }
  { exact (rep_nodup _ _ _ R). }
  { eapply sepl_incl; [| exact HsepU]. intros a [<- | Ha]; auto. }
  { exact Hmfl. }
  { unfold NULL. lia. }
  { exact Hfuel. }
  rewrite E1. cbn [bind]. exists st1. split; [reflexivity|].
  assert (HLU : incl (m :: fl) U) by (intros a [<- | Ha]; auto).
  assert (Hsp : span_frame m (m + 16 + S) (m :: fl) (mem st) (mem st1)).
  { eapply span_frame_trans; [| eapply span_frame_frameL; [exact Hfr1 | apply incl_refl]].
    rewrite Hm0mem.
    repeat (eapply span_frame_trans; [| apply span_frame_upd; lia]).
    apply span_frame_refl. }
  assert (Hpre : layout (mcb st) pre m /\ layout m [(m, S, MAGIC_USED)] (m + 16 + S)).
  { apply layout_split in Hlay. destruct Hlay as (H1 & _). split; [exact H1|].
    simpl. unfold b_addr, b_size. simpl. split_all; auto; lia. }
  destruct Hpre as (Hpre & Hmid).
  assert (Hsz : forall a, In a (m :: fl) -> get_size st1 a = get_size st0 a).
  { intros a Ha. cells. eapply frameL_hdr; eauto. }
  assert (Hsz0 : forall a, In a fl -> get_size st0 a = get_size st a).
  { intros a Ha. cells. rewrite Hm0mem. pose proof (Hfar a Ha) as F. unfold far in F.
    upd_tac. }
  change (pre ++ (m, S, MAGIC_USED) :: post)
    with (pre ++ [(m, S, MAGIC_USED)] ++ post) in R.
  split_all.
  - change (pre ++ (m, S, MAGIC_FREE) :: post)
      with (pre ++ [(m, S, MAGIC_FREE)] ++ post).
    eapply (Rep_rebuild st st1 pre [(m, S, MAGIC_USED)] [(m, S, MAGIC_FREE)] post fl
                        (m :: fl) m (m + 16 + S) R Hpre Hmid Hsp).
    + exact HLU.
    + simpl. unfold b_addr, b_size. simpl. split_all; auto; lia.
    + lia.
    + congruence.
    + congruence.
    + simpl. unfold b_addr, b_size, b_magic. simpl.
      rewrite (frameL_hdr0 _ U _ _ m Hfr1), (frameL_hdr _ U _ _ m 8 Hfr1),
        (frameL_hdr _ U _ _ m 12 Hfr1); auto.
      rewrite Hm0mem. split_all; auto; upd_tac.
    + intros b [<- | []]. right. reflexivity.
    + intros Hne. simpl. unfold b_addr at 1. simpl.
      destruct post as [| c r]; [contradiction|].
      pose proof (rebuild_post st pre [(m, S, MAGIC_USED)] (c :: r) fl m (m + 16 + S)
                    R Hpre Hmid) as Hpost.
      simpl in Hpost. destruct Hpost as (Ec & Sc & _).
      assert (HcU : In (m + 16 + S) U).
      { rewrite <- Ec. unfold U. apply in_map. rewrite !in_app_iff. simpl. auto. }
      rewrite (frameL_hdr0 _ U _ _ _ Hfr1); auto.
      rewrite Hm0mem. upd_simpl.
      pose proof (rep_hdrs _ _ _ R) as Hh. apply hdrs_app in Hh. destruct Hh as [_ Hh].
      simpl in Hh. rewrite <- Ec. unfold b_addr at 2 in Hh. simpl in Hh. tauto.
    + erewrite ins_ext; [exact Hl1 | |]; intros; apply Hsz; simpl; auto.
    + apply NoDup_ins; [exact (rep_nodup _ _ _ R) | exact Hmfl].
    + intros a. rewrite in_ins. rewrite (rep_free _ _ _ R a).
      rewrite !free_addrs_app. change (free_addrs [(m, S, MAGIC_USED)]) with (@nil Z).
      change (free_addrs [(m, S, MAGIC_FREE)]) with [m].
      rewrite !in_app_iff. simpl. intuition.
    + apply desc_ins. eapply desc_ext; [| exact (rep_desc _ _ _ R)].
      intros a Ha. rewrite Hsz by (simpl; auto). apply Hsz0, Ha.
  - apply (rebuild_payload_keep st st1 pre [(m, S, MAGIC_USED)] post fl
              (m :: fl) m (m + 16 + S) R Hpre Hmid Hsp).
    intros a [<- | Ha]; [right; lia | left; exact Ha].
  - congruence.
  - congruence.
Qed.

(** The free addresses other than those of a run lie in the rest. *)
Lemma fl_outside_run (st : state) (pre mid post : list blk) (fl : list Z) (a : Z) :
  Rep st (pre ++ mid ++ post) fl -> In a fl -> ~ In a (free_addrs mid) ->
  In a (map b_addr (pre ++ post)) /\ In a (free_addrs (pre ++ post)).
Proof.
  intros R Ha Hn. apply (rep_free _ _ _ R) in Ha.
  rewrite !free_addrs_app, !in_app_iff in Ha.
  assert (H : In a (free_addrs (pre ++ post))).
  { rewrite free_addrs_app, in_app_iff. tauto. }
  split; [apply free_addrs_incl; exact H | exact H].
Qed.

(** The block before [m] is free: it absorbs [m]. *)
Lemma memFree_prev_merge (fuel : nat) (st : state) (pre post : list blk)
      (fl : list Z) (p P m S : Z) :
  Rep st (pre ++ (p, P, MAGIC_FREE) :: (m, S, MAGIC_USED) :: post) fl ->
  (length fl < fuel)%nat ->
  exists st1,
    memFree_prev fuel (mark_free st m) m = Ok (st1, p) /\
    Rep st1 (pre ++ (p, P + 16 + S, MAGIC_FREE) :: post)
        (ins (get_size st1) p (rem p fl)) /\
    (forall x, in_used_payload (pre ++ post) x -> mem st1 x = mem st x) /\
    mcb st1 = mcb st /\ endMem st1 = endMem st.
Proof.
  intros R Hfuel.
  change (pre ++ (p, P, MAGIC_FREE) :: (m, S, MAGIC_USED) :: post)
    with (pre ++ [(p, P, MAGIC_FREE); (m, S, MAGIC_USED)] ++ post) in R.
  set (mid := [(p, P, MAGIC_FREE); (m, S, MAGIC_USED)]) in *.
  pose proof (rep_layout _ _ _ R) as Hlay.
  pose proof (layout_sepl _ _ _ Hlay) as HsepU.
  set (U := map b_addr (pre ++ mid ++ post)) in *.
  destruct (proj1 (layout_app _ _ _ _) Hlay) as (lo & Hpre & Hlay2).
  destruct (proj1 (layout_app _ _ _ _) Hlay2) as (hi & Hmid & Hpost).
  pose proof Hmid as Hmid0. simpl in Hmid0. unfold b_addr, b_size in Hmid0.
  simpl in Hmid0. destruct Hmid0 as (Elo & HP & Em & HS & Ehi).
  subst lo. symmetry in Ehi. rewrite <- Em in Ehi.
  pose proof (layout_le _ _ _ Hpre) as Hle1. pose proof (layout_le _ _ _ Hpost) as Hle2.
  pose proof (rep_base _ _ _ R) as Hbase. pose proof (rep_len _ _ _ R) as Hlen.
  unfold INT_MAX in Hlen.
  pose proof (rep_hdrs _ _ _ R) as Hh. apply hdrs_app in Hh. destruct Hh as [_ Hh].
  apply hdrs_app in Hh. destruct Hh as [Hh Hhpost].
  simpl in Hh. unfold b_addr, b_size, b_magic in Hh. simpl in Hh.
  destruct Hh as (Hp0 & Hp8 & Hp12 & Hm0 & Hm8 & Hm12 & _).
  assert (HpU : In p U /\ In m U).
  { unfold U, mid. rewrite !map_app, !in_app_iff. simpl.
    split; [right; left; left | right; left; right; left]; reflexivity. }
  destruct HpU as [HpU HmU].
  assert (HflU : incl fl U) by (intros a Ha; eapply Rep_fl_addr; eauto).
  assert (Hpfl : In p fl).
  { apply (rep_free _ _ _ R). rewrite !free_addrs_app, !in_app_iff.
    right. left. simpl. auto. }
  assert (Hother : forall a, In a fl -> a <> p ->
                             In a (map b_addr (pre ++ post)) /\ (a + 32 <= p \/ hi <= a)).
  { intros a Ha Hne.
    destruct (fl_outside_run _ _ _ _ _ a R Ha) as [Hin _].
    { unfold mid, free_addrs. simpl. intros [E | []].
      unfold b_addr in E. simpl in E. congruence. }
    split; [exact Hin|]. apply in_map_iff in Hin. destruct Hin as (c & <- & Hc).
    apply in_app_or in Hc. destruct Hc as [Hc | Hc].
    - pose proof (layout_in _ _ _ _ Hpre Hc). lia.
    - pose proof (layout_in _ _ _ _ Hpost Hc). lia. }
  pose proof (mark_free_mem st m) as Hm0mem.
  destruct (mark_free_globals st m) as (Hmcb0 & Hend0 & Hfl0).
  remember (mark_free st m) as st0 eqn:Est0. clear Est0.
  unfold memFree_prev. cells. rewrite Hm0mem. upd_simpl.
  rewrite Hm0, Hp8.
  destruct (Z.eqb_spec p NULL) as [E | _]; [unfold NULL in E; lia|].
  rewrite Z.eqb_refl. cbn [negb andb]. cbv iota.
  upd_simpl. rewrite ?Hm0, ?Hp12, ?Hm12.
  rewrite (u64_id P), (u64_id S) by lia. rewrite u64_id by lia.
  rewrite wrap32_id by (unfold in_int, INT_MIN, INT_MAX; lia).
  set (E := upd (upd (upd (upd (upd (mem st) (m + 8) MAGIC_FREE) (m + 16) NULL)
                            (m + 24) NULL) (m + 8) 0) (p + 12) (P + (S + 16))).
  set (bp := match post with [] => true | _ => false end).
  assert (Hhi : if bp then hi = endMem st else hi + 32 <= endMem st).
  { unfold bp. destruct post as [| c r]; simpl in Hpost; [exact Hpost|].
    destruct Hpost as (_ & Sc & Hr). apply layout_le in Hr. lia. }
  match goal with |- context [mcbNext ?s m] =>
    assert (Hmn : mcbNext s m = if bp then NULL else hi) end.
  { unfold mcbNext. cells. unfold E. upd_simpl. rewrite Hm12, Hend0, <- Ehi.
    destruct bp; [rewrite Hhi, Z.eqb_refl; reflexivity|].
    destruct (Z.eqb_spec hi (endMem st)); [lia | reflexivity]. }
  rewrite Hmn.
  assert (Hnx : ((if bp then NULL else hi) =? NULL) = bp).
  { destruct bp; [reflexivity | apply Z.eqb_neq; unfold NULL; lia]. }
  rewrite Hnx.
  match goal with |- context [removeFree ?s _] => set (st0c := s) end.
  assert (Hmem0c : mem st0c = if bp then E else upd E hi p).
  { unfold st0c. destruct bp; reflexivity. }
  assert (Hg0c : mcb st0c = mcb st /\ endMem st0c = endMem st /\
                 freelist st0c = freelist st).
  { unfold st0c. destruct bp; simpl; auto. }
  destruct Hg0c as (Hmcb0c & Hend0c & Hfl0c).
  clearbody st0c. clear Hmn Hnx.
  assert (Hpm : mem st0c m = p).
  { rewrite Hmem0c. unfold E. destruct bp; upd_simpl; exact Hm0. }
  rewrite Hpm.
  (* the free list before the two list operations *)
  assert (Hl0c : lseg (mem st0c) NULL (freelist st0c) fl NULL).
  { rewrite Hfl0c. eapply lseg_frame; [| exact (rep_links _ _ _ R)].
    intros a Ha. rewrite Hmem0c. unfold E.
    destruct (Z.eq_dec a p) as [-> | Hne].
    - destruct bp; split; upd_tac.
    - destruct (Hother a Ha Hne) as [_ O]. destruct bp; split; upd_tac. }
  destruct (removeFree_spec st0c p fl Hl0c (rep_nodup _ _ _ R)
              (sepl_incl _ _ HflU HsepU) Hpfl)
    as (Hl2 & Hfr2 & _ & _ & Hmcb2 & Hend2).
  remember (removeFree st0c p) as st2 eqn:Est2. clear Est2.
  destruct (insertFree_spec fuel st2 p (rem p fl)) as (st3 & E3 & Hl3 & Hfr3 & Hmcb3 & Hend3).
  { exact Hl2. }
  { apply NoDup_rem, (rep_nodup _ _ _ R). }
  { eapply sepl_incl; [| exact HsepU].
    intros a [<- | Ha]; [exact HpU|]. apply in_rem in Ha. apply HflU. tauto. }
  { rewrite in_rem. tauto. }
  { unfold NULL. lia. }
  { pose proof (length_rem p fl). lia. }
  rewrite E3. cbn [bind]. exists st3. split; [reflexivity|].
  assert (Hfr23 : frameL fl (mem st0c) (mem st3)).
  { eapply frameL_trans; [exact Hfr2|]. eapply frameL_incl; [| exact Hfr3].
    intros a [<- | Ha]; [exact Hpfl|]. apply in_rem in Ha. tauto. }
  assert (Hsp : span_frame p hi fl (mem st) (mem st3)).
  { eapply span_frame_trans; [| eapply span_frame_frameL; [exact Hfr23 | apply incl_refl]].
    rewrite Hmem0c. unfold E.
    destruct bp;
      repeat (eapply span_frame_trans; [| apply span_frame_upd; lia]);
      apply span_frame_refl. }
  assert (Hcell : forall c k, In c U -> k = 0 \/ k = 8 \/ k = 12 ->
                              mem st3 (c + k) = mem st0c (c + k)).
  { intros c k Hc Hk. eapply frameL_hdr; eauto. }
  assert (Hsz3 : forall a, In a (rem p fl) -> get_size st3 a = get_size st a).
  { intros a Ha. apply in_rem in Ha. destruct Ha as [Ha Hne].
    destruct (Hother a Ha Hne) as [Hin _].
    apply (rebuild_size_keep st st3 pre mid post fl fl p hi R Hpre Hmid Hsp HflU a Hin). }
  change (pre ++ (p, P + 16 + S, MAGIC_FREE) :: post)
    with (pre ++ [(p, P + 16 + S, MAGIC_FREE)] ++ post).
  split_all.
  - eapply (Rep_rebuild st st3 pre mid [(p, P + 16 + S, MAGIC_FREE)] post fl
                        fl p hi R Hpre Hmid Hsp).
    + exact HflU.
    + simpl. unfold b_addr, b_size. simpl. split_all; auto; lia.
    + lia.
    + congruence.
    + congruence.
    + simpl. unfold b_addr, b_size, b_magic. simpl.
      pose proof (Hcell p 0 HpU ltac:(lia)) as C0. rewrite Z.add_0_r in C0.
      rewrite C0, (Hcell p 8 HpU), (Hcell p 12 HpU) by lia.
      rewrite Hmem0c. unfold E.
      split_all; auto; destruct bp; upd_simpl; auto; lia.
    + intros b [<- | []]. right. reflexivity.
    + intros Hne. simpl. unfold b_addr at 1. simpl.
      destruct post as [| c r]; [contradiction|].
      simpl in Hpost. destruct Hpost as (Ec & _).
      assert (HcU : In hi U).
      { rewrite <- Ec. unfold U. apply in_map. rewrite !in_app_iff. simpl. auto. }
      pose proof (Hcell hi 0 HcU ltac:(lia)) as C0. rewrite Z.add_0_r in C0.
      rewrite C0, Hmem0c. simpl. apply upd_same.
    + erewrite ins_ext; [exact Hl3 | |].
      * cells. eapply frameL_hdr; eauto.
        intros a [<- | Ha]; [exact HpU|]. apply in_rem in Ha. apply HflU. tauto.
      * intros a Ha. cells. eapply frameL_hdr; eauto.
        -- intros b [<- | Hb]; [exact HpU|]. apply in_rem in Hb. apply HflU. tauto.
        -- apply in_rem in Ha. apply HflU. tauto.
    + apply NoDup_ins; [apply NoDup_rem, (rep_nodup _ _ _ R) | rewrite in_rem; tauto].
    + intros a. rewrite in_ins, in_rem. rewrite (rep_free _ _ _ R a).
      rewrite !free_addrs_app. unfold mid.
      rewrite free_addrs_cons_free, free_addrs_cons_free.
      change (free_addrs [(m, S, MAGIC_USED)]) with (@nil Z).
      change (free_addrs []) with (@nil Z).
      rewrite !in_app_iff. simpl.
      destruct (Z.eq_dec a p); intuition.
    + apply desc_ins. eapply desc_ext; [| apply desc_rem, (rep_desc _ _ _ R)].
      exact Hsz3.
  - apply (rebuild_payload_keep st st3 pre mid post fl fl p hi R Hpre Hmid Hsp).
    intros a Ha. left. exact Ha.
  - congruence.
  - congruence.
Qed.

Lemma mcbNext_eq (st : state) (m S : Z) :
  get_size st m = S ->
  mcbNext st m = if m + 16 + S =? endMem st then NULL else m + 16 + S.
Proof. intros <-. unfold mcbNext. cells. reflexivity. Qed.

(** The block after [w] is in use, or [w] is the last block: nothing to
    merge. *)
Lemma memFree_next_keep (fuel : nat) (st : state) (pre post : list blk)
      (fl : list Z) (w W g : Z) :
  Rep st (pre ++ (w, W, g) :: post) fl ->
  (forall c r, post = c :: r -> b_magic c <> MAGIC_FREE) ->
  memFree_next fuel st w = Ok st.
Proof.
  intros R Hnext.
  pose proof (Rep_block_hdr _ _ _ _ _ R) as (_ & _ & Hs).
  unfold b_addr, b_size in Hs. simpl in Hs.
  pose proof (rep_layout _ _ _ R) as Hlay.
  apply layout_split in Hlay. destruct Hlay as (_ & _ & Hpost & _).
  unfold b_addr, b_size in Hpost. simpl in Hpost.
  unfold memFree_next. rewrite (mcbNext_eq st w W) by exact Hs.
  destruct post as [| c r].
  - simpl in Hpost. rewrite Hpost, Z.eqb_refl. reflexivity.
  - simpl in Hpost. destruct Hpost as (Ec & Sc & Hr). apply layout_le in Hr.
    destruct (Z.eqb_spec (w + 16 + W) (endMem st)); [lia|].
    destruct (Z.eqb_spec (w + 16 + W) NULL); [reflexivity|]. cbn [negb andb].
    pose proof (hdrs_in _ _ _ c (rep_hdrs _ _ _ R)
                  ltac:(rewrite in_app_iff; simpl; auto)) as [Hc _].
    cells. rewrite <- Ec, Hc.
    destruct (Z.eqb_spec (b_magic c) MAGIC_FREE) as [E | _]; [| reflexivity].
    exfalso. exact (Hnext c r eq_refl E).
Qed.

(** The block after [w] is free: [w] absorbs it. *)
Lemma memFree_next_merge (fuel : nat) (st : state) (pre post : list blk)
      (fl : list Z) (w W x X : Z) :
  Rep st (pre ++ (w, W, MAGIC_FREE) :: (x, X, MAGIC_FREE) :: post) fl ->
  (length fl < fuel)%nat ->
  exists st3,
    memFree_next fuel st w = Ok st3 /\
    Rep st3 (pre ++ (w, W + 16 + X, MAGIC_FREE) :: post)
        (ins (get_size st3) w (rem w (rem x fl))) /\
    (forall y, in_used_payload (pre ++ post) y -> mem st3 y = mem st y) /\
    mcb st3 = mcb st /\ endMem st3 = endMem st.
Proof.
  intros R Hfuel.
  change (pre ++ (w, W, MAGIC_FREE) :: (x, X, MAGIC_FREE) :: post)
    with (pre ++ [(w, W, MAGIC_FREE); (x, X, MAGIC_FREE)] ++ post) in R.
  set (mid := [(w, W, MAGIC_FREE); (x, X, MAGIC_FREE)]) in *.
  pose proof (rep_layout _ _ _ R) as Hlay.
  pose proof (layout_sepl _ _ _ Hlay) as HsepU.
  set (U := map b_addr (pre ++ mid ++ post)) in *.
  destruct (proj1 (layout_app _ _ _ _) Hlay) as (lo & Hpre & Hlay2).
  destruct (proj1 (layout_app _ _ _ _) Hlay2) as (hi & Hmid & Hpost).
  pose proof Hmid as Hmid0. simpl in Hmid0. unfold b_addr, b_size in Hmid0.
  simpl in Hmid0. destruct Hmid0 as (Elo & HW & Ex & HX & Ehi).
  subst lo. symmetry in Ehi. rewrite <- Ex in Ehi.
  pose proof (layout_le _ _ _ Hpre) as Hle1. pose proof (layout_le _ _ _ Hpost) as Hle2.
  pose proof (rep_base _ _ _ R) as Hbase. pose proof (rep_len _ _ _ R) as Hlen.
  unfold INT_MAX in Hlen.
  pose proof (rep_hdrs _ _ _ R) as Hh. apply hdrs_app in Hh. destruct Hh as [_ Hh].
  apply hdrs_app in Hh. destruct Hh as [Hh Hhpost].
  simpl in Hh. unfold b_addr, b_size, b_magic in Hh. simpl in Hh.
  destruct Hh as (Hw0 & Hw8 & Hw12 & Hx0 & Hx8 & Hx12 & _).
  assert (HwU : In w U /\ In x U).
  { unfold U, mid. rewrite !map_app, !in_app_iff. simpl.
    split; [right; left; left | right; left; right; left]; reflexivity. }
  destruct HwU as [HwU HxU].
  assert (HflU : incl fl U) by (intros a Ha; eapply Rep_fl_addr; eauto).
  assert (Hwfl : In w fl /\ In x fl).
  { split; apply (rep_free _ _ _ R); rewrite !free_addrs_app, !in_app_iff;
      right; left; simpl; auto. }
  destruct Hwfl as [Hwfl Hxfl].
  assert (Hother : forall a, In a fl -> a <> w -> a <> x ->
                             In a (map b_addr (pre ++ post)) /\ (a + 32 <= w \/ hi <= a)).
  { intros a Ha Hne1 Hne2.
    destruct (fl_outside_run _ _ _ _ _ a R Ha) as [Hin _].
    { unfold mid, free_addrs. simpl. intros [E | [E | []]];
        unfold b_addr in E; simpl in E; congruence. }
    split; [exact Hin|]. apply in_map_iff in Hin. destruct Hin as (c & <- & Hc).
    apply in_app_or in Hc. destruct Hc as [Hc | Hc].
    - pose proof (layout_in _ _ _ _ Hpre Hc). lia.
    - pose proof (layout_in _ _ _ _ Hpost Hc). lia. }
  unfold memFree_next. rewrite (mcbNext_eq st w W) by exact Hw12.
  rewrite <- Ex.
  destruct (Z.eqb_spec x (endMem st)); [lia|].
  destruct (Z.eqb_spec x NULL) as [E | _]; [unfold NULL in E; lia|].
  change (get_magic st x) with (mem st (x + 8)). rewrite Hx8, Z.eqb_refl.
  cbn [negb andb]. cbv iota.
  (* the successor leaves the free list *)
  destruct (removeFree_spec st x fl (rep_links _ _ _ R) (rep_nodup _ _ _ R)
              (sepl_incl _ _ HflU HsepU) Hxfl)
    as (Hl1 & Hfr1 & _ & _ & Hmcb1 & Hend1).
  remember (removeFree st x) as st1 eqn:Est1. clear Est1.
  assert (Hcell1 : forall c k, In c U -> k = 0 \/ k = 8 \/ k = 12 ->
                               mem st1 (c + k) = mem st (c + k)).
  { intros c k Hc Hk. eapply frameL_hdr; eauto. }
  cells.
  rewrite (upd_other _ _ _ (w + 12)) by lia.
  rewrite (upd_other _ _ _ (x + 12)) by lia.
  rewrite (Hcell1 w 12 HwU), (Hcell1 x 12 HxU), Hw12, Hx12 by lia.
  rewrite (u64_id W), (u64_id X) by lia. rewrite u64_id by lia.
  rewrite wrap32_id by (unfold in_int, INT_MIN, INT_MAX; lia).
  set (E := upd (upd (mem st1) (x + 8) 0) (w + 12) (W + (16 + X))).
  set (bp := match post with [] => true | _ => false end).
  assert (Hhi : if bp then hi = endMem st else hi + 32 <= endMem st).
  { unfold bp. destruct post as [| c r]; simpl in Hpost; [exact Hpost|].
    destruct Hpost as (_ & Sc & Hr). apply layout_le in Hr. lia. }
  match goal with |- context [mcbNext ?s x] =>
    assert (Hmn : mcbNext s x = if bp then NULL else hi) end.
  { rewrite (mcbNext_eq _ x X).
    - cbn [endMem]. rewrite Hend1, <- Ehi.
      destruct bp; [rewrite Hhi, Z.eqb_refl; reflexivity|].
      destruct (Z.eqb_spec hi (endMem st)); [lia | reflexivity].
    - cells. unfold E. upd_simpl. rewrite (Hcell1 x 12 HxU) by lia. exact Hx12. }
  rewrite Hmn.
  assert (Hnx : ((if bp then NULL else hi) =? NULL) = bp).
  { destruct bp; [reflexivity | apply Z.eqb_neq; unfold NULL; lia]. }
  rewrite Hnx.
  match goal with |- context [removeFree ?s w] => set (st1c := s) end.
  assert (Hmem1c : mem st1c = if bp then E else upd E hi w).
  { unfold st1c. destruct bp; reflexivity. }
  assert (Hg1c : mcb st1c = mcb st /\ endMem st1c = endMem st /\
                 freelist st1c = freelist st1).
  { unfold st1c. destruct bp; simpl; auto. }
  destruct Hg1c as (Hmcb1c & Hend1c & Hfl1c).
  clearbody st1c. clear Hmn Hnx.
  assert (Hl1c : lseg (mem st1c) NULL (freelist st1c) (rem x fl) NULL).
  { rewrite Hfl1c. eapply lseg_frame; [| exact Hl1].
    intros a Ha. apply in_rem in Ha. destruct Ha as [Ha Hnx].
    rewrite Hmem1c. unfold E.
    destruct (Z.eq_dec a w) as [-> | Hne].
    - destruct bp; split; upd_tac.
    - destruct (Hother a Ha Hne Hnx) as [_ O]. destruct bp; split; upd_tac. }
  destruct (removeFree_spec st1c w (rem x fl) Hl1c) as (Hl2 & Hfr2 & _ & _ & Hmcb2 & Hend2).
  { apply NoDup_rem, (rep_nodup _ _ _ R). }
  { eapply sepl_incl; [| exact HsepU]. intros a Ha. apply in_rem in Ha.
    apply HflU. tauto. }
  { rewrite in_rem. split; [exact Hwfl | lia]. }
  remember (removeFree st1c w) as st2 eqn:Est2. clear Est2.
  assert (Hincl2 : incl (w :: rem w (rem x fl)) fl).
  { intros a [<- | Ha]; [exact Hwfl|]. apply in_rem in Ha. destruct Ha as [Ha _].
    apply in_rem in Ha. tauto. }
  destruct (insertFree_spec fuel st2 w (rem w (rem x fl)))
    as (st3 & E3 & Hl3 & Hfr3 & Hmcb3 & Hend3).
  { exact Hl2. }
  { apply NoDup_rem, NoDup_rem, (rep_nodup _ _ _ R). }
  { eapply sepl_incl; [| exact HsepU]. intros a Ha. apply HflU, Hincl2, Ha. }
  { rewrite in_rem. tauto. }
  { unfold NULL. lia. }
  { pose proof (length_rem w (rem x fl)). pose proof (length_rem x fl). lia. }
  rewrite E3. exists st3. split; [reflexivity|].
  assert (Hfr13 : frameL fl (mem st1c) (mem st3)).
  { eapply frameL_trans.
    - eapply frameL_incl; [| exact Hfr2]. intros a Ha. apply in_rem in Ha. tauto.
    - eapply frameL_incl; [| exact Hfr3]. exact Hincl2. }
  assert (Hsp : span_frame w hi fl (mem st) (mem st3)).
  { eapply span_frame_trans; [| eapply span_frame_frameL; [exact Hfr13 | apply incl_refl]].
    eapply span_frame_trans; [eapply span_frame_frameL; [exact Hfr1 | apply incl_refl] |].
    rewrite Hmem1c. unfold E.
    destruct bp;
      repeat (eapply span_frame_trans; [| apply span_frame_upd; lia]);
      apply span_frame_refl. }
  assert (Hcell : forall c k, In c U -> k = 0 \/ k = 8 \/ k = 12 ->
                              mem st3 (c + k) = mem st1c (c + k)).
  { intros c k Hc Hk. eapply frameL_hdr; eauto. }
  assert (Hsz3 : forall a, In a (rem w (rem x fl)) -> get_size st3 a = get_size st a).
  { intros a Ha. apply in_rem in Ha. destruct Ha as [Ha Hne].
    apply in_rem in Ha. destruct Ha as [Ha Hne2].
    destruct (Hother a Ha Hne Hne2) as [Hin _].
    apply (rebuild_size_keep st st3 pre mid post fl fl w hi R Hpre Hmid Hsp HflU a Hin). }
  change (pre ++ (w, W + 16 + X, MAGIC_FREE) :: post)
    with (pre ++ [(w, W + 16 + X, MAGIC_FREE)] ++ post).
  split_all.
  - eapply (Rep_rebuild st st3 pre mid [(w, W + 16 + X, MAGIC_FREE)] post fl
                        fl w hi R Hpre Hmid Hsp).
    + exact HflU.
    + simpl. unfold b_addr, b_size. simpl. split_all; auto; lia.
    + lia.
    + congruence.
    + congruence.
    + simpl. unfold b_addr, b_size, b_magic. simpl.
      pose proof (Hcell w 0 HwU ltac:(lia)) as C0. rewrite Z.add_0_r in C0.
      rewrite C0, (Hcell w 8 HwU), (Hcell w 12 HwU) by lia.
      rewrite Hmem1c. unfold E.
      pose proof (Hcell1 w 0 HwU ltac:(lia)) as D0. rewrite Z.add_0_r in D0.
      pose proof (Hcell1 w 8 HwU ltac:(lia)) as D8.
      split_all; auto; destruct bp; upd_simpl; try congruence; lia.
    + intros b [<- | []]. right. reflexivity.
    + intros Hne. simpl. unfold b_addr at 1. simpl.
      destruct post as [| c r]; [contradiction|].
      simpl in Hpost. destruct Hpost as (Ec & _).
      assert (HcU : In hi U).
      { rewrite <- Ec. unfold U. apply in_map. rewrite !in_app_iff. simpl. auto. }
      pose proof (Hcell hi 0 HcU ltac:(lia)) as C0. rewrite Z.add_0_r in C0.
      rewrite C0, Hmem1c. simpl. apply upd_same.
    + erewrite ins_ext; [exact Hl3 | |].
      * cells. eapply frameL_hdr; eauto. intros a Ha. apply HflU, Hincl2, Ha.
      * intros a Ha. cells. eapply frameL_hdr; eauto.
        -- intros b Hb. apply HflU, Hincl2, Hb.
        -- apply HflU, Hincl2. right. exact Ha.
    + apply NoDup_ins; [apply NoDup_rem, NoDup_rem, (rep_nodup _ _ _ R)|].
      rewrite in_rem. tauto.
    + intros a. rewrite in_ins, !in_rem. rewrite (rep_free _ _ _ R a).
      rewrite !free_addrs_app. unfold mid.
      rewrite !free_addrs_cons_free.
      change (free_addrs []) with (@nil Z).
      rewrite !in_app_iff. simpl.
      assert (Hnx : In x (free_addrs pre) \/ In x (free_addrs post) -> False).
      { intros Hin.
        assert (Hin' : In x (map b_addr (pre ++ post))).
        { apply free_addrs_incl. rewrite free_addrs_app, in_app_iff. exact Hin. }
        apply in_map_iff in Hin'. destruct Hin' as (c & Ec & Hc).
        apply in_app_or in Hc. destruct Hc as [Hc | Hc].
        - pose proof (layout_in _ _ _ _ Hpre Hc). lia.
        - pose proof (layout_in _ _ _ _ Hpost Hc). lia. }
      destruct (Z.eq_dec a w); destruct (Z.eq_dec a x); subst; intuition.
    + apply desc_ins. eapply desc_ext; [| apply desc_rem, desc_rem, (rep_desc _ _ _ R)].
      exact Hsz3.
  - apply (rebuild_payload_keep st st3 pre mid post fl fl w hi R Hpre Hmid Hsp).
    intros a Ha. left. exact Ha.
  - congruence.
  - congruence.
Qed.

End AllocatorSpecs.

(** ** Eager coalescing on the chain *)

Lemma no_adj_free_mid (pre post : list blk) (b : blk) :
  no_adj_free (pre ++ b :: post) <->
  no_adj_free pre /\ no_adj_free post /\
  (b_magic b = Mem.MAGIC_FREE -> last_not_free pre /\ head_not_free post).
Proof.
  assert (Hf : forall c, is_free c = true <-> b_magic c = Mem.MAGIC_FREE).
  { intros c. unfold is_free. apply Z.eqb_eq. }
  assert (Hhd : forall c r, head_not_free (c :: r) <-> b_magic c <> Mem.MAGIC_FREE).
  { intros c r. unfold head_not_free. split.
    - intros H. eapply H. reflexivity.
    - intros H c' r' E. inversion E; subst. exact H. }
  assert (Hnil : head_not_free []).
  { intros c r E. discriminate. }
  induction pre as [| a pre IH].
  - simpl. split.
    + intros [H1 H2]. split; [exact I|]. split; [exact H2|].
      intros Hb. split.
      * intros pre' q E. destruct pre'; discriminate.
      * destruct post as [| c r]; [exact Hnil|]. apply Hhd.
        intros Hc. apply H1. rewrite !Hf. auto.
    + intros (_ & H2 & H3). split; [| exact H2].
      destruct post as [| c r]; [exact I|].
      rewrite !Hf. intros [Hb Hc]. destruct (H3 Hb) as [_ H4].
      apply (H4 c r eq_refl). exact Hc.
  - destruct pre as [| a' pre'].
    + cbn [app no_adj_free] in *. rewrite IH. split.
      * intros (H1 & _ & H2 & H3). split_all; auto.
        intros Hb. destruct (H3 Hb) as [_ H4]. split; [| exact H4].
        intros l q E. destruct l as [| x l]; [| destruct l; discriminate].
        inversion E; subst. intros Ha. apply H1. rewrite !Hf. auto.
      * intros ((_ & _) & H2 & H3). split_all; auto.
        -- rewrite !Hf. intros [Ha Hb]. destruct (H3 Hb) as [H4 _].
           apply (H4 [] a eq_refl). exact Ha.
        -- intros Hb. destruct (H3 Hb) as [_ H4]. split; [| exact H4].
           intros l q E. destruct l; discriminate.
    + change ((a :: a' :: pre') ++ b :: post) with (a :: ((a' :: pre') ++ b :: post)).
      change (no_adj_free (a :: (a' :: pre') ++ b :: post))
        with (~ (is_free a = true /\ is_free a' = true)
              /\ no_adj_free ((a' :: pre') ++ b :: post)).
      change (no_adj_free (a :: a' :: pre'))
        with (~ (is_free a = true /\ is_free a' = true) /\ no_adj_free (a' :: pre')).
      rewrite IH. split.
      * intros (H1 & H2 & H3 & H4). split_all; auto.
        intros Hb. destruct (H4 Hb) as [H5 H6]. split; [| exact H6].
        intros l q E. destruct l as [| x l]; [discriminate|].
        inversion E; subst. eapply H5. eassumption.
      * intros ((H1 & H2) & H3 & H4). split_all; auto.
        intros Hb. destruct (H4 Hb) as [H5 H6]. split; [| exact H6].
        intros l q E. apply (H5 (a :: l) q). rewrite E. reflexivity.
Qed.

Lemma last_not_free_snoc (pre : list blk) (b : blk) :
  last_not_free (pre ++ [b]) <-> b_magic b <> Mem.MAGIC_FREE.
Proof.
  unfold last_not_free. split.
  - intros H. eapply H. reflexivity.
  - intros H l q E. apply app_inj_tail in E. destruct E as [_ <-]. exact H.
Qed.

Lemma head_not_free_cons (b : blk) (post : list blk) :
  head_not_free (b :: post) <-> b_magic b <> Mem.MAGIC_FREE.
Proof.
  unfold head_not_free. split.
  - intros H. eapply H. reflexivity.
  - intros H c r E. inversion E; subst. exact H.
Qed.

Lemma used_not_free : Mem.MAGIC_USED <> Mem.MAGIC_FREE.
Proof. discriminate. Qed.

Lemma alloc_step_no_adj (sz m : Z) (bs bs' : list blk) :
  alloc_step sz m bs bs' -> no_adj_free bs -> no_adj_free bs'.
Proof.
  intros [pre S post H1 H2 | pre S post H1] H.
  - apply no_adj_free_mid in H. apply no_adj_free_mid.
    destruct H as (Ha & Hb & _). split_all; auto.
    unfold b_magic. simpl. intros E. discriminate.
  - apply no_adj_free_mid in H. destruct H as (Ha & Hb & Hc).
    destruct (Hc eq_refl) as [Hl Hh].
    change (pre ++ (m, sz, Mem.MAGIC_USED) :: (m + 16 + sz, S - sz - 16, Mem.MAGIC_FREE) :: post)
      with (pre ++ [(m, sz, Mem.MAGIC_USED)] ++ (m + 16 + sz, S - sz - 16, Mem.MAGIC_FREE) :: post).
    rewrite app_assoc. apply no_adj_free_mid. split; [| split; [exact Hb|]].
    + apply no_adj_free_mid. split; [exact Ha|]. split; [exact I|].
      unfold b_magic. simpl. intros E. discriminate.
    + intros _. split; [| exact Hh].
      apply last_not_free_snoc. exact used_not_free.
Qed.

Lemma free_step_no_adj (m : Z) (bs bs' : list blk) :
  free_step m bs bs' -> no_adj_free bs -> no_adj_free bs'.
Proof.
  intros [pre S post H1 H2 | pre p P S post H1 | pre S x X post H1
          | pre p P S x X post] H.
  - apply no_adj_free_mid in H. apply no_adj_free_mid.
    destruct H as (Ha & Hb & _). auto.
  - apply no_adj_free_mid in H. destruct H as (Ha & Hb & Hc).
    destruct (Hc eq_refl) as [Hl _].
    apply (no_adj_free_mid []) in Hb. destruct Hb as (_ & Hb & _).
    apply no_adj_free_mid. auto.
  - change (pre ++ (m, S, Mem.MAGIC_USED) :: (x, X, Mem.MAGIC_FREE) :: post)
      with (pre ++ [(m, S, Mem.MAGIC_USED)] ++ (x, X, Mem.MAGIC_FREE) :: post) in H.
    rewrite app_assoc in H.
    apply no_adj_free_mid in H. destruct H as (Ha & Hb & Hc).
    destruct (Hc eq_refl) as [_ Hh].
    apply no_adj_free_mid in Ha. destruct Ha as (Ha & _ & _).
    apply no_adj_free_mid. auto.
  - apply no_adj_free_mid in H. destruct H as (Ha & Hb & Hc).
    destruct (Hc eq_refl) as [Hl _].
    apply (no_adj_free_mid [(m, S, Mem.MAGIC_USED)]) in Hb.
    destruct Hb as (_ & Hb & Hd). destruct (Hd eq_refl) as [_ Hh].
    apply no_adj_free_mid. auto.
Qed.

(** ** The payloads in use *)

Lemma in_used_payload_app (l1 l2 : list blk) (x : Z) :
  in_used_payload (l1 ++ l2) x <-> in_used_payload l1 x \/ in_used_payload l2 x.
Proof.
  unfold in_used_payload. split.
  - intros (b & Hb & H). apply in_app_or in Hb. destruct Hb; [left | right]; eauto.
  - intros [(b & Hb & H) | (b & Hb & H)]; exists b; rewrite in_app_iff; auto.
Qed.

Lemma in_used_payload_cons_free (a s : Z) (l : list blk) (x : Z) :
  in_used_payload ((a, s, Mem.MAGIC_FREE) :: l) x <-> in_used_payload l x.
Proof.
  unfold in_used_payload. split.
  - intros (b & [<- | Hb] & Hu & H); [discriminate Hu | eauto].
  - intros (b & Hb & H). exists b. simpl. auto.
Qed.

Lemma in_used_payload_cons (b : blk) (l : list blk) (x : Z) :
  in_used_payload l x -> in_used_payload (b :: l) x.
Proof. intros (c & Hc & H). exists c. simpl. auto. Qed.

Lemma in_used_payload_mid_free (pre post : list blk) (a s : Z) (x : Z) :
  in_used_payload (pre ++ (a, s, Mem.MAGIC_FREE) :: post) x <->
  in_used_payload (pre ++ post) x.
Proof. rewrite !in_used_payload_app, in_used_payload_cons_free. tauto. Qed.

Section AllocatorTop.
Import Mem.

(** *** memAlloc, all cases *)

Lemma memAlloc_spec (fuel : nat) (st : state) (bs : list blk) (fl : list Z)
      (size : Z) :
  Rep st bs fl -> 16 <= adjust size -> (S (length fl) < fuel)%nat ->
  (memAlloc fuel st size = Ok (NULL, st) /\
   (freelist st = NULL \/ get_size st (freelist st) < adjust size))
  \/
  (exists st' bs' fl',
     memAlloc fuel st size = Ok (freelist st + 16, st') /\
     adjust size <= get_size st (freelist st) /\
     In (freelist st) fl /\
     Rep st' bs' fl' /\
     alloc_step (adjust size) (freelist st) bs bs' /\
     (forall x, in_used_payload bs x -> mem st' x = mem st x) /\
     mem st' (freelist st + 16) = NULL /\
     mcb st' = mcb st /\ endMem st' = endMem st).
Proof.
  intros R Hsz Hfuel.
  destruct fl as [| m rest].
  - left. pose proof (rep_links _ _ _ R) as Hl. simpl in Hl.
    split; [apply memAlloc_fail|]; auto.
  - pose proof (rep_links _ _ _ R) as Hl. simpl in Hl. destruct Hl as (Ef & _).
    subst m. set (m := freelist st) in *.
    destruct (Rep_free_block _ _ _ m R (or_introl eq_refl)) as (pre & S & post & ->).
    pose proof (Rep_block_hdr _ _ _ _ _ R) as (_ & _ & Hs).
    unfold b_addr, b_size in Hs. simpl in Hs.
    change (mem st (m + 12)) with (get_size st m) in Hs.
    destruct (Z_lt_ge_dec S (adjust size)) as [Hlt | Hge].
    + left. split; [apply memAlloc_fail|]; right; fold m; rewrite Hs; exact Hlt.
    + right. destruct (Z_le_gt_dec (S - adjust size) 32) as [Hw | Hs'].
      * destruct (memAlloc_whole fuel st pre post rest m S size R ltac:(lia) Hw)
          as (st' & E & R' & Hfr & Hz & Hm & He).
        exists st', (pre ++ (m, S, MAGIC_USED) :: post), rest.
        split_all; auto; try lia.
        -- simpl. auto.
        -- constructor; lia.
      * destruct (memAlloc_split fuel st pre post rest m S size R Hsz ltac:(lia)
                    ltac:(simpl in Hfuel; lia))
          as (st' & E & R' & Hfr & Hz & Hm & He).
        eexists st', _, _. split_all; eauto; try lia.
        -- simpl. auto.
        -- constructor. lia.
Qed.

(** *** memFree of a block in use, all cases *)

Lemma memFree_spec (fuel : nat) (st : state) (bs : list blk) (fl : list Z)
      (m S : Z) :
  Rep st bs fl -> In (m, S, MAGIC_USED) bs -> (Datatypes.S (length fl) < fuel)%nat ->
  exists st' bs' fl',
    memFree fuel st (m + 16) = Ok st' /\
    Rep st' bs' fl' /\
    free_step m bs bs' /\
    (forall x, in_used_payload bs' x -> mem st' x = mem st x) /\
    mcb st' = mcb st /\ endMem st' = endMem st.
Proof.
  intros R Hin Hfuel.
  apply in_split in Hin. destruct Hin as (pre & post & ->).
  pose proof (Rep_block_hdr _ _ _ _ _ R) as (_ & Hg & _).
  pose proof (Rep_block_bounds _ _ _ (m, S, MAGIC_USED) R
                ltac:(apply in_or_app; simpl; auto)) as (Hm0 & _).
  unfold b_addr, b_magic in Hg, Hm0. simpl in Hg, Hm0.
  unfold memFree.
  destruct (Z.eqb_spec (m + 16) NULL) as [E | _]; [unfold NULL in E; lia|].
  unfold SZ_MCB. replace (m + 16 - 16) with m by lia.
  change (get_magic st m) with (mem st (m + 8)). rewrite Hg, Z.eqb_refl.
  cbn [negb]. cbv iota.
  destruct (Z.eqb_spec m NULL) as [E | _]; [unfold NULL in E; lia|].
  cbv zeta.
  (* is the block before m free? *)
  assert (Hprev : last_not_free pre \/
                  exists pre' p P, pre = pre' ++ [(p, P, MAGIC_FREE)]).
  { destruct (exists_last_or_nil pre) as [-> | (pre' & q & ->)].
    - left. intros l q E. destruct l; discriminate.
    - destruct q as [[p P] g]. destruct (Z.eq_dec g MAGIC_FREE) as [-> | Hne].
      + right. eauto.
      + left. apply last_not_free_snoc. exact Hne. }
  assert (Hnext : head_not_free post \/
                  exists x X post', post = (x, X, MAGIC_FREE) :: post').
  { destruct post as [| [[x X] g] post'].
    - left. intros c r E. discriminate.
    - destruct (Z.eq_dec g MAGIC_FREE) as [-> | Hne].
      + right. eauto.
      + left. apply head_not_free_cons. exact Hne. }
  destruct Hprev as [Hprev | (pre' & p & P & ->)].
  - destruct (memFree_prev_keep fuel st pre post fl m S R Hprev ltac:(lia))
      as (st1 & E1 & R1 & Hfr1 & Hm1 & He1).
    rewrite E1. cbn [bind]. cbv beta iota.
    destruct Hnext as [Hnext | (x & X & post' & ->)].
    + rewrite (memFree_next_keep fuel st1 pre post _ m S MAGIC_FREE R1 Hnext).
      eexists st1, _, _. split_all; eauto.
      * constructor; assumption.
      * intros y Hy. apply Hfr1. apply in_used_payload_mid_free in Hy. exact Hy.
    + destruct (memFree_next_merge fuel st1 pre post' _ m S x X R1
                  ltac:(rewrite length_ins; lia))
        as (st2 & E2 & R2 & Hfr2 & Hm2 & He2).
      rewrite E2. eexists st2, _, _. split_all; eauto; try congruence.
      * constructor; assumption.
      * intros y Hy. apply in_used_payload_mid_free in Hy.
        rewrite Hfr2 by exact Hy. apply Hfr1.
        apply in_used_payload_mid_free. exact Hy.
  - rewrite <- app_assoc in R. cbn [app] in R.
    destruct (memFree_prev_merge fuel st pre' post fl p P m S R ltac:(lia))
      as (st1 & E1 & R1 & Hfr1 & Hm1 & He1).
    rewrite E1. cbn [bind]. cbv beta iota.
    rewrite <- app_assoc. cbn [app].
    destruct Hnext as [Hnext | (x & X & post' & ->)].
    + rewrite (memFree_next_keep fuel st1 pre' post _ p (P + 16 + S) MAGIC_FREE R1 Hnext).
      eexists st1, _, _. split_all; eauto.
      * constructor; assumption.
      * intros y Hy. apply Hfr1. apply in_used_payload_mid_free in Hy. exact Hy.
    + destruct (memFree_next_merge fuel st1 pre' post' _ p (P + 16 + S) x X R1
                  ltac:(rewrite length_ins; pose proof (length_rem p fl); lia))
        as (st2 & E2 & R2 & Hfr2 & Hm2 & He2).
      rewrite E2. eexists st2, _, _. split_all; eauto; try congruence.
      * constructor.
      * intros y Hy. apply in_used_payload_mid_free in Hy.
        rewrite Hfr2 by exact Hy. apply Hfr1.
        apply in_used_payload_mid_free. exact Hy.
Qed.

End AllocatorTop.

(** ** Fuel *)

Lemma layout_length (l : list blk) (a e : Z) :
  layout a l e -> 32 * Z.of_nat (length l) <= e - a.
Proof.
  revert a. induction l as [| b r IH]; intros a; simpl length.
  - simpl. lia.
  - intros (E & S & H). apply IH in H. lia.
Qed.

(** The free list is never longer than the region has room for blocks. *)
Lemma Rep_length (st : Mem.state) (bs : list blk) (fl : list Z) :
  Rep st bs fl -> 32 * Z.of_nat (length fl) <= Mem.endMem st - Mem.mcb st.
Proof.
  intros R. pose proof (layout_length _ _ _ (rep_layout _ _ _ R)) as H.
  assert (Hl : (length fl <= length (map b_addr bs))%nat).
  { apply NoDup_incl_length; [exact (rep_nodup _ _ _ R)|].
    intros a Ha. eapply Rep_fl_addr; eauto. }
  rewrite length_map in Hl. lia.
Qed.

Lemma Rep_enough (st : Mem.state) (bs : list blk) (fl : list Z) (fuel : nat) :
  Rep st bs fl -> (enough_fuel st <= fuel)%nat -> (S (length fl) < fuel)%nat.
Proof.
  intros R H. pose proof (Rep_length _ _ _ R) as Hl. unfold enough_fuel in H.
  pose proof (rep_len _ _ _ R). pose proof (layout_le _ _ _ (rep_layout _ _ _ R)).
  assert (Z.of_nat (length fl) <= (Mem.endMem st - Mem.mcb st) / 32).
  { apply Z.div_le_lower_bound; lia. }
  lia.
Qed.

Section FuelMono.
Import Mem.

Lemma insertFree_scan_mono (st : state) (m : Z) (fuel fuel' : nat) :
  (fuel <= fuel')%nat -> forall l s r,
  insertFree_scan fuel st m l s = Ok r -> insertFree_scan fuel' st m l s = Ok r.
Proof.
  revert fuel'. induction fuel as [| fuel IH]; intros fuel' Hle l s r; simpl.
  - discriminate.
  - destruct fuel' as [| fuel']; [lia|]. simpl.
    destruct (negb (s =? NULL) && (get_size st m <? get_size st s)); [| auto].
    apply IH. lia.
Qed.

Lemma insertFree_mono (st : state) (m : Z) (fuel fuel' : nat) (r : state) :
  (fuel <= fuel')%nat ->
  insertFree fuel st m = Ok r -> insertFree fuel' st m = Ok r.
Proof.
  intros Hle. unfold insertFree.
  destruct (insertFree_scan fuel st m NULL (freelist st)) as [[l s] | f] eqn:E;
    [| discriminate].
  rewrite (insertFree_scan_mono _ _ _ _ Hle _ _ _ E). auto.
Qed.

Lemma memAlloc_mono (st : state) (size : Z) (fuel fuel' : nat) (r : Z * state) :
  (fuel <= fuel')%nat ->
  memAlloc fuel st size = Ok r -> memAlloc fuel' st size = Ok r.
Proof.
  intros Hle. unfold memAlloc.
  destruct ((freelist st =? NULL) || (get_size st (freelist st) <? adjust size)); [auto|].
  destruct (u64 (wrap32 (get_size st (freelist st) - adjust size)) >? MIN_FREE_BLOCK);
    [| auto].
  match goal with |- context [insertFree fuel ?s ?n] =>
    destruct (insertFree fuel s n) as [s2 | f] eqn:E; [| discriminate] end.
  rewrite (insertFree_mono _ _ _ _ _ Hle E). auto.
Qed.

Lemma memFree_prev_mono (st : state) (m : Z) (fuel fuel' : nat) (r : state * Z) :
  (fuel <= fuel')%nat ->
  memFree_prev fuel st m = Ok r -> memFree_prev fuel' st m = Ok r.
Proof.
  intros Hle. unfold memFree_prev.
  destruct (negb (get_prev st m =? NULL)
            && (get_magic st (get_prev st m) =? MAGIC_FREE)).
  - match goal with |- context [insertFree fuel ?s ?n] =>
      destruct (insertFree fuel s n) as [s2 | f] eqn:E; [| discriminate] end.
    rewrite (insertFree_mono _ _ _ _ _ Hle E). auto.
  - destruct (insertFree fuel st m) as [s2 | f] eqn:E; [| discriminate].
    rewrite (insertFree_mono _ _ _ _ _ Hle E). auto.
Qed.

Lemma memFree_next_mono (st : state) (m : Z) (fuel fuel' : nat) (r : state) :
  (fuel <= fuel')%nat ->
  memFree_next fuel st m = Ok r -> memFree_next fuel' st m = Ok r.
Proof.
  intros Hle. unfold memFree_next.
  destruct (negb (mcbNext st m =? NULL) && (get_magic st (mcbNext st m) =? MAGIC_FREE));
    [| auto].
  apply insertFree_mono. exact Hle.
Qed.

Lemma memFree_mono (st : state) (addr : Z) (fuel fuel' : nat) (r : state) :
  (fuel <= fuel')%nat ->
  memFree fuel st addr = Ok r -> memFree fuel' st addr = Ok r.
Proof.
  intros Hle. unfold memFree.
  destruct (addr =? NULL); [auto|].
  destruct (negb (get_magic st (addr - SZ_MCB) =? MAGIC_USED)); [auto|].
  destruct (addr - SZ_MCB =? NULL); [auto|]. cbv zeta.
  destruct (memFree_prev fuel (mark_free st (addr - SZ_MCB)) (addr - SZ_MCB))
    as [[s1 m1] | f] eqn:E; [| discriminate].
  rewrite (memFree_prev_mono _ _ _ _ _ Hle E). cbn [bind].
  apply memFree_next_mono. exact Hle.
Qed.

End FuelMono.

(** ** Writes of the client into a payload in use *)

Lemma Rep_store_payload (st : Mem.state) (bs : list blk) (fl : list Z) (x v : Z) :
  Rep st bs fl -> in_used_payload bs x -> Rep (Mem.store st x v) bs fl.
Proof.
  intros R Hx.
  pose proof (used_payload_not_link _ _ _ x R Hx) as Hnl.
  pose proof (used_payload_not_hdr _ _ _ x R Hx) as Hnh.
  constructor; unfold Mem.store, Mem.set_mem; cbn [Mem.mem Mem.mcb Mem.endMem Mem.freelist].
  - apply (rep_nonempty _ _ _ R).
  - apply (rep_base _ _ _ R).
  - apply (rep_len _ _ _ R).
  - apply (rep_layout _ _ _ R).
  - eapply hdrs_frame; [| exact (rep_hdrs _ _ _ R)].
    intros b Hb. destruct (Hnh b Hb) as (H0 & H8 & H12).
    split_all; apply upd_other; auto.
  - apply (rep_magic _ _ _ R).
  - eapply lseg_frame; [| exact (rep_links _ _ _ R)].
    intros a Ha. destruct (Hnl a Ha). split; apply upd_other; auto.
  - apply (rep_nodup _ _ _ R).
  - apply (rep_free _ _ _ R).
  - eapply desc_ext; [| exact (rep_desc _ _ _ R)].
    intros a Ha. unfold Mem.get_size, Mem.OFF_size. cbn [Mem.mem].
    apply upd_other.
    apply (rep_free _ _ _ R) in Ha. apply in_free_addrs in Ha. destruct Ha as (s & Hb).
    destruct (Hnh _ Hb) as (_ & _ & H12). unfold b_addr in H12. simpl in H12. auto.
Qed.

(** ** The blocks in use along the steps *)

Lemma addr_unique (pre post : list blk) (b c : blk) :
  NoDup (map b_addr (pre ++ b :: post)) -> In c (pre ++ post) ->
  b_addr c <> b_addr b.
Proof.
  intros Hnd Hc E. rewrite map_app in Hnd. simpl in Hnd.
  apply NoDup_remove_2 in Hnd. apply Hnd. rewrite <- E, <- map_app.
  apply in_map. exact Hc.
Qed.

Lemma used_app (a : Z) (l1 l2 : list blk) :
  (exists S, In (a, S, Mem.MAGIC_USED) (l1 ++ l2)) <->
  (exists S, In (a, S, Mem.MAGIC_USED) l1) \/ (exists S, In (a, S, Mem.MAGIC_USED) l2).
Proof.
  split.
  - intros (S & H). apply in_app_or in H. destruct H; [left | right]; eauto.
  - intros [(S & H) | (S & H)]; exists S; apply in_or_app; auto.
Qed.

Lemma used_cons_free (a b s : Z) (l : list blk) :
  (exists S, In (a, S, Mem.MAGIC_USED) ((b, s, Mem.MAGIC_FREE) :: l)) <->
  (exists S, In (a, S, Mem.MAGIC_USED) l).
Proof.
  split.
  - intros (S & [E | H]); [discriminate E | eauto].
  - intros (S & H). exists S. right. exact H.
Qed.

Lemma used_cons_used (a b s : Z) (l : list blk) :
  (exists S, In (a, S, Mem.MAGIC_USED) ((b, s, Mem.MAGIC_USED) :: l)) <->
  a = b \/ (exists S, In (a, S, Mem.MAGIC_USED) l).
Proof.
  split.
  - intros (S & [E | H]); [left; congruence | eauto].
  - intros [-> | (S & H)]; [exists s; left; reflexivity | exists S; right; exact H].
Qed.

(** No other block has the address of a block of the chain. *)
Lemma used_other (pre post : list blk) (b : blk) (a : Z) :
  NoDup (map b_addr (pre ++ b :: post)) ->
  (exists S, In (a, S, Mem.MAGIC_USED) pre) \/ (exists S, In (a, S, Mem.MAGIC_USED) post) ->
  a <> b_addr b.
Proof.
  intros Hnd H E.
  assert (Hc : exists S, In (a, S, Mem.MAGIC_USED) (pre ++ post)).
  { apply used_app. exact H. }
  destruct Hc as (S & Hc). apply (addr_unique _ _ _ _ Hnd Hc). exact E.
Qed.

Lemma alloc_step_used (sz m : Z) (bs bs' : list blk) :
  alloc_step sz m bs bs' -> NoDup (map b_addr bs) ->
  (forall a, (exists S, In (a, S, Mem.MAGIC_USED) bs') <->
             a = m \/ exists S, In (a, S, Mem.MAGIC_USED) bs) /\
  ~ (exists S, In (m, S, Mem.MAGIC_USED) bs).
Proof.
  intros [pre S post H1 H2 | pre S post H1] Hnd.
  - split.
    + intros a. rewrite !used_app, used_cons_free, used_cons_used. tauto.
    + rewrite used_app, used_cons_free. intros H.
      apply (used_other _ _ _ m Hnd H). reflexivity.
  - split.
    + intros a. rewrite !used_app, used_cons_used, !used_cons_free. tauto.
    + rewrite used_app, used_cons_free. intros H.
      apply (used_other _ _ _ m Hnd H). reflexivity.
Qed.

Lemma free_step_used (m : Z) (bs bs' : list blk) :
  free_step m bs bs' -> NoDup (map b_addr bs) ->
  forall a, (exists S, In (a, S, Mem.MAGIC_USED) bs') <->
            a <> m /\ exists S, In (a, S, Mem.MAGIC_USED) bs.
Proof.
  intros [pre S post H1 H2 | pre p P S post H1 | pre S x X post H1
          | pre p P S x X post] Hnd a.
  - pose proof (used_other _ _ _ a Hnd) as Hne. change (b_addr (m, S, Mem.MAGIC_USED)) with m in Hne.
    rewrite !used_app, used_cons_free, used_cons_used. tauto.
  - change (pre ++ (p, P, Mem.MAGIC_FREE) :: (m, S, Mem.MAGIC_USED) :: post)
      with (pre ++ [(p, P, Mem.MAGIC_FREE)] ++ (m, S, Mem.MAGIC_USED) :: post) in Hnd.
    rewrite app_assoc in Hnd.
    pose proof (used_other _ _ _ a Hnd) as Hne. change (b_addr (m, S, Mem.MAGIC_USED)) with m in Hne.
    rewrite used_app, used_cons_free in Hne.
    rewrite !used_app, !used_cons_free, used_cons_used. tauto.
  - pose proof (used_other _ _ _ a Hnd) as Hne. change (b_addr (m, S, Mem.MAGIC_USED)) with m in Hne.
    rewrite used_cons_free in Hne.
    rewrite !used_app, used_cons_used, !used_cons_free. tauto.
  - change (pre ++ (p, P, Mem.MAGIC_FREE) :: (m, S, Mem.MAGIC_USED)
                :: (x, X, Mem.MAGIC_FREE) :: post)
      with (pre ++ [(p, P, Mem.MAGIC_FREE)] ++ (m, S, Mem.MAGIC_USED)
                :: (x, X, Mem.MAGIC_FREE) :: post) in Hnd.
    rewrite app_assoc in Hnd.
    pose proof (used_other _ _ _ a Hnd) as Hne. change (b_addr (m, S, Mem.MAGIC_USED)) with m in Hne.
    rewrite used_app, !used_cons_free in Hne.
    rewrite !used_app, !used_cons_free, used_cons_used, used_cons_free. tauto.
Qed.

(** ** What memAlloc returns *)

Lemma memAlloc_result (fuel : nat) (st : Mem.state) (size p : Z) (st' : Mem.state) :
  Mem.memAlloc fuel st size = Ok (p, st') ->
  ((Mem.freelist st = NULL \/
    Mem.get_size st (Mem.freelist st) < Mem.adjust size) /\ p = NULL /\ st' = st)
  \/
  (Mem.freelist st <> NULL /\
   Mem.adjust size <= Mem.get_size st (Mem.freelist st) /\
   p = Mem.freelist st + 16).
Proof.
  unfold Mem.memAlloc.
  destruct (Z.eqb_spec (Mem.freelist st) NULL) as [E | N].
  - simpl. intros H. injection H as <- <-. left. auto.
  - destruct (Z.ltb_spec (Mem.get_size st (Mem.freelist st)) (Mem.adjust size)).
    + simpl. intros H'. injection H' as <- <-. left. auto.
    + simpl. intros H'. right. split; [exact N|]. split; [lia|].
      match type of H' with bind ?r _ = _ => destruct r as [[s1 z1] | f] end;
        [| discriminate].
      simpl in H'. injection H' as <- _. reflexivity.
Qed.

(** ** The invariants along every run of the allocator *)

Lemma adjust_ok (sz : Z) : 0 <= sz <= INT_MAX - 3 -> 16 <= Mem.adjust sz.
Proof.
  intros H. rewrite adjust_in_range by exact H.
  pose proof (adjust_spec_bounds sz). lia.
Qed.

Lemma Rep_fl_pos (st : Mem.state) (bs : list blk) (fl : list Z) (a : Z) :
  Rep st bs fl -> In a fl -> 0 < a.
Proof.
  intros R Ha. apply (rep_free _ _ _ R) in Ha. apply in_free_addrs in Ha.
  destruct Ha as (s & Hb). pose proof (Rep_block_bounds _ _ _ _ R Hb) as H.
  unfold b_addr in H. simpl in H. lia.
Qed.

Lemma Rep_freelist_in (st : Mem.state) (bs : list blk) (fl : list Z) :
  Rep st bs fl -> Mem.freelist st <> NULL -> In (Mem.freelist st) fl.
Proof.
  intros R N. pose proof (rep_links _ _ _ R) as H.
  destruct fl as [| a r]; simpl in H; [contradiction|].
  destruct H as (-> & _). left. reflexivity.
Qed.

(** A successful, well-formed allocation keeps the representation. *)
Lemma memAlloc_Rep (fuel : nat) (st : Mem.state) (bs : list blk) (fl : list Z)
      (sz p : Z) (st' : Mem.state) :
  Rep st bs fl -> 16 <= Mem.adjust sz ->
  Mem.memAlloc fuel st sz = Ok (p, st') -> p <> NULL ->
  exists bs' fl',
    Rep st' bs' fl' /\ alloc_step (Mem.adjust sz) (p - 16) bs bs' /\
    (forall x, in_used_payload bs x -> Mem.mem st' x = Mem.mem st x) /\
    Mem.mem st' p = NULL /\
    Mem.mcb st' = Mem.mcb st /\ Mem.endMem st' = Mem.endMem st.
Proof.
  intros R Hsz E Hp.
  set (F := Nat.max fuel (enough_fuel st)).
  pose proof (memAlloc_mono st sz fuel F _ (Nat.le_max_l _ _) E) as EF.
  destruct (memAlloc_spec F st bs fl sz R Hsz
              (Rep_enough _ _ _ _ R (Nat.le_max_r _ _)))
    as [[E1 _] | (st1 & bs' & fl' & E1 & _ & _ & R' & Hstep & Hfr & Hz & Hm & He)].
  - rewrite E1 in EF. injection EF as <- _. contradiction.
  - rewrite E1 in EF. injection EF as <- <-.
    replace (Mem.freelist st + 16 - 16) with (Mem.freelist st) by lia.
    exists bs', fl'. auto 10.
Qed.

(** A failed allocation changes nothing. *)
Lemma memAlloc_null_same (fuel : nat) (st : Mem.state) (bs : list blk) (fl : list Z)
      (sz : Z) (st' : Mem.state) :
  Rep st bs fl -> Mem.memAlloc fuel st sz = Ok (NULL, st') ->
  st' = st /\ (Mem.freelist st = NULL \/
               Mem.get_size st (Mem.freelist st) < Mem.adjust sz).
Proof.
  intros R E. apply memAlloc_result in E.
  destruct E as [(Hc & _ & ->) | (N & _ & Ep)]; [auto|].
  pose proof (Rep_fl_pos _ _ _ _ R (Rep_freelist_in _ _ _ R N)).
  unfold NULL in Ep. lia.
Qed.

(** Freeing a block in use keeps the representation. *)
Lemma memFree_Rep (fuel : nat) (st : Mem.state) (bs : list blk) (fl : list Z)
      (p S : Z) (st' : Mem.state) :
  Rep st bs fl -> In (p - 16, S, Mem.MAGIC_USED) bs ->
  Mem.memFree fuel st p = Ok st' ->
  exists bs' fl',
    Rep st' bs' fl' /\ free_step (p - 16) bs bs' /\
    (forall x, in_used_payload bs' x -> Mem.mem st' x = Mem.mem st x) /\
    Mem.mcb st' = Mem.mcb st /\ Mem.endMem st' = Mem.endMem st.
Proof.
  intros R Hin E.
  set (F := Nat.max fuel (enough_fuel st)).
  pose proof (memFree_mono st p fuel F _ (Nat.le_max_l _ _) E) as EF.
  destruct (memFree_spec F st bs fl (p - 16) S R Hin
              (Rep_enough _ _ _ _ R (Nat.le_max_r _ _)))
    as (st1 & bs' & fl' & E1 & R' & Hstep & Hfr & Hm & He).
  replace (p - 16 + 16) with p in E1 by lia.
  rewrite E1 in EF. injection EF as <-.
  exists bs', fl'. auto 10.
Qed.

Lemma live_used_alloc (live : list Z) (bs bs' : list blk) (sz p : Z) (a e : Z) :
  live_used live bs -> layout a bs e ->
  alloc_step sz (p - 16) bs bs' -> live_used (p :: live) bs'.
Proof.
  intros [Hnd Hl] Hlay Hstep.
  destruct (alloc_step_used _ _ _ _ Hstep (layout_nodup _ _ _ Hlay)) as [Hu Hn].
  split.
  - constructor; [| exact Hnd]. intros Hin. apply Hn, Hl, Hin.
  - intros q. simpl. rewrite Hu, Hl. split.
    + intros [<- | H]; auto.
    + intros [E | H]; [left; lia | auto].
Qed.

Lemma live_used_free (live : list Z) (bs bs' : list blk) (p : Z) (a e : Z) :
  live_used live bs -> layout a bs e ->
  free_step (p - 16) bs bs' -> live_used (rem p live) bs'.
Proof.
  intros [Hnd Hl] Hlay Hstep.
  pose proof (free_step_used _ _ _ Hstep (layout_nodup _ _ _ Hlay)) as Hu.
  split.
  - apply NoDup_rem, Hnd.
  - intros q. rewrite in_rem, Hu, Hl. split.
    + intros [H Hne]. split; [lia | exact H].
    + intros [Hne H]. split; [exact H | lia].
Qed.

Lemma reach_inv (base size : Z) (st : Mem.state) (live : list Z) :
  0 < base -> 32 <= size <= INT_MAX ->
  reach base size st live ->
  exists bs fl,
    Rep st bs fl /\ no_adj_free bs /\ live_used live bs /\
    Mem.mcb st = base /\ Mem.endMem st = base + size.
Proof.
  intros Hb Hs H. induction H as
      [fuel m0 st E
      | st live fuel sz p st' H IH Hsz E Hp
      | st live fuel sz st' H IH E
      | st live fuel p st' H IH Hin E
      | st live fuel st' H IH E
      | st live p x v H IH Hin Hx].
  - destruct fuel as [| fuel]; [discriminate E|].
    destruct (memInit_spec (S fuel) m0 base size Hb Hs ltac:(lia))
      as (st1 & E1 & R & Hm & He).
    rewrite E1 in E. injection E as <-.
    eexists _, _. split; [exact R|]. split; [simpl; auto|].
    split; [| split; assumption]. split; [constructor|].
    intros p. split; [intros [] | intros (S' & [H | []]); discriminate H].
  - destruct IH as (bs & fl & R & Hna & Hlu & Hm & He).
    destruct (memAlloc_Rep _ _ _ _ _ _ _ R (adjust_ok _ Hsz) E Hp)
      as (bs' & fl' & R' & Hstep & _ & _ & Hm' & He').
    exists bs', fl'. split_all; try congruence; auto.
    + eapply alloc_step_no_adj; eauto.
    + eapply live_used_alloc; eauto. apply (rep_layout _ _ _ R).
  - destruct IH as (bs & fl & R & Hna & Hlu & Hm & He).
    destruct (memAlloc_null_same _ _ _ _ _ _ R E) as [-> _].
    exists bs, fl. auto.
  - destruct IH as (bs & fl & R & Hna & Hlu & Hm & He).
    destruct (proj1 (proj2 Hlu p) Hin) as (S' & Hblk).
    destruct (memFree_Rep _ _ _ _ _ _ _ R Hblk E)
      as (bs' & fl' & R' & Hstep & _ & Hm' & He').
    exists bs', fl'. split_all; try congruence; auto.
    + eapply free_step_no_adj; eauto.
    + eapply live_used_free; eauto. apply (rep_layout _ _ _ R).
  - simpl in E. injection E as <-. exact IH.
  - destruct IH as (bs & fl & R & Hna & Hlu & Hm & He).
    destruct (proj1 (proj2 Hlu p) Hin) as (S' & Hblk).
    exists bs, fl. split_all; auto.
    apply Rep_store_payload; [exact R|].
    exists (p - 16, S', Mem.MAGIC_USED). split; [exact Hblk|]. split; [reflexivity|].
    pose proof (hdrs_in _ _ _ _ (rep_hdrs _ _ _ R) Hblk) as [_ Hsz].
    unfold b_addr, b_size in *. simpl in *.
    unfold Mem.get_size, Mem.OFF_size in Hx. rewrite Hsz in Hx. lia.
Qed.

(** * The claims about the allocator *)

Lemma Rep_head_largest (st : Mem.state) (bs : list blk) (fl : list Z) (a S : Z) :
  Rep st bs fl -> In (a, S, Mem.MAGIC_FREE) bs ->
  Mem.freelist st <> NULL /\ S <= Mem.get_size st (Mem.freelist st).
Proof.
  intros R Hb.
  assert (Ha : In a fl).
  { apply (rep_free _ _ _ R). apply in_free_addrs. eauto. }
  pose proof (hdrs_in _ _ _ _ (rep_hdrs _ _ _ R) Hb) as [_ Hs].
  unfold b_addr, b_size in Hs. simpl in Hs.
  pose proof (rep_links _ _ _ R) as Hl. pose proof (rep_desc _ _ _ R) as Hd.
  destruct fl as [| h r]; [contradiction|].
  simpl in Hl. destruct Hl as (-> & N & _). split; [exact N|].
  pose proof (desc_head_max _ _ _ a Hd Ha) as Hmax.
  unfold Mem.get_size, Mem.OFF_size in *. rewrite Hs in Hmax. exact Hmax.
Qed.

(** C1.  In a state that satisfies the invariants of the allocator
    ([Rep st bs fl] with [no_adj_free bs]), [memAlloc(size)] returns the
    null sentinel if and only if the head of the free list is null or its
    payload size is strictly less than the adjusted request, and in that
    case the state is unchanged.  The adjusted request is the value
    [Mem.adjust size] that lines 462-466 compute; for
    [0 <= size <= INT_MAX - 3] it is the size raised to the size of the link
    pair and rounded up to a multiple of [sizeof(int)] ([adjust_spec]), and
    for every [int] up to [INT_MAX - 3] the equivalence holds with
    [adjust_spec] as well, a block of the chain being never smaller than
    the link pair.
    The head of the free list is a largest free block, so the allocation
    does not fail while some free block holds the adjusted request; and for
    a request that is at least the link pair, with enough fuel for the
    insertion loop, it returns a non-null pointer. *)
Theorem C1_memAlloc_null_iff_head_too_small
        (st : Mem.state) (bs : list blk) (fl : list Z) (fuel : nat) (size : Z) :
  Rep st bs fl -> no_adj_free bs ->
  (forall st',
      Mem.memAlloc fuel st size = Ok (NULL, st') <->
      (Mem.freelist st = NULL \/
       Mem.get_size st (Mem.freelist st) < Mem.adjust size) /\ st' = st)
  /\
  (0 <= size <= INT_MAX - 3 -> Mem.adjust size = adjust_spec size)
  /\
  (INT_MIN <= size <= INT_MAX - 3 ->
   forall st',
     Mem.memAlloc fuel st size = Ok (NULL, st') <->
     (Mem.freelist st = NULL \/
      Mem.get_size st (Mem.freelist st) < adjust_spec size) /\ st' = st)
  /\
  (forall a S, In (a, S, Mem.MAGIC_FREE) bs ->
               Mem.freelist st <> NULL /\ S <= Mem.get_size st (Mem.freelist st))
  /\
  (forall a S st', In (a, S, Mem.MAGIC_FREE) bs -> Mem.adjust size <= S ->
                   Mem.memAlloc fuel st size <> Ok (NULL, st'))
  /\
  (16 <= Mem.adjust size -> (enough_fuel st <= fuel)%nat ->
   ~ (Mem.freelist st = NULL \/
      Mem.get_size st (Mem.freelist st) < Mem.adjust size) ->
   exists p st', Mem.memAlloc fuel st size = Ok (p, st') /\ p <> NULL).
Proof.
  intros R Hna.
  assert (Hiff : forall st',
             Mem.memAlloc fuel st size = Ok (NULL, st') <->
             (Mem.freelist st = NULL \/
              Mem.get_size st (Mem.freelist st) < Mem.adjust size) /\ st' = st).
  { intros st'. split.
    - intros E. destruct (memAlloc_null_same _ _ _ _ _ _ R E). auto.
    - intros [Hc ->]. apply memAlloc_fail. exact Hc. }
  split; [exact Hiff|]. split; [apply adjust_in_range|].
  split.
  { intros Hs st'. rewrite Hiff.
    destruct (Z_lt_ge_dec size 0) as [Hneg | Hpos];
      [| rewrite adjust_in_range by lia; reflexivity].
    pose proof (adjust_negative size ltac:(lia)) as Ha.
    pose proof (adjust_spec_bounds size) as (Hb1 & _ & Hb2 & _).
    assert (Hhead : Mem.freelist st <> NULL -> 19 <= Mem.get_size st (Mem.freelist st) \/
                                               16 <= Mem.get_size st (Mem.freelist st)).
    { intros N. right.
      pose proof (Rep_freelist_in _ _ _ R N) as Hin.
      apply (rep_free _ _ _ R) in Hin. apply in_free_addrs in Hin.
      destruct Hin as (s & Hb).
      destruct (Rep_block_bounds _ _ _ _ R Hb) as (_ & Hs16 & _).
      destruct (hdrs_in _ _ _ _ (rep_hdrs _ _ _ R) Hb) as [_ Hsz].
      unfold b_addr, b_size in *. simpl in *.
      change (Mem.get_size st (Mem.freelist st))
        with (Mem.mem st (Mem.freelist st + 12)). lia. }
    assert (E16 : adjust_spec size = 16).
    { unfold adjust_spec, Mem.SZ_LINKS. rewrite Z.max_r by lia. reflexivity. }
    rewrite E16. split; intros [[Hc | Hc] ->]; split; auto.
    - right. lia.
    - destruct (Z.eq_dec (Mem.freelist st) NULL) as [N | N]; [left; exact N|].
      specialize (Hhead N). lia. }
  split; [intros a S Hb; eapply Rep_head_largest; eauto|]. split.
  - intros a S st' Hb Hle E. apply Hiff in E. destruct E as [[E | E] _].
    + destruct (Rep_head_largest _ _ _ _ _ R Hb). contradiction.
    + destruct (Rep_head_largest _ _ _ _ _ R Hb). lia.
  - intros Hsz Hfuel Hc.
    destruct (memAlloc_spec fuel st bs fl size R Hsz (Rep_enough _ _ _ _ R Hfuel))
      as [[_ Hc'] | (st' & bs' & fl' & E & _ & Hin & _)]; [contradiction|].
    exists (Mem.freelist st + 16), st'. split; [exact E|].
    pose proof (Rep_fl_pos _ _ _ _ R Hin). unfold NULL. lia.
Qed.

Lemma C1_witness :
  exists st,
    Mem.memInit 4 (fun _ => 0) 1000 706 = Ok st /\
    (forall st',
        Mem.memAlloc 4 st 100 = Ok (NULL, st') <->
        (Mem.freelist st = NULL \/
         Mem.get_size st (Mem.freelist st) < Mem.adjust 100) /\ st' = st).
Proof.
  destruct (memInit_spec 4 (fun _ => 0) 1000 706) as (st & E & R & _).
  - lia.
  - unfold INT_MAX. lia.
  - lia.
  - exists st. split; [exact E|].
    refine (proj1 (C1_memAlloc_null_iff_head_too_small st _ _ 4 100 R _)).
    simpl. auto.
Defined.

(** C2.  After [memInit] and after every [memAlloc] and [memFree] of a
    client that keeps to the interface ([reach]), the state represents a
    chain of blocks [bs] and a free list [fl] such that no two neighbours of
    the chain are both free, the free list holds exactly the blocks whose
    magic is FREE, each once, it is non-increasing in payload size, and its
    head is a largest free block.  In such a state, with enough fuel for the
    insertion loop, an allocation of [0 <= sz <= INT_MAX - 3] bytes and the
    release of a live allocation return. *)
Theorem C2_invariants_after_every_call
        (base size : Z) (st : Mem.state) (live : list Z) :
  0 < base -> 32 <= size <= INT_MAX ->
  reach base size st live ->
  (exists bs fl,
      Rep st bs fl /\
      no_adj_free bs /\
      NoDup fl /\
      (forall a, In a fl <-> exists S, In (a, S, Mem.MAGIC_FREE) bs) /\
      desc (Mem.get_size st) fl /\
      (forall a, In a fl -> Mem.get_size st a <= Mem.get_size st (Mem.freelist st)))
  /\
  (forall fuel sz, (enough_fuel st <= fuel)%nat -> 0 <= sz <= INT_MAX - 3 ->
                   exists p st', Mem.memAlloc fuel st sz = Ok (p, st'))
  /\
  (forall fuel p, (enough_fuel st <= fuel)%nat -> In p live ->
                  exists st', Mem.memFree fuel st p = Ok st').
Proof.
  intros Hb Hs H.
  destruct (reach_inv _ _ _ _ Hb Hs H) as (bs & fl & R & Hna & Hlu & _).
  split; [| split].
  - exists bs, fl. split_all; auto.
    + exact (rep_nodup _ _ _ R).
    + intros a. rewrite (rep_free _ _ _ R a). apply in_free_addrs.
    + exact (rep_desc _ _ _ R).
    + intros a Ha. pose proof (rep_links _ _ _ R) as Hl.
      destruct fl as [| h r]; [contradiction|].
      simpl in Hl. destruct Hl as (-> & _).
      exact (desc_head_max _ _ _ a (rep_desc _ _ _ R) Ha).
  - intros fuel sz Hf Hsz.
    destruct (memAlloc_spec fuel st bs fl sz R (adjust_ok _ Hsz)
                (Rep_enough _ _ _ _ R Hf))
      as [[E _] | (st' & bs' & fl' & E & _)]; eauto.
  - intros fuel p Hf Hin.
    destruct (proj1 (proj2 Hlu p) Hin) as (S' & Hblk).
    destruct (memFree_spec fuel st bs fl (p - 16) S' R Hblk (Rep_enough _ _ _ _ R Hf))
      as (st' & bs' & fl' & E & _).
    replace (p - 16 + 16) with p in E by lia. eauto.
Qed.

(** C3.  On a region initialized by [memInit(region, size)], after any
    sequence of successful allocations and of releases in which every live
    allocation has been freed, in any order, the state is a single FREE block
    whose payload is the whole initial payload, [size] minus one header, and
    the free list holds exactly that block. *)
Theorem C3_free_all_restores_single_block
        (base size : Z) (st : Mem.state) :
  0 < base -> 32 <= size <= INT_MAX ->
  reach base size st [] ->
  Rep st [(base, size - 16, Mem.MAGIC_FREE)] [base] /\
  Mem.mcb st = base /\
  Mem.get_prev st base = NULL /\
  Mem.get_magic st base = Mem.MAGIC_FREE /\
  Mem.get_size st base = size - 16 /\
  Mem.mcbNext st base = NULL /\
  Mem.freelist st = base /\
  Mem.get_larger st base = NULL /\
  Mem.get_smaller st base = NULL.
Proof.
  intros Hb Hs H.
  destruct (reach_inv _ _ _ _ Hb Hs H) as (bs & fl & R & Hna & [_ Hlu] & Hm & He).
  assert (Hfree : forall b, In b bs -> b_magic b = Mem.MAGIC_FREE).
  { intros b Hin. destruct (rep_magic _ _ _ R b Hin) as [Hu | Hf]; [| exact Hf].
    exfalso. destruct b as [[a s] g]. unfold b_magic in Hu. simpl in Hu. subst g.
    apply (proj2 (Hlu (a + 16))). exists s.
    replace (a + 16 - 16) with a by lia. exact Hin. }
  assert (Hbs : bs = [(base, size - 16, Mem.MAGIC_FREE)]).
  { pose proof (rep_layout _ _ _ R) as Hlay. pose proof (rep_nonempty _ _ _ R) as Hne.
    destruct bs as [| b [| c r]]; [contradiction | |].
    - simpl in Hlay. destruct Hlay as (Ea & _ & Ee).
      pose proof (Hfree b (or_introl eq_refl)) as Hg.
      destruct b as [[a s] g]. unfold b_addr, b_size, b_magic in *. simpl in *.
      assert (E1 : a = base) by lia. assert (E2 : s = size - 16) by lia.
      rewrite E1, E2, Hg. reflexivity.
    - exfalso. simpl in Hna. destruct Hna as [Hna _]. apply Hna.
      unfold is_free. rewrite (Hfree b), (Hfree c) by (simpl; auto).
      split; reflexivity. }
  subst bs.
  assert (Hfl : fl = [base]).
  { pose proof (rep_free _ _ _ R) as Hf. pose proof (rep_nodup _ _ _ R) as Hnd.
    change (free_addrs [(base, size - 16, Mem.MAGIC_FREE)]) with [base] in Hf.
    destruct fl as [| a r].
    - exfalso. apply (proj2 (Hf base)). left. reflexivity.
    - assert (a = base) by (destruct (proj1 (Hf a) (or_introl eq_refl)) as [E | []]; auto).
      subst a. destruct r as [| c r]; [reflexivity|].
      exfalso. inversion Hnd as [| ? ? Hn _]; subst. apply Hn.
      destruct (proj1 (Hf c) (or_intror (or_introl eq_refl))) as [E | []].
      subst c. left. reflexivity. }
  subst fl.
  pose proof (rep_hdrs _ _ _ R) as Hh. pose proof (rep_links _ _ _ R) as Hl.
  simpl in Hh, Hl. unfold b_addr, b_size, b_magic in Hh. simpl in Hh.
  destruct Hh as (H0 & H8 & H12 & _). destruct Hl as (Ef & _ & HL & HS).
  split; [exact R|]. split; [exact Hm|].
  unfold Mem.mcbNext. cells. rewrite H12, He.
  replace (base + 16 + (size - 16)) with (base + size) by lia.
  rewrite Z.eqb_refl. split_all; auto.
Qed.

(** C8 (the code departs from the claim).  The comparison of line 462 is
    done in [size_t]: a negative request converts to a huge unsigned value,
    is not raised, and the rounded value converted back to [int] is not
    positive; and the rounding of a request above [INT_MAX - 3] wraps
    around.  So [memAlloc(-1)] works with the adjusted request [0], and
    [memAlloc(-16)] on a fresh region hands out a block whose recorded payload
    size is [-16] and leaves that block, now in use, at the head of the free
    list. *)
Theorem C8_negative_request_is_not_raised :
  Mem.adjust (-1) = 0 /\
  Mem.adjust (-16) = -16 /\
  Mem.adjust INT_MAX = INT_MIN /\
  (forall size, INT_MIN <= size < 0 -> Mem.adjust size < Mem.SZ_LINKS) /\
  (st <- Mem.memInit 4 (fun _ => 0) 1000 706 ;;
   ' (p, st') <- Mem.memAlloc 4 st (-16) ;;
   Ok (p, Mem.get_size st' (p - 16), Mem.get_magic st' (p - 16), Mem.freelist st'))
  = Ok (1016, -16, Mem.MAGIC_USED, 1000).
Proof.
  split; [reflexivity|]. split; [reflexivity|]. split; [reflexivity|]. split.
  - intros size H. pose proof (adjust_negative size H). unfold Mem.SZ_LINKS. lia.
  - vm_compute. reflexivity.
Qed.

(** For the requests that are byte counts the adjustment is the one the
    specification describes, and a request of 0 bytes is served like one of
    the size of the link pair. *)
Lemma memAlloc_zero (st : Mem.state) (bs : list blk) (fl : list Z) (fuel : nat) :
  Rep st bs fl -> (enough_fuel st <= fuel)%nat ->
  Mem.adjust 0 = Mem.SZ_LINKS /\
  Mem.memAlloc fuel st 0 = Mem.memAlloc fuel st Mem.SZ_LINKS /\
  (forall a S, In (a, S, Mem.MAGIC_FREE) bs -> Mem.SZ_LINKS <= S ->
     exists p st' bs' fl' S',
       Mem.memAlloc fuel st 0 = Ok (p, st') /\ p <> NULL /\
       Rep st' bs' fl' /\ In (p - 16, S', Mem.MAGIC_USED) bs' /\ Mem.SZ_LINKS <= S').
Proof.
  intros R Hf. split; [reflexivity|]. split; [reflexivity|].
  intros a S Hb Hle.
  destruct (Rep_head_largest _ _ _ _ _ R Hb) as [N Hmax].
  destruct (memAlloc_spec fuel st bs fl 0 R ltac:(change (Mem.adjust 0) with 16; lia)
              (Rep_enough _ _ _ _ R Hf))
    as [[_ [Hc | Hc]] | (st' & bs' & fl' & E & _ & Hin & R' & Hstep & _)].
  - contradiction.
  - change (Mem.adjust 0) with 16 in Hc. unfold Mem.SZ_LINKS in Hle. lia.
  - pose proof (Rep_fl_pos _ _ _ _ R Hin) as Hpos.
    change (Mem.adjust 0) with 16 in Hstep. unfold Mem.SZ_LINKS.
    replace (Mem.freelist st + 16 - 16) with (Mem.freelist st) by lia.
    inversion Hstep as [pre S0 post H1 H2 | pre S0 post H1]; subst.
    + eexists (Mem.freelist st + 16), st', _, fl', S0.
      split_all; eauto; try (unfold NULL; lia).
      replace (Mem.freelist st + 16 - 16) with (Mem.freelist st) by lia.
      apply in_or_app. simpl. auto.
    + eexists (Mem.freelist st + 16), st', _, fl', 16.
      split_all; eauto; try (unfold NULL; lia).
      replace (Mem.freelist st + 16 - 16) with (Mem.freelist st) by lia.
      apply in_or_app. simpl. auto.
Qed.

Lemma C2_witness :
  exists st0 st1 st2,
    Mem.memInit 4 (fun _ => 0) 1000 706 = Ok st0 /\
    Mem.memAlloc 4 st0 100 = Ok (1016, st1) /\
    Mem.memAlloc 4 st1 200 = Ok (1132, st2) /\
    exists bs fl,
      Rep st2 bs fl /\
      no_adj_free bs /\
      NoDup fl /\
      (forall a, In a fl <-> exists S, In (a, S, Mem.MAGIC_FREE) bs) /\
      desc (Mem.get_size st2) fl /\
      (forall a, In a fl -> Mem.get_size st2 a <= Mem.get_size st2 (Mem.freelist st2)).
Proof.
  eexists _, _, _.
  split; [vm_compute; reflexivity|]. split; [vm_compute; reflexivity|].
  split; [vm_compute; reflexivity|].
  apply (C2_invariants_after_every_call 1000 706 _ [1132; 1016]).
  - lia.
  - unfold INT_MAX. lia.
  - eapply (reach_alloc _ _ _ _ 4 200); [eapply (reach_alloc _ _ _ _ 4 100) | | |].
    + eapply (reach_init _ _ 4 (fun _ => 0)). vm_compute. reflexivity.
    + unfold INT_MAX. lia.
    + vm_compute. reflexivity.
    + discriminate.
    + unfold INT_MAX. lia.
    + vm_compute. reflexivity.
    + discriminate.
Defined.

Lemma C3_witness :
  exists st0 st1 st2 st3 st4,
    Mem.memInit 4 (fun _ => 0) 1000 706 = Ok st0 /\
    Mem.memAlloc 4 st0 100 = Ok (1016, st1) /\
    Mem.memAlloc 4 st1 200 = Ok (1132, st2) /\
    Mem.memFree 4 st2 1016 = Ok st3 /\
    Mem.memFree 4 st3 1132 = Ok st4 /\
    Mem.get_magic st4 1000 = Mem.MAGIC_FREE /\
    Mem.get_size st4 1000 = 706 - 16 /\
    Mem.mcbNext st4 1000 = NULL /\
    Mem.freelist st4 = 1000.
Proof.
  eexists _, _, _, _, _.
  split; [vm_compute; reflexivity|]. split; [vm_compute; reflexivity|].
  split; [vm_compute; reflexivity|]. split; [vm_compute; reflexivity|].
  split; [vm_compute; reflexivity|].
  refine ((fun H => _) (C3_free_all_restores_single_block 1000 706 _ _ _ _)).
  - destruct H as (_ & _ & _ & H1 & H2 & H3 & H4 & _). exact (conj H1 (conj H2 (conj H3 H4))).
  - lia.
  - unfold INT_MAX. lia.
  - change (@nil Z) with (rem 1132 (rem 1016 [1132; 1016])).
    eapply (reach_free _ _ _ _ 4); [eapply (reach_free _ _ _ _ 4) | |].
    + eapply (reach_alloc _ _ _ _ 4 200); [eapply (reach_alloc _ _ _ _ 4 100) | | |].
      * eapply (reach_init _ _ 4 (fun _ => 0)). vm_compute. reflexivity.
      * unfold INT_MAX. lia.
      * vm_compute. reflexivity.
      * discriminate.
      * unfold INT_MAX. lia.
      * vm_compute. reflexivity.
      * discriminate.
    + simpl. auto.
    + vm_compute. reflexivity.
    + simpl. auto.
    + vm_compute. reflexivity.
Defined.

(** * The process manager *)

Ltac pcells :=
  unfold Proc.get_next, Proc.get_pid, Proc.get_state, Proc.get_stackAddr,
    Proc.get_stackPtr, Proc.set_next, Proc.set_magic, Proc.set_pid, Proc.set_state,
    Proc.set_stackAddr, Proc.set_stackPtr, Proc.load, Proc.store,
    Proc.set_heap, Proc.set_procId, Proc.set_readyQ, Proc.set_readyQEnd,
    Proc.set_runningProc, Proc.set_rsp, Mem.store, Mem.set_mem,
    Proc.OFF_next, Proc.OFF_magic, Proc.OFF_pid, Proc.OFF_state,
    Proc.OFF_stackAddr, Proc.OFF_stackPtr, Proc.SZ_PCB in *;
  cbn [Proc.heap Proc.procId Proc.readyQ Proc.readyQEnd Proc.runningProc Proc.rsp
       Mem.mem Mem.mcb Mem.endMem Mem.freelist] in *;
  rewrite ?Z.add_0_r in *.

Lemma qseg_app (mm : memory) (l1 l2 : list Z) (p e : Z) :
  qseg mm p (l1 ++ l2) e <-> exists x, qseg mm p l1 x /\ qseg mm x l2 e.
Proof.
  revert p. induction l1 as [| a r IH]; intros p; simpl.
  - split.
    + intros H. exists p. auto.
    + intros (x & -> & H). exact H.
  - rewrite IH. split.
    + intros (E & N & x & H1 & H2). exists x. auto.
    + intros (x & (E & N & H1) & H2). split_all; auto. exists x. auto.
Qed.

Lemma qseg_frame (mm mm' : memory) (l : list Z) (p e : Z) :
  (forall a, In a l -> mm' (a + Proc.OFF_next) = mm (a + Proc.OFF_next)) ->
  qseg mm p l e -> qseg mm' p l e.
Proof.
  revert p. induction l as [| a r IH]; intros p E; simpl; [auto|].
  intros (Ep & N & H). rewrite (E a (or_introl eq_refl)). split_all; auto.
  apply IH; auto. intros b Hb. apply E. right. exact Hb.
Qed.

Lemma qseg_nonnull (mm : memory) (l : list Z) (p e : Z) :
  qseg mm p l e -> forall a, In a l -> a <> NULL.
Proof.
  revert p. induction l as [| a r IH]; simpl; intros p H b Hb; [contradiction|].
  destruct H as (_ & N & H). destruct Hb as [<- | Hb]; [exact N | eauto].
Qed.

Lemma last_in {A : Type} (l : list A) (d : A) : l <> [] -> In (last l d) l.
Proof.
  intros H. destruct (exists_last H) as (l' & a & ->).
  rewrite last_last. apply in_or_app. simpl. auto.
Qed.

(** Appending [r] behind a non-empty queue by writing the [next] of its
    last PCB. *)
Lemma qseg_append (mm mm' : memory) (l : list Z) (p r : Z) :
  l <> [] -> NoDup l ->
  qseg mm p l NULL ->
  mm' (last l NULL + Proc.OFF_next) = r ->
  (forall a, In a l -> a <> last l NULL ->
             mm' (a + Proc.OFF_next) = mm (a + Proc.OFF_next)) ->
  qseg mm' p l r.
Proof.
  intros Hne Hnd Hq Hlast Hfr.
  destruct (exists_last Hne) as (l' & e & ->). rewrite last_last in *.
  apply qseg_app in Hq. destruct Hq as (x & H1 & H2).
  simpl in H2. destruct H2 as (-> & N & _).
  apply qseg_app. exists e. split.
  - eapply qseg_frame; [| exact H1]. intros a Ha. apply Hfr.
    + apply in_or_app. auto.
    + intros ->. apply NoDup_remove_2 in Hnd. apply Hnd. rewrite app_nil_r. exact Ha.
  - simpl. split_all; auto.
Qed.

Ltac sched_easy :=
  try solve [ auto | upd_tac
            | intros E; exfalso; apply E; reflexivity
            | intros _; split; [reflexivity | upd_tac]
            | intros x ? ? ?; upd_tac
            | unfold Proc.OFF_next; rewrite ?Z.add_0_r; upd_simpl; assumption ].

Section Sched.
Import Proc.

(** What one run of the scheduler does when the ready queue is [p :: q]:
    [p] is dequeued and becomes the running process with its [next]
    cleared, the process that was running, if any, goes behind [q], the
    machine stack pointer is exchanged, and nothing else is written: no
    [state] field in particular. *)
Lemma sched_spec (st : state) (p : Z) (q : list Z) :
  queue_ok st (p :: q) ->
  NoDup (running_list st ++ p :: q) ->
  psep (running_list st ++ p :: q) ->
  (runningProc st <> NULL -> get_next st (runningProc st) = NULL) ->
  exists st',
    sched st = Ok st' /\
    runningProc st' = p /\
    qseg (Mem.mem (heap st')) (readyQ st') (q ++ running_list st) NULL /\
    readyQEnd st' = runningProc st /\
    (runningProc st <> NULL -> readyQEnd st' = runningProc st /\
                               get_stackPtr st' (runningProc st) = rsp st) /\
    get_next st' p = NULL /\
    rsp st' = get_stackPtr st p /\
    (forall a, In a (running_list st ++ p :: q) ->
               get_state st' a = get_state st a /\ get_pid st' a = get_pid st a) /\
    (forall x, x <> last (p :: q) NULL + OFF_next -> x <> p + OFF_next ->
               x <> runningProc st + OFF_stackPtr ->
               Mem.mem (heap st') x = Mem.mem (heap st) x) /\
    procId st' = procId st /\
    Mem.mcb (heap st') = Mem.mcb (heap st) /\
    Mem.endMem (heap st') = Mem.endMem (heap st) /\
    Mem.freelist (heap st') = Mem.freelist (heap st).
Proof.
  intros [Hq He] Hnd Hsep Hrn.
  simpl in Hq. destruct Hq as (Ep & Np & Hq).
  set (r := runningProc st) in *.
  assert (Hpr : In p (running_list st ++ p :: q)) by (apply in_or_app; simpl; auto).
  assert (Hqn : forall a, In a q -> a <> NULL /\ a <> p /\
                          (a + 56 <= p \/ p + 56 <= a)).
  { intros a Ha. split; [eapply qseg_nonnull; eauto|].
    assert (Hne : a <> p).
    { intros ->. apply NoDup_remove_2 in Hnd. apply Hnd. apply in_or_app. auto. }
    split; [exact Hne|].
    destruct (Hsep a p ltac:(apply in_or_app; simpl; auto) Hpr) as [? | ?];
      [contradiction | unfold SZ_PCB in *; lia]. }
  assert (Hrq : r <> NULL -> r <> p /\ (r + 56 <= p \/ p + 56 <= r) /\
                forall a, In a q -> a <> r /\ (a + 56 <= r \/ r + 56 <= a)).
  { intros Hr. unfold running_list in Hnd, Hsep. fold r in Hnd, Hsep.
    destruct (Z.eqb_spec r NULL) as [? | _]; [contradiction|].
    simpl in Hnd. apply NoDup_cons_iff in Hnd. destruct Hnd as [Hn1 Hn2].
    assert (Hne : r <> p) by (intros E; apply Hn1; simpl; auto).
    split; [exact Hne|]. split.
    - destruct (Hsep r p ltac:(simpl; auto) ltac:(simpl; auto)) as [? | ?];
        [contradiction | unfold SZ_PCB in *; lia].
    - intros a Ha.
      assert (Hne' : a <> r) by (intros E; apply Hn1; simpl; subst; auto).
      split; [exact Hne'|].
      destruct (Hsep a r ltac:(simpl; auto) ltac:(simpl; auto)) as [? | ?];
        [contradiction | unfold SZ_PCB in *; lia]. }
  unfold sched. rewrite Ep.
  destruct (Z.eqb_spec p NULL) as [? | _]; [contradiction|].
  fold r. pcells. fold r.
  destruct q as [| a q'].
  - (* p was alone in the queue *)
    simpl in Hq. rewrite Hq. cbn [readyQ]. rewrite Z.eqb_refl. cbn [bind readyQ].
    rewrite Z.eqb_refl. cbn [bind]. pcells.
    eexists. split; [reflexivity|]. cbn [runningProc readyQ readyQEnd heap rsp procId].
    unfold running_list. fold r. simpl app.
    destruct (Z.eqb_spec r NULL) as [Er | Nr].
    + rewrite Er. simpl. unfold NULL in *. split_all; sched_easy.
      * intros b [<- | []]. split; upd_tac.
    + destruct (Hrq Nr) as (Hne & Hfar & _).
      specialize (Hrn Nr). pcells.
      destruct (Z.eqb_spec r NULL) as [? | _]; [contradiction|]. simpl negb. cbv iota.
      cbn [Mem.mem Mem.mcb Mem.endMem Mem.freelist heap].
      simpl. unfold NULL in *. split_all; sched_easy.
      * intros b [<- | [<- | []]]; split; upd_tac.
  - (* the queue goes on with a *)
    simpl in Hq. destruct Hq as (Ea & Na & Hq').
    set (e := last (p :: a :: q') NULL) in *.
    assert (Hein : In e (a :: q')).
    { unfold e. rewrite last_cons. apply last_in. discriminate. }
    destruct (Hqn e Hein) as (Ne & Hep & Hefar).
    assert (Ean : (a =? NULL) = false) by (apply Z.eqb_neq; exact Na).
    assert (Een : (e =? NULL) = false) by (apply Z.eqb_neq; exact Ne).
    rewrite Ea. cbn [readyQ]. rewrite Ean. cbn [readyQ readyQEnd]. rewrite ?Ean.
    rewrite He, Een. cbn [bind]. pcells.
    eexists. split; [reflexivity|]. cbn [runningProc readyQ readyQEnd heap rsp procId].
    assert (Hndq : NoDup (a :: q')).
    { apply NoDup_app_remove_l in Hnd. inversion Hnd; assumption. }
    assert (He' : e = last (a :: q') NULL) by reflexivity.
    assert (HsepQ : psep (p :: a :: q')).
    { intros x y Hx Hy. apply Hsep; apply in_or_app; right; assumption. }
    assert (Happ : forall mm' y,
               mm' e = y ->
               (forall b, In b (a :: q') -> b <> e -> mm' b = Mem.mem (heap st) b) ->
               qseg mm' a (a :: q') y).
    { intros mm' y E1 E2.
      eapply qseg_append with (mm := Mem.mem (heap st)); auto; try discriminate.
      - simpl. split_all; auto. rewrite Z.add_0_r. exact Hq'.
      - rewrite <- He'. unfold OFF_next. rewrite Z.add_0_r. exact E1.
      - intros b Hb Hbe. unfold OFF_next. rewrite !Z.add_0_r. rewrite <- He' in Hbe.
        auto. }
    assert (Hqsep : forall b, In b (a :: q') -> b = e \/ b + 56 <= e \/ e + 56 <= b).
    { intros b Hb. apply HsepQ; right; assumption. }
    unfold running_list. fold r.
    destruct (Z.eqb_spec r NULL) as [Er | Nr].
    + rewrite Er. simpl negb. cbv iota. rewrite app_nil_r.
      cbn [Mem.mem Mem.mcb Mem.endMem Mem.freelist heap readyQ].
      split_all; sched_easy.
      * apply Happ; [upd_tac|]. intros b Hb Hbe.
        destruct (Hqn b Hb) as (_ & _ & Hbp). destruct (Hqsep b Hb); [contradiction|].
        upd_tac.
      * simpl app. intros b Hb.
        assert (Hbe : b = e \/ b + 56 <= e \/ e + 56 <= b).
        { apply HsepQ; auto. right. exact Hein. }
        assert (Hbp : b = p \/ b + 56 <= p \/ p + 56 <= b).
        { apply HsepQ; simpl; auto. }
        split; upd_tac.
    + destruct (Hrq Nr) as (Hne & Hfar & Hrq').
      specialize (Hrn Nr). pcells.
      destruct (Hrq' e Hein) as (Her & Hefr).
      simpl negb. cbv iota.
      cbn [Mem.mem Mem.mcb Mem.endMem Mem.freelist heap readyQ].
      split_all; sched_easy.
      * apply qseg_app. exists r. split.
        -- apply Happ; [upd_tac|]. intros b Hb Hbe.
           destruct (Hqn b Hb) as (_ & _ & Hbp). destruct (Hrq' b Hb) as (_ & Hbr).
           destruct (Hqsep b Hb); [contradiction|]. upd_tac.
        -- simpl. unfold OFF_next. rewrite Z.add_0_r. split_all; auto.
           upd_simpl. exact Hrn.
      * simpl app. intros b [<- | Hb].
        -- split; upd_tac.
        -- assert (Hbe : b = e \/ b + 56 <= e \/ e + 56 <= b).
           { apply HsepQ; auto. right. exact Hein. }
           assert (Hbp : b = p \/ b + 56 <= p \/ p + 56 <= b).
           { apply HsepQ; simpl; auto. }
           assert (Hbr : b = p \/ b <> r /\ (b + 56 <= r \/ r + 56 <= b)).
           { destruct Hb as [<- | Hb]; [left; reflexivity | right; apply Hrq'; exact Hb]. }
           split; upd_tac.
Qed.

End Sched.

(** ** Faults

    The allocator dereferences no pointer of the process manager: the only
    way its model fails is by running out of fuel. *)

Lemma insertFree_scan_fault (fuel : nat) (st : Mem.state) (m l s : Z) (e : fault) :
  Mem.insertFree_scan fuel st m l s = Err e -> e = OutOfFuel.
Proof.
  revert l s. induction fuel as [| n IH]; intros l s; simpl.
  - congruence.
  - destruct (negb (s =? NULL) && (Mem.get_size st m <? Mem.get_size st s));
      [apply IH | discriminate].
Qed.

Lemma insertFree_fault (fuel : nat) (st : Mem.state) (m : Z) (e : fault) :
  Mem.insertFree fuel st m = Err e -> e = OutOfFuel.
Proof.
  unfold Mem.insertFree.
  destruct (Mem.insertFree_scan fuel st m NULL (Mem.freelist st)) as [[l s] | e'] eqn:E;
    simpl; [discriminate|].
  intros [= <-]. eapply insertFree_scan_fault; eauto.
Qed.

Lemma bind_fault {A B : Type} (r : res A) (k : A -> res B) (e : fault) :
  bind r k = Err e ->
  r = Err e \/ exists a, r = Ok a /\ k a = Err e.
Proof.
  destruct r as [a | e']; simpl; [right; exists a; auto | intros [= <-]; left; reflexivity].
Qed.

Lemma memFree_prev_fault (fuel : nat) (st : Mem.state) (m : Z) (e : fault) :
  Mem.memFree_prev fuel st m = Err e -> e = OutOfFuel.
Proof.
  unfold Mem.memFree_prev.
  destruct (negb (Mem.get_prev st m =? NULL) &&
            (Mem.get_magic st (Mem.get_prev st m) =? Mem.MAGIC_FREE));
    intros H; apply bind_fault in H;
    (destruct H as [H | (a & _ & H)]; [eapply insertFree_fault; eauto | discriminate]).
Qed.

Lemma memFree_next_fault (fuel : nat) (st : Mem.state) (m : Z) (e : fault) :
  Mem.memFree_next fuel st m = Err e -> e = OutOfFuel.
Proof.
  unfold Mem.memFree_next.
  destruct (negb (Mem.mcbNext st m =? NULL) &&
            (Mem.get_magic st (Mem.mcbNext st m) =? Mem.MAGIC_FREE));
    [apply insertFree_fault | discriminate].
Qed.

Lemma memFree_fault (fuel : nat) (st : Mem.state) (addr : Z) (e : fault) :
  Mem.memFree fuel st addr = Err e -> e = OutOfFuel.
Proof.
  unfold Mem.memFree.
  destruct (addr =? NULL); [discriminate|].
  destruct (negb (Mem.get_magic st (addr - Mem.SZ_MCB) =? Mem.MAGIC_USED)); [discriminate|].
  destruct (addr - Mem.SZ_MCB =? NULL); [discriminate|].
  intros H. apply bind_fault in H. destruct H as [H | ([st1 m1] & _ & H)].
  - eapply memFree_prev_fault; eauto.
  - eapply memFree_next_fault; eauto.
Qed.

Lemma sched_fault (st : Proc.state) (e : fault) :
  Proc.sched st = Err e -> e = NullDeref_readyQEnd.
Proof.
  unfold Proc.sched.
  destruct (Proc.readyQ st =? NULL); [discriminate|].
  intros H. apply bind_fault in H. destruct H as [H | (a & _ & H)]; [| discriminate].
  revert H.
  repeat match goal with
         | |- context [if ?c then _ else _] => destruct c
         end; congruence.
Qed.

Lemma procDelete_find_fault (fuel : nat) (st : Proc.state) (pid proc prev : Z) (e : fault) :
  Proc.procDelete_find fuel st pid proc prev = Err e -> e = OutOfFuel.
Proof.
  revert proc prev. induction fuel as [| n IH]; intros proc prev; simpl.
  - congruence.
  - destruct (proc =? NULL); [discriminate|].
    destruct (Proc.get_pid st proc =? pid); [discriminate | apply IH].
Qed.

(** The search loop of [procDelete] on a queue without the PID. *)
Lemma procDelete_find_none (st : Proc.state) (pid : Z) (q : list Z) :
  forall (fuel : nat) (proc prev : Z),
    qseg (Mem.mem (Proc.heap st)) proc q NULL ->
    (forall a, In a q -> Proc.get_pid st a <> pid) ->
    (length q < fuel)%nat ->
    exists prev', Proc.procDelete_find fuel st pid proc prev = Ok (NULL, prev').
Proof.
  induction q as [| a r IH]; intros fuel proc prev Hq Hp Hf;
    (destruct fuel as [| n]; [simpl in Hf; lia|]); simpl in *.
  - subst proc. exists prev. reflexivity.
  - destruct Hq as (-> & Na & Hq).
    destruct (Z.eqb_spec a NULL) as [? | _]; [contradiction|].
    destruct (Z.eqb_spec (Proc.get_pid st a) pid) as [E | _];
      [exfalso; eapply Hp; eauto|].
    apply IH; auto. lia.
Qed.

(** ** Claims on the process manager *)

(** C6 (readyQEnd is the tail of the ready queue after every operation, in
    particular after the scheduler ran with runningProc null): refuted by
    the code.  In the run procInit; procCreate; procCreate; procDelete(2)
    the running process deletes itself while two processes are queued; the
    scheduler then leaves a ready queue of one PCB with readyQEnd null, no
    list of PCBs satisfies the queue invariant, and the next procCreate
    dereferences the null readyQEnd. *)
Theorem C6_readyQEnd_null_after_self_delete :
  exists st,
    run_self_delete = Ok st /\
    Proc.readyQ st <> NULL /\
    qseg (Mem.mem (Proc.heap st)) (Proc.readyQ st) [Proc.readyQ st] NULL /\
    Proc.readyQEnd st = NULL /\
    (forall q, ~ queue_ok st q) /\
    Proc.procCreate run_fuel st 33 = Err NullDeref_readyQEnd.
Proof.
  eexists. split; [vm_compute; reflexivity|].
  split; [vm_compute; discriminate|].
  split; [vm_compute; repeat split; discriminate|].
  split; [vm_compute; reflexivity|].
  split; [| vm_compute; reflexivity].
  intros q [Hq He]. destruct q as [| a r].
  - vm_compute in Hq. discriminate.
  - assert (Hin : In (last (a :: r) NULL) (a :: r)) by (apply last_in; discriminate).
    rewrite <- He in Hin.
    apply (qseg_nonnull _ _ _ _ Hq) in Hin. apply Hin. vm_compute. reflexivity.
Qed.

(** C10 (procDelete dereferences runningProc unguarded when the PID is not
    in the ready queue): whenever the search of procDelete finds nothing,
    the outcome is decided by runningProc, and a null runningProc is the
    fault; with runningProc non-null at entry procDelete never takes the
    null-dereference branch; and in the state reached by procInit followed
    by procDelete(0), where the only process deleted itself and the ready
    queue was empty, runningProc is null and every procDelete takes it. *)
Theorem C10_procDelete_derefs_runningProc :
  (forall fuel st pid prev,
      Proc.procDelete_find fuel st pid (Proc.readyQ st) NULL = Ok (NULL, prev) ->
      Proc.runningProc st = NULL ->
      Proc.procDelete fuel st pid = Err NullDeref_runningProc) /\
  (forall fuel st pid,
      Proc.runningProc st <> NULL ->
      Proc.procDelete_unlink fuel st pid <> Err NullDeref_runningProc /\
      Proc.procDelete fuel st pid <> Err NullDeref_runningProc) /\
  (exists st0 st,
      boot = Ok st0 /\
      Proc.procDelete run_fuel st0 0 = Ok (0, st) /\
      Proc.readyQ st0 = NULL /\
      Proc.get_pid st0 (Proc.runningProc st0) = 0 /\
      Proc.runningProc st = NULL /\
      forall fuel pid, Proc.procDelete (S fuel) st pid = Err NullDeref_runningProc).
Proof.
  split; [| split].
  - intros fuel st pid prev Hf Hr.
    unfold Proc.procDelete, Proc.procDelete_unlink. rewrite Hf. cbn [bind].
    rewrite Z.eqb_refl. cbn [negb]. rewrite Hr, Z.eqb_refl. reflexivity.
  - intros fuel st pid Hr.
    assert (Hu : Proc.procDelete_unlink fuel st pid <> Err NullDeref_runningProc).
    { unfold Proc.procDelete_unlink. intros H. apply bind_fault in H.
      destruct H as [H | ([proc prev] & _ & H)].
      - apply procDelete_find_fault in H. discriminate.
      - destruct (negb (proc =? NULL)).
        + apply bind_fault in H. destruct H as [H | (h & _ & H)].
          * apply memFree_fault in H. discriminate.
          * apply bind_fault in H. destruct H as [H | (h' & _ & H)].
            -- apply memFree_fault in H. discriminate.
            -- discriminate.
        + destruct (Z.eqb_spec (Proc.runningProc st) NULL) as [? | _]; [contradiction|].
          destruct (Proc.get_pid st (Proc.runningProc st) =? pid); discriminate. }
    split; [exact Hu|].
    unfold Proc.procDelete. intros H. apply bind_fault in H.
    destruct H as [H | (st1 & _ & H)]; [exact (Hu H)|].
    apply bind_fault in H. destruct H as [H | (st2 & _ & H)].
    + apply sched_fault in H. discriminate.
    + discriminate.
  - eexists. eexists. split; [vm_compute; reflexivity|].
    split; [vm_compute; reflexivity|].
    split; [vm_compute; reflexivity|].
    split; [vm_compute; reflexivity|].
    split; [vm_compute; reflexivity|].
    intros fuel pid. reflexivity.
Qed.

Lemma C10_witness :
  exists st,
    boot = Ok st /\
    Proc.runningProc st <> NULL /\
    Proc.procDelete run_fuel st 7 <> Err NullDeref_runningProc.
Proof.
  eexists. split; [vm_compute; reflexivity|].
  refine ((fun H => conj H _) _).
  - apply (proj1 (proj2 C10_procDelete_derefs_runningProc)). exact H.
  - vm_compute. discriminate.
Defined.

(** C4, counterexample: in the run procInit; procCreate; procCreate the
    PID 99 is neither queued nor running, and procDelete(99) returns 0
    with another process running and another ready queue: the scheduler is
    run whether the PID was found or not. *)
Lemma C4_counterexample :
  exists st st',
    run_created = Ok st /\
    (exists q, queue_ok st q /\ forall a, In a q -> Proc.get_pid st a <> 99) /\
    Proc.get_pid st (Proc.runningProc st) <> 99 /\
    Proc.procDelete run_fuel st 99 = Ok (0, st') /\
    Proc.runningProc st' <> Proc.runningProc st /\
    Proc.readyQ st' <> Proc.readyQ st.
Proof.
  eexists. eexists. split; [vm_compute; reflexivity|].
  split.
  { exists [4112; 4184]. split.
    - split; vm_compute; [repeat split; discriminate | reflexivity].
    - intros a [<- | [<- | []]]; vm_compute; discriminate. }
  split; [vm_compute; discriminate|].
  split; [vm_compute; reflexivity|].
  split; vm_compute; discriminate.
Qed.

(** C4, amended (the four silent errors): memFree(null), memFree of a
    pointer whose header's magic is not USED, and procYield with an empty
    ready queue return with the state unchanged.  procDelete of a PID that
    is neither queued nor running, called while a process runs, changes
    nothing before it calls the scheduler, so it is exactly one procYield
    and returns 0: with an empty ready queue the state is unchanged; with
    the ready queue [p :: t], well formed, [p] becomes the running process
    and the caller goes behind [t], so the state is changed.  Called while
    no process runs, it dereferences the null [runningProc]. *)
Theorem C4_silent_errors :
  (forall fuel st, Mem.memFree fuel st NULL = Ok st) /\
  (forall fuel st addr,
      Mem.get_magic st (addr - Mem.SZ_MCB) <> Mem.MAGIC_USED ->
      Mem.memFree fuel st addr = Ok st) /\
  (forall st, Proc.readyQ st = NULL -> Proc.procYield st = Ok st) /\
  (forall fuel st q pid,
      qseg (Mem.mem (Proc.heap st)) (Proc.readyQ st) q NULL ->
      (forall a, In a q -> Proc.get_pid st a <> pid) ->
      Proc.runningProc st <> NULL ->
      Proc.get_pid st (Proc.runningProc st) <> pid ->
      (length q < fuel)%nat ->
      Proc.procDelete_unlink fuel st pid = Ok st /\
      Proc.procDelete fuel st pid = (st' <- Proc.procYield st ;; Ok (0, st')) /\
      (q = [] -> Proc.procDelete fuel st pid = Ok (0, st)) /\
      (forall p t,
          q = p :: t ->
          Proc.readyQEnd st = last q NULL ->
          NoDup (Proc.runningProc st :: q) ->
          psep (Proc.runningProc st :: q) ->
          Proc.get_next st (Proc.runningProc st) = NULL ->
          exists st',
            Proc.procDelete fuel st pid = Ok (0, st') /\
            Proc.runningProc st' = p /\
            p <> Proc.runningProc st /\
            queue_ok st' (t ++ [Proc.runningProc st]) /\
            st' <> st)) /\
  (forall fuel st q pid,
      qseg (Mem.mem (Proc.heap st)) (Proc.readyQ st) q NULL ->
      (forall a, In a q -> Proc.get_pid st a <> pid) ->
      Proc.runningProc st = NULL ->
      (length q < fuel)%nat ->
      Proc.procDelete fuel st pid = Err NullDeref_runningProc).
Proof.
  split; [| split; [| split; [| split]]].
  - intros fuel st. reflexivity.
  - intros fuel st addr H. unfold Mem.memFree.
    destruct (addr =? NULL); [reflexivity|].
    destruct (Z.eqb_spec (Mem.get_magic st (addr - Mem.SZ_MCB)) Mem.MAGIC_USED);
      [contradiction | reflexivity].
  - intros st H. unfold Proc.procYield, Proc.sched. rewrite H. reflexivity.
  - intros fuel st q pid Hq Hp Hr Hrp Hf.
    assert (Hu : Proc.procDelete_unlink fuel st pid = Ok st).
    { unfold Proc.procDelete_unlink.
      destruct (procDelete_find_none st pid q fuel (Proc.readyQ st) NULL Hq Hp Hf)
        as (prev & ->).
      cbn [bind]. rewrite Z.eqb_refl. cbn [negb].
      destruct (Z.eqb_spec (Proc.runningProc st) NULL) as [? | _]; [contradiction|].
      destruct (Z.eqb_spec (Proc.get_pid st (Proc.runningProc st)) pid) as [? | _];
        [contradiction | reflexivity]. }
    assert (Hd : Proc.procDelete fuel st pid = (st' <- Proc.sched st ;; Ok (0, st'))).
    { unfold Proc.procDelete. rewrite Hu. reflexivity. }
    split; [exact Hu|]. split; [exact Hd|]. split.
    + intros ->. simpl in Hq. rewrite Hd. unfold Proc.sched. rewrite Hq. reflexivity.
    + intros p t -> He Hnd Hsep Hnx.
      assert (Hrl : running_list st = [Proc.runningProc st]).
      { unfold running_list.
        destruct (Z.eqb_spec (Proc.runningProc st) NULL); [contradiction | reflexivity]. }
      destruct (sched_spec st p t (conj Hq He)
                  ltac:(rewrite Hrl; exact Hnd) ltac:(rewrite Hrl; exact Hsep)
                  ltac:(intros _; exact Hnx))
        as (st' & Es & Hrun' & Hq' & He' & _).
      rewrite Hrl in Hq'.
      assert (Hpr : p <> Proc.runningProc st).
      { intros E. apply NoDup_cons_iff in Hnd. apply (proj1 Hnd). rewrite <- E.
        simpl. auto. }
      exists st'. rewrite Hd, Es. split; [reflexivity|]. split; [exact Hrun'|].
      split; [exact Hpr|]. split.
      * split; [exact Hq' | rewrite He', last_last; reflexivity].
      * intros E. apply Hpr. rewrite <- Hrun', E. reflexivity.
  - intros fuel st q pid Hq Hp Hr Hf.
    unfold Proc.procDelete, Proc.procDelete_unlink.
    destruct (procDelete_find_none st pid q fuel (Proc.readyQ st) NULL Hq Hp Hf)
      as (prev & ->).
    cbn [bind]. rewrite Z.eqb_refl. cbn [negb]. rewrite Hr, Z.eqb_refl. reflexivity.
Qed.





(** ** An allocation taken back

    [memAlloc] followed by [memFree] of its result, with nothing in
    between, gives back the chain and the free list. *)

Lemma NoDup_ins_inv (sz : Z -> Z) (n : Z) (l : list Z) :
  NoDup (ins sz n l) -> ~ In n l.
Proof.
  induction l as [| a r IH]; simpl; [tauto|].
  destruct (sz n <? sz a).
  - intros H. apply NoDup_cons_iff in H. destruct H as [Ha Hr].
    rewrite in_ins in Ha. intros [E | E]; [apply Ha; left; exact E | exact (IH Hr E)].
  - intros H. apply NoDup_cons_iff in H. destruct H as [H _]. exact H.
Qed.

Lemma Rep_get_size (st : Mem.state) (bs : list blk) (fl : list Z) (a s g : Z) :
  Rep st bs fl -> In (a, s, g) bs -> Mem.get_size st a = s.
Proof.
  intros R H. exact (proj2 (hdrs_in _ _ _ _ (rep_hdrs _ _ _ R) H)).
Qed.

Lemma Rep_freelist_head (st : Mem.state) (bs : list blk) (fl : list Z) :
  Rep st bs fl -> Mem.freelist st = hd NULL fl.
Proof. intros R. exact (lseg_head _ _ _ _ (rep_links _ _ _ R)). Qed.

Section Undo.
Import Mem.

Lemma memAlloc_memFree_undo (fuel : nat) (st : state) (pre post : list blk)
      (rest : list Z) (m S size : Z) :
  Rep st (pre ++ (m, S, MAGIC_FREE) :: post) (m :: rest) ->
  last_not_free pre -> head_not_free post ->
  16 <= adjust size <= S ->
  (Datatypes.S (Datatypes.S (length rest)) < fuel)%nat ->
  exists st1 bs1 fl1 st2,
    memAlloc fuel st size = Ok (m + 16, st1) /\
    Rep st1 bs1 fl1 /\
    memFree fuel st1 (m + 16) = Ok st2 /\
    Rep st2 (pre ++ (m, S, MAGIC_FREE) :: post) (m :: rest) /\
    (forall x, in_used_payload (pre ++ (m, S, MAGIC_FREE) :: post) x ->
               mem st2 x = mem st x) /\
    mcb st2 = mcb st /\ endMem st2 = endMem st.
Proof.
  intros R Hpre Hpost Hsz Hfuel.
  set (bs := pre ++ (m, S, MAGIC_FREE) :: post) in *.
  assert (Hm0 : 0 < m) by (eapply Rep_fl_pos; [exact R | simpl; auto]).
  assert (Hmr : ~ In m rest).
  { pose proof (rep_nodup _ _ _ R) as H. apply NoDup_cons_iff in H. tauto. }
  (* the sizes of the free blocks, in any state that represents the chain *)
  assert (Hmax : forall st' fl', Rep st' bs fl' ->
                 forall b, In b rest -> get_size st' b <= get_size st' m).
  { intros st' fl' R' b Hb.
    assert (Hbin : In b (m :: rest)) by (right; exact Hb).
    apply (rep_free _ _ _ R) in Hbin. apply in_free_addrs in Hbin.
    destruct Hbin as (s & Hs).
    assert (Hmin : In (m, S, MAGIC_FREE) bs) by (apply in_or_app; simpl; auto).
    rewrite (Rep_get_size _ _ _ _ _ _ R' Hs), (Rep_get_size _ _ _ _ _ _ R' Hmin).
    rewrite <- (Rep_get_size _ _ _ _ _ _ R Hs), <- (Rep_get_size _ _ _ _ _ _ R Hmin).
    apply (desc_head_max _ _ _ _ (rep_desc _ _ _ R)). right. exact Hb. }
  unfold memFree.
  destruct (Z.eqb_spec (m + 16) NULL) as [E | _]; [unfold NULL in E; lia|].
  unfold SZ_MCB. replace (m + 16 - 16) with m by lia.
  destruct (Z.eqb_spec m NULL) as [E | _]; [unfold NULL in E; lia|].
  destruct (Z_le_gt_dec (S - adjust size) 32) as [Hw | Hs].
  - destruct (memAlloc_whole fuel st pre post rest m S size R ltac:(lia) Hw)
      as (st1 & E1 & R1 & Hfr1 & _ & Hm1 & He1).
    pose proof (Rep_block_hdr _ _ _ _ _ R1) as (_ & Hg & _).
    unfold b_addr, b_magic in Hg. simpl in Hg.
    destruct (memFree_prev_keep fuel st1 pre post rest m S R1 Hpre ltac:(lia))
      as (st2 & E2 & R2 & Hfr2 & Hm2 & He2).
    exists st1. eexists. eexists. exists st2.
    split; [exact E1|]. split; [exact R1|].
    change (get_magic st1 m) with (mem st1 (m + 8)). rewrite Hg, Z.eqb_refl.
    cbn [negb]. cbv iota zeta. rewrite E2. cbn [bind]. cbv beta iota.
    rewrite (memFree_next_keep fuel st2 pre post _ m S MAGIC_FREE R2 Hpost).
    rewrite (ins_head _ _ _ (Hmax _ _ R2)) in R2.
    split_all; auto; try congruence.
    intros x Hx. apply in_used_payload_mid_free in Hx.
    rewrite Hfr2 by exact Hx. apply Hfr1. apply in_used_payload_mid_free. exact Hx.
  - destruct (memAlloc_split fuel st pre post rest m S size R ltac:(lia) ltac:(lia)
                ltac:(lia))
      as (st1 & E1 & R1 & Hfr1 & _ & Hm1 & He1).
    set (A := adjust size) in *. set (n := m + 16 + A) in *.
    pose proof (Rep_block_hdr _ _ _ _ _ R1) as (_ & Hg & _).
    unfold b_addr, b_magic in Hg. simpl in Hg.
    assert (Hnr : ~ In n rest) by (apply (NoDup_ins_inv _ _ _ (rep_nodup _ _ _ R1))).
    destruct (memFree_prev_keep fuel st1 pre _ _ m A R1 Hpre
                ltac:(rewrite length_ins; lia))
      as (st2 & E2 & R2 & Hfr2 & Hm2 & He2).
    destruct (memFree_next_merge fuel st2 pre post _ m A n (S - A - 16) R2
                ltac:(rewrite !length_ins; lia))
      as (st3 & E3 & R3 & Hfr3 & Hm3 & He3).
    exists st1. eexists. eexists. exists st3.
    split; [exact E1|]. split; [exact R1|].
    change (get_magic st1 m) with (mem st1 (m + 8)). rewrite Hg, Z.eqb_refl.
    cbn [negb]. cbv iota zeta. rewrite E2. cbn [bind]. cbv beta iota.
    replace (A + 16 + (S - A - 16)) with S in R3 by lia.
    assert (El : rem m (rem n (ins (get_size st2) m (ins (get_size st1) n rest))) = rest).
    { unfold rem. rewrite remove_remove_comm. fold (rem m (ins (get_size st2) m
                                                           (ins (get_size st1) n rest))).
      rewrite rem_ins_same.
      - apply rem_ins_same. exact Hnr.
      - rewrite in_ins. unfold n. intros [E | E]; [lia | contradiction]. }
    rewrite El in R3. rewrite (ins_head _ _ _ (Hmax _ _ R3)) in R3.
    split_all; auto; try congruence.
    intros x Hx. apply in_used_payload_mid_free in Hx.
    rewrite Hfr3 by exact Hx.
    rewrite Hfr2
      by (apply in_used_payload_app in Hx; apply in_used_payload_app;
          destruct Hx; [left | right; apply in_used_payload_cons_free]; assumption).
    apply Hfr1. apply in_used_payload_mid_free. exact Hx.
Qed.

End Undo.

(** C9 (procCreate when the PCB is allocated and the stack is not): in a
    state that satisfies the allocator invariants, if the allocation of
    the PCB succeeds and the allocation of the 128 KiB stack fails, then
    procCreate frees the PCB and returns -1; the allocator then represents
    the same chain of blocks with the same free list and the same globals
    as before the call, every byte of every payload in use is as it was,
    and the PID counter, the ready queue pointers, runningProc and the
    stack pointer are unchanged. *)
Theorem C9_procCreate_stack_alloc_failure
        (fuel : nat) (st : Proc.state) (bs : list blk) (fl : list Z)
        (start proc : Z) (h1 h2 : Mem.state) :
  Rep (Proc.heap st) bs fl -> no_adj_free bs ->
  (enough_fuel (Proc.heap st) <= fuel)%nat ->
  Mem.memAlloc fuel (Proc.heap st) Proc.SZ_PCB = Ok (proc, h1) -> proc <> NULL ->
  Mem.memAlloc fuel h1 Proc.STACKSZ = Ok (NULL, h2) ->
  exists st',
    Proc.procCreate fuel st start = Ok (Proc.Returned (-1), st') /\
    Mem.memFree fuel h1 proc = Ok (Proc.heap st') /\
    Rep (Proc.heap st') bs fl /\
    Mem.freelist (Proc.heap st') = Mem.freelist (Proc.heap st) /\
    Mem.mcb (Proc.heap st') = Mem.mcb (Proc.heap st) /\
    Mem.endMem (Proc.heap st') = Mem.endMem (Proc.heap st) /\
    (forall x, in_used_payload bs x ->
               Mem.mem (Proc.heap st') x = Mem.mem (Proc.heap st) x) /\
    Proc.procId st' = Proc.procId st /\
    Proc.readyQ st' = Proc.readyQ st /\
    Proc.readyQEnd st' = Proc.readyQEnd st /\
    Proc.runningProc st' = Proc.runningProc st /\
    Proc.rsp st' = Proc.rsp st.
Proof.
  intros R Hadj Hfuel Ea Hp Es.
  pose proof (Rep_enough _ _ _ _ R Hfuel) as Hlen.
  assert (E56 : Mem.adjust Proc.SZ_PCB = 56) by (vm_compute; reflexivity).
  pose proof (Rep_freelist_head _ _ _ R) as Hhd.
  destruct fl as [| m rest].
  { simpl in Hhd. rewrite (memAlloc_fail fuel _ _ (or_introl Hhd)) in Ea.
    injection Ea as <- _. contradiction. }
  simpl in Hhd.
  destruct (Rep_free_block _ _ _ m R (or_introl eq_refl)) as (pre & S & post & ->).
  assert (Hs : Mem.get_size (Proc.heap st) m = S).
  { eapply Rep_get_size; [exact R | apply in_or_app; simpl; auto]. }
  destruct (Z_lt_ge_dec S 56) as [Hlt | Hge].
  { rewrite (memAlloc_fail fuel _ _) in Ea.
    - injection Ea as <- _. contradiction.
    - right. rewrite Hhd, Hs, E56. exact Hlt. }
  apply no_adj_free_mid in Hadj. destruct Hadj as (_ & _ & Hn).
  destruct (Hn eq_refl) as [Hpre Hpost].
  destruct (memAlloc_memFree_undo fuel _ pre post rest m S Proc.SZ_PCB R Hpre Hpost
              ltac:(rewrite E56; lia) ltac:(simpl in Hlen; lia))
    as (st1 & bs1 & fl1 & st2 & E1 & R1 & E2 & R2 & Hfr & Hm & He).
  rewrite E1 in Ea. injection Ea as <- <-.
  destruct (memAlloc_null_same _ _ _ _ _ _ R1 Es) as [-> _].
  exists (Proc.set_heap (Proc.set_heap (Proc.set_heap st st1) st1) st2).
  unfold Proc.procCreate, Proc.procCreate_enqueue. rewrite E1. cbn [bind].
  cbv beta iota zeta.
  destruct (Z.eqb_spec (m + 16) NULL) as [? | _]; [contradiction|].
  unfold Proc.set_heap at 1 2. cbn [Proc.heap]. rewrite Es. cbn [bind]. cbv beta iota zeta.
  rewrite Z.eqb_refl. unfold Proc.set_heap at 1. cbn [Proc.heap].
  rewrite E2. cbn [bind]. rewrite Z.eqb_refl.
  unfold Proc.set_heap.
  cbn [Proc.heap Proc.procId Proc.readyQ Proc.readyQEnd Proc.runningProc Proc.rsp].
  split_all; auto.
  rewrite (Rep_freelist_head _ _ _ R2). simpl. symmetry. exact Hhd.
Qed.

Lemma C9_witness :
  exists h st',
    Mem.memInit 30 (fun _ => 0) 1000 706 = Ok h /\
    Proc.procCreate 30 (Proc.mkState h 0 0 0 0 rsp_main) 11 =
      Ok (Proc.Returned (-1), st') /\
    Rep (Proc.heap st') [(1000, 706 - 16, Mem.MAGIC_FREE)] [1000] /\
    Proc.procId st' = 0.
Proof.
  destruct (memInit_spec 30 (fun _ => 0) 1000 706) as (h & E & R & Hm & He);
    [lia | unfold INT_MAX; lia | lia |].
  exists h.
  assert (Eq : Mem.memInit 30 (fun _ => 0) 1000 706 = Ok h) by exact E.
  vm_compute in E. injection E as E.
  refine ((fun H => _)
            (C9_procCreate_stack_alloc_failure 30 (Proc.mkState h 0 0 0 0 rsp_main)
               _ _ 11 1016 _ _ R _ _ _ _ _)).
  - destruct H as (st' & Hc & _ & R' & _ & _ & _ & _ & Hid & _).
    exists st'. split; [exact Eq|]. split; [exact Hc|]. split; [exact R' | exact Hid].
  - simpl. auto.
  - cbn [Proc.heap]. unfold enough_fuel. rewrite Hm, He. vm_compute. lia.
  - cbn [Proc.heap]. rewrite <- E. vm_compute. reflexivity.
  - discriminate.
  - rewrite <- E. vm_compute. reflexivity.
Defined.

(** ** procCreate *)

Lemma alloc_step_block (sz m : Z) (bs bs' : list blk) :
  alloc_step sz m bs bs' -> exists S, sz <= S /\ In (m, S, Mem.MAGIC_USED) bs'.
Proof.
  intros [pre S post H1 H2 | pre S post H].
  - exists S. split; [exact H1 | apply in_or_app; simpl; auto].
  - exists sz. split; [lia | apply in_or_app; simpl; auto].
Qed.

Lemma alloc_step_keeps (sz m : Z) (bs bs' : list blk) (a S : Z) :
  alloc_step sz m bs bs' ->
  In (a, S, Mem.MAGIC_USED) bs -> In (a, S, Mem.MAGIC_USED) bs'.
Proof.
  intros [pre S0 post H1 H2 | pre S0 post H] Hin;
    apply in_app_or in Hin; apply in_or_app;
    (destruct Hin as [Hin | [Hin | Hin]];
     [left; exact Hin | discriminate Hin | right; simpl; auto]).
Qed.

Lemma used_blocks_apart (bs : list blk) (a e p S p' S' : Z) :
  layout a bs e ->
  In (p - 16, S, Mem.MAGIC_USED) bs -> In (p' - 16, S', Mem.MAGIC_USED) bs ->
  p = p' \/ p + S <= p' - 16 \/ p' + S' <= p - 16.
Proof.
  intros L H H'. destruct (layout_disjoint _ _ _ _ _ L H H') as [E | E].
  - left. injection E as E _. lia.
  - unfold b_addr, b_size in E. simpl in E. lia.
Qed.

Lemma pcb_block_payload (bs : list blk) (p y : Z) :
  pcb_block bs p -> p <= y < p + Proc.SZ_PCB -> in_used_payload bs y.
Proof.
  intros (S & Hin & HS) Hy. exists (p - 16, S, Mem.MAGIC_USED).
  unfold b_addr, b_size, b_magic. simpl. split_all; auto; lia.
Qed.

(** The straight-line part of [procCreate], once both allocations have
    succeeded. *)
Lemma procCreate_enqueue_spec (fuel : nat) (st : Proc.state)
      (start proc stack : Z) (h1 h2 : Mem.state) :
  Mem.memAlloc fuel (Proc.heap st) Proc.SZ_PCB = Ok (proc, h1) -> proc <> NULL ->
  Mem.memAlloc fuel h1 Proc.STACKSZ = Ok (stack, h2) -> stack <> NULL ->
  (stack + 131064 < proc \/ proc + 56 <= stack + 131064) ->
  exists st1,
    Proc.procCreate_enqueue fuel st start = Ok (proc, st1) /\
    (forall y, y < proc \/ proc + 56 <= y -> y <> stack + 131064 ->
               Mem.mem (Proc.heap st1) y = Mem.mem h2 y) /\
    Proc.get_next st1 proc = Proc.readyQ st /\
    Proc.get_pid st1 proc = Proc.procId st /\
    Proc.get_state st1 proc = Proc.READY /\
    Proc.get_stackAddr st1 proc = stack /\
    Proc.get_stackPtr st1 proc = stack + Proc.STACKSZ - 16 /\
    Mem.mem (Proc.heap st1) (stack + Proc.STACKSZ - 8) = start /\
    Mem.mcb (Proc.heap st1) = Mem.mcb h2 /\
    Mem.endMem (Proc.heap st1) = Mem.endMem h2 /\
    Mem.freelist (Proc.heap st1) = Mem.freelist h2 /\
    Proc.procId st1 = wrap32 (Proc.procId st + 1) /\
    Proc.readyQ st1 = proc /\
    Proc.readyQEnd st1 =
      (if Proc.readyQ st =? NULL then proc else Proc.readyQEnd st) /\
    Proc.runningProc st1 = Proc.runningProc st /\
    Proc.rsp st1 = Proc.rsp st.
Proof.
  intros E1 Hp E2 Hs Hx.
  unfold Proc.procCreate_enqueue. rewrite E1. cbn [bind]. cbv beta iota zeta.
  destruct (Z.eqb_spec proc NULL) as [? | _]; [contradiction|].
  unfold Proc.set_heap at 1 2. cbn [Proc.heap]. rewrite E2. cbn [bind]. cbv beta iota zeta.
  destruct (Z.eqb_spec stack NULL) as [? | _]; [contradiction|].
  match goal with
  | |- context [if Proc.get_next ?X proc =? NULL then _ else _] => set (X0 := X)
  end.
  set (m4 := upd (upd (upd (upd (Mem.mem h2) (proc + 12) (Proc.procId st))
                            (proc + 16) Proc.READY) (proc + 24) stack)
                 (proc + 40) (stack + Proc.STACKSZ - Proc.SZ_PTR)).
  set (m5 := upd m4 (m4 (proc + 40)) start).
  set (m6 := upd m5 (proc + 40) (m5 (proc + 40) - Proc.SZ_PTR)).
  set (m7 := upd m6 (proc + 0) (Proc.readyQ st)).
  assert (HmX : Mem.mem (Proc.heap X0) = m7) by reflexivity.
  assert (HrX : Proc.readyQ X0 = proc) by reflexivity.
  assert (HeX : Proc.readyQEnd X0 = Proc.readyQEnd st) by reflexivity.
  assert (HiX : Proc.procId X0 = wrap32 (Proc.procId st + 1)) by reflexivity.
  assert (HnX : Proc.runningProc X0 = Proc.runningProc st) by reflexivity.
  assert (HsX : Proc.rsp X0 = Proc.rsp st) by reflexivity.
  assert (HgX : Mem.mcb (Proc.heap X0) = Mem.mcb h2 /\
                Mem.endMem (Proc.heap X0) = Mem.endMem h2 /\
                Mem.freelist (Proc.heap X0) = Mem.freelist h2)
    by (split_all; reflexivity).
  clearbody X0.
  assert (H4 : m4 (proc + 40) = stack + 131064).
  { unfold m4, Proc.STACKSZ, Proc.SZ_PTR. upd_simpl. lia. }
  assert (H5 : m5 (proc + 40) = stack + 131064).
  { unfold m5. rewrite H4. upd_simpl. exact H4. }
  assert (Hm7 : m7 = upd (upd (upd m4 (stack + 131064) start)
                              (proc + 40) (stack + 131056)) proc (Proc.readyQ st)).
  { unfold m7, m6. rewrite H5. unfold m5. rewrite H4, Z.add_0_r.
    unfold Proc.SZ_PTR. replace (stack + 131064 - 8) with (stack + 131056) by lia.
    reflexivity. }
  rewrite Hm7 in HmX. unfold m4 in HmX. clear Hm7 H4 H5 m7 m6 m5 m4.
  assert (Hnext : Proc.get_next X0 proc = Proc.readyQ st).
  { unfold Proc.get_next, Proc.load, Proc.OFF_next. rewrite HmX, Z.add_0_r.
    upd_simpl. reflexivity. }
  destruct HgX as (Hg1 & Hg2 & Hg3).
  set (st1 := if Proc.get_next X0 proc =? NULL then Proc.set_readyQEnd X0 proc else X0).
  assert (Hh : Proc.heap st1 = Proc.heap X0)
    by (unfold st1; destruct (Proc.get_next X0 proc =? NULL); reflexivity).
  exists st1. split; [reflexivity|].
  unfold Proc.get_next, Proc.get_pid, Proc.get_state, Proc.get_stackAddr,
    Proc.get_stackPtr, Proc.load, Proc.OFF_next, Proc.OFF_pid, Proc.OFF_state,
    Proc.OFF_stackAddr, Proc.OFF_stackPtr, Proc.STACKSZ, Proc.READY.
  rewrite !Hh, HmX, Hg1, Hg2, Hg3.
  split_all; auto.
  - intros y Hy Hyx. upd_tac.
  - rewrite Z.add_0_r. upd_tac.
  - upd_tac.
  - upd_tac.
  - upd_tac.
  - upd_simpl. lia.
  - upd_simpl. reflexivity.
  - unfold st1. destruct (Proc.get_next X0 proc =? NULL); [exact HiX | exact HiX].
  - unfold st1. destruct (Proc.get_next X0 proc =? NULL); [exact HrX | exact HrX].
  - unfold st1. rewrite Hnext.
    destruct (Proc.readyQ st =? NULL); [reflexivity | exact HeX].
  - unfold st1. destruct (Proc.get_next X0 proc =? NULL); [exact HnX | exact HnX].
  - unfold st1. destruct (Proc.get_next X0 proc =? NULL); [exact HsX | exact HsX].
Qed.

(** ** procInit *)

(** [procInit] on a heap that satisfies the allocator invariants: either
    the allocation of the first PCB fails and no process runs, or the
    invariants of the process manager hold with an empty ready queue and
    the process with PID 0 running.  The [next] of the first PCB is never
    assigned: it is null because [memAlloc] cleared the links of the block. *)
Lemma procInit_spec (fuel : nat) (st : Proc.state) (bs : list blk) (fl : list Z) :
  Rep (Proc.heap st) bs fl -> (enough_fuel (Proc.heap st) <= fuel)%nat ->
  exists st',
    Proc.procInit fuel st = Ok st' /\
    Proc.readyQ st' = NULL /\ Proc.readyQEnd st' = NULL /\
    (Proc.runningProc st' = NULL \/
     exists bs' fl',
       PInv st' bs' fl' [] /\
       Proc.runningProc st' = Mem.freelist (Proc.heap st) + 16 /\
       Proc.runningProc st' <> NULL /\
       Proc.get_pid st' (Proc.runningProc st') = 0 /\
       Proc.get_state st' (Proc.runningProc st') = Proc.READY /\
       Proc.procId st' = 1).
Proof.
  intros R Hfuel.
  pose proof (Rep_enough _ _ _ _ R Hfuel) as Hlen.
  assert (A1 : Mem.adjust Proc.SZ_PCB = 56) by (vm_compute; reflexivity).
  unfold Proc.procInit. cbv zeta.
  change (Proc.heap (Proc.set_procId (Proc.set_runningProc (Proc.set_readyQEnd
            (Proc.set_readyQ st NULL) NULL) NULL) 0)) with (Proc.heap st).
  destruct (memAlloc_spec fuel _ _ _ Proc.SZ_PCB R ltac:(rewrite A1; lia) Hlen)
    as [[E _] | (h1 & bs1 & fl1 & E & _ & Hin & R1 & St & _ & Hz & _)].
  - rewrite E. cbn [bind]. rewrite Z.eqb_refl. eexists. split; [reflexivity|].
    split_all; try reflexivity. left. reflexivity.
  - rewrite E. cbn [bind].
    set (proc := Mem.freelist (Proc.heap st) + 16) in *.
    assert (Hp : proc <> NULL).
    { pose proof (Rep_fl_pos _ _ _ _ R Hin). unfold proc, NULL. lia. }
    destruct (Z.eqb_spec proc NULL) as [? | _]; [contradiction|].
    eexists. split; [reflexivity|].
    match goal with |- Proc.readyQ ?X = _ /\ _ => set (X0 := X) end.
    split; [reflexivity|]. split; [reflexivity|]. right.
    rewrite A1 in St. replace (Mem.freelist (Proc.heap st)) with (proc - 16) in St
      by (unfold proc; lia).
    destruct (alloc_step_block _ _ _ _ St) as (Sp & HSp & Hpb).
    assert (Hblk : pcb_block bs1 proc) by (exists Sp; split; [exact Hpb | exact HSp]).
    assert (Hpay : forall k, 0 <= k < 56 -> in_used_payload bs1 (proc + k)).
    { intros k Hk. apply (pcb_block_payload _ _ _ Hblk). unfold Proc.SZ_PCB. lia. }
    assert (HmX : Mem.mem (Proc.heap X0) =
                  upd (upd (upd (upd (upd (Mem.mem h1) (proc + 8) Proc.MAGIC_PROC)
                                     (proc + 12) 0) (proc + 16) Proc.READY)
                           (proc + 24) NULL) (proc + 40) (Proc.rsp st))
      by reflexivity.
    assert (RX : Rep (Proc.heap X0) bs1 fl1).
    { change (Proc.heap X0)
        with (Mem.store (Mem.store (Mem.store (Mem.store (Mem.store h1
                (proc + 8) Proc.MAGIC_PROC) (proc + 12) 0) (proc + 16) Proc.READY)
                (proc + 24) NULL) (proc + 40) (Proc.rsp st)).
      repeat (apply Rep_store_payload; [| apply Hpay; lia]). exact R1. }
    assert (HrunX : Proc.runningProc X0 = proc) by reflexivity.
    assert (HidX : Proc.procId X0 = wrap32 (0 + 1)) by reflexivity.
    assert (HqX : Proc.readyQ X0 = NULL) by reflexivity.
    assert (HeX : Proc.readyQEnd X0 = NULL) by reflexivity.
    clearbody X0.
    assert (Hrl : running_list X0 = [proc]).
    { unfold running_list. rewrite HrunX.
      destruct (Z.eqb_spec proc NULL); [contradiction | reflexivity]. }
    exists bs1, fl1.
    unfold Proc.get_pid, Proc.get_state, Proc.load, Proc.OFF_pid, Proc.OFF_state.
    rewrite HrunX, HmX.
    split_all; auto; try upd_tac.
    constructor.
    + exact RX.
    + split; [simpl; exact HqX | simpl; exact HeX].
    + rewrite Hrl. simpl. repeat constructor. intros [].
    + rewrite Hrl. simpl. intros p [<- | []]. exact Hblk.
    + intros _. rewrite HrunX. unfold Proc.get_next, Proc.load, Proc.OFF_next.
      rewrite HmX, Z.add_0_r. upd_simpl. exact Hz.
Qed.

(** C5, counterexample: the state of the run procInit; procCreate;
    procCreate; procDelete(2) is reachable, a process runs in it and both
    allocations of procCreate succeed, but [readyQEnd] is null while a PCB
    is queued: the scheduler call of procCreate dereferences the null
    pointer, and no process is selected. *)
Lemma C5_counterexample :
  exists st proc stack h1 h2,
    run_self_delete = Ok st /\
    Proc.runningProc st <> NULL /\
    Mem.memAlloc run_fuel (Proc.heap st) Proc.SZ_PCB = Ok (proc, h1) /\
    proc <> NULL /\
    Mem.memAlloc run_fuel h1 Proc.STACKSZ = Ok (stack, h2) /\
    stack <> NULL /\
    Proc.procCreate run_fuel st 33 = Err NullDeref_readyQEnd.
Proof.
  do 5 eexists. split; [vm_compute; reflexivity|].
  split; [vm_compute; discriminate|].
  split; [vm_compute; reflexivity|].
  split; [discriminate|].
  split; [vm_compute; reflexivity|].
  split; [discriminate|].
  vm_compute. reflexivity.
Qed.

(** C5, amended (procCreate puts the new PCB at the head of the ready
    queue and the scheduler then runs it): in a state that satisfies the
    invariants of the allocator and of the process manager, with a process
    running and the ready queue [q], if both allocations of procCreate
    succeed, then the scheduler is entered with the ready queue
    [proc :: q], the new PCB first; the call is suspended in the scheduler
    with the new PCB as runningProc and the ready queue [q] followed by
    the creating process, which is readyQEnd; the PID field of the new PCB
    holds the value of the PID counter at entry. *)
Theorem C5_procCreate_runs_new_process
        (fuel : nat) (st : Proc.state) (bs : list blk) (fl q : list Z)
        (start proc stack : Z) (h1 h2 : Mem.state) :
  PInv st bs fl q ->
  Proc.runningProc st <> NULL ->
  Mem.memAlloc fuel (Proc.heap st) Proc.SZ_PCB = Ok (proc, h1) -> proc <> NULL ->
  Mem.memAlloc fuel h1 Proc.STACKSZ = Ok (stack, h2) -> stack <> NULL ->
  exists st1 st2,
    Proc.procCreate_enqueue fuel st start = Ok (proc, st1) /\
    Proc.readyQ st1 = proc /\
    queue_ok st1 (proc :: q) /\
    Proc.runningProc st1 = Proc.runningProc st /\
    Proc.sched st1 = Ok st2 /\
    Proc.procCreate fuel st start = Ok (Proc.Suspended proc, st2) /\
    Proc.runningProc st2 = proc /\
    queue_ok st2 (q ++ [Proc.runningProc st]) /\
    Proc.readyQEnd st2 = Proc.runningProc st /\
    Proc.get_pid st2 proc = Proc.procId st.
Proof.
  intros [R [Hq He] Hnd Hpcb Hnext] Hrun E1 Hp E2 Hs.
  assert (A1 : Mem.adjust Proc.SZ_PCB = 56) by (vm_compute; reflexivity).
  assert (A2 : Mem.adjust Proc.STACKSZ = 131072) by (vm_compute; reflexivity).
  destruct (memAlloc_Rep _ _ _ _ _ _ _ R ltac:(rewrite A1; lia) E1 Hp)
    as (bs1 & fl1 & R1 & St1 & Hfr1 & _ & _ & _).
  destruct (memAlloc_Rep _ _ _ _ _ _ _ R1 ltac:(rewrite A2; lia) E2 Hs)
    as (bs2 & fl2 & R2 & St2 & Hfr2 & _ & _ & _).
  rewrite A1 in St1. rewrite A2 in St2.
  pose proof (layout_nodup _ _ _ (rep_layout _ _ _ R)) as Hnd0.
  pose proof (layout_nodup _ _ _ (rep_layout _ _ _ R1)) as Hnd1.
  pose proof (rep_layout _ _ _ R2) as L2.
  destruct (alloc_step_used _ _ _ _ St1 Hnd0) as [_ Hfresh1].
  destruct (alloc_step_used _ _ _ _ St2 Hnd1) as [_ Hfresh2].
  destruct (alloc_step_block _ _ _ _ St1) as (Sp & HSp & Hpb1).
  pose proof (alloc_step_keeps _ _ _ _ _ _ St2 Hpb1) as Hpb2.
  destruct (alloc_step_block _ _ _ _ St2) as (Ss & HSs & Hsb2).
  set (x := stack + 131064).
  (* the old PCBs are where they were, and apart from the new blocks *)
  assert (Hold : forall a, In a (running_list st ++ q) ->
             (a + 56 <= proc \/ proc + 56 <= a) /\
             (x < a \/ a + 56 <= x) /\
             (forall y, a <= y < a + 56 ->
                        Mem.mem h2 y = Mem.mem (Proc.heap st) y)).
  { intros a Ha. pose proof (Hpcb a Ha) as Hb. destruct Hb as (Sa & Hin & HSa).
    unfold Proc.SZ_PCB in HSa.
    pose proof (alloc_step_keeps _ _ _ _ _ _ St1 Hin) as Hin1.
    pose proof (alloc_step_keeps _ _ _ _ _ _ St2 Hin1) as Hin2.
    assert (Hap : a <> proc).
    { intros ->. apply Hfresh1. exists Sa. exact Hin. }
    assert (Has : a <> stack).
    { intros ->. apply Hfresh2. exists Sa. exact Hin1. }
    pose proof (used_blocks_apart _ _ _ _ _ _ _ L2 Hin2 Hpb2) as D1.
    pose proof (used_blocks_apart _ _ _ _ _ _ _ L2 Hin2 Hsb2) as D2.
    split; [lia|]. split; [unfold x; lia|].
    intros y Hy. rewrite Hfr2, Hfr1; [reflexivity | |].
    - eapply pcb_block_payload; [exists Sa; split; [exact Hin | exact HSa]|].
      unfold Proc.SZ_PCB. lia.
    - eapply pcb_block_payload; [exists Sa; split; [exact Hin1 | exact HSa]|].
      unfold Proc.SZ_PCB. lia. }
  assert (Hps : proc <> stack).
  { intros ->. apply Hfresh2. exists Sp. exact Hpb1. }
  assert (Hpx : x < proc \/ proc + 56 <= x).
  { pose proof (used_blocks_apart _ _ _ _ _ _ _ L2 Hpb2 Hsb2) as D. unfold x. lia. }
  destruct (procCreate_enqueue_spec fuel st start proc stack h1 h2 E1 Hp E2 Hs Hpx)
    as (st1 & Eq & Hfr & Hn1 & Hpid1 & _ & _ & _ & _ & _ & _ & _ & _ & Hr1 & He1
        & Hrun1 & _).
  (* the old PCBs in the state in which the scheduler is entered *)
  assert (Hcell : forall a, In a (running_list st ++ q) ->
             forall y, a <= y < a + 56 ->
                       Mem.mem (Proc.heap st1) y = Mem.mem (Proc.heap st) y).
  { intros a Ha y Hy. destruct (Hold a Ha) as (D1 & D2 & Hm).
    rewrite Hfr; [apply Hm; exact Hy | lia | fold x; lia]. }
  assert (Hrl : running_list st1 = running_list st).
  { unfold running_list. rewrite Hrun1. reflexivity. }
  assert (Hrl' : running_list st = [Proc.runningProc st]).
  { unfold running_list. destruct (Z.eqb_spec (Proc.runningProc st) NULL);
      [contradiction | reflexivity]. }
  assert (Hq1 : queue_ok st1 (proc :: q)).
  { split.
    - simpl. split; [exact Hr1|]. split; [exact Hp|].
      change (Mem.mem (Proc.heap st1) (proc + Proc.OFF_next))
        with (Proc.get_next st1 proc).
      rewrite Hn1. eapply qseg_frame; [| exact Hq].
      intros a Ha. apply (Hcell a); [apply in_or_app; right; exact Ha|].
      unfold Proc.OFF_next. lia.
    - rewrite He1. destruct q as [| a r].
      + simpl in Hq. rewrite Hq, Z.eqb_refl. reflexivity.
      + simpl in Hq. destruct Hq as (Ea & Na & _). rewrite Ea.
        destruct (Z.eqb_spec a NULL) as [? | _]; [contradiction|].
        rewrite He. reflexivity. }
  assert (Hnp : ~ In proc (running_list st ++ q)).
  { intros Hin. destruct (Hold proc Hin) as (D & _). lia. }
  assert (Hnd1' : NoDup (running_list st1 ++ proc :: q)).
  { rewrite Hrl. apply NoDup_Add with (a := proc) (l := running_list st ++ q).
    - apply Add_app.
    - split; assumption. }
  assert (Hsep1 : psep (running_list st1 ++ proc :: q)).
  { rewrite Hrl. intros a b Ha Hb. unfold Proc.SZ_PCB.
    assert (Hc : forall c, In c (running_list st ++ proc :: q) ->
                           c = proc \/ In c (running_list st ++ q)).
    { intros c Hc. apply in_app_or in Hc. rewrite in_app_iff.
      destruct Hc as [Hc | [Hc | Hc]]; auto. }
    destruct (Hc a Ha) as [-> | Ha']; destruct (Hc b Hb) as [-> | Hb'].
    - left. reflexivity.
    - destruct (Hold b Hb') as (D & _). lia.
    - destruct (Hold a Ha') as (D & _). lia.
    - destruct (Hpcb a Ha') as (Sa & Hia & HSa).
      destruct (Hpcb b Hb') as (Sb & Hib & HSb).
      pose proof (used_blocks_apart _ _ _ _ _ _ _ (rep_layout _ _ _ R) Hia Hib) as D.
      unfold Proc.SZ_PCB in *. lia. }
  assert (Hnx1 : Proc.runningProc st1 <> NULL ->
                 Proc.get_next st1 (Proc.runningProc st1) = NULL).
  { intros _. rewrite Hrun1. unfold Proc.get_next, Proc.load.
    rewrite (Hcell (Proc.runningProc st)).
    - apply Hnext. exact Hrun.
    - rewrite Hrl'. simpl. auto.
    - unfold Proc.OFF_next. lia. }
  destruct (sched_spec st1 proc q Hq1 Hnd1' Hsep1 Hnx1)
    as (st2 & Es & Hr2 & Hq2 & He2 & _ & _ & _ & Hkeep & _).
  rewrite Hrl, Hrl' in Hq2. rewrite Hrun1 in He2.
  assert (Hpid2 : Proc.get_pid st2 proc = Proc.procId st).
  { rewrite <- Hpid1. apply Hkeep. apply in_or_app. right. simpl. auto. }
  exists st1, st2. split_all; auto.
  - unfold Proc.procCreate. rewrite Eq. cbn [bind]. cbv beta iota.
    destruct (Z.eqb_spec proc NULL) as [? | _]; [contradiction|].
    rewrite Es. reflexivity.
  - split; [exact Hq2 | rewrite He2, last_last; reflexivity].
Qed.


(** * Further properties of the allocator *)

(** ** The self-check of mem.c *)

Lemma lseg_mid (mm : memory) (L p : Z) (l1 l2 : list Z) (a : Z) :
  lseg mm L p (l1 ++ a :: l2) NULL ->
  a <> NULL /\ mm (a + 16) = last l1 L /\ mm (a + 24) = hd NULL l2 /\
  (l1 = [] -> p = a).
Proof.
  intros H. apply lseg_app in H. destruct H as (x & H1 & H2).
  simpl in H2. destruct H2 as (-> & N & E & H2).
  apply lseg_head in H2. split_all; auto.
  intros ->. simpl in H1. exact H1.
Qed.

Lemma desc_mid (sz : Z -> Z) (l1 l2 : list Z) (a : Z) :
  desc sz (l1 ++ a :: l2) ->
  (forall b, In b l1 -> sz a <= sz b) /\ (forall b, In b l2 -> sz b <= sz a).
Proof.
  induction l1 as [| c r IH]; simpl.
  - intros [H _]. split; [intros b [] | exact H].
  - intros [Hc Hr]. destruct (IH Hr) as [H1 H2]. split; [| exact H2].
    intros b [<- | Hb]; [| auto]. apply Hc. apply in_or_app. simpl. auto.
Qed.

Section Sanity.
Import Mem.

(** The links of a header of the free list, as [sanityCheck] reads them. *)
Lemma Rep_free_links (st : state) (bs : list blk) (fl : list Z) (m : Z) :
  Rep st bs fl -> In m fl ->
  get_magic st m = MAGIC_FREE /\
  (get_larger st m = NULL -> freelist st = m) /\
  (get_larger st m <> NULL ->
     In (get_larger st m) fl /\
     get_size st m <= get_size st (get_larger st m) /\
     get_smaller st (get_larger st m) = m) /\
  (get_smaller st m <> NULL ->
     In (get_smaller st m) fl /\
     get_size st (get_smaller st m) <= get_size st m /\
     get_larger st (get_smaller st m) = m).
Proof.
  intros R Hin.
  assert (Hfree : forall a, In a fl -> get_magic st a = MAGIC_FREE).
  { intros a Ha. apply (rep_free _ _ _ R) in Ha. apply in_free_addrs in Ha.
    destruct Ha as (s & Hb).
    exact (proj1 (hdrs_in _ _ _ _ (rep_hdrs _ _ _ R) Hb)). }
  split; [apply Hfree; exact Hin|].
  pose proof (rep_links _ _ _ R) as Hl. pose proof (rep_desc _ _ _ R) as Hd.
  destruct (in_split _ _ Hin) as (l1 & l2 & E). rewrite E in Hl, Hd.
  destruct (lseg_mid _ _ _ _ _ _ Hl) as (Nm & Hlg & Hsm & Hhd).
  destruct (desc_mid _ _ _ _ Hd) as (Hd1 & Hd2).
  change (get_larger st m) with (mem st (m + 16 + 0)).
  change (get_smaller st m) with (mem st (m + 16 + 8)).
  rewrite Z.add_0_r. replace (m + 16 + 8) with (m + 24) by lia.
  rewrite Hlg, Hsm.
  split; [| split].
  - destruct (exists_last_or_nil l1) as [-> | (l1' & c & ->)].
    + intros _. apply Hhd. reflexivity.
    + rewrite last_last. intros Hc. exfalso.
      apply (lseg_nonnull _ _ _ _ _ Hl c); [| exact Hc].
      rewrite <- app_assoc. apply in_or_app. right. simpl. auto.
  - destruct (exists_last_or_nil l1) as [-> | (l1' & c & ->)].
    + simpl. intros N. contradiction.
    + rewrite last_last. intros _.
      split; [rewrite E, <- app_assoc; apply in_or_app; right; simpl; auto|].
      split; [apply Hd1; apply in_or_app; simpl; auto|].
      rewrite <- app_assoc in Hl. cbn [app] in Hl.
      destruct (lseg_mid _ _ _ _ _ _ Hl) as (_ & _ & Hs & _).
      change (get_smaller st c) with (mem st (c + 16 + 8)).
      replace (c + 16 + 8) with (c + 24) by lia. exact Hs.
  - destruct l2 as [| s l2'].
    + simpl. intros N. contradiction.
    + simpl hd. intros _.
      split; [rewrite E; apply in_or_app; right; simpl; auto|].
      split; [apply Hd2; simpl; auto|].
      replace (l1 ++ m :: s :: l2') with ((l1 ++ [m]) ++ s :: l2') in Hl
        by (rewrite <- app_assoc; reflexivity).
      destruct (lseg_mid _ _ _ _ _ _ Hl) as (_ & Hg & _ & _).
      rewrite last_last in Hg.
      change (get_larger st s) with (mem st (s + 16 + 0)). rewrite Z.add_0_r. exact Hg.
Qed.

Lemma Rep_block_checks (st : state) (pre post : list blk) (fl : list Z) (b : blk) :
  Rep st (pre ++ b :: post) fl -> no_adj_free (pre ++ b :: post) ->
  sanityCheck_block st (b_addr b) = true /\
  mcbNext st (b_addr b) = hd NULL (map b_addr post) /\
  b_addr b <> NULL.
Proof.
  intros R Hna.
  pose proof (Rep_block_hdr _ _ _ _ _ R) as (Hprev & Hmagic & Hsize).
  pose proof (rep_layout _ _ _ R) as L.
  destruct (layout_split _ _ _ _ _ L) as (Lpre & Hsz & Lpost & Hbefore & Hafter).
  pose proof (rep_base _ _ _ R) as Hbase.
  pose proof (layout_le _ _ _ Lpre) as Hle.
  assert (Hm0 : b_addr b <> NULL) by (unfold NULL; lia).
  assert (Hb : In b (pre ++ b :: post)) by (apply in_or_app; simpl; auto).
  pose proof (rep_magic _ _ _ R b Hb) as Hmg.
  (* the successor *)
  assert (Hnext : mcbNext st (b_addr b) = hd NULL (map b_addr post) /\
                  (forall c r, post = c :: r ->
                     b_addr c = b_addr b + 16 + b_size b /\
                     mem st (b_addr c) = b_addr b /\ mem st (b_addr c + 8) = b_magic c)).
  { rewrite (mcbNext_eq st (b_addr b) (b_size b)) by exact Hsize.
    destruct post as [| c r].
    - simpl in Lpost. rewrite Lpost, Z.eqb_refl. split; [reflexivity|].
      intros c r E. discriminate E.
    - simpl in Lpost. destruct Lpost as (Ec & Hc & Lr).
      pose proof (layout_le _ _ _ Lr) as Hle'.
      destruct (Z.eqb_spec (b_addr b + 16 + b_size b) (endMem st)) as [E | _]; [lia|].
      split; [simpl; symmetry; exact Ec|].
      intros c' r' E. injection E as <- <-. split; [exact Ec|].
      replace (pre ++ b :: c :: r) with ((pre ++ [b]) ++ c :: r) in R
        by (rewrite <- app_assoc; reflexivity).
      pose proof (Rep_block_hdr _ _ _ _ _ R) as (Hp & Hg & _).
      rewrite last_map_snoc in Hp. auto. }
  destruct Hnext as (Hnext & Hsucc). split; [| split; [exact Hnext | exact Hm0]].
  (* the predecessor *)
  assert (Hpred : (pre = [] /\ mem st (b_addr b) = NULL /\ mcb st = b_addr b) \/
                  (exists pre' c, pre = pre' ++ [c] /\ mem st (b_addr b) = b_addr c /\
                     b_addr c <> NULL /\ mcbNext st (b_addr c) = b_addr b /\
                     mem st (b_addr c + 8) = b_magic c)).
  { destruct (exists_last_or_nil pre) as [-> | (pre' & c & ->)].
    - left. simpl in Hprev, Lpre. auto.
    - right. exists pre', c. rewrite last_map_snoc in Hprev.
      rewrite <- app_assoc in R. cbn [app] in R.
      pose proof (Rep_block_hdr _ _ _ _ _ R) as (_ & Hg & Hs).
      apply layout_app in Lpre. destruct Lpre as (x & Lp & Lc).
      simpl in Lc. destruct Lc as (Ec & Hc & Eb).
      pose proof (layout_le _ _ _ Lp) as Hle1.
      split_all; auto.
      + unfold NULL. lia.
      + rewrite (mcbNext_eq st (b_addr c) (b_size c)) by exact Hs.
        destruct (Z.eqb_spec (b_addr c + 16 + b_size c) (endMem st)) as [E | _];
          [| lia].
        pose proof (layout_le _ _ _ Lpost). lia. }
  unfold sanityCheck_block. rewrite Hnext.
  change (get_magic st (b_addr b)) with (mem st (b_addr b + 8)).
  change (get_prev st (b_addr b)) with (mem st (b_addr b + 0)).
  rewrite Z.add_0_r, Hmagic.
  (* valid magic *)
  assert (E1 : negb (b_magic b =? MAGIC_USED) && negb (b_magic b =? MAGIC_FREE) = false).
  { destruct Hmg as [-> | ->]; reflexivity. }
  rewrite E1.
  assert (E2 : (mem st (b_addr b) =? NULL) && negb (mcb st =? b_addr b) = false).
  { destruct Hpred as [(_ & Ep & Em) | (pre' & c & _ & Ep & Nc & _)].
    - rewrite Em, Z.eqb_refl. apply andb_false_r.
    - rewrite Ep. destruct (Z.eqb_spec (b_addr c) NULL); [contradiction | reflexivity]. }
  rewrite E2.
  assert (E3 : negb (hd NULL (map b_addr post) =? NULL)
               && (hd NULL (map b_addr post) <=? b_addr b) = false).
  { destruct post as [| c r]; [reflexivity|]. simpl.
    destruct (Hsucc c r eq_refl) as (Ec & _).
    destruct (Z.leb_spec (b_addr c) (b_addr b)); [lia | apply andb_false_r]. }
  rewrite E3.
  assert (E4 : (if negb (mem st (b_addr b) =? NULL)
                then negb (mcbNext st (mem st (b_addr b)) =? b_addr b)
                else negb (mcb st =? b_addr b)) = false).
  { destruct Hpred as [(_ & Ep & Em) | (pre' & c & _ & Ep & Nc & En & _)].
    - rewrite Ep, Em, !Z.eqb_refl. reflexivity.
    - rewrite Ep, En, Z.eqb_refl.
      destruct (Z.eqb_spec (b_addr c) NULL); [contradiction | reflexivity]. }
  rewrite E4.
  assert (E5 : negb (hd NULL (map b_addr post) =? NULL)
               && negb (get_prev st (hd NULL (map b_addr post)) =? b_addr b) = false).
  { destruct post as [| c r]; [reflexivity|]. simpl.
    destruct (Hsucc c r eq_refl) as (_ & Ep & _).
    change (get_prev st (b_addr c)) with (mem st (b_addr c + 0)).
    rewrite Z.add_0_r, Ep, Z.eqb_refl. apply andb_false_r. }
  rewrite E5.
  destruct (Z.eqb_spec (b_magic b) MAGIC_FREE) as [Ef | _]; [| reflexivity].
  (* a free block *)
  assert (Hfl : In (b_addr b) fl).
  { apply (rep_free _ _ _ R). apply in_free_addrs. exists (b_size b).
    destruct b as [[a s] g]. unfold b_magic in Ef. simpl in *. subst g. exact Hb. }
  destruct (Rep_free_links _ _ _ _ R Hfl) as (_ & Hl0 & Hl1 & Hs1).
  assert (Hmagic_fl : forall a, In a fl -> get_magic st a = MAGIC_FREE).
  { intros a Ha. exact (proj1 (Rep_free_links _ _ _ _ R Ha)). }
  apply no_adj_free_mid in Hna. destruct Hna as (_ & _ & Hadj).
  destruct (Hadj Ef) as [Hlast Hhead].
  assert (F1 : (get_larger st (b_addr b) =? NULL) && negb (freelist st =? b_addr b) = false).
  { destruct (Z.eqb_spec (get_larger st (b_addr b)) NULL) as [E | _]; [| reflexivity].
    rewrite (Hl0 E), Z.eqb_refl. reflexivity. }
  assert (F2 : negb (get_larger st (b_addr b) =? NULL)
               && negb (get_magic st (get_larger st (b_addr b)) =? MAGIC_FREE) = false).
  { destruct (Z.eqb_spec (get_larger st (b_addr b)) NULL) as [E | N]; [reflexivity|].
    destruct (Hl1 N) as (Hi & _). rewrite (Hmagic_fl _ Hi), Z.eqb_refl. reflexivity. }
  assert (F3 : negb (get_smaller st (b_addr b) =? NULL)
               && negb (get_magic st (get_smaller st (b_addr b)) =? MAGIC_FREE) = false).
  { destruct (Z.eqb_spec (get_smaller st (b_addr b)) NULL) as [E | N]; [reflexivity|].
    destruct (Hs1 N) as (Hi & _). rewrite (Hmagic_fl _ Hi), Z.eqb_refl. reflexivity. }
  assert (F4 : negb (get_larger st (b_addr b) =? NULL)
               && (get_size st (get_larger st (b_addr b)) <? get_size st (b_addr b))
               = false).
  { destruct (Z.eqb_spec (get_larger st (b_addr b)) NULL) as [E | N]; [reflexivity|].
    destruct (Hl1 N) as (_ & Hle' & _). simpl.
    destruct (Z.ltb_spec (get_size st (get_larger st (b_addr b)))
                (get_size st (b_addr b))); [lia | reflexivity]. }
  assert (F5 : negb (get_smaller st (b_addr b) =? NULL)
               && (get_size st (get_smaller st (b_addr b)) >? get_size st (b_addr b))
               = false).
  { destruct (Z.eqb_spec (get_smaller st (b_addr b)) NULL) as [E | N]; [reflexivity|].
    destruct (Hs1 N) as (_ & Hle' & _). simpl.
    rewrite Z.gtb_ltb.
    destruct (Z.ltb_spec (get_size st (b_addr b))
                (get_size st (get_smaller st (b_addr b)))); [lia | reflexivity]. }
  assert (F6 : negb (mem st (b_addr b) =? NULL)
               && negb (get_magic st (mem st (b_addr b)) =? MAGIC_USED) = false).
  { destruct Hpred as [(_ & Ep & _) | (pre' & c & Epre & Ep & Nc & _ & Hg)].
    - rewrite Ep. reflexivity.
    - rewrite Ep. change (get_magic st (b_addr c)) with (mem st (b_addr c + 8)).
      rewrite Hg.
      assert (Hc : In c (pre ++ b :: post))
        by (rewrite Epre, <- app_assoc; apply in_or_app; right; simpl; auto).
      destruct (rep_magic _ _ _ R c Hc) as [-> | Hcf];
        [rewrite Z.eqb_refl; apply andb_false_r|].
      exfalso. exact (Hlast pre' c Epre Hcf). }
  assert (F7 : negb (hd NULL (map b_addr post) =? NULL)
               && negb (get_magic st (hd NULL (map b_addr post)) =? MAGIC_USED) = false).
  { destruct post as [| c r]; [reflexivity|]. simpl hd.
    destruct (Hsucc c r eq_refl) as (_ & _ & Hg).
    change (get_magic st (b_addr c)) with (mem st (b_addr c + 8)). rewrite Hg.
    assert (Hc : In c (pre ++ b :: c :: r))
      by (apply in_or_app; right; simpl; auto).
    destruct (rep_magic _ _ _ R c Hc) as [-> | Hcf];
      [rewrite Z.eqb_refl; apply andb_false_r|].
    exfalso. exact (Hhead c r eq_refl Hcf). }
  rewrite F1, F2, F3, F4, F5, F6, F7. reflexivity.
Qed.

Lemma sanityCheck_chain_ok (st : state) (fl : list Z) (post : list blk) :
  forall (pre : list blk) (fuel : nat),
    Rep st (pre ++ post) fl -> no_adj_free (pre ++ post) ->
    (length post < fuel)%nat ->
    sanityCheck_chain fuel st (hd NULL (map b_addr post)) = Ok true.
Proof.
  induction post as [| b r IH]; intros pre fuel R Hna Hf;
    (destruct fuel as [| n]; [simpl in Hf; lia|]); simpl.
  - reflexivity.
  - destruct (Rep_block_checks st pre r fl b R Hna) as (Hc & Hn & N).
    destruct (Z.eqb_spec (b_addr b) NULL) as [? | _]; [contradiction|].
    rewrite Hc, Hn. apply (IH (pre ++ [b])).
    + rewrite <- app_assoc. exact R.
    + rewrite <- app_assoc. exact Hna.
    + simpl in Hf. lia.
Qed.

Lemma sanityCheck_freelist_ok (st : state) (bs : list blk) (fl : list Z)
      (l2 : list Z) :
  forall (l1 : list Z) (fuel : nat),
    Rep st bs fl -> fl = l1 ++ l2 -> (length l2 < fuel)%nat ->
    sanityCheck_freelist fuel st (hd NULL l2) = Ok true.
Proof.
  induction l2 as [| m r IH]; intros l1 fuel R E Hf;
    (destruct fuel as [| n]; [simpl in Hf; lia|]); simpl.
  - reflexivity.
  - assert (Hin : In m fl) by (rewrite E; apply in_or_app; simpl; auto).
    destruct (Rep_free_links _ _ _ _ R Hin) as (Hg & Hl0 & Hl1 & Hs1).
    pose proof (rep_links _ _ _ R) as Hl. rewrite E in Hl.
    destruct (lseg_mid _ _ _ _ _ _ Hl) as (N & _ & Hsm & _).
    destruct (Z.eqb_spec m NULL) as [? | _]; [contradiction|].
    assert (Hc : sanityCheck_free st m = true).
    { unfold sanityCheck_free. rewrite Hg, Z.eqb_refl. cbn [negb].
      destruct (Z.eqb_spec (get_smaller st m) NULL) as [Es | Ns].
      - cbn [negb andb].
        destruct (Z.eqb_spec (get_larger st m) NULL) as [El | Nl].
        + cbn [negb]. rewrite (Hl0 El), Z.eqb_refl. reflexivity.
        + cbn [negb]. destruct (Hl1 Nl) as (_ & _ & ->). rewrite Z.eqb_refl. reflexivity.
      - destruct (Hs1 Ns) as (Hi & Hle & Hlg).
        rewrite (proj1 (Rep_free_links _ _ _ _ R Hi)), Hlg, !Z.eqb_refl.
        cbn [negb andb].
        destruct (Z.ltb_spec (get_size st m) (get_size st (get_smaller st m))); [lia|].
        destruct (Z.eqb_spec (get_larger st m) NULL) as [El | Nl].
        + cbn [negb]. rewrite (Hl0 El), Z.eqb_refl. reflexivity.
        + cbn [negb]. destruct (Hl1 Nl) as (_ & _ & ->). rewrite Z.eqb_refl. reflexivity. }
    rewrite Hc.
    change (get_smaller st m) with (mem st (m + 16 + 8)).
    replace (m + 16 + 8) with (m + 24) by lia. rewrite Hsm.
    apply (IH (l1 ++ [m])); [exact R | rewrite <- app_assoc; exact E |].
    simpl in Hf. lia.
Qed.

(** In a state that satisfies the invariants no assertion of [sanityCheck]
    fails. *)
Lemma sanityCheck_ok (fuel : nat) (st : state) (bs : list blk) (fl : list Z) :
  Rep st bs fl -> no_adj_free bs -> (enough_fuel st <= fuel)%nat ->
  sanityCheck fuel st = Ok true.
Proof.
  intros R Hna Hf. unfold sanityCheck.
  pose proof (rep_layout _ _ _ R) as L.
  pose proof (layout_length _ _ _ L) as Hlen.
  pose proof (Rep_enough _ _ _ _ R Hf) as Hfl.
  assert (Hmcb : mcb st = hd NULL (map b_addr bs)).
  { destruct bs as [| b r]; [destruct (rep_nonempty _ _ _ R); reflexivity|].
    simpl in L. simpl. symmetry. exact (proj1 L). }
  rewrite Hmcb, (sanityCheck_chain_ok st fl bs [] fuel R Hna).
  - cbn [bind]. rewrite (Rep_freelist_head _ _ _ R).
    apply (sanityCheck_freelist_ok st bs fl fl [] fuel R eq_refl). lia.
  - unfold enough_fuel in Hf.
    pose proof (rep_len _ _ _ R). pose proof (layout_le _ _ _ L).
    assert (Z.of_nat (length bs) <= (endMem st - mcb st) / 32)
      by (apply Z.div_le_lower_bound; lia).
    lia.
Qed.

End Sanity.

(** X1.  With UNIT_TEST every API function ends with [sanityCheck].  After
    [memInit] and after every [memAlloc] and [memFree] of a client that
    keeps to the interface, no assertion of [sanityCheck] fails, given fuel
    for its two loops. *)
Theorem sanityCheck_never_fails
        (base size : Z) (st : Mem.state) (live : list Z) (fuel : nat) :
  0 < base -> 32 <= size <= INT_MAX ->
  reach base size st live ->
  (enough_fuel st <= fuel)%nat ->
  Mem.sanityCheck fuel st = Ok true.
Proof.
  intros Hb Hs Hr Hf.
  destruct (reach_inv base size st live Hb Hs Hr) as (bs & fl & R & Hna & _).
  exact (sanityCheck_ok fuel st bs fl R Hna Hf).
Qed.

Lemma sanityCheck_never_fails_witness :
  exists st p st',
    Mem.memInit 30 (fun _ => 0) 1000 706 = Ok st /\
    Mem.memAlloc 30 st 100 = Ok (p, st') /\
    Mem.sanityCheck 30 st' = Ok true.
Proof.
  do 3 eexists.
  split; [vm_compute; reflexivity|]. split; [vm_compute; reflexivity|].
  apply (sanityCheck_never_fails 1000 706 _ [1016] 30); [lia | unfold INT_MAX; lia | |].
  - eapply reach_alloc with (fuel := 30%nat) (sz := 100).
    + eapply reach_init with (fuel := 30%nat) (m0 := fun _ => 0). vm_compute. reflexivity.
    + unfold INT_MAX. lia.
    + vm_compute. reflexivity.
    + discriminate.
  - vm_compute. lia.
Defined.

(** ** What a client gets from memAlloc and memFree *)

Lemma alloc_step_shape (sz m : Z) (bs bs' : list blk) :
  alloc_step sz m bs bs' ->
  exists S0 S, In (m, S0, Mem.MAGIC_FREE) bs /\ In (m, S, Mem.MAGIC_USED) bs' /\
               sz <= S <= sz + 32 /\ S <= S0.
Proof.
  intros [pre S post H1 H2 | pre S post H].
  - exists S, S. split_all; try lia; apply in_or_app; simpl; auto.
  - exists S, sz. split_all; try lia; apply in_or_app; simpl; auto.
Qed.

Ltac in_blocks :=
  rewrite ?in_app_iff in *; simpl in *;
  repeat match goal with
         | H : _ \/ _ |- _ => destruct H
         | H : False |- _ => destruct H
         | H : (_, _, _) = (_, _, _) |- _ => inversion H; clear H; subst
         end;
  try contradiction; try discriminate; auto 8.

Lemma free_step_keeps (m : Z) (bs bs' : list blk) (a T : Z) :
  free_step m bs bs' -> a <> m ->
  In (a, T, Mem.MAGIC_USED) bs -> In (a, T, Mem.MAGIC_USED) bs'.
Proof. intros H Ha Hin. destruct H; in_blocks. Qed.

Lemma free_step_back (m : Z) (bs bs' : list blk) (a T : Z) :
  free_step m bs bs' ->
  In (a, T, Mem.MAGIC_USED) bs' -> In (a, T, Mem.MAGIC_USED) bs.
Proof. intros H Hin. destruct H; in_blocks. Qed.

(** The bytes of the freed block end up inside one free block. *)
Lemma free_step_covered (m : Z) (bs bs' : list blk) (a0 e0 : Z) :
  free_step m bs bs' -> layout a0 bs e0 ->
  exists S a F, In (m, S, Mem.MAGIC_USED) bs /\ In (a, F, Mem.MAGIC_FREE) bs' /\
                a <= m /\ m + 16 + S <= a + 16 + F.
Proof.
  intros H L.
  destruct H as [pre S post _ _ | pre p P S post _ | pre S x X post _
                 | pre p P S x X post].
  - exists S, m, S. split_all; try lia; apply in_or_app; simpl; auto.
  - exists S, p, (P + 16 + S).
    destruct (layout_split _ _ _ _ _ L) as (_ & HP & L2 & _).
    simpl in L2. unfold b_addr, b_size in *. simpl in *.
    split_all; try lia; apply in_or_app; simpl; auto.
  - exists S, m, (S + 16 + X).
    destruct (layout_split _ _ _ _ _ L) as (_ & HS & L2 & _).
    simpl in L2. unfold b_addr, b_size in *. simpl in *.
    split_all; try lia; apply in_or_app; simpl; auto.
  - exists S, p, (P + 16 + S + 16 + X).
    destruct (layout_split _ _ _ _ _ L) as (_ & HP & L2 & _).
    simpl in L2. unfold b_addr, b_size in *. simpl in *.
    split_all; try lia; apply in_or_app; simpl; auto.
Qed.

(** X2.  A successful [memAlloc(size)], [0 <= size <= INT_MAX - 3], in a
    state that satisfies the invariants: the block is taken from the head
    of the free list (worst fit), it was free, its payload holds at least
    [size] bytes and at most 32 more than the adjusted request, it lies
    inside the region, its first link word is cleared, it overlaps no
    block that was in use, every such block is still in use with the same
    size, and no byte of their payloads has changed. *)
Theorem memAlloc_gives_fresh_block
        (fuel : nat) (st st' : Mem.state) (bs : list blk) (fl : list Z) (size p : Z) :
  Rep st bs fl -> 0 <= size <= INT_MAX - 3 ->
  Mem.memAlloc fuel st size = Ok (p, st') -> p <> NULL ->
  exists bs' fl' S0 S,
    Rep st' bs' fl' /\
    p = Mem.freelist st + 16 /\
    In (p - 16, S0, Mem.MAGIC_FREE) bs /\
    In (p - 16, S, Mem.MAGIC_USED) bs' /\
    size <= S /\ Mem.adjust size <= S <= Mem.adjust size + 32 /\
    Mem.mcb st + 16 <= p /\ p + S <= Mem.endMem st /\
    Mem.mem st' p = NULL /\
    (forall q T, In (q - 16, T, Mem.MAGIC_USED) bs ->
                 In (q - 16, T, Mem.MAGIC_USED) bs' /\
                 (q + T <= p - 16 \/ p + S <= q - 16)) /\
    (forall x, in_used_payload bs x -> Mem.mem st' x = Mem.mem st x).
Proof.
  intros R Hsz E Hp.
  pose proof (adjust_ok size Hsz) as Hadj.
  pose proof (adjust_in_range size Hsz) as Ea.
  pose proof (adjust_spec_bounds size) as (_ & Hge & _).
  destruct (memAlloc_Rep _ _ _ _ _ _ _ R Hadj E Hp)
    as (bs' & fl' & R' & St & Hfr & Hz & Hm & He).
  destruct (alloc_step_shape _ _ _ _ St) as (S0 & S & Hf & Hu & HS & _).
  destruct (memAlloc_result _ _ _ _ _ E) as [(_ & -> & _) | (_ & _ & Ep)];
    [contradiction|].
  pose proof (Rep_block_bounds _ _ _ _ R' Hu) as (_ & _ & Hlo & Hhi).
  unfold b_addr, b_size in Hlo, Hhi. simpl in Hlo, Hhi.
  exists bs', fl', S0, S. split_all; auto; try lia.
  intros q T Hq.
  pose proof (alloc_step_keeps _ _ _ _ _ _ St Hq) as Hq'.
  split; [exact Hq'|].
  destruct (alloc_step_used _ _ _ _ St (layout_nodup _ _ _ (rep_layout _ _ _ R)))
    as [_ Hfresh].
  destruct (used_blocks_apart _ _ _ _ _ _ _ (rep_layout _ _ _ R') Hq' Hu) as [-> | D].
  - exfalso. apply Hfresh. exists T. exact Hq.
  - lia.
Qed.

Lemma memAlloc_gives_fresh_block_witness :
  exists st p st',
    Mem.memInit 30 (fun _ => 0) 1000 706 = Ok st /\
    Mem.memAlloc 30 st 100 = Ok (p, st') /\
    p = Mem.freelist st + 16 /\ Mem.mem st' p = NULL.
Proof.
  destruct (memInit_spec 30 (fun _ => 0) 1000 706) as (st & E & R & _);
    [lia | unfold INT_MAX; lia | lia |].
  exists st.
  assert (Ec : Mem.memInit 30 (fun _ => 0) 1000 706 = Ok st) by exact E.
  vm_compute in E. injection E as E.
  assert (Ea : exists st1, Mem.memAlloc 30 st 100 = Ok (1016, st1))
    by (rewrite <- E; eexists; vm_compute; reflexivity).
  destruct Ea as (st1 & Ea).
  destruct (memAlloc_gives_fresh_block 30 st st1 _ _ 100 1016 R
              ltac:(unfold INT_MAX; lia) Ea ltac:(discriminate))
    as (bs' & fl' & S0 & S & _ & Hp & _ & _ & _ & _ & _ & _ & Hz & _).
  exists 1016, st1. auto.
Defined.

(** X3.  [memFree] of a live pointer in a state that satisfies the
    invariants (eager coalescing included) returns; the invariants hold
    again; the bytes of the freed block lie inside one free block of the
    new chain; the blocks in use afterwards are exactly the other blocks
    that were in use, with their sizes, and no byte of their payloads has
    changed. *)
Theorem memFree_releases_block
        (fuel : nat) (st : Mem.state) (bs : list blk) (fl : list Z) (p S : Z) :
  Rep st bs fl -> no_adj_free bs ->
  In (p - 16, S, Mem.MAGIC_USED) bs ->
  (enough_fuel st <= fuel)%nat ->
  exists st' bs' fl',
    Mem.memFree fuel st p = Ok st' /\
    Rep st' bs' fl' /\ no_adj_free bs' /\
    (exists a F, In (a, F, Mem.MAGIC_FREE) bs' /\ a <= p - 16 /\ p + S <= a + 16 + F) /\
    (forall q T, In (q - 16, T, Mem.MAGIC_USED) bs' <->
                 q <> p /\ In (q - 16, T, Mem.MAGIC_USED) bs) /\
    (forall x, in_used_payload bs' x -> Mem.mem st' x = Mem.mem st x) /\
    Mem.mcb st' = Mem.mcb st /\ Mem.endMem st' = Mem.endMem st.
Proof.
  intros R Hna Hin Hf.
  destruct (memFree_spec fuel st bs fl (p - 16) S R Hin (Rep_enough _ _ _ _ R Hf))
    as (st' & bs' & fl' & E & R' & St & Hfr & Hm & He).
  replace (p - 16 + 16) with p in E by lia.
  exists st', bs', fl'. split_all; auto.
  - eapply free_step_no_adj; eauto.
  - destruct (free_step_covered _ _ _ _ _ St (rep_layout _ _ _ R))
      as (S1 & a & F & H1 & H2 & H3 & H4).
    assert (S1 = S).
    { pose proof (Rep_get_size _ _ _ _ _ _ R H1).
      pose proof (Rep_get_size _ _ _ _ _ _ R Hin). lia. }
    subst S1. exists a, F. split_all; auto. lia.
  - intros q T. split.
    + intros Hq. split.
      * intros ->.
        pose proof (free_step_used _ _ _ St (layout_nodup _ _ _ (rep_layout _ _ _ R))
                      (p - 16)) as Hu.
        destruct (proj1 Hu (ex_intro _ T Hq)) as [N _]. apply N. reflexivity.
      * eapply free_step_back; eauto.
    + intros [Hne Hq]. eapply free_step_keeps; eauto. lia.
Qed.

Lemma memFree_releases_block_witness :
  exists st p st1 st2,
    Mem.memInit 30 (fun _ => 0) 1000 706 = Ok st /\
    Mem.memAlloc 30 st 100 = Ok (p, st1) /\
    Mem.memFree 30 st1 p = Ok st2.
Proof.
  destruct (memInit_spec 30 (fun _ => 0) 1000 706) as (st & E & R & Hm & He);
    [lia | unfold INT_MAX; lia | lia |].
  exists st.
  assert (Hfuel : (Z.to_nat ((Mem.endMem st - Mem.mcb st) / 32) + 2 <= 30)%nat)
    by (rewrite Hm, He; vm_compute; lia).
  assert (Ec : Mem.memInit 30 (fun _ => 0) 1000 706 = Ok st) by exact E.
  vm_compute in E. injection E as E.
  assert (Ea : exists st1, Mem.memAlloc 30 st 100 = Ok (1016, st1))
    by (rewrite <- E; eexists; vm_compute; reflexivity).
  destruct Ea as (st1 & Ea).
  destruct (memAlloc_Rep 30 st _ _ 100 1016 st1 R ltac:(vm_compute; discriminate) Ea
              ltac:(discriminate))
    as (bs1 & fl1 & R1 & St & _ & _ & Hm1 & He1).
  destruct (alloc_step_block _ _ _ _ St) as (S & _ & Hin).
  assert (Hna : no_adj_free bs1).
  { eapply alloc_step_no_adj; [exact St | simpl; auto]. }
  destruct (memFree_releases_block 30 st1 bs1 fl1 1016 S R1 Hna Hin)
    as (st2 & _ & _ & Ef & _).
  { unfold enough_fuel. rewrite Hm1, He1. exact Hfuel. }
  exists 1016, st1, st2. split; [exact Ec|]. split; [exact Ea | exact Ef].
Defined.

(** X4.  An allocation that is freed at once leaves no trace in the
    allocator: after a successful [memAlloc(size)] followed by [memFree]
    of its result, the state represents the chain and the free list it
    represented before, with the same globals, and no byte of a payload in
    use has changed. *)
Theorem memAlloc_then_memFree_restores
        (fuel : nat) (st st1 : Mem.state) (bs : list blk) (fl : list Z) (size p : Z) :
  Rep st bs fl -> no_adj_free bs ->
  0 <= size <= INT_MAX - 3 ->
  (enough_fuel st <= fuel)%nat ->
  Mem.memAlloc fuel st size = Ok (p, st1) -> p <> NULL ->
  exists st2,
    Mem.memFree fuel st1 p = Ok st2 /\
    Rep st2 bs fl /\
    Mem.mcb st2 = Mem.mcb st /\ Mem.endMem st2 = Mem.endMem st /\
    Mem.freelist st2 = Mem.freelist st /\
    (forall x, in_used_payload bs x -> Mem.mem st2 x = Mem.mem st x).
Proof.
  intros R Hadj Hsz Hfuel Ea Hp.
  pose proof (Rep_enough _ _ _ _ R Hfuel) as Hlen.
  pose proof (adjust_ok size Hsz) as H16.
  pose proof (Rep_freelist_head _ _ _ R) as Hhd.
  destruct fl as [| m rest].
  { simpl in Hhd. rewrite (memAlloc_fail fuel _ _ (or_introl Hhd)) in Ea.
    injection Ea as <- _. contradiction. }
  simpl in Hhd.
  destruct (Rep_free_block _ _ _ m R (or_introl eq_refl)) as (pre & S & post & ->).
  assert (Hs : Mem.get_size st m = S).
  { eapply Rep_get_size; [exact R | apply in_or_app; simpl; auto]. }
  destruct (Z_lt_ge_dec S (Mem.adjust size)) as [Hlt | Hge].
  { rewrite (memAlloc_fail fuel _ _) in Ea.
    - injection Ea as <- _. contradiction.
    - right. rewrite Hhd, Hs. exact Hlt. }
  apply no_adj_free_mid in Hadj. destruct Hadj as (_ & _ & Hn).
  destruct (Hn eq_refl) as [Hpre Hpost].
  destruct (memAlloc_memFree_undo fuel _ pre post rest m S size R Hpre Hpost
              ltac:(lia) ltac:(simpl in Hlen; lia))
    as (st1' & bs1 & fl1 & st2 & E1 & R1 & E2 & R2 & Hfr & Hm & He).
  rewrite E1 in Ea. injection Ea as <- <-.
  exists st2. split_all; auto.
  rewrite (Rep_freelist_head _ _ _ R2). simpl. symmetry. exact Hhd.
Qed.

Lemma memAlloc_then_memFree_restores_witness :
  exists st p st1 st2,
    Mem.memInit 30 (fun _ => 0) 1000 706 = Ok st /\
    Mem.memAlloc 30 st 100 = Ok (p, st1) /\
    Mem.memFree 30 st1 p = Ok st2 /\
    Rep st2 [(1000, 706 - 16, Mem.MAGIC_FREE)] [1000].
Proof.
  destruct (memInit_spec 30 (fun _ => 0) 1000 706) as (st & E & R & Hm & He);
    [lia | unfold INT_MAX; lia | lia |].
  exists st.
  assert (Hfuel : (enough_fuel st <= 30)%nat)
    by (unfold enough_fuel; rewrite Hm, He; vm_compute; lia).
  assert (Ec : Mem.memInit 30 (fun _ => 0) 1000 706 = Ok st) by exact E.
  vm_compute in E. injection E as E.
  assert (Ea : exists st1, Mem.memAlloc 30 st 100 = Ok (1016, st1))
    by (rewrite <- E; eexists; vm_compute; reflexivity).
  destruct Ea as (st1 & Ea). clear E.
  destruct (memAlloc_then_memFree_restores 30 st st1 _ _ 100 1016 R
              ltac:(simpl; auto) ltac:(unfold INT_MAX; lia) Hfuel Ea ltac:(discriminate))
    as (st2 & Ef & R2 & _).
  exists 1016, st1, st2. split; [exact Ec|]. split; [exact Ea|].
  split; [exact Ef | exact R2].
Defined.

(** ** memInit *)

Section MemInit.
Import Mem.

Lemma memInit_cells (fuel : nat) (m0 : memory) (addr size : Z) :
  (0 < fuel)%nat ->
  exists st,
    memInit fuel m0 addr size = Ok st /\
    mem st = upd (upd (upd (upd (upd m0 (addr + 12) (wrap32 (u64 (u64 size - 16))))
                                (addr + 8) MAGIC_FREE) addr NULL)
                      (addr + 16) NULL) (addr + 24) NULL /\
    mcb st = addr /\ endMem st = addr + size /\ freelist st = addr.
Proof.
  intros Hf. destruct fuel as [| n]; [lia|].
  unfold memInit, insertFree. cbn [insertFree_scan freelist].
  rewrite Z.eqb_refl. cbn [negb andb bind]. cells.
  eexists. split; [reflexivity|]. cbn [mem mcb endMem freelist].
  split_all; reflexivity.
Qed.

End MemInit.

(** X5.  [memInit(addr, size)] checks nothing: whatever [size] is, it
    stores a FREE header with payload size [size - 16] (as an [int]) and a
    null link pair in the 32 bytes from [addr], makes that block the chain
    and the free list, and changes no other byte.  For
    [32 <= size <= INT_MAX] the invariants hold.  For [0 <= size < 32] the
    link pair lies beyond the end of the region, and every later
    [memAlloc] of [0 <= req <= INT_MAX - 3] bytes returns null and changes
    nothing. *)
Theorem memInit_any_size (fuel : nat) (m0 : memory) (addr size : Z) :
  (0 < fuel)%nat ->
  exists st,
    Mem.memInit fuel m0 addr size = Ok st /\
    Mem.mcb st = addr /\ Mem.endMem st = addr + size /\ Mem.freelist st = addr /\
    Mem.get_prev st addr = NULL /\
    Mem.get_magic st addr = Mem.MAGIC_FREE /\
    Mem.get_size st addr = wrap32 (u64 (u64 size - 16)) /\
    Mem.get_larger st addr = NULL /\ Mem.get_smaller st addr = NULL /\
    (forall x, x <> addr -> x <> addr + 8 -> x <> addr + 12 ->
               x <> addr + 16 -> x <> addr + 24 -> Mem.mem st x = m0 x) /\
    (0 < addr -> 32 <= size <= INT_MAX ->
     Rep st [(addr, size - 16, Mem.MAGIC_FREE)] [addr]) /\
    (0 <= size < 32 ->
     Mem.get_size st addr = size - 16 /\
     Mem.endMem st < addr + 32 /\
     forall fuel' req, 0 <= req <= INT_MAX - 3 ->
                       Mem.memAlloc fuel' st req = Ok (NULL, st)).
Proof.
  intros Hf.
  destruct (memInit_cells fuel m0 addr size Hf) as (st & E & Hmem & Hm & He & Hfl).
  exists st. split; [exact E|].
  assert (Hsz : Mem.get_size st addr = wrap32 (u64 (u64 size - 16))).
  { unfold Mem.get_size, Mem.OFF_size. rewrite Hmem. upd_tac. }
  unfold Mem.get_prev, Mem.get_magic, Mem.get_larger, Mem.get_smaller,
    Mem.mcbAddr, Mem.OFF_prev, Mem.OFF_magic, Mem.OFF_larger, Mem.OFF_smaller,
    Mem.SZ_MCB.
  rewrite Hsz, Hmem. split_all; auto; try upd_tac.
  - intros x H0 H8 H12 H16 H24. upd_tac.
  - intros Ha Hs.
    destruct (memInit_spec fuel m0 addr size Ha Hs Hf) as (st' & E' & R & _).
    rewrite E in E'. injection E' as <-. exact R.
  - intros Hs.
    assert (Hw : wrap32 (u64 (u64 size - 16)) = size - 16).
    { rewrite (u64_id size) by lia.
      destruct (Z_lt_ge_dec size 16).
      - rewrite u64_neg by lia. unfold wrap32.
        replace (size - 16 + 18446744073709551616 + 2147483648)
          with (size - 16 + 2147483648 + 4294967296 * 4294967296) by lia.
        rewrite Z_mod_plus_full, Z.mod_small by lia. lia.
      - rewrite u64_id by lia. apply wrap32_id. unfold in_int, INT_MIN, INT_MAX. lia. }
    split; [exact Hw|]. split; [rewrite He; lia|].
    intros fuel' req Hreq. apply memAlloc_fail. right. rewrite Hfl, Hsz, Hw.
    pose proof (adjust_ok req Hreq). lia.
Qed.

Lemma memInit_any_size_witness :
  exists st,
    Mem.memInit 1 (fun _ => 7) 1000 20 = Ok st /\
    Mem.mem st 1024 = NULL /\ Mem.endMem st = 1020.
Proof.
  destruct (memInit_any_size 1 (fun _ => 7) 1000 20 ltac:(lia))
    as (st & E & _ & He & _ & _ & _ & _ & _ & Hs & _).
  exists st. split; [exact E|]. split; [| exact He].
  unfold Mem.get_smaller, Mem.mcbAddr, Mem.SZ_MCB, Mem.OFF_smaller in Hs.
  replace (1000 + 16 + 8) with 1024 in Hs by lia. exact Hs.
Defined.

(** * The runs of memtest.c *)

Lemma bump_total_nonneg (sizes : list Z) :
  Forall (fun s => 0 <= s <= INT_MAX - 3) sizes -> 0 <= bump_total sizes.
Proof.
  induction 1 as [| s r Hs _ IH]; simpl; [lia|].
  pose proof (adjust_ok s Hs). lia.
Qed.

Lemma bump_nonnull (a : Z) (sizes : list Z) :
  0 < a -> Forall (fun s => 0 <= s <= INT_MAX - 3) sizes ->
  forall p, In p (bump a sizes) -> a <= p.
Proof.
  intros Ha H. revert a Ha. induction H as [| s r Hs _ IH]; intros a Ha p; simpl.
  - intros [].
  - pose proof (adjust_ok s Hs). intros [<- | Hp]; [lia|].
    specialize (IH (a + Mem.adjust s + 16) ltac:(lia) p Hp). lia.
Qed.

(** Allocations from a chain that ends with its only free block, as long
    as that block is split every time. *)
Lemma allocAll_bump (fuel : nat) (sizes : list Z) :
  forall (st : Mem.state) (pre : list blk) (m S : Z),
    Rep st (pre ++ [(m, S, Mem.MAGIC_FREE)]) [m] ->
    Forall (fun s => 0 <= s <= INT_MAX - 3) sizes ->
    bump_total sizes + 16 < S ->
    (1 < fuel)%nat ->
    exists st',
      MemTest.allocAll fuel st sizes = Ok (bump (m + 16) sizes, st') /\
      Rep st' (pre ++ bump_blocks (m + 16) sizes
                   ++ [(m + bump_total sizes, S - bump_total sizes, Mem.MAGIC_FREE)])
          [m + bump_total sizes] /\
      (forall x, in_used_payload pre x -> Mem.mem st' x = Mem.mem st x) /\
      Mem.mcb st' = Mem.mcb st /\ Mem.endMem st' = Mem.endMem st.
Proof.
  induction sizes as [| s r IH]; intros st pre m S R Hs Htot Hf; simpl.
  - exists st. rewrite !Z.add_0_r, Z.sub_0_r. split_all; auto.
  - inversion Hs as [| ? ? Hs1 Hsr]; subst.
    pose proof (adjust_ok s Hs1) as H16.
    pose proof (bump_total_nonneg r Hsr) as Hnn.
    simpl in Htot.
    destruct (memAlloc_split fuel st pre [] [] m S s R H16 ltac:(lia)
                ltac:(simpl; lia))
      as (st1 & E1 & R1 & Hfr1 & _ & Hm1 & He1).
    rewrite E1. cbn [bind]. simpl ins in R1.
    assert (R1' : Rep st1 ((pre ++ [(m, Mem.adjust s, Mem.MAGIC_USED)])
                             ++ [(m + 16 + Mem.adjust s, S - Mem.adjust s - 16,
                                  Mem.MAGIC_FREE)])
                      [m + 16 + Mem.adjust s])
      by (rewrite <- app_assoc; exact R1).
    destruct (IH st1 _ _ _ R1' Hsr ltac:(lia) Hf)
      as (st' & E' & R' & Hfr' & Hm' & He').
    rewrite E'. cbn [bind]. exists st'. split; [reflexivity|].
    replace (m + 16 - 16) with m by lia.
    replace (m + 16 + Mem.adjust s + bump_total r)
      with (m + (Mem.adjust s + 16 + bump_total r)) in R' by lia.
    replace (S - Mem.adjust s - 16 - bump_total r)
      with (S - (Mem.adjust s + 16 + bump_total r)) in R' by lia.
    rewrite <- app_assoc in R'. cbn [app] in R'.
    split_all; auto; try congruence.
    intros x Hx. rewrite Hfr'.
    + apply Hfr1. apply in_used_payload_app. left. exact Hx.
    + apply in_used_payload_app. left. exact Hx.
Qed.

(** ** Runs of a client that keeps to the interface *)

Lemma reach_fuel (base size : Z) (st : Mem.state) (live : list Z) :
  0 < base -> 32 <= size <= INT_MAX ->
  reach base size st live ->
  enough_fuel st = (Z.to_nat (size / 32) + 2)%nat.
Proof.
  intros Hb Hs H.
  destruct (reach_inv _ _ _ _ Hb Hs H) as (bs & fl & _ & _ & _ & Hm & He).
  unfold enough_fuel. rewrite Hm, He. replace (base + size - base) with size by lia.
  reflexivity.
Qed.

(** An allocation of a client returns, and the run goes on. *)
Lemma reach_memAlloc (base size : Z) (st : Mem.state) (live : list Z)
      (fuel : nat) (sz : Z) :
  0 < base -> 32 <= size <= INT_MAX ->
  reach base size st live ->
  0 <= sz <= INT_MAX - 3 ->
  (Z.to_nat (size / 32) + 2 <= fuel)%nat ->
  exists p st',
    Mem.memAlloc fuel st sz = Ok (p, st') /\
    ((p = NULL /\ reach base size st' live) \/
     (p <> NULL /\ ~ In p live /\ reach base size st' (p :: live))).
Proof.
  intros Hb Hs H Hsz Hf.
  destruct (reach_inv _ _ _ _ Hb Hs H) as (bs & fl & R & _ & _ & _).
  rewrite <- (reach_fuel _ _ _ _ Hb Hs H) in Hf.
  destruct (memAlloc_spec fuel st bs fl sz R (adjust_ok _ Hsz) (Rep_enough _ _ _ _ R Hf))
    as [[E _] | (st' & bs' & fl' & E & _ & Hin & _)].
  - exists NULL, st. split; [exact E|]. left. split; [reflexivity|].
    eapply reach_alloc_fail; eauto.
  - pose proof (Rep_fl_pos _ _ _ _ R Hin) as Hpos.
    exists (Mem.freelist st + 16), st'. split; [exact E|]. right.
    assert (Hp : Mem.freelist st + 16 <> NULL) by (unfold NULL; lia).
    assert (Hr : reach base size st' (Mem.freelist st + 16 :: live))
      by (eapply reach_alloc; eauto).
    split; [exact Hp|]. split; [| exact Hr].
    destruct (reach_inv _ _ _ _ Hb Hs Hr) as (_ & _ & _ & _ & [Hnd _] & _).
    apply NoDup_cons_iff in Hnd. tauto.
Qed.

(** The release of a live allocation returns, and the run goes on. *)
Lemma reach_memFree (base size : Z) (st : Mem.state) (live : list Z)
      (fuel : nat) (p : Z) :
  0 < base -> 32 <= size <= INT_MAX ->
  reach base size st live -> In p live ->
  (Z.to_nat (size / 32) + 2 <= fuel)%nat ->
  exists st', Mem.memFree fuel st p = Ok st' /\ reach base size st' (rem p live).
Proof.
  intros Hb Hs H Hin Hf.
  destruct (reach_inv _ _ _ _ Hb Hs H) as (bs & fl & R & _ & [_ Hlu] & _).
  rewrite <- (reach_fuel _ _ _ _ Hb Hs H) in Hf.
  destruct (proj1 (Hlu p) Hin) as (S & Hblk).
  destruct (memFree_spec fuel st bs fl (p - 16) S R Hblk (Rep_enough _ _ _ _ R Hf))
    as (st' & _ & _ & E & _).
  replace (p - 16 + 16) with p in E by lia.
  exists st'. split; [exact E|]. eapply reach_free; eauto.
Qed.

(** With no live allocation the chain is the one free block of [memInit]. *)
Lemma reach_nolive (base size : Z) (st : Mem.state) :
  0 < base -> 32 <= size <= INT_MAX ->
  reach base size st [] ->
  Rep st [(base, size - 16, Mem.MAGIC_FREE)] [base].
Proof.
  intros Hb Hs H.
  destruct (reach_inv _ _ _ _ Hb Hs H) as (bs & fl & R & Hna & [_ Hlu] & Hm & He).
  assert (Hfree : forall b, In b bs -> b_magic b = Mem.MAGIC_FREE).
  { intros b Hin. destruct (rep_magic _ _ _ R b Hin) as [Hu | Hf]; [| exact Hf].
    exfalso. destruct b as [[a s] g]. unfold b_magic in Hu. simpl in Hu. subst g.
    apply (proj2 (Hlu (a + 16))). exists s.
    replace (a + 16 - 16) with a by lia. exact Hin. }
  assert (Hbs : bs = [(base, size - 16, Mem.MAGIC_FREE)]).
  { pose proof (rep_layout _ _ _ R) as Hlay. pose proof (rep_nonempty _ _ _ R) as Hne.
    destruct bs as [| b [| c r]]; [contradiction | |].
    - simpl in Hlay. destruct Hlay as (Ea & _ & Ee).
      pose proof (Hfree b (or_introl eq_refl)) as Hg.
      destruct b as [[a s] g]. unfold b_addr, b_size, b_magic in *. simpl in *.
      assert (E1 : a = base) by lia. assert (E2 : s = size - 16) by lia.
      rewrite E1, E2, Hg. reflexivity.
    - exfalso. simpl in Hna. destruct Hna as [Hna _]. apply Hna.
      unfold is_free. rewrite (Hfree b), (Hfree c) by (simpl; auto).
      split; reflexivity. }
  subst bs.
  assert (Hfl : fl = [base]).
  { pose proof (rep_free _ _ _ R) as Hf. pose proof (rep_nodup _ _ _ R) as Hnd.
    change (free_addrs [(base, size - 16, Mem.MAGIC_FREE)]) with [base] in Hf.
    destruct fl as [| a r].
    - exfalso. apply (proj2 (Hf base)). left. reflexivity.
    - assert (a = base) by (destruct (proj1 (Hf a) (or_introl eq_refl)) as [E | []]; auto).
      subst a. destruct r as [| c r]; [reflexivity|].
      exfalso. apply NoDup_cons_iff in Hnd. destruct Hnd as [Hn _]. apply Hn.
      destruct (proj1 (Hf c) (or_intror (or_introl eq_refl))) as [E | []].
      subst c. left. reflexivity. }
  subst fl. exact R.
Qed.

Lemma allocAll_reach (base size : Z) (fuel : nat) (sizes : list Z) :
  forall (st : Mem.state) (live ps : list Z) (st' : Mem.state),
    reach base size st live ->
    Forall (fun s => 0 <= s <= INT_MAX - 3) sizes ->
    MemTest.allocAll fuel st sizes = Ok (ps, st') ->
    (forall p, In p ps -> p <> NULL) ->
    reach base size st' (rev ps ++ live).
Proof.
  induction sizes as [| s r IH]; intros st live ps st' H Hs E Hnn; simpl in E.
  - injection E as <- <-. exact H.
  - inversion Hs as [| ? ? Hs1 Hsr]; subst.
    destruct (Mem.memAlloc fuel st s) as [[p st1] | e] eqn:E1; [| discriminate E].
    cbn [bind] in E.
    destruct (MemTest.allocAll fuel st1 r) as [[ps' st2] | e] eqn:E2; [| discriminate E].
    cbn [bind] in E. injection E as <- <-.
    simpl. rewrite <- app_assoc. cbn [app].
    apply (IH st1 (p :: live) ps' st2); auto.
    + eapply reach_alloc; eauto. apply Hnn. left. reflexivity.
    + intros q Hq. apply Hnn. right. exact Hq.
Qed.

Lemma freeAll_reach (base size : Z) (fuel : nat) (qs : list Z) :
  0 < base -> 32 <= size <= INT_MAX ->
  (Z.to_nat (size / 32) + 2 <= fuel)%nat ->
  forall (st : Mem.state) (live : list Z),
    reach base size st live ->
    NoDup qs -> (forall q, In q qs -> In q live) ->
    exists st',
      MemTest.freeAll fuel st qs = Ok st' /\
      reach base size st' (fold_left (fun l q => rem q l) qs live).
Proof.
  intros Hb Hs Hf. induction qs as [| q r IH]; intros st live H Hnd Hin; simpl.
  - exists st. auto.
  - apply NoDup_cons_iff in Hnd. destruct Hnd as [Hq Hr].
    destruct (reach_memFree base size st live fuel q Hb Hs H (Hin q (or_introl eq_refl)) Hf)
      as (st1 & E1 & H1).
    rewrite E1. cbn [bind]. apply IH; auto.
    intros x Hx. apply in_rem. split; [apply Hin; right; exact Hx|].
    intros ->. contradiction.
Qed.

Lemma fold_rem_all (qs live : list Z) :
  (forall x, In x live -> In x qs) ->
  fold_left (fun l q => rem q l) qs live = [].
Proof.
  revert live. induction qs as [| q r IH]; intros live H; simpl.
  - destruct live as [| x l]; [reflexivity|]. destruct (H x (or_introl eq_refl)).
  - apply IH. intros x Hx. apply in_rem in Hx. destruct Hx as [Hx Hne].
    destruct (H x Hx) as [-> | Hr]; [contradiction | exact Hr].
Qed.


Lemma adjust_small (s : Z) : 0 < s < 100 -> 16 <= Mem.adjust s <= 100.
Proof.
  intros H. rewrite adjust_in_range by (unfold INT_MAX; lia).
  pose proof (adjust_spec_bounds s) as (H1 & _ & H2 & H3).
  split; [exact H1|]. 
  destruct (Z_le_gt_dec (adjust_spec s) 100) as [? | Hgt]; [assumption|].
  exfalso. assert (E : adjust_spec s = 101 \/ adjust_spec s = 102) by lia.
  destruct E as [E | E]; rewrite E in H3; discriminate H3.
Qed.

Lemma bump_total_small (sizes : list Z) :
  Forall (fun s => 0 < s < 100) sizes ->
  bump_total sizes <= 116 * Z.of_nat (length sizes).
Proof.
  induction 1 as [| s r Hs _ IH]; [simpl; lia|].
  pose proof (adjust_small s Hs). cbn [bump_total length]. lia.
Qed.

(** X6.  The second block of memtest.c, for any outcome of [random()]:
    allocations of 1 to 99 bytes (up to 9000 of them; the program makes
    ten) on the fresh region of 1 MiB all succeed, each pointer follows the
    block before it, and once they are freed, from the last to the first,
    the region is one free block again. *)
Theorem memtest_block2_runs
        (fuel : nat) (m0 : memory) (space : Z) (sizes : list Z) :
  0 < space ->
  Forall (fun s => 0 < s < 100) sizes ->
  Z.of_nat (length sizes) <= 9000 ->
  (Z.to_nat (1 * 1024 * 1024 / 32) + 2 <= fuel)%nat ->
  exists st,
    MemTest.block2 fuel m0 space sizes = Ok (bump (space + 16) sizes, st) /\
    (forall p, In p (bump (space + 16) sizes) -> p <> NULL) /\
    Rep st [(space, 1 * 1024 * 1024 - 16, Mem.MAGIC_FREE)] [space].
Proof.
  intros Hsp Hs Hlen Hf.
  set (size := 1 * 1024 * 1024) in *.
  assert (Hsize : 32 <= size <= INT_MAX) by (unfold size, INT_MAX; lia).
  assert (Hs' : Forall (fun s => 0 <= s <= INT_MAX - 3) sizes).
  { eapply Forall_impl; [| exact Hs]. intros a Ha. unfold INT_MAX. cbv beta in *. lia. }
  destruct (memInit_spec fuel m0 space size Hsp Hsize ltac:(lia))
    as (st0 & E0 & R0 & Hm0 & He0).
  pose proof (bump_total_small sizes Hs) as Htot.
  destruct (allocAll_bump fuel sizes st0 [] space (size - 16) R0 Hs'
              ltac:(unfold size; lia) ltac:(lia))
    as (st1 & E1 & R1 & _).
  assert (Hnn : forall p, In p (bump (space + 16) sizes) -> p <> NULL).
  { intros p Hp. pose proof (bump_nonnull (space + 16) sizes ltac:(lia) Hs' p Hp).
    unfold NULL. lia. }
  assert (H0 : reach space size st0 []) by (eapply reach_init; exact E0).
  pose proof (allocAll_reach space size fuel sizes st0 [] _ st1 H0 Hs' E1 Hnn) as H1.
  rewrite app_nil_r in H1.
  destruct (reach_inv _ _ _ _ Hsp Hsize H1) as (_ & _ & _ & _ & [Hnd _] & _).
  destruct (freeAll_reach space size fuel (rev (bump (space + 16) sizes))
              Hsp Hsize Hf st1 _ H1 Hnd (fun q Hq => Hq))
    as (st2 & E2 & H2).
  rewrite fold_rem_all in H2 by auto.
  exists st2. unfold MemTest.block2. fold size. rewrite E0. cbn [bind].
  rewrite E1. cbn [bind]. rewrite E2. cbn [bind].
  split; [reflexivity|]. split; [exact Hnn|].
  apply reach_nolive; assumption.
Qed.

Lemma memtest_block2_runs_witness :
  exists st,
    MemTest.block2 run_fuel (fun _ => 0) 4096 [5; 99; 16] =
      Ok ([4112; 4144; 4260], st) /\
    Rep st [(4096, 1 * 1024 * 1024 - 16, Mem.MAGIC_FREE)] [4096].
Proof.
  destruct (memtest_block2_runs run_fuel (fun _ => 0) 4096 [5; 99; 16])
    as (st & E & _ & R).
  - lia.
  - repeat constructor; lia.
  - simpl. lia.
  - apply le_n.
  - exists st. split; [exact E | exact R].
Defined.


(** X7.  The first block of memtest.c, wherever the array is and whatever
    it holds: on the region of 610 + 96 bytes the allocations of 100, 200
    and 300 bytes leave a free block of 42 bytes, so that the fourth
    allocation, of 30 bytes, which the comment expects to fail, succeeds
    (a header takes 16 bytes, not 32); the four calls of [memFree] then
    leave the region as one free block. *)
Theorem memtest_block1_runs (fuel : nat) (m0 : memory) (space : Z) :
  0 < space ->
  (Z.to_nat (706 / 32) + 2 <= fuel)%nat ->
  exists st,
    MemTest.block1 fuel m0 space =
      Ok ([space + 16; space + 132; space + 348; space + 664], st) /\
    space + 664 <> NULL /\
    Rep st [(space, 706 - 16, Mem.MAGIC_FREE)] [space].
Proof.
  intros Hsp Hf.
  assert (Hsize : 32 <= 706 <= INT_MAX) by (unfold INT_MAX; lia).
  destruct (memInit_spec fuel m0 space 706 Hsp Hsize ltac:(lia))
    as (st0 & E0 & R0 & Hm0 & He0).
  assert (Hs3 : Forall (fun s => 0 <= s <= INT_MAX - 3) [100; 200; 300])
    by (unfold INT_MAX; repeat constructor; lia).
  destruct (allocAll_bump fuel [100; 200; 300] st0 [] space (706 - 16) R0 Hs3
              ltac:(vm_compute; reflexivity) ltac:(lia))
    as (st3 & E3 & R3 & _).
  change (bump_total [100; 200; 300]) with 648 in R3.
  change (bump (space + 16) [100; 200; 300])
    with [space + 16; space + 16 + 100 + 16; space + 16 + 100 + 16 + 200 + 16] in E3.
  cbn [MemTest.allocAll] in E3.
  destruct (Mem.memAlloc fuel st0 100) as [[p0 s1] | e] eqn:A0; [| discriminate E3].
  cbn [bind] in E3.
  destruct (Mem.memAlloc fuel s1 200) as [[p1 s2] | e] eqn:A1; [| discriminate E3].
  cbn [bind] in E3.
  destruct (Mem.memAlloc fuel s2 300) as [[p2 s3] | e] eqn:A2; [| discriminate E3].
  cbn [bind] in E3. injection E3 as -> -> -> ->.
  replace (706 - 16 - 648) with 42 in R3 by lia.
  set (pre := [] ++ bump_blocks (space + 16) [100; 200; 300]) in *.
  rewrite app_assoc in R3. fold pre in R3.
  destruct (memAlloc_whole fuel st3 pre [] [] (space + 648) 42 30 R3
              ltac:(vm_compute; discriminate) ltac:(vm_compute; discriminate))
    as (st4 & A3 & R4 & _).
  assert (H0 : reach space 706 st0 []) by (eapply reach_init; exact E0).
  assert (H4 : reach space 706 st4
                 [space + 648 + 16; space + 16 + 100 + 16 + 200 + 16;
                  space + 16 + 100 + 16; space + 16]).
  { repeat (eapply reach_alloc; [| | eassumption | unfold NULL; lia]);
      [exact H0 | unfold INT_MAX; lia ..]. }
  destruct (freeAll_reach space 706 fuel
              [space + 16; space + 16 + 100 + 16 + 200 + 16; space + 16 + 100 + 16;
               space + 648 + 16] Hsp Hsize Hf st4 _ H4)
    as (st8 & E8 & H8).
  { repeat constructor; simpl; lia. }
  { simpl. intros q Hq. lia. }
  rewrite fold_rem_all in H8 by (simpl; intros x Hx; lia).
  cbn [MemTest.freeAll] in E8.
  destruct (Mem.memFree fuel st4 (space + 16)) as [s5 | e] eqn:F0; [| discriminate E8].
  cbn [bind] in E8.
  destruct (Mem.memFree fuel s5 (space + 16 + 100 + 16 + 200 + 16)) as [s6 | e] eqn:F1;
    [| discriminate E8].
  cbn [bind] in E8.
  destruct (Mem.memFree fuel s6 (space + 16 + 100 + 16)) as [s7 | e] eqn:F2;
    [| discriminate E8].
  cbn [bind] in E8.
  destruct (Mem.memFree fuel s7 (space + 648 + 16)) as [s8 | e] eqn:F3;
    [| discriminate E8].
  cbn [bind] in E8. injection E8 as ->.
  exists st8. unfold MemTest.block1.
  replace (610 + 32 * 3) with 706 by reflexivity.
  rewrite E0. cbn [bind]. rewrite A0. cbn [bind]. rewrite A1. cbn [bind].
  rewrite A2. cbn [bind]. rewrite A3. cbn [bind]. rewrite F0. cbn [bind].
  rewrite F1. cbn [bind]. rewrite F2. cbn [bind]. rewrite F3. cbn [bind].
  split; [f_equal; f_equal; repeat (f_equal; try lia)|].
  split; [unfold NULL; lia|].
  apply reach_nolive; assumption.
Qed.

Lemma memtest_block1_runs_witness :
  exists st,
    MemTest.block1 30 (fun _ => 0) 4096 = Ok ([4112; 4228; 4444; 4760], st) /\
    Rep st [(4096, 690, Mem.MAGIC_FREE)] [4096].
Proof.
  destruct (memtest_block1_runs 30 (fun _ => 0) 4096 ltac:(lia) ltac:(vm_compute; lia))
    as (st & E & _ & R).
  exists st. split; [exact E | exact R].
Defined.

Lemma step3_keeps (base size : Z) (fuel : nat) (ptr : Z -> Z) (st : Mem.state)
      (live : list Z) (idx sz : Z) :
  0 < base -> 32 <= size <= INT_MAX ->
  (Z.to_nat (size / 32) + 2 <= fuel)%nat ->
  reach base size st live -> ptrs_live ptr live ->
  0 <= sz <= INT_MAX - 3 ->
  exists ptr' st' live',
    MemTest.step3 fuel ptr st idx sz = Ok (ptr', st') /\
    reach base size st' live' /\ ptrs_live ptr' live'.
Proof.
  intros Hb Hs Hf H [Hl Hinj] Hsz. unfold MemTest.step3.
  destruct (Z.eqb_spec (ptr idx) 0) as [E0 | N0].
  - destruct (reach_memAlloc base size st live fuel sz Hb Hs H Hsz Hf)
      as (p & st' & E & [[-> H'] | (Hp & Hfresh & H')]); rewrite E; cbn [bind].
    + exists (upd ptr idx NULL), st', live. split; [reflexivity|]. split; [exact H'|].
      assert (Hsame : forall i, upd ptr idx NULL i = ptr i).
      { intros i. destruct (Z.eq_dec i idx) as [-> | Ni].
        - rewrite upd_same. symmetry. exact E0.
        - apply upd_other. exact Ni. }
      split.
      * intros q. rewrite (Hl q). split; intros [Hq (i & Hi)]; split; auto; exists i.
        -- rewrite Hsame. exact Hi.
        -- rewrite <- Hsame. exact Hi.
      * intros i j. rewrite !Hsame. apply Hinj.
    + exists (upd ptr idx p), st', (p :: live). split; [reflexivity|].
      split; [exact H'|]. unfold NULL in Hp.
      assert (Hnew : forall i, upd ptr idx p i <> 0 -> i <> idx ->
                               In (upd ptr idx p i) live).
      { intros i Hn Ni. rewrite upd_other in * by exact Ni.
        apply Hl. split; [exact Hn | exists i; reflexivity]. }
      split.
      * intros q. simpl. rewrite (Hl q). split.
        -- intros [<- | [Hq (i & Hi)]].
           ++ split; [exact Hp|]. exists idx. apply upd_same.
           ++ split; [exact Hq|]. exists i. rewrite upd_other; [exact Hi|].
              intros ->. congruence.
        -- intros [Hq (i & Hi)].
           destruct (Z.eq_dec i idx) as [Ei | Ni].
           ++ left. rewrite Ei, upd_same in Hi. exact Hi.
           ++ right. rewrite upd_other in Hi by exact Ni.
              split; [exact Hq | exists i; exact Hi].
      * intros i j Ep Hn.
        destruct (Z.eq_dec i idx) as [Ei | Ni]; destruct (Z.eq_dec j idx) as [Ej | Nj].
        -- congruence.
        -- exfalso. apply Hfresh. rewrite Ei, upd_same in Ep. rewrite Ep.
           apply Hnew; [rewrite <- Ep; exact Hp | exact Nj].
        -- exfalso. apply Hfresh. rewrite Ej, upd_same in Ep. rewrite <- Ep.
           apply Hnew; [exact Hn | exact Ni].
        -- rewrite !upd_other in * by assumption. apply Hinj; assumption.
  - assert (Hin : In (ptr idx) live) by (apply Hl; split; [exact N0 | exists idx; reflexivity]).
    destruct (reach_memFree base size st live fuel (ptr idx) Hb Hs H Hin Hf)
      as (st' & E & H').
    rewrite E. cbn [bind].
    exists (upd ptr idx 0), st', (rem (ptr idx) live). split; [reflexivity|].
    split; [exact H'|]. split.
    + intros q. rewrite in_rem, (Hl q). split.
      * intros [[Hq (i & Hi)] Hne]. split; [exact Hq|]. exists i.
        rewrite upd_other; [exact Hi|]. intros ->. congruence.
      * intros [Hq (i & Hi)].
        destruct (Z.eq_dec i idx) as [Ei | Ni];
          [rewrite Ei, upd_same in Hi; congruence|].
        rewrite upd_other in Hi by exact Ni.
        split; [split; [exact Hq | exists i; exact Hi]|].
        intros Ep. apply Ni. apply Hinj; congruence.
    + intros i j Ep Hn.
      destruct (Z.eq_dec i idx) as [Ei | Ni];
        [rewrite Ei, upd_same in Hn; congruence|].
      destruct (Z.eq_dec j idx) as [Ej | Nj].
      * rewrite Ej, upd_same in Ep. congruence.
      * rewrite !upd_other in * by assumption. apply Hinj; assumption.
Qed.

Lemma loop3_keeps (base size : Z) (fuel : nat) (rnd : list (Z * Z)) :
  0 < base -> 32 <= size <= INT_MAX ->
  (Z.to_nat (size / 32) + 2 <= fuel)%nat ->
  Forall (fun r => 0 <= snd r <= INT_MAX - 3) rnd ->
  forall (ptr : Z -> Z) (st : Mem.state) (live : list Z),
    reach base size st live -> ptrs_live ptr live ->
    exists ptr' st' live',
      MemTest.loop3 fuel ptr st rnd = Ok (ptr', st') /\
      reach base size st' live' /\ ptrs_live ptr' live'.
Proof.
  intros Hb Hs Hf Hr. induction Hr as [| [idx sz] r Hsz _ IH]; intros ptr st live H Hp.
  - exists ptr, st, live. simpl. auto.
  - simpl in Hsz.
    destruct (step3_keeps base size fuel ptr st live idx sz Hb Hs Hf H Hp Hsz)
      as (ptr1 & st1 & live1 & E1 & H1 & Hp1).
    cbn [MemTest.loop3]. rewrite E1. cbn [bind]. apply (IH ptr1 st1 live1 H1 Hp1).
Qed.

(** X8.  The third block of memtest.c, for any outcome of [random()]: the
    loop runs to its end; after it the non-null entries of the array are
    the live allocations, each in one entry, the allocator satisfies its
    invariants, and [sanityCheck] finds nothing. *)
Theorem memtest_block3_runs
        (fuel : nat) (m0 : memory) (space : Z) (rnd : list (Z * Z)) :
  0 < space ->
  Forall (fun r => 0 <= snd r < 10000) rnd ->
  (Z.to_nat (1 * 1024 * 1024 / 32) + 2 <= fuel)%nat ->
  exists ptr st live bs fl,
    MemTest.block3 fuel m0 space rnd = Ok (ptr, st) /\
    ptrs_live ptr live /\
    Rep st bs fl /\ no_adj_free bs /\
    (forall p, In p live <-> exists S, In (p - 16, S, Mem.MAGIC_USED) bs) /\
    Mem.sanityCheck fuel st = Ok true.
Proof.
  intros Hsp Hr Hf.
  set (size := 1 * 1024 * 1024) in *.
  assert (Hsize : 32 <= size <= INT_MAX) by (unfold size, INT_MAX; lia).
  destruct (memInit_spec fuel m0 space size Hsp Hsize ltac:(lia))
    as (st0 & E0 & R0 & _).
  assert (H0 : reach space size st0 []) by (eapply reach_init; exact E0).
  assert (Hp0 : ptrs_live (fun _ => 0) []).
  { split.
    - intros p. simpl. split; [intros [] | intros [Hp (i & Hi)]; congruence].
    - intros i j _ N. congruence. }
  assert (Hr' : Forall (fun r => 0 <= snd r <= INT_MAX - 3) rnd).
  { eapply Forall_impl; [| exact Hr]. intros a Ha. unfold INT_MAX. cbv beta in *. lia. }
  destruct (loop3_keeps space size fuel rnd Hsp Hsize Hf Hr' _ _ _ H0 Hp0)
    as (ptr & st & live & E & H & Hp).
  destruct (reach_inv _ _ _ _ Hsp Hsize H) as (bs & fl & R & Hna & [_ Hlu] & _).
  exists ptr, st, live, bs, fl. unfold MemTest.block3. fold size. rewrite E0. cbn [bind].
  split_all; auto.
  apply (sanityCheck_ok fuel st bs fl R Hna).
  rewrite (reach_fuel _ _ _ _ Hsp Hsize H). exact Hf.
Qed.

Lemma memtest_block3_runs_witness :
  exists ptr st,
    MemTest.block3 run_fuel (fun _ => 0) 4096 [(3, 50); (7, 0); (3, 9999)] = Ok (ptr, st) /\
    Mem.sanityCheck run_fuel st = Ok true.
Proof.
  destruct (memtest_block3_runs run_fuel (fun _ => 0) 4096 [(3, 50); (7, 0); (3, 9999)])
    as (ptr & st & live & bs & fl & E & _ & _ & _ & _ & Hc).
  - lia.
  - repeat constructor; simpl; lia.
  - apply le_n.
  - exists ptr, st. split; [exact E | exact Hc].
Defined.

(** * Further properties of the process manager *)

(** A state that differs only inside payloads in use represents the same
    chain and free list. *)
Lemma Rep_frame_payload (st st' : Mem.state) (bs : list blk) (fl : list Z) :
  Rep st bs fl ->
  Mem.mcb st' = Mem.mcb st -> Mem.endMem st' = Mem.endMem st ->
  Mem.freelist st' = Mem.freelist st ->
  (forall x, ~ in_used_payload bs x -> Mem.mem st' x = Mem.mem st x) ->
  Rep st' bs fl.
Proof.
  intros R Hm He Hf Hfr.
  assert (Hh : forall b, In b bs ->
             Mem.mem st' (b_addr b) = Mem.mem st (b_addr b) /\
             Mem.mem st' (b_addr b + 8) = Mem.mem st (b_addr b + 8) /\
             Mem.mem st' (b_addr b + 12) = Mem.mem st (b_addr b + 12)).
  { intros b Hb. split_all; apply Hfr; intros Hx;
      destruct (used_payload_not_hdr _ _ _ _ R Hx b Hb) as (H0 & H8 & H12); congruence. }
  assert (Hl : forall a, In a fl ->
             Mem.mem st' (a + 16) = Mem.mem st (a + 16) /\
             Mem.mem st' (a + 24) = Mem.mem st (a + 24)).
  { intros a Ha. split; apply Hfr; intros Hx;
      destruct (used_payload_not_link _ _ _ _ R Hx a Ha); congruence. }
  constructor.
  - apply (rep_nonempty _ _ _ R).
  - rewrite Hm. apply (rep_base _ _ _ R).
  - rewrite Hm, He. apply (rep_len _ _ _ R).
  - rewrite Hm, He. apply (rep_layout _ _ _ R).
  - eapply hdrs_frame; [exact Hh | exact (rep_hdrs _ _ _ R)].
  - apply (rep_magic _ _ _ R).
  - rewrite Hf. eapply lseg_frame; [exact Hl | exact (rep_links _ _ _ R)].
  - apply (rep_nodup _ _ _ R).
  - apply (rep_free _ _ _ R).
  - eapply desc_ext; [| exact (rep_desc _ _ _ R)].
    intros a Ha. unfold Mem.get_size, Mem.OFF_size.
    apply (rep_free _ _ _ R) in Ha. apply in_free_addrs in Ha. destruct Ha as (s & Hb).
    exact (proj2 (proj2 (Hh _ Hb))).
Qed.

Lemma pcb_blocks_psep (bs : list blk) (a e : Z) (l : list Z) :
  layout a bs e -> (forall p, In p l -> pcb_block bs p) -> psep l.
Proof.
  intros L H x y Hx Hy.
  destruct (H x Hx) as (Sx & Hix & HSx). destruct (H y Hy) as (Sy & Hiy & HSy).
  pose proof (used_blocks_apart _ _ _ _ _ _ _ L Hix Hiy). lia.
Qed.

Lemma owned_frame (st st' : Proc.state) (p : Z) :
  Proc.get_stackAddr st' p = Proc.get_stackAddr st p -> owned st' p = owned st p.
Proof. intros E. unfold owned. rewrite E. reflexivity. Qed.

Lemma flat_map_ext_in {A B : Type} (f g : A -> list B) (l : list A) :
  (forall a, In a l -> f a = g a) -> flat_map f l = flat_map g l.
Proof.
  induction l as [| a r IH]; intros H; simpl; [reflexivity|].
  rewrite (H a (or_introl eq_refl)), IH; [reflexivity|].
  intros b Hb. apply H. right. exact Hb.
Qed.

Lemma NoDup_flat_map_rot {A B : Type} (f : A -> list B) (r : A) (l : list A) :
  NoDup (flat_map f (r :: l)) -> NoDup (flat_map f (l ++ [r])).
Proof.
  simpl. rewrite flat_map_app. simpl. rewrite app_nil_r.
  intros H. eapply Permutation_NoDup; [apply Permutation_app_comm | exact H].
Qed.

Lemma NoDup_rot {A : Type} (r : A) (l : list A) : NoDup (r :: l) -> NoDup (l ++ [r]).
Proof.
  intros H. eapply Permutation_NoDup; [apply (Permutation_app_comm [r] l) | exact H].
Qed.

(** One run of the scheduler on a state that satisfies the invariants,
    with a process running and the ready queue [p :: q]. *)
Lemma sched_PInvS (st : Proc.state) (bs : list blk) (fl : list Z) (p : Z) (q : list Z) :
  PInvS st bs fl (p :: q) -> Proc.runningProc st <> NULL ->
  exists st',
    Proc.sched st = Ok st' /\
    PInvS st' bs fl (q ++ [Proc.runningProc st]) /\
    Proc.runningProc st' = p /\
    Proc.procId st' = Proc.procId st /\
    (forall a, In a (Proc.runningProc st :: p :: q) ->
               cur_sp st' a = cur_sp st a /\
               Proc.get_pid st' a = Proc.get_pid st a /\
               Proc.get_state st' a = Proc.get_state st a /\
               Proc.get_stackAddr st' a = Proc.get_stackAddr st a) /\
    (forall x, (forall a, In a (Proc.runningProc st :: p :: q) ->
                          x < a \/ a + Proc.SZ_PCB <= x) ->
               Mem.mem (Proc.heap st') x = Mem.mem (Proc.heap st) x).
Proof.
  intros [[R Hq Hnd Hpcb Hnext] Hstk Hap] Hr.
  set (r := Proc.runningProc st) in *.
  assert (Hrl : running_list st = [r]).
  { unfold running_list. fold r. destruct (Z.eqb_spec r NULL); [contradiction | reflexivity]. }
  rewrite Hrl in *. cbn [app] in *.
  pose proof (pcb_blocks_psep _ _ _ _ (rep_layout _ _ _ R) Hpcb) as Hsep.
  destruct (sched_spec st p q Hq ltac:(rewrite Hrl; exact Hnd)
              ltac:(rewrite Hrl; exact Hsep) Hnext)
    as (st' & Es & Hrun & Hq' & He' & Hr' & Hn' & Hrsp & Hkeep & Hfr & Hid & Hm & Hen & Hfl).
  rewrite Hrl in Hq', Hkeep. cbn [app] in Hkeep. fold r in Hfr, He', Hr'.
  destruct (Hr' Hr) as (_ & Hspr).
  assert (Hlast : In (last (p :: q) NULL) (p :: q)) by (apply last_in; discriminate).
  (* the cells of the PCBs after the switch *)
  assert (Hcell : forall a k, In a (r :: p :: q) -> 0 <= k < 56 ->
                    k <> 0 -> k <> 40 ->
                    Mem.mem (Proc.heap st') (a + k) = Mem.mem (Proc.heap st) (a + k)).
  { intros a k Ha Hk H0 H40. apply Hfr; unfold Proc.OFF_next, Proc.OFF_stackPtr.
    - destruct (Hsep a (last (p :: q) NULL) Ha (or_intror Hlast)) as [<- | D];
        unfold Proc.SZ_PCB in *; lia.
    - destruct (Hsep a p Ha ltac:(simpl; auto)) as [<- | D];
        unfold Proc.SZ_PCB in *; lia.
    - destruct (Hsep a r Ha ltac:(simpl; auto)) as [<- | D];
        unfold Proc.SZ_PCB in *; lia. }
  assert (Hsa : forall a, In a (r :: p :: q) ->
                  Proc.get_stackAddr st' a = Proc.get_stackAddr st a).
  { intros a Ha. unfold Proc.get_stackAddr, Proc.load, Proc.OFF_stackAddr.
    apply Hcell; [exact Ha | lia ..]. }
  assert (Hsp : forall a, In a (p :: q) -> a <> r /\
                  (a <> p -> Proc.get_stackPtr st' a = Proc.get_stackPtr st a)).
  { intros a Ha.
    assert (Nar : a <> r).
    { intros ->. apply NoDup_cons_iff in Hnd. tauto. }
    split; [exact Nar|]. intros Nap.
    unfold Proc.get_stackPtr, Proc.load, Proc.OFF_stackPtr.
    apply Hfr; unfold Proc.OFF_next, Proc.OFF_stackPtr.
    - destruct (Hsep a (last (p :: q) NULL) (or_intror Ha) (or_intror Hlast)) as [<- | D];
        unfold Proc.SZ_PCB in *; lia.
    - destruct (Hsep a p (or_intror Ha) ltac:(simpl; auto)) as [-> | D];
        unfold Proc.SZ_PCB in *; [contradiction | lia].
    - destruct (Hsep a r (or_intror Ha) ltac:(simpl; auto)) as [-> | D];
        unfold Proc.SZ_PCB in *; [contradiction | lia]. }
  assert (Hpr : p <> r).
  { intros ->. apply NoDup_cons_iff in Hnd. destruct Hnd as [Hn _]. apply Hn. simpl. auto. }
  assert (Hrl' : running_list st' = [p]).
  { unfold running_list. rewrite Hrun.
    assert (Np : p <> NULL) by (destruct Hq as [(_ & Np & _) _]; exact Np).
    destruct (Z.eqb_spec p NULL); [contradiction | reflexivity]. }
  assert (RX : Rep (Proc.heap st') bs fl).
  { apply (Rep_frame_payload (Proc.heap st) _ bs fl R Hm Hen Hfl).
    intros x Hx. apply Hfr; intros ->; apply Hx.
    - apply (pcb_block_payload bs (last (p :: q) NULL));
        [apply Hpcb; right; exact Hlast | unfold Proc.OFF_next, Proc.SZ_PCB; lia].
    - apply (pcb_block_payload bs p);
        [apply Hpcb; simpl; auto | unfold Proc.OFF_next, Proc.SZ_PCB; lia].
    - apply (pcb_block_payload bs r);
        [apply Hpcb; simpl; auto | unfold Proc.OFF_stackPtr, Proc.SZ_PCB; lia]. }
  assert (Hmem : forall a, In a (p :: q ++ [r]) <-> In a (r :: p :: q)).
  { intros a. simpl. rewrite in_app_iff. simpl. tauto. }
  exists st'. split; [exact Es|]. split; [| split; [exact Hrun | split; [exact Hid|]]].
  - constructor; [constructor|..]; rewrite ?Hrl'; cbn [app].
    + exact RX.
    + split; [exact Hq' | rewrite He', last_last; reflexivity].
    + apply (NoDup_rot r (p :: q)). exact Hnd.
    + intros a Ha. apply Hpcb. apply Hmem. exact Ha.
    + intros _. rewrite Hrun. exact Hn'.
    + intros a Ha. apply Hmem in Ha. rewrite (Hsa a Ha). apply Hstk. exact Ha.
    + rewrite (flat_map_ext_in (owned st') (owned st)).
      * apply (NoDup_flat_map_rot (owned st) r (p :: q)). exact Hap.
      * intros a Ha. apply owned_frame. apply Hsa. apply Hmem. exact Ha.
  - split.
    + intros a Ha. split; [| split; [exact (proj2 (Hkeep a Ha)) |
                                     split; [exact (proj1 (Hkeep a Ha)) | exact (Hsa a Ha)]]].
      unfold cur_sp. rewrite Hrun. fold r.
      destruct Ha as [<- | [<- | Ha]].
      * destruct (Z.eqb_spec r p) as [E | _]; [congruence|].
        rewrite Z.eqb_refl. exact Hspr.
      * rewrite Z.eqb_refl. destruct (Z.eqb_spec p r) as [E | _]; [congruence|]. exact Hrsp.
      * destruct (Hsp a (or_intror Ha)) as (Nar & Hsame).
        assert (Nap : a <> p).
        { intros ->. apply NoDup_cons_iff in Hnd. destruct Hnd as [_ Hnd].
          apply NoDup_cons_iff in Hnd. tauto. }
        destruct (Z.eqb_spec a p) as [E | _]; [contradiction|].
        destruct (Z.eqb_spec a r) as [E | _]; [contradiction|].
        apply Hsame. exact Nap.
    + intros x Hx. apply Hfr; unfold Proc.OFF_next, Proc.OFF_stackPtr; intros ->.
      * destruct (Hx _ (or_intror Hlast)); unfold Proc.SZ_PCB in *; lia.
      * destruct (Hx p ltac:(simpl; auto)); unfold Proc.SZ_PCB in *; lia.
      * destruct (Hx r ltac:(simpl; auto)); unfold Proc.SZ_PCB in *; lia.
Qed.

Lemma iter_rot1 (k : nat) (l : list Z) :
  (k <= length l)%nat -> Nat.iter k rot1 l = skipn k l ++ firstn k l.
Proof.
  induction k as [| k IH]; intros H.
  - simpl. rewrite app_nil_r. reflexivity.
  - change (Nat.iter (S k) rot1 l) with (rot1 (Nat.iter k rot1 l)). rewrite IH by lia.
    destruct (skipn k l) as [| x r] eqn:E.
    + exfalso. assert (Hl : length (skipn k l) = 0%nat) by (rewrite E; reflexivity).
      rewrite length_skipn in Hl. lia.
    + cbn [app rot1].
      assert (E1 : skipn (S k) l = r).
      { replace (S k) with (1 + k)%nat by lia. rewrite <- skipn_skipn, E. reflexivity. }
      assert (E2 : firstn (S k) l = firstn k l ++ [x]).
      { rewrite <- (firstn_skipn k l) at 1. rewrite E.
        rewrite firstn_app, firstn_firstn, length_firstn.
        replace (Nat.min (S k) k) with k by lia.
        replace (S k - Nat.min k (length l))%nat with 1%nat by lia.
        reflexivity. }
      rewrite E1, E2, <- app_assoc. reflexivity.
Qed.

Lemma iter_rot1_full (l : list Z) : Nat.iter (length l) rot1 l = l.
Proof.
  rewrite iter_rot1 by lia. rewrite skipn_all, firstn_all. reflexivity.
Qed.

(** One call of [procYield]. *)
Lemma procYield_keeps_aux
        (st : Proc.state) (bs : list blk) (fl q : list Z) :
  PInvS st bs fl q -> Proc.runningProc st <> NULL ->
  exists st' q',
    Proc.procYield st = Ok st' /\
    Proc.runningProc st' :: q' = rot1 (Proc.runningProc st :: q) /\
    PInvS st' bs fl q' /\
    Proc.runningProc st' <> NULL /\
    Proc.procId st' = Proc.procId st /\
    (forall a, In a (Proc.runningProc st :: q) ->
               cur_sp st' a = cur_sp st a /\
               Proc.get_pid st' a = Proc.get_pid st a /\
               Proc.get_state st' a = Proc.get_state st a /\
               Proc.get_stackAddr st' a = Proc.get_stackAddr st a) /\
    (forall x, (forall a, In a (Proc.runningProc st :: q) ->
                          x < a \/ a + Proc.SZ_PCB <= x) ->
               Mem.mem (Proc.heap st') x = Mem.mem (Proc.heap st) x).
Proof.
  intros HP Hr. unfold Proc.procYield. destruct q as [| p q].
  - exists st, []. 
    assert (Hq : Proc.readyQ st = NULL).
    { destruct HP as [[_ [Hq _] _ _ _] _ _]. exact Hq. }
    unfold Proc.sched. rewrite Hq. cbn [Z.eqb NULL]. split_all; auto.
  - destruct (sched_PInvS st bs fl p q HP Hr) as (st' & Es & HP' & Hrun & Hid & Hk & Hfr).
    exists st', (q ++ [Proc.runningProc st]). rewrite Hrun. split_all; auto.
    destruct HP as [[_ [(_ & Np & _) _] _ _ _] _ _]. exact Np.
Qed.

(** X9.  [procYield] with a process running, in a state that satisfies the
    invariants of the allocator and of the process manager: the head of
    the ready queue becomes the running process and the caller goes to the
    tail (nothing changes when the queue is empty); the invariants hold
    again, over the same chain and free list; every process keeps its own
    stack pointer, its PID, its state field and its stack; the PID counter
    and every byte outside the PCBs are unchanged. *)
Theorem procYield_rotates
        (st : Proc.state) (bs : list blk) (fl q : list Z) :
  PInvS st bs fl q -> Proc.runningProc st <> NULL ->
  exists st' q',
    Proc.procYield st = Ok st' /\
    Proc.runningProc st' :: q' = rot1 (Proc.runningProc st :: q) /\
    PInvS st' bs fl q' /\
    Proc.runningProc st' <> NULL /\
    Proc.procId st' = Proc.procId st /\
    (forall a, In a (Proc.runningProc st :: q) ->
               cur_sp st' a = cur_sp st a /\
               Proc.get_pid st' a = Proc.get_pid st a /\
               Proc.get_state st' a = Proc.get_state st a /\
               Proc.get_stackAddr st' a = Proc.get_stackAddr st a) /\
    (forall x, (forall a, In a (Proc.runningProc st :: q) ->
                          x < a \/ a + Proc.SZ_PCB <= x) ->
               Mem.mem (Proc.heap st') x = Mem.mem (Proc.heap st) x).
Proof. exact (procYield_keeps_aux st bs fl q). Qed.



(** ** The blocks of the processes *)

Lemma owned_used (st : Proc.state) (bs : list blk) (fl q : list Z) (o : Z) :
  PInvS st bs fl q ->
  In o (flat_map (owned st) (running_list st ++ q)) ->
  exists T, In (o - 16, T, Mem.MAGIC_USED) bs.
Proof.
  intros [[_ _ _ Hpcb _] Hstk _] Ho.
  apply in_flat_map in Ho. destruct Ho as (p & Hp & Ho).
  unfold owned in Ho. destruct Ho as [<- | Ho].
  - destruct (Hpcb p Hp) as (T & Hin & _). exists T. exact Hin.
  - destruct (Z.eqb_spec (Proc.get_stackAddr st p) NULL) as [E | N]; [destruct Ho|].
    destruct Ho as [<- | []].
    destruct (Hstk p Hp) as [E | (T & Hin & _)]; [contradiction|]. exists T. exact Hin.
Qed.

(** ** procInit *)

Lemma procInit_PInvS (fuel : nat) (st : Proc.state) (bs : list blk) (fl : list Z) :
  Rep (Proc.heap st) bs fl -> (enough_fuel (Proc.heap st) <= fuel)%nat ->
  exists st',
    Proc.procInit fuel st = Ok st' /\
    Proc.readyQ st' = NULL /\ Proc.readyQEnd st' = NULL /\ Proc.rsp st' = Proc.rsp st /\
    ((Proc.runningProc st' = NULL /\ Proc.heap st' = Proc.heap st /\
      Proc.procId st' = 0 /\
      (Mem.freelist (Proc.heap st) = NULL \/
       Mem.get_size (Proc.heap st) (Mem.freelist (Proc.heap st)) < Proc.SZ_PCB)) \/
     (exists bs' fl',
        PInvS st' bs' fl' [] /\
        alloc_step Proc.SZ_PCB (Mem.freelist (Proc.heap st)) bs bs' /\
        Proc.runningProc st' = Mem.freelist (Proc.heap st) + 16 /\
        Proc.runningProc st' <> NULL /\
        Proc.get_pid st' (Proc.runningProc st') = 0 /\
        Proc.get_state st' (Proc.runningProc st') = Proc.READY /\
        Proc.get_stackAddr st' (Proc.runningProc st') = NULL /\
        Proc.get_stackPtr st' (Proc.runningProc st') = Proc.rsp st /\
        Proc.get_next st' (Proc.runningProc st') = NULL /\
        Proc.procId st' = 1 /\
        (forall x, in_used_payload bs x ->
                   Mem.mem (Proc.heap st') x = Mem.mem (Proc.heap st) x))).
Proof.
  intros R Hfuel.
  pose proof (Rep_enough _ _ _ _ R Hfuel) as Hlen.
  assert (A1 : Mem.adjust Proc.SZ_PCB = 56) by (vm_compute; reflexivity).
  unfold Proc.procInit. cbv zeta.
  change (Proc.heap (Proc.set_procId (Proc.set_runningProc (Proc.set_readyQEnd
            (Proc.set_readyQ st NULL) NULL) NULL) 0)) with (Proc.heap st).
  destruct (memAlloc_spec fuel _ _ _ Proc.SZ_PCB R ltac:(rewrite A1; lia) Hlen)
    as [[E Hc] | (h1 & bs1 & fl1 & E & _ & Hin & R1 & St & Hfr1 & Hz & _)].
  - rewrite E. cbn [bind]. rewrite Z.eqb_refl. eexists. split; [reflexivity|].
    split_all; try reflexivity. left. split_all; try reflexivity.
    rewrite A1 in Hc. exact Hc.
  - rewrite E. cbn [bind].
    set (proc := Mem.freelist (Proc.heap st) + 16) in *.
    assert (Hp : proc <> NULL).
    { pose proof (Rep_fl_pos _ _ _ _ R Hin). unfold proc, NULL. lia. }
    destruct (Z.eqb_spec proc NULL) as [? | _]; [contradiction|].
    eexists. split; [reflexivity|].
    match goal with |- Proc.readyQ ?X = _ /\ _ => set (X0 := X) end.
    split; [reflexivity|]. split; [reflexivity|]. split; [reflexivity|]. right.
    rewrite A1 in St.
    assert (St' : alloc_step 56 (proc - 16) bs bs1).
    { replace (proc - 16) with (Mem.freelist (Proc.heap st)) by (unfold proc; lia).
      exact St. }
    destruct (alloc_step_block _ _ _ _ St') as (Sp & HSp & Hpb).
    assert (Hblk : pcb_block bs1 proc) by (exists Sp; split; [exact Hpb | exact HSp]).
    assert (Hpay : forall k, 0 <= k < 56 -> in_used_payload bs1 (proc + k)).
    { intros k Hk. apply (pcb_block_payload _ _ _ Hblk). unfold Proc.SZ_PCB. lia. }
    assert (HmX : Mem.mem (Proc.heap X0) =
                  upd (upd (upd (upd (upd (Mem.mem h1) (proc + 8) Proc.MAGIC_PROC)
                                     (proc + 12) 0) (proc + 16) Proc.READY)
                           (proc + 24) NULL) (proc + 40) (Proc.rsp st))
      by reflexivity.
    assert (RX : Rep (Proc.heap X0) bs1 fl1).
    { change (Proc.heap X0)
        with (Mem.store (Mem.store (Mem.store (Mem.store (Mem.store h1
                (proc + 8) Proc.MAGIC_PROC) (proc + 12) 0) (proc + 16) Proc.READY)
                (proc + 24) NULL) (proc + 40) (Proc.rsp st)).
      repeat (apply Rep_store_payload; [| apply Hpay; lia]). exact R1. }
    assert (HrunX : Proc.runningProc X0 = proc) by reflexivity.
    assert (HidX : Proc.procId X0 = wrap32 (0 + 1)) by reflexivity.
    assert (HqX : Proc.readyQ X0 = NULL) by reflexivity.
    assert (HeX : Proc.readyQEnd X0 = NULL) by reflexivity.
    clearbody X0.
    assert (Hrl : running_list X0 = [proc]).
    { unfold running_list. rewrite HrunX.
      destruct (Z.eqb_spec proc NULL); [contradiction | reflexivity]. }
    assert (Hsa : Proc.get_stackAddr X0 proc = NULL).
    { unfold Proc.get_stackAddr, Proc.load, Proc.OFF_stackAddr. rewrite HmX. upd_tac. }
    exists bs1, fl1.
    unfold Proc.get_pid, Proc.get_state, Proc.get_stackPtr, Proc.get_next, Proc.load,
      Proc.OFF_pid, Proc.OFF_state, Proc.OFF_stackPtr, Proc.OFF_next.
    rewrite HrunX.
    split; [| split; [exact St|]].
    + constructor; [constructor|..]; rewrite ?Hrl; cbn [app].
      * exact RX.
      * split; [simpl; exact HqX | simpl; exact HeX].
      * repeat constructor. intros [].
      * intros p [<- | []]. exact Hblk.
      * intros _. rewrite HrunX. unfold Proc.get_next, Proc.load, Proc.OFF_next.
        rewrite HmX, Z.add_0_r. upd_simpl. exact Hz.
      * intros p [<- | []]. left. exact Hsa.
      * simpl. unfold owned. rewrite Hsa, Z.eqb_refl. simpl. repeat constructor. intros [].
    + rewrite HmX, Z.add_0_r.
      split; [reflexivity|]. split; [exact Hp|]. split; [upd_tac|]. split; [upd_tac|].
      split; [exact Hsa|]. split; [upd_tac|]. split; [upd_simpl; exact Hz|].
      split; [exact HidX|].
      intros x Hx. rewrite <- (Hfr1 x Hx).
      destruct (alloc_step_used _ _ _ _ St' (layout_nodup _ _ _ (rep_layout _ _ _ R)))
        as [_ Hfresh].
      destruct Hx as (b & Hb & Hu & Hxb). destruct b as [[a T] g].
      unfold b_addr, b_size, b_magic in *. simpl in *. subst g.
      pose proof (alloc_step_keeps _ _ _ _ _ _ St' Hb) as Hb1.
      replace a with (a + 16 - 16) in Hb1 by lia.
      destruct (used_blocks_apart _ _ _ _ _ _ _ (rep_layout _ _ _ R1) Hb1 Hpb) as [Ea | D].
      * exfalso. apply Hfresh. exists T. replace (proc - 16) with a by lia. exact Hb.
      * upd_tac.
Qed.


(** ** procCreate *)

Lemma NoDup_insert2 {A : Type} (l1 l2 : list A) (a b : A) :
  NoDup (l1 ++ l2) -> a <> b -> ~ In a (l1 ++ l2) -> ~ In b (l1 ++ l2) ->
  NoDup (l1 ++ a :: b :: l2).
Proof.
  intros H Hab Ha Hb.
  apply NoDup_Add with (a := a) (l := l1 ++ b :: l2); [apply Add_app|].
  split.
  - apply NoDup_Add with (a := b) (l := l1 ++ l2); [apply Add_app|]. split; assumption.
  - rewrite in_app_iff in *. simpl. intros [H1 | [H1 | H1]]; [tauto | congruence | tauto].
Qed.

(** [procCreate], both allocations having succeeded, up to its call of the
    scheduler. *)
Lemma procCreate_enqueue_PInvS
      (fuel : nat) (st : Proc.state) (bs : list blk) (fl q : list Z)
      (start proc stack : Z) (h1 h2 : Mem.state) :
  PInvS st bs fl q ->
  Mem.memAlloc fuel (Proc.heap st) Proc.SZ_PCB = Ok (proc, h1) -> proc <> NULL ->
  Mem.memAlloc fuel h1 Proc.STACKSZ = Ok (stack, h2) -> stack <> NULL ->
  exists st1 bs1 bs2 fl2,
    Proc.procCreate_enqueue fuel st start = Ok (proc, st1) /\
    PInvS st1 bs2 fl2 (proc :: q) /\
    alloc_step Proc.SZ_PCB (proc - 16) bs bs1 /\
    alloc_step Proc.STACKSZ (stack - 16) bs1 bs2 /\
    Proc.runningProc st1 = Proc.runningProc st /\
    Proc.rsp st1 = Proc.rsp st /\
    Proc.procId st1 = wrap32 (Proc.procId st + 1) /\
    Proc.get_pid st1 proc = Proc.procId st /\
    Proc.get_state st1 proc = Proc.READY /\
    Proc.get_stackAddr st1 proc = stack /\
    Proc.get_stackPtr st1 proc = stack + Proc.STACKSZ - 16 /\
    Mem.mem (Proc.heap st1) (stack + Proc.STACKSZ - 8) = start /\
    (forall x, in_used_payload bs x ->
               Mem.mem (Proc.heap st1) x = Mem.mem (Proc.heap st) x) /\
    (forall a, In a (running_list st ++ proc :: q) ->
               stack + Proc.STACKSZ - 8 < a \/ a + 56 <= stack + Proc.STACKSZ - 8) /\
    (forall a T, In (a, T, Mem.MAGIC_USED) bs -> In (a, T, Mem.MAGIC_USED) bs2).
Proof.
  intros [[R [Hq He] Hnd Hpcb Hnext] Hstk Hap] E1 Hp E2 Hs.
  assert (HP : PInvS st bs fl q)
    by (constructor; [constructor; [| split |..] |..]; assumption).
  assert (A1 : Mem.adjust Proc.SZ_PCB = 56) by (vm_compute; reflexivity).
  assert (A2 : Mem.adjust Proc.STACKSZ = 131072) by (vm_compute; reflexivity).
  destruct (memAlloc_Rep _ _ _ _ _ _ _ R ltac:(rewrite A1; lia) E1 Hp)
    as (bs1 & fl1 & R1 & St1 & Hfr1 & _ & _ & _).
  destruct (memAlloc_Rep _ _ _ _ _ _ _ R1 ltac:(rewrite A2; lia) E2 Hs)
    as (bs2 & fl2 & R2 & St2 & Hfr2 & _ & _ & _).
  rewrite A1 in St1. rewrite A2 in St2.
  pose proof (layout_nodup _ _ _ (rep_layout _ _ _ R)) as Hnd0.
  pose proof (layout_nodup _ _ _ (rep_layout _ _ _ R1)) as Hnd1.
  pose proof (rep_layout _ _ _ R2) as L2.
  destruct (alloc_step_used _ _ _ _ St1 Hnd0) as [_ Hfresh1].
  destruct (alloc_step_used _ _ _ _ St2 Hnd1) as [_ Hfresh2].
  destruct (alloc_step_block _ _ _ _ St1) as (Sp & HSp & Hpb1).
  pose proof (alloc_step_keeps _ _ _ _ _ _ St2 Hpb1) as Hpb2.
  destruct (alloc_step_block _ _ _ _ St2) as (Ss & HSs & Hsb2).
  set (x := stack + 131064).
  (* every block in use before is in use after, apart from the new ones,
     with its bytes *)
  assert (Hkeep : forall a T, In (a - 16, T, Mem.MAGIC_USED) bs ->
             In (a - 16, T, Mem.MAGIC_USED) bs2 /\ a <> proc /\ a <> stack /\
             (a + T <= proc - 16 \/ proc + Sp <= a - 16) /\
             (a + T <= stack - 16 \/ stack + Ss <= a - 16)).
  { intros a T Hin.
    pose proof (alloc_step_keeps _ _ _ _ _ _ St1 Hin) as Hin1.
    pose proof (alloc_step_keeps _ _ _ _ _ _ St2 Hin1) as Hin2.
    assert (Hap' : a <> proc) by (intros ->; apply Hfresh1; exists T; exact Hin).
    assert (Has : a <> stack) by (intros ->; apply Hfresh2; exists T; exact Hin1).
    pose proof (used_blocks_apart _ _ _ _ _ _ _ L2 Hin2 Hpb2) as D1.
    pose proof (used_blocks_apart _ _ _ _ _ _ _ L2 Hin2 Hsb2) as D2.
    split_all; auto; lia. }
  assert (Hfr12 : forall y, in_used_payload bs y ->
                            Mem.mem h2 y = Mem.mem (Proc.heap st) y /\
                            (y < proc \/ proc + 56 <= y) /\ y <> x).
  { intros y Hy. split.
    - rewrite Hfr2, Hfr1; [reflexivity | exact Hy |].
      destruct Hy as (b & Hb & Hu & Hyb). exists b. split; [| auto].
      destruct b as [[a T] g]. unfold b_magic in Hu. simpl in Hu. subst g.
      eapply alloc_step_keeps; eauto.
    - destruct Hy as (b & Hb & Hu & Hyb). destruct b as [[a T] g].
      unfold b_addr, b_size, b_magic in *. simpl in *. subst g.
      replace a with (a + 16 - 16) in Hb by lia.
      destruct (Hkeep _ _ Hb) as (_ & _ & _ & D1 & D2). unfold x. lia. }
  assert (Hold : forall a, In a (running_list st ++ q) ->
             (a + 56 <= proc \/ proc + 56 <= a) /\ a <> proc /\ a <> stack /\
             pcb_block bs2 a).
  { intros a Ha. destruct (Hpcb a Ha) as (Sa & Hin & HSa). unfold Proc.SZ_PCB in HSa.
    destruct (Hkeep _ _ Hin) as (Hin2 & N1 & N2 & D1 & _).
    split; [lia|]. split; [exact N1|]. split; [exact N2|].
    exists Sa. split; [exact Hin2 | exact HSa]. }
  assert (Hps : proc <> stack).
  { intros ->. apply Hfresh2. exists Sp. exact Hpb1. }
  assert (Hpx : x < proc \/ proc + 56 <= x).
  { pose proof (used_blocks_apart _ _ _ _ _ _ _ L2 Hpb2 Hsb2) as D. unfold x. lia. }
  destruct (procCreate_enqueue_spec fuel st start proc stack h1 h2 E1 Hp E2 Hs Hpx)
    as (st1 & Eq & Hfr & Hn1 & Hpid1 & Hst1 & Hsa1 & Hsp1 & Hstart & Hg1 & Hg2 & Hg3
        & Hid1 & Hr1 & He1 & Hrun1 & Hrsp1).
  assert (Hpay : forall y, in_used_payload bs y ->
                           Mem.mem (Proc.heap st1) y = Mem.mem (Proc.heap st) y).
  { intros y Hy. destruct (Hfr12 y Hy) as (E & D & N). rewrite Hfr; auto. }
  assert (Hcell : forall a, In a (running_list st ++ q) ->
             forall y, a <= y < a + 56 ->
                       Mem.mem (Proc.heap st1) y = Mem.mem (Proc.heap st) y).
  { intros a Ha y Hy. apply Hpay. apply (pcb_block_payload bs a); [apply Hpcb; exact Ha|].
    unfold Proc.SZ_PCB. exact Hy. }
  assert (Hrl : running_list st1 = running_list st).
  { unfold running_list. rewrite Hrun1. reflexivity. }
  assert (Hsa_old : forall a, In a (running_list st ++ q) ->
                              Proc.get_stackAddr st1 a = Proc.get_stackAddr st a).
  { intros a Ha. unfold Proc.get_stackAddr, Proc.load, Proc.OFF_stackAddr.
    apply (Hcell a Ha). lia. }
  assert (Hnp : ~ In proc (running_list st ++ q)).
  { intros Hin. destruct (Hold proc Hin) as (_ & N & _). congruence. }
  assert (RX : Rep (Proc.heap st1) bs2 fl2).
  { apply (Rep_frame_payload h2 _ bs2 fl2 R2 Hg1 Hg2 Hg3).
    intros y Hy. apply Hfr.
    - destruct (Z_lt_ge_dec y proc) as [? | Hge]; [left; lia|].
      destruct (Z_lt_ge_dec y (proc + 56)) as [Hlt | ?]; [| right; lia].
      exfalso. apply Hy. exists (proc - 16, Sp, Mem.MAGIC_USED).
      unfold b_addr, b_size, b_magic. simpl. split_all; auto; lia.
    - intros ->. apply Hy. exists (stack - 16, Ss, Mem.MAGIC_USED).
      unfold b_addr, b_size, b_magic, x. simpl. split_all; auto; lia. }
  exists st1, bs1, bs2, fl2. split; [exact Eq|].
  split; [| split; [exact St1 | split; [exact St2|]]].
  - constructor; [constructor|..]; rewrite ?Hrl.
    + exact RX.
    + split.
      * simpl. split; [exact Hr1|]. split; [exact Hp|].
        change (Mem.mem (Proc.heap st1) (proc + Proc.OFF_next))
          with (Proc.get_next st1 proc).
        rewrite Hn1. eapply qseg_frame; [| exact Hq].
        intros a Ha. apply (Hcell a); [apply in_or_app; right; exact Ha|].
        unfold Proc.OFF_next. lia.
      * rewrite He1. destruct q as [| a r].
        -- simpl in Hq. rewrite Hq, Z.eqb_refl. reflexivity.
        -- simpl in Hq. destruct Hq as (Ea & Na & _). rewrite Ea.
           destruct (Z.eqb_spec a NULL) as [? | _]; [contradiction|].
           rewrite He. reflexivity.
    + apply NoDup_Add with (a := proc) (l := running_list st ++ q); [apply Add_app|].
      split; assumption.
    + intros a Ha. apply in_app_or in Ha.
      destruct Ha as [Ha | [<- | Ha]].
      * apply (Hold a). apply in_or_app. left. exact Ha.
      * exists Sp. split; [exact Hpb2 | unfold Proc.SZ_PCB; lia].
      * apply (Hold a). apply in_or_app. right. exact Ha.
    + intros Hr. rewrite Hrun1 in *. unfold Proc.get_next, Proc.load.
      rewrite (Hcell (Proc.runningProc st)).
      * apply Hnext. exact Hr.
      * unfold running_list. destruct (Z.eqb_spec (Proc.runningProc st) NULL);
          [contradiction | simpl; auto].
      * unfold Proc.OFF_next. lia.
    + intros a Ha.
      assert (Ha' : a = proc \/ In a (running_list st ++ q)).
      { apply in_app_or in Ha. rewrite in_app_iff.
        destruct Ha as [Ha | [Ha | Ha]]; [tauto | left; symmetry; exact Ha | tauto]. }
      destruct Ha' as [-> | Ha'].
      * right. rewrite Hsa1. exists Ss. split; [exact Hsb2 | unfold Proc.STACKSZ; lia].
      * rewrite (Hsa_old a Ha').
        destruct (Hstk a Ha') as [E | (T & Hin & HT)]; [left; exact E | right].
        exists T. split; [| exact HT]. exact (proj1 (Hkeep _ _ Hin)).
    + rewrite flat_map_app. cbn [flat_map].
      assert (Eo : owned st1 proc = [proc; stack]).
      { unfold owned. rewrite Hsa1.
        destruct (Z.eqb_spec stack NULL); [contradiction | reflexivity]. }
      rewrite Eo. cbn [app].
      rewrite (flat_map_ext_in (owned st1) (owned st) (running_list st)),
              (flat_map_ext_in (owned st1) (owned st) q).
      * rewrite flat_map_app in Hap.
        assert (Hfresh : forall o, In o (flat_map (owned st) (running_list st)
                                          ++ flat_map (owned st) q) ->
                                   o <> proc /\ o <> stack).
        { intros o Ho. rewrite <- flat_map_app in Ho.
          destruct (owned_used st bs fl q o HP Ho) as (T & Hin).
          destruct (Hkeep _ _ Hin) as (_ & N1 & N2 & _). auto. }
        apply NoDup_insert2; auto.
        -- intros Ho. destruct (Hfresh _ Ho). congruence.
        -- intros Ho. destruct (Hfresh _ Ho). congruence.
      * intros a Ha. apply owned_frame. apply Hsa_old. apply in_or_app. right. exact Ha.
      * intros a Ha. apply owned_frame. apply Hsa_old. apply in_or_app. left. exact Ha.
  - split_all; auto.
    + intros a Ha. unfold Proc.STACKSZ.
      replace (stack + 128 * 1024 - 8) with x by (unfold x; lia).
      apply in_app_or in Ha. destruct Ha as [Ha | [<- | Ha]].
      * destruct (Hpcb a (in_or_app _ _ _ (or_introl Ha))) as (Sa & Hin & HSa).
        unfold Proc.SZ_PCB in HSa.
        destruct (Hkeep _ _ Hin) as (_ & _ & _ & _ & D). unfold x. lia.
      * lia.
      * destruct (Hpcb a (in_or_app _ _ _ (or_intror Ha))) as (Sa & Hin & HSa).
        unfold Proc.SZ_PCB in HSa.
        destruct (Hkeep _ _ Hin) as (_ & _ & _ & _ & D). unfold x. lia.
    + intros a T Hin. eapply alloc_step_keeps; [exact St2|].
      eapply alloc_step_keeps; [exact St1 | exact Hin].
Qed.

(** [procCreate] when both allocations succeed. *)
Lemma procCreate_PInvS
      (fuel : nat) (st : Proc.state) (bs : list blk) (fl q : list Z)
      (start proc stack : Z) (h1 h2 : Mem.state) :
  PInvS st bs fl q -> Proc.runningProc st <> NULL ->
  Mem.memAlloc fuel (Proc.heap st) Proc.SZ_PCB = Ok (proc, h1) -> proc <> NULL ->
  Mem.memAlloc fuel h1 Proc.STACKSZ = Ok (stack, h2) -> stack <> NULL ->
  exists st2 bs2 fl2,
    Proc.procCreate fuel st start = Ok (Proc.Suspended proc, st2) /\
    PInvS st2 bs2 fl2 (q ++ [Proc.runningProc st]) /\
    Proc.runningProc st2 = proc /\
    Proc.procId st2 = wrap32 (Proc.procId st + 1) /\
    Proc.get_pid st2 proc = Proc.procId st /\
    Proc.get_state st2 proc = Proc.READY /\
    Proc.get_stackAddr st2 proc = stack /\
    Proc.rsp st2 = stack + Proc.STACKSZ - 16 /\
    Mem.mem (Proc.heap st2) (stack + Proc.STACKSZ - 8) = start /\
    (forall a, In a (Proc.runningProc st :: q) ->
               cur_sp st2 a = cur_sp st a /\
               Proc.get_pid st2 a = Proc.get_pid st a /\
               Proc.get_state st2 a = Proc.get_state st a /\
               Proc.get_stackAddr st2 a = Proc.get_stackAddr st a) /\
    (forall a T, In (a, T, Mem.MAGIC_USED) bs -> In (a, T, Mem.MAGIC_USED) bs2).
Proof.
  intros HP Hr E1 Hp E2 Hs.
  destruct (procCreate_enqueue_PInvS fuel st bs fl q start proc stack h1 h2 HP E1 Hp E2 Hs)
    as (st1 & bs1 & bs2 & fl2 & Eq & HP1 & St1 & St2 & Hrun1 & Hrsp1 & Hid1 & Hpid1
        & Hst1 & Hsa1 & Hsp1 & Hstart & Hpay & Htop & Hkeep).
  assert (Hr1 : Proc.runningProc st1 <> NULL) by (rewrite Hrun1; exact Hr).
  destruct (sched_PInvS st1 bs2 fl2 proc q HP1 Hr1)
    as (st2 & Es & HP2 & Hrun2 & Hid2 & Hk2 & Hfr2).
  rewrite Hrun1 in HP2, Hk2, Hfr2.
  assert (Hrl : running_list st = [Proc.runningProc st]).
  { unfold running_list. destruct (Z.eqb_spec (Proc.runningProc st) NULL);
      [contradiction | reflexivity]. }
  assert (Hpin : In proc (Proc.runningProc st :: proc :: q)) by (simpl; auto).
  destruct (Hk2 proc Hpin) as (Cp & Pp & Sp & Ap).
  assert (Npr : proc <> Proc.runningProc st).
  { destruct HP1 as [[_ _ Hnd1 _ _] _ _]. unfold running_list in Hnd1.
    rewrite Hrun1 in Hnd1.
    destruct (Z.eqb_spec (Proc.runningProc st) NULL); [contradiction|].
    cbn [app] in Hnd1. apply NoDup_cons_iff in Hnd1. destruct Hnd1 as [Hn _].
    intros E. apply Hn. rewrite <- E. simpl. auto. }
  exists st2, bs2, fl2. split.
  { unfold Proc.procCreate. rewrite Eq. cbn [bind]. cbv beta iota.
    destruct (Z.eqb_spec proc NULL) as [? | _]; [contradiction|].
    rewrite Es. reflexivity. }
  split; [exact HP2|]. split; [exact Hrun2|]. split; [congruence|].
  split; [congruence|]. split; [congruence|]. split; [congruence|].
  split.
  { unfold cur_sp in Cp. rewrite Hrun2, Hrun1, Z.eqb_refl in Cp.
    destruct (Z.eqb_spec proc (Proc.runningProc st)) as [? | _]; [contradiction|].
    rewrite Cp. exact Hsp1. }
  split.
  { rewrite <- Hstart. apply Hfr2. intros a Ha. unfold Proc.SZ_PCB.
    apply Htop. rewrite Hrl. exact Ha. }
  split; [| exact Hkeep].
  intros a Ha.
  assert (Ha' : In a (Proc.runningProc st :: proc :: q)) by (simpl in *; tauto).
  destruct (Hk2 a Ha') as (C & P & S & A).
  assert (Hcells : forall k, 0 <= k < 56 ->
            Mem.mem (Proc.heap st1) (a + k) = Mem.mem (Proc.heap st) (a + k)).
  { intros k Hk. apply Hpay. apply (pcb_block_payload bs a).
    - destruct HP as [[_ _ _ Hpcb _] _ _]. apply Hpcb. rewrite Hrl. exact Ha.
    - unfold Proc.SZ_PCB. lia. }
  split_all.
  - rewrite C. unfold cur_sp. rewrite Hrun1, Hrsp1.
    unfold Proc.get_stackPtr, Proc.load, Proc.OFF_stackPtr. rewrite Hcells by lia.
    reflexivity.
  - rewrite P. unfold Proc.get_pid, Proc.load, Proc.OFF_pid. apply Hcells. lia.
  - rewrite S. unfold Proc.get_state, Proc.load, Proc.OFF_state. apply Hcells. lia.
  - rewrite A. unfold Proc.get_stackAddr, Proc.load, Proc.OFF_stackAddr. apply Hcells. lia.
Qed.


(** ** The properties, with the run of proctest.c as their instance *)

(** The state in which [main] of proctest.c has called [procInit] and
    [procCreate] once. *)
Lemma boot_PInvS :
  exists st bs fl,
    boot = Ok st /\ PInvS st bs fl [] /\
    Proc.runningProc st = 4112 /\ Proc.procId st = 1.
Proof.
  destruct (memInit_spec run_fuel (fun _ => 0) space SPACE_SIZE)
    as (h & E0 & R0 & Hm & He);
    [unfold space; lia | unfold SPACE_SIZE, INT_MAX; lia
     | unfold run_fuel, SPACE_SIZE; lia |].
  destruct (procInit_PInvS run_fuel (Proc.mkState h 0 0 0 0 rsp_main) _ _ R0)
    as (st & Ei & _ & _ & _ & Hrun).
  { cbn [Proc.heap]. unfold enough_fuel, run_fuel. rewrite Hm, He.
    replace (space + SPACE_SIZE - space) with SPACE_SIZE by lia. apply le_n. }
  assert (Eb : boot = Ok st).
  { unfold boot. rewrite E0. cbn [bind]. exact Ei. }
  assert (Er : Proc.runningProc st = 4112).
  { clear - Eb. vm_compute in Eb. injection Eb as <-. reflexivity. }
  destruct Hrun as [(Hn & _) | (bs & fl & HP & _ & _ & Hn & _ & _ & _ & _ & _ & Hid & _)];
    [rewrite Er in Hn; discriminate Hn|].
  exists st, bs, fl. auto.
Qed.

(** X10.  [procInit] on a heap that satisfies the allocator invariants.  If
    the PCB cannot be allocated it returns with no process running, the
    heap untouched and the PID counter 0.  Otherwise the invariants of the
    process manager hold with an empty ready queue; the caller is the
    running process, with PID 0, state READY, no stack block of its own
    and the stack pointer at entry saved; the PID counter is 1; the [next]
    of its PCB, which [procInit] never assigns, is null; and no byte of a
    payload that was in use has changed. *)
Theorem procInit_establishes_invariants
        (fuel : nat) (st : Proc.state) (bs : list blk) (fl : list Z) :
  Rep (Proc.heap st) bs fl -> (enough_fuel (Proc.heap st) <= fuel)%nat ->
  exists st',
    Proc.procInit fuel st = Ok st' /\
    Proc.readyQ st' = NULL /\ Proc.readyQEnd st' = NULL /\ Proc.rsp st' = Proc.rsp st /\
    ((Proc.runningProc st' = NULL /\ Proc.heap st' = Proc.heap st /\
      Proc.procId st' = 0 /\
      (Mem.freelist (Proc.heap st) = NULL \/
       Mem.get_size (Proc.heap st) (Mem.freelist (Proc.heap st)) < Proc.SZ_PCB)) \/
     (exists bs' fl',
        PInvS st' bs' fl' [] /\
        alloc_step Proc.SZ_PCB (Mem.freelist (Proc.heap st)) bs bs' /\
        Proc.runningProc st' = Mem.freelist (Proc.heap st) + 16 /\
        Proc.runningProc st' <> NULL /\
        Proc.get_pid st' (Proc.runningProc st') = 0 /\
        Proc.get_state st' (Proc.runningProc st') = Proc.READY /\
        Proc.get_stackAddr st' (Proc.runningProc st') = NULL /\
        Proc.get_stackPtr st' (Proc.runningProc st') = Proc.rsp st /\
        Proc.get_next st' (Proc.runningProc st') = NULL /\
        Proc.procId st' = 1 /\
        (forall x, in_used_payload bs x ->
                   Mem.mem (Proc.heap st') x = Mem.mem (Proc.heap st) x))).
Proof. exact (procInit_PInvS fuel st bs fl). Qed.

Lemma procInit_establishes_invariants_witness :
  exists h st,
    Mem.memInit 30 (fun _ => 0) 1000 706 = Ok h /\
    Proc.procInit 30 (Proc.mkState h 5 6 7 8 rsp_main) = Ok st /\
    Proc.readyQ st = NULL /\ Proc.rsp st = rsp_main.
Proof.
  destruct (memInit_spec 30 (fun _ => 0) 1000 706) as (h & E & R & Hm & He);
    [lia | unfold INT_MAX; lia | lia |].
  destruct (procInit_establishes_invariants 30 (Proc.mkState h 5 6 7 8 rsp_main) _ _ R)
    as (st & Ei & Hq & _ & Hrsp & _).
  { cbn [Proc.heap]. unfold enough_fuel. rewrite Hm, He. vm_compute. lia. }
  exists h, st. auto.
Defined.

(** X11.  [procCreate] when both allocations succeed, called by a running
    process in a state that satisfies the invariants: the call is suspended
    in the scheduler with the new process running; the PID counter at
    entry is the PID of the new PCB, so that the call returns it when the
    creator is resumed with that field as it is, and the counter is
    incremented (as an [int]); the invariants hold again, over a chain in
    which every block that was in use still is; the new process has state
    READY, its stack block recorded, the stack pointer 16 bytes below the
    top of the stack and the start address in the 8 bytes above it; the
    caller is the last of the ready queue; and every other process keeps
    its stack pointer, PID, state field and stack. *)
Theorem procCreate_keeps_invariants
        (fuel : nat) (st : Proc.state) (bs : list blk) (fl q : list Z)
        (start proc stack : Z) (h1 h2 : Mem.state) :
  PInvS st bs fl q -> Proc.runningProc st <> NULL ->
  Mem.memAlloc fuel (Proc.heap st) Proc.SZ_PCB = Ok (proc, h1) -> proc <> NULL ->
  Mem.memAlloc fuel h1 Proc.STACKSZ = Ok (stack, h2) -> stack <> NULL ->
  exists st2 bs2 fl2,
    Proc.procCreate fuel st start = Ok (Proc.Suspended proc, st2) /\
    (forall st', Proc.get_pid st' proc = Proc.get_pid st2 proc ->
                 Proc.procCreate_resume st' proc = Proc.procId st) /\
    PInvS st2 bs2 fl2 (q ++ [Proc.runningProc st]) /\
    Proc.runningProc st2 = proc /\
    Proc.procId st2 = wrap32 (Proc.procId st + 1) /\
    Proc.get_pid st2 proc = Proc.procId st /\
    Proc.get_state st2 proc = Proc.READY /\
    Proc.get_stackAddr st2 proc = stack /\
    Proc.rsp st2 = stack + Proc.STACKSZ - 16 /\
    Mem.mem (Proc.heap st2) (stack + Proc.STACKSZ - 8) = start /\
    (forall a, In a (Proc.runningProc st :: q) ->
               cur_sp st2 a = cur_sp st a /\
               Proc.get_pid st2 a = Proc.get_pid st a /\
               Proc.get_state st2 a = Proc.get_state st a /\
               Proc.get_stackAddr st2 a = Proc.get_stackAddr st a) /\
    (forall a T, In (a, T, Mem.MAGIC_USED) bs -> In (a, T, Mem.MAGIC_USED) bs2).
Proof.
  intros HP Hr E1 Hp E2 Hs.
  destruct (procCreate_PInvS fuel st bs fl q start proc stack h1 h2 HP Hr E1 Hp E2 Hs)
    as (st2 & bs2 & fl2 & Ec & HP2 & Hrun & Hid & Hpid & Hrest).
  exists st2, bs2, fl2. split; [exact Ec|]. split.
  { intros st' E. unfold Proc.procCreate_resume. rewrite E. exact Hpid. }
  split; [exact HP2|]. split; [exact Hrun|]. split; [exact Hid|].
  split; [exact Hpid | exact Hrest].
Qed.

(** The state in which [main] of proctest.c has created the first
    process. *)
Lemma created_PInvS :
  exists st0 st bs fl,
    boot = Ok st0 /\
    Proc.procCreate run_fuel st0 11 = Ok (Proc.Suspended 4184, st) /\
    PInvS st bs fl [4112] /\ Proc.runningProc st = 4184 /\
    Proc.rsp st = 4256 + Proc.STACKSZ - 16.
Proof.
  destruct boot_PInvS as (st0 & bs & fl & Eb & HP & Er & Hid).
  assert (Hr : Proc.runningProc st0 <> NULL) by (rewrite Er; discriminate).
  assert (Ea : exists h1 h2,
             Mem.memAlloc run_fuel (Proc.heap st0) Proc.SZ_PCB = Ok (4184, h1) /\
             Mem.memAlloc run_fuel h1 Proc.STACKSZ = Ok (4256, h2)).
  { clear - Eb. vm_compute in Eb. injection Eb as <-.
    do 2 eexists. split; [vm_compute; reflexivity | vm_compute; reflexivity]. }
  destruct Ea as (h1 & h2 & E1 & E2).
  destruct (procCreate_PInvS run_fuel st0 bs fl [] 11 4184 4256 h1 h2 HP Hr E1
              ltac:(discriminate) E2 ltac:(discriminate))
    as (st & bs2 & fl2 & Ec & HP2 & Hrun & _ & _ & _ & _ & Hrsp & _).
  rewrite Er in HP2.
  exists st0, st, bs2, fl2. auto.
Qed.

(** The allocations of a second [procCreate], by the process created
    first. *)
Lemma created_allocs (st0 st : Proc.state) :
  boot = Ok st0 ->
  Proc.procCreate run_fuel st0 11 = Ok (Proc.Suspended 4184, st) ->
  exists h1 h2,
    Mem.memAlloc run_fuel (Proc.heap st) Proc.SZ_PCB = Ok (135344, h1) /\
    Mem.memAlloc run_fuel h1 Proc.STACKSZ = Ok (135416, h2) /\
    Proc.procId st = 2.
Proof.
  intros Eb Ec. vm_compute in Eb. injection Eb as <-.
  vm_compute in Ec. injection Ec as <-.
  do 2 eexists. split; [vm_compute; reflexivity|].
  split; [vm_compute; reflexivity | reflexivity].
Qed.

Lemma procCreate_keeps_invariants_witness :
  exists st0 st st2,
    boot = Ok st0 /\
    Proc.procCreate run_fuel st0 11 = Ok (Proc.Suspended 4184, st) /\
    Proc.procCreate run_fuel st 22 = Ok (Proc.Suspended 135344, st2) /\
    Proc.runningProc st2 = 135344 /\
    Proc.get_pid st2 135344 = 2 /\
    Proc.procId st2 = wrap32 (Proc.procId st + 1).
Proof.
  destruct created_PInvS as (st0 & st & bs & fl & Eb & Ec & HP & Hrun & _).
  destruct (created_allocs st0 st Eb Ec) as (h1 & h2 & E1 & E2 & Hid).
  destruct (procCreate_keeps_invariants run_fuel st bs fl [4112] 22 135344 135416 h1 h2
              HP ltac:(rewrite Hrun; discriminate) E1 ltac:(discriminate)
              E2 ltac:(discriminate))
    as (st2 & bs2 & fl2 & Ec2 & _ & _ & Hrun2 & Hid2 & Hpid2 & _).
  exists st0, st, st2. rewrite Hid in Hpid2. auto 10.
Defined.

Lemma C5_witness :
  exists st0 st st2,
    boot = Ok st0 /\
    Proc.procCreate run_fuel st0 11 = Ok (Proc.Suspended 4184, st) /\
    queue_ok st [4112] /\ Proc.runningProc st = 4184 /\
    Proc.procCreate run_fuel st 22 = Ok (Proc.Suspended 135344, st2) /\
    Proc.runningProc st2 = 135344 /\
    queue_ok st2 [4112; 4184] /\
    Proc.readyQEnd st2 = 4184.
Proof.
  destruct created_PInvS as (st0 & st & bs & fl & Eb & Ec & HP & Hrun & _).
  destruct (created_allocs st0 st Eb Ec) as (h1 & h2 & E1 & E2 & _).
  destruct (C5_procCreate_runs_new_process run_fuel st bs fl [4112] 22 135344 135416 h1 h2
              (pinvs_inv _ _ _ _ HP) ltac:(rewrite Hrun; discriminate)
              E1 ltac:(discriminate) E2 ltac:(discriminate))
    as (st1 & st2 & _ & _ & _ & _ & _ & Hc & Hr2 & Hq2 & He2 & _).
  rewrite Hrun in Hq2, He2.
  exists st0, st, st2. split; [exact Eb|]. split; [exact Ec|].
  split; [exact (pinv_queue _ _ _ _ (pinvs_inv _ _ _ _ HP))|].
  split; [exact Hrun|]. split; [exact Hc|]. split; [exact Hr2|].
  split; [exact Hq2 | exact He2].
Defined.

Lemma procYield_rotates_witness :
  exists st st',
    Proc.procYield st = Ok st' /\
    Proc.runningProc st = 4184 /\ Proc.runningProc st' = 4112.
Proof.
  destruct created_PInvS as (st0 & st & bs & fl & _ & _ & HP & Hrun & _).
  destruct (procYield_rotates st bs fl [4112] HP ltac:(rewrite Hrun; discriminate))
    as (st' & q' & E & Hring & _).
  exists st, st'. rewrite Hrun in Hring. simpl in Hring. injection Hring as Hr' _.
  auto.
Defined.

(** The invariants depend on the heap and on the three pointers only. *)
Lemma PInvS_ext (st st' : Proc.state) (bs : list blk) (fl q : list Z) :
  PInvS st bs fl q ->
  Proc.heap st' = Proc.heap st -> Proc.readyQ st' = Proc.readyQ st ->
  Proc.readyQEnd st' = Proc.readyQEnd st ->
  Proc.runningProc st' = Proc.runningProc st ->
  PInvS st' bs fl q.
Proof.
  destruct st as [h i r e u s], st' as [h' i' r' e' u' s']. cbn.
  intros [[R Hq Hnd Hpcb Hnext] Hstk Hap] -> -> -> ->.
  constructor; [constructor|..]; assumption.
Qed.

Lemma cur_sp_other (st st' : Proc.state) (a : Z) :
  a <> Proc.runningProc st -> Proc.runningProc st' = Proc.runningProc st ->
  Proc.get_stackPtr st' a = Proc.get_stackPtr st a ->
  cur_sp st' a = cur_sp st a.
Proof.
  intros Na Er Es. unfold cur_sp. rewrite Er.
  destruct (Z.eqb_spec a (Proc.runningProc st)); [contradiction | exact Es].
Qed.

(** Calls of [procYield], at most one by each process of the ring: the
    ring is rotated once per call, each caller's stack pointer is the one
    it had at its call, the other processes keep theirs. *)
Lemma yields_ring (bs : list blk) (fl : list Z) (sps : list Z) :
  forall (st : Proc.state) (q : list Z),
    PInvS st bs fl q -> Proc.runningProc st <> NULL ->
    (length sps <= S (length q))%nat ->
    exists st' q',
      yields sps st = Ok st' /\
      Proc.runningProc st' :: q' =
        Nat.iter (length sps) rot1 (Proc.runningProc st :: q) /\
      PInvS st' bs fl q' /\
      Proc.runningProc st' <> NULL /\
      Proc.procId st' = Proc.procId st /\
      (forall a, In a (Proc.runningProc st :: q) ->
                 Proc.get_pid st' a = Proc.get_pid st a /\
                 Proc.get_stackAddr st' a = Proc.get_stackAddr st a) /\
      map (cur_sp st') (firstn (length sps) (Proc.runningProc st :: q)) = sps /\
      (forall a, In a (skipn (length sps) (Proc.runningProc st :: q)) ->
                 cur_sp st' a = cur_sp st a).
Proof.
  induction sps as [| s ss IH]; intros st q HP Hr Hlen.
  - exists st, q. simpl. split_all; auto.
  - set (r := Proc.runningProc st) in *.
    set (st0 := Proc.set_rsp st s).
    assert (HP0 : PInvS st0 bs fl q) by (apply (PInvS_ext st); auto).
    assert (Hnd : NoDup (r :: q)).
    { destruct HP as [[_ _ Hnd _ _] _ _]. unfold running_list in Hnd. fold r in Hnd.
      destruct (Z.eqb_spec r NULL); [contradiction | exact Hnd]. }
    destruct (procYield_keeps_aux st0 bs fl q HP0 Hr)
      as (st1 & q1 & E1 & Hring1 & HP1 & Hr1 & Hid1 & Hk1 & _).
    change (Proc.runningProc st0) with r in Hring1, Hk1.
    change (Proc.procId st0) with (Proc.procId st) in Hid1.
    assert (Hsr : cur_sp st1 r = s).
    { rewrite (proj1 (Hk1 r (or_introl eq_refl))). unfold cur_sp, st0.
      cbn [Proc.runningProc Proc.set_rsp Proc.rsp]. fold r. rewrite Z.eqb_refl. reflexivity. }
    assert (Hsq : forall a, In a q -> cur_sp st1 a = cur_sp st a).
    { intros a Ha. rewrite (proj1 (Hk1 a (or_intror Ha))).
      apply cur_sp_other; [| reflexivity | reflexivity].
      intros ->. apply NoDup_cons_iff in Hnd. tauto. }
    assert (Hlen1 : (length ss <= length q)%nat) by (simpl in Hlen; lia).
    destruct q as [| a1 t].
    + destruct ss as [| ? ?]; [| simpl in Hlen1; lia].
      cbn [rot1 app] in Hring1. injection Hring1 as Hrun1 ->.
      exists st1, []. cbn [yields]. fold st0. rewrite E1. cbn [bind length Nat.iter].
      split; [reflexivity|]. split; [cbn; rewrite Hrun1; reflexivity|].
      split; [exact HP1|]. split; [exact Hr1|]. split; [exact Hid1|]. split.
      { intros a Ha. destruct (Hk1 a Ha) as (_ & P & _ & A). auto. }
      split; [cbn; rewrite Hsr; reflexivity | intros a []].
    + cbn [rot1] in Hring1. injection Hring1 as Hrun1 ->.
      destruct (IH st1 (t ++ [r]) HP1 Hr1) as
          (st' & q' & E2 & Hring2 & HP2 & Hr2 & Hid2 & Hk2 & Hm2 & Hs2).
      { rewrite length_app. simpl in *. lia. }
      rewrite Hrun1 in Hring2, Hk2, Hm2, Hs2.
      change (a1 :: t ++ [r]) with ((a1 :: t) ++ [r]) in Hring2, Hk2, Hm2, Hs2.
      rewrite firstn_app in Hm2. rewrite skipn_app in Hs2.
      replace (length ss - length (a1 :: t))%nat with 0%nat in Hm2, Hs2 by lia.
      cbn [firstn skipn] in Hm2, Hs2. rewrite app_nil_r in Hm2.
      exists st', q'. cbn [yields]. fold st0. rewrite E1. cbn [bind].
      split; [exact E2|]. split.
      { rewrite Hring2. cbn [length]. rewrite Nat.iter_succ_r. reflexivity. }
      split; [exact HP2|]. split; [exact Hr2|]. split; [congruence|]. split.
      { intros a Ha.
        assert (Ha1 : In a ((a1 :: t) ++ [r])).
        { apply in_or_app. simpl in *. tauto. }
        destruct (Hk1 a Ha) as (_ & P1 & _ & A1). destruct (Hk2 a Ha1) as (P2 & A2).
        split; [rewrite P2, P1 | rewrite A2, A1]; reflexivity. }
      split.
      { cbn [length firstn map]. rewrite Hm2. f_equal.
        rewrite (Hs2 r) by (apply in_or_app; simpl; auto). exact Hsr. }
      intros a Ha. cbn [length skipn] in Ha.
      rewrite (Hs2 a) by (apply in_or_app; left; exact Ha).
      apply Hsq. rewrite <- (firstn_skipn (length ss) (a1 :: t)).
      apply in_or_app. right. exact Ha.
Qed.

(** X12.  Round robin, in a state that satisfies the invariants, with a
    process running and [n] processes in the ready queue: [n + 1] calls of
    [procYield], each by the process that runs then and at the stack
    pointer it has reached, give every process one turn and end with the
    first caller running again, the same ready queue in the same order,
    the invariants, the PID counter, and the PID and the stack of every
    process as they were.  The machine stack pointer is then the one the
    first caller had at its call, and the saved stack pointer of every
    queued process is the one it had at its own call. *)
Theorem procYield_round_robin
        (st : Proc.state) (bs : list blk) (fl q : list Z) (sp : Z) (sps : list Z) :
  PInvS st bs fl q -> Proc.runningProc st <> NULL ->
  length sps = length q ->
  exists st',
    yields (sp :: sps) st = Ok st' /\
    PInvS st' bs fl q /\
    Proc.runningProc st' = Proc.runningProc st /\
    Proc.rsp st' = sp /\
    map (Proc.get_stackPtr st') q = sps /\
    Proc.procId st' = Proc.procId st /\
    (forall a, In a (Proc.runningProc st :: q) ->
               Proc.get_pid st' a = Proc.get_pid st a /\
               Proc.get_stackAddr st' a = Proc.get_stackAddr st a).
Proof.
  intros HP Hr Hlen.
  destruct (yields_ring bs fl (sp :: sps) st q HP Hr ltac:(simpl; lia))
    as (st' & q' & E & Hring & HP' & Hr' & Hid & Hk & Hm & _).
  assert (El : length (sp :: sps) = length (Proc.runningProc st :: q))
    by (simpl; lia).
  rewrite El in Hring, Hm.
  rewrite iter_rot1_full in Hring. injection Hring as Hrun ->.
  rewrite firstn_all in Hm. cbn [map] in Hm. injection Hm as Hsp Hq.
  assert (Hnd : NoDup (Proc.runningProc st :: q)).
  { destruct HP as [[_ _ Hnd _ _] _ _]. unfold running_list in Hnd.
    destruct (Z.eqb_spec (Proc.runningProc st) NULL); [contradiction | exact Hnd]. }
  exists st'. split; [exact E|]. split; [exact HP'|]. split; [exact Hrun|].
  split.
  { unfold cur_sp in Hsp. rewrite Hrun, Z.eqb_refl in Hsp. exact Hsp. }
  split; [| split; [exact Hid | exact Hk]].
  rewrite <- Hq. apply map_ext_in. intros a Ha. unfold cur_sp. rewrite Hrun.
  destruct (Z.eqb_spec a (Proc.runningProc st)) as [-> | _]; [| reflexivity].
  apply NoDup_cons_iff in Hnd. tauto.
Qed.

Lemma procYield_round_robin_witness :
  exists st st',
    yields [5000; 6000] st = Ok st' /\
    Proc.runningProc st = 4184 /\ Proc.runningProc st' = 4184 /\
    Proc.rsp st' = 5000 /\ Proc.get_stackPtr st' 4112 = 6000.
Proof.
  destruct created_PInvS as (st0 & st & bs & fl & _ & _ & HP & Hrun & _).
  destruct (procYield_round_robin st bs fl [4112] 5000 [6000] HP
              ltac:(rewrite Hrun; discriminate) eq_refl)
    as (st' & E & _ & Hr' & Hrsp & Hq & _).
  exists st, st'. rewrite Hrun in Hr'. cbn [map] in Hq. injection Hq as Hq.
  auto.
Defined.

(** X13.  [procCreate] when the PCB cannot be allocated (the free list is
    empty or its head, the largest free block, is smaller than a PCB):
    it returns -1 and the state is the state at entry, whatever it is. *)
Theorem procCreate_pcb_alloc_failure (fuel : nat) (st : Proc.state) (start : Z) :
  Mem.freelist (Proc.heap st) = NULL \/
  Mem.get_size (Proc.heap st) (Mem.freelist (Proc.heap st)) < Proc.SZ_PCB ->
  Proc.procCreate fuel st start = Ok (Proc.Returned (-1), st).
Proof.
  intros H. unfold Proc.procCreate, Proc.procCreate_enqueue.
  rewrite (memAlloc_fail fuel (Proc.heap st) Proc.SZ_PCB H). cbn [bind].
  cbv beta iota zeta. rewrite Z.eqb_refl. cbn [bind]. rewrite Z.eqb_refl.
  destruct st. reflexivity.
Qed.

Lemma procCreate_pcb_alloc_failure_witness :
  exists h,
    Mem.memInit 30 (fun _ => 0) 1000 60 = Ok h /\
    Proc.procCreate 30 (Proc.mkState h 0 0 0 0 rsp_main) 11 =
      Ok (Proc.Returned (-1), Proc.mkState h 0 0 0 0 rsp_main).
Proof.
  eexists. split; [vm_compute; reflexivity|].
  apply procCreate_pcb_alloc_failure. right. vm_compute. reflexivity.
Defined.


(** ** procDelete *)

Lemma last_app_cons {A : Type} (l1 l2 : list A) (x d : A) :
  last (l1 ++ x :: l2) d = last (x :: l2) d.
Proof.
  induction l1 as [| a r IH]; [reflexivity|].
  change ((a :: r) ++ x :: l2) with (a :: (r ++ x :: l2)).
  destruct (r ++ x :: l2) eqn:E; [destruct r; discriminate|].
  rewrite <- IH. reflexivity.
Qed.

Lemma NoDup_app_disj {A : Type} (l1 l2 : list A) (x : A) :
  NoDup (l1 ++ l2) -> In x l1 -> In x l2 -> False.
Proof.
  induction l1 as [| a r IH]; simpl; [tauto|].
  intros H [<- | H1] H2; apply NoDup_cons_iff in H.
  - apply (proj1 H). apply in_or_app. auto.
  - apply IH; tauto.
Qed.

Lemma NoDup_flat_map_remove {A B : Type} (f : A -> list B) (l1 l2 : list A) (x : A) :
  NoDup (flat_map f (l1 ++ x :: l2)) ->
  NoDup (flat_map f (l1 ++ l2)) /\ NoDup (f x) /\
  forall o, In o (f x) -> ~ In o (flat_map f (l1 ++ l2)).
Proof.
  rewrite !flat_map_app. simpl.
  induction (f x) as [| b r IH]; simpl.
  - intros H. split; [exact H|]. split; [constructor | intros o []].
  - intros H. apply NoDup_remove in H. destruct H as [H Hb].
    destruct (IH H) as (H1 & H2 & H3).
    split; [exact H1|]. split.
    + constructor; [| exact H2]. intros Hr. apply Hb.
      apply in_or_app. right. apply in_or_app. left. exact Hr.
    + intros o [<- | Ho]; [| apply H3; exact Ho].
      intros Hin. apply Hb. apply in_app_or in Hin.
      apply in_or_app. destruct Hin as [Hin | Hin]; [left; exact Hin|].
      right. apply in_or_app. right. exact Hin.
Qed.

(** Replacing the [next] of the last PCB of a piece of the queue. *)
Lemma qseg_relink (mm mm' : memory) (l : list Z) (p e r : Z) :
  l <> [] -> NoDup l ->
  qseg mm p l e ->
  mm' (last l NULL + Proc.OFF_next) = r ->
  (forall a, In a l -> a <> last l NULL ->
             mm' (a + Proc.OFF_next) = mm (a + Proc.OFF_next)) ->
  qseg mm' p l r.
Proof.
  intros Hne Hnd Hq Hlast Hfr.
  destruct (exists_last Hne) as (l' & z & ->). rewrite last_last in *.
  apply qseg_app in Hq. destruct Hq as (x & H1 & H2).
  simpl in H2. destruct H2 as (-> & N & _).
  apply qseg_app. exists z. split.
  - eapply qseg_frame; [| exact H1]. intros a Ha. apply Hfr.
    + apply in_or_app. auto.
    + intros ->. apply NoDup_remove_2 in Hnd. apply Hnd. rewrite app_nil_r. exact Ha.
  - simpl. split_all; auto.
Qed.

(** The search loop of [procDelete] on a queue that holds the PID: it
    stops at the first PCB with the PID, with the PCB before it. *)
Lemma procDelete_find_some (st : Proc.state) (pid p : Z) (post : list Z) :
  forall (pre : list Z) (fuel : nat) (proc prev : Z),
    qseg (Mem.mem (Proc.heap st)) proc (pre ++ p :: post) NULL ->
    (forall a, In a pre -> Proc.get_pid st a <> pid) ->
    Proc.get_pid st p = pid ->
    (length pre < fuel)%nat ->
    Proc.procDelete_find fuel st pid proc prev = Ok (p, last pre prev).
Proof.
  induction pre as [| a r IH]; intros fuel proc prev Hq Hp Hpid Hf;
    (destruct fuel as [| n]; [simpl in Hf; lia|]);
    cbn [Proc.procDelete_find qseg app length] in *.
  - destruct Hq as (-> & Np & _).
    destruct (Z.eqb_spec p NULL); [contradiction|].
    rewrite Hpid, Z.eqb_refl. reflexivity.
  - destruct Hq as (-> & Na & Hq).
    destruct (Z.eqb_spec a NULL); [contradiction|].
    destruct (Z.eqb_spec (Proc.get_pid st a) pid) as [E | _];
      [exfalso; eapply Hp; eauto; left; reflexivity|].
    rewrite last_cons. apply IH; auto.
    + intros b Hb. apply Hp. right. exact Hb.
    + lia.
Qed.


(** Freeing a block that no process holds keeps the invariants of the
    process manager, and every byte of every PCB. *)
Lemma memFree_PInvS (fuel : nat) (st : Proc.state) (bs : list blk) (fl q : list Z) (o : Z) :
  PInvS st bs fl q ->
  o = NULL \/
  ((exists T, In (o - 16, T, Mem.MAGIC_USED) bs) /\
   ~ In o (flat_map (owned st) (running_list st ++ q))) ->
  (enough_fuel (Proc.heap st) <= fuel)%nat ->
  exists h bs' fl',
    Mem.memFree fuel (Proc.heap st) o = Ok h /\
    PInvS (Proc.set_heap st h) bs' fl' q /\
    (forall a T, In (a, T, Mem.MAGIC_USED) bs' <->
                 In (a, T, Mem.MAGIC_USED) bs /\ a <> o - 16) /\
    (forall x, in_used_payload bs' x -> Mem.mem h x = Mem.mem (Proc.heap st) x) /\
    enough_fuel h = enough_fuel (Proc.heap st).
Proof.
  intros HP Ho Hfuel.
  pose proof HP as [[R Hq Hnd Hpcb Hnext] Hstk Hap].
  destruct Ho as [-> | ((T & HT) & Hno)].
  - exists (Proc.heap st), bs, fl. split; [reflexivity|].
    split; [apply (PInvS_ext st); auto|].
    split; [| auto].
    intros a T. split; [| tauto]. intros H. split; [exact H|].
    pose proof (Rep_block_bounds _ _ _ _ R H) as Hb.
    unfold b_addr, NULL in *. simpl in Hb. lia.
  - destruct (memFree_spec fuel (Proc.heap st) bs fl (o - 16) T R HT
                (Rep_enough _ _ _ _ R Hfuel))
      as (h & bs' & fl' & E & R' & Hstep & Hfr & Hm & He).
    replace (o - 16 + 16) with o in E by lia.
    assert (Hown : forall a, In a (running_list st ++ q) ->
                     a <> o /\ Proc.get_stackAddr st a <> o \/
                     a <> o /\ Proc.get_stackAddr st a = NULL).
    { intros a Ha.
      assert (Hi : forall x, In x (owned st a) -> x <> o).
      { intros x Hx ->. apply Hno. apply in_flat_map. exists a. auto. }
      unfold owned in Hi.
      destruct (Z.eqb_spec (Proc.get_stackAddr st a) NULL) as [E0 | N0].
      - right. split; [apply Hi; simpl; auto | exact E0].
      - left. split; apply Hi; simpl; auto. }
    assert (Hpcb' : forall a, In a (running_list st ++ q) -> pcb_block bs' a).
    { intros a Ha. destruct (Hpcb a Ha) as (S & HS & HS').
      exists S. split; [| exact HS'].
      apply (free_step_keeps _ _ _ _ _ Hstep); [| exact HS].
      destruct (Hown a Ha) as [[N _] | [N _]]; lia. }
    assert (Hcell : forall a k, In a (running_list st ++ q) -> 0 <= k < Proc.SZ_PCB ->
                      Mem.mem h (a + k) = Mem.mem (Proc.heap st) (a + k)).
    { intros a k Ha Hk. apply Hfr. apply (pcb_block_payload bs' a); [auto | lia]. }
    exists h, bs', fl'. split; [exact E|]. split; [| split; [| split]].
    + constructor; [constructor|..].
      * exact R'.
      * destruct Hq as [Hq1 Hq2]. split; [| exact Hq2].
        eapply qseg_frame; [| exact Hq1].
        intros a Ha. apply (Hcell a Proc.OFF_next); [apply in_or_app; auto|].
        unfold Proc.OFF_next, Proc.SZ_PCB. lia.
      * exact Hnd.
      * exact Hpcb'.
      * intros Hr. change (Proc.runningProc (Proc.set_heap st h)) with (Proc.runningProc st).
        unfold Proc.get_next, Proc.load. cbn [Proc.heap Proc.set_heap].
        rewrite Hcell; [exact (Hnext Hr) | | unfold Proc.OFF_next, Proc.SZ_PCB; lia].
        unfold running_list. destruct (Z.eqb_spec (Proc.runningProc st) NULL);
          [contradiction | simpl; auto].
      * intros a Ha. change (running_list (Proc.set_heap st h)) with (running_list st) in Ha.
        assert (Es : Proc.get_stackAddr (Proc.set_heap st h) a = Proc.get_stackAddr st a).
        { unfold Proc.get_stackAddr, Proc.load. cbn [Proc.heap Proc.set_heap].
          apply Hcell; [exact Ha | unfold Proc.OFF_stackAddr, Proc.SZ_PCB; lia]. }
        rewrite Es. destruct (Hstk a Ha) as [H0 | (T' & HT' & HT'')]; [left; exact H0|].
        destruct (Hown a Ha) as [[_ N] | [_ N]]; [| left; exact N].
        right. exists T'. split; [| exact HT''].
        apply (free_step_keeps _ _ _ _ _ Hstep); [lia | exact HT'].
      * change (running_list (Proc.set_heap st h)) with (running_list st).
        rewrite (flat_map_ext_in (owned (Proc.set_heap st h)) (owned st)); [exact Hap|].
        intros a Ha. apply owned_frame.
        unfold Proc.get_stackAddr, Proc.load. cbn [Proc.heap Proc.set_heap].
        apply Hcell; [exact Ha | unfold Proc.OFF_stackAddr, Proc.SZ_PCB; lia].
    + intros a T'. split.
      * intros H. split; [exact (free_step_back _ _ _ _ _ Hstep H)|].
        pose proof (free_step_used _ _ _ Hstep (layout_nodup _ _ _ (rep_layout _ _ _ R)) a)
          as [Hu _].
        destruct (Hu (ex_intro _ T' H)) as [N _]. exact N.
      * intros [H N]. exact (free_step_keeps _ _ _ _ _ Hstep N H).
    + exact Hfr.
    + unfold enough_fuel. rewrite Hm, He. reflexivity.
Qed.


(** Taking the PCB [p] out of the ready queue [pre ++ p :: post]: what the
    three branches of [procDelete] have in common.  [U] is the state after
    the branch. *)
Lemma unlink_PInvS (st U : Proc.state) (bs : list blk) (fl pre post : list Z) (p : Z) :
  PInvS st bs fl (pre ++ p :: post) -> Proc.runningProc st <> NULL ->
  Proc.runningProc U = Proc.runningProc st ->
  Proc.readyQEnd U = last (pre ++ post) NULL ->
  match pre with
  | [] => Proc.heap U = Proc.heap st /\ Proc.readyQ U = Proc.get_next st p
  | _ :: _ =>
      Proc.heap U = Mem.store (Proc.heap st) (last pre NULL + Proc.OFF_next)
                              (Proc.get_next st p) /\
      Proc.readyQ U = Proc.readyQ st
  end ->
  PInvS U bs fl (pre ++ post) /\
  (forall a k, In a (Proc.runningProc st :: pre ++ p :: post) ->
               0 < k < Proc.SZ_PCB ->
               Mem.mem (Proc.heap U) (a + k) = Mem.mem (Proc.heap st) (a + k)) /\
  enough_fuel (Proc.heap U) = enough_fuel (Proc.heap st).
Proof.
  intros [[R Hq Hnd Hpcb Hnext] Hstk Hap] Hr Hrun Hend HU.
  set (r := Proc.runningProc st) in *.
  assert (Hrl : running_list st = [r]).
  { unfold running_list. fold r. destruct (Z.eqb_spec r NULL); [contradiction | reflexivity]. }
  assert (HrlU : running_list U = [r]).
  { unfold running_list. rewrite Hrun. destruct (Z.eqb_spec r NULL); [contradiction | reflexivity]. }
  rewrite Hrl in *.
  change ([r] ++ pre ++ p :: post) with ((r :: pre) ++ p :: post) in *.
  pose proof (pcb_blocks_psep _ _ _ _ (rep_layout _ _ _ R) Hpcb) as Hsep.
  destruct Hq as [Hq He].
  apply qseg_app in Hq. destruct Hq as (x & Hq1 & Hq2).
  cbn [qseg] in Hq2. destruct Hq2 as (-> & Np & Hq2).
  destruct (NoDup_flat_map_remove _ _ _ _ Hap) as (Hap' & _ & _).
  assert (Hsub : forall a, In a ((r :: pre) ++ post) -> In a ((r :: pre) ++ p :: post)).
  { intros a Ha. apply in_app_or in Ha. apply in_or_app. simpl. tauto. }
  assert (Hnr : ~ In r (pre ++ p :: post)).
  { change ((r :: pre) ++ p :: post) with (r :: (pre ++ p :: post)) in Hnd.
    apply NoDup_cons_iff in Hnd. tauto. }
  assert (HndQ : NoDup (pre ++ p :: post)).
  { change ((r :: pre) ++ p :: post) with (r :: (pre ++ p :: post)) in Hnd.
    apply NoDup_cons_iff in Hnd. tauto. }
  (* the store of [U] differs at most in the [next] of a queued PCB *)
  assert (Hmem : exists c, In c ((r :: pre) ++ p :: post) /\ c <> r /\
                   (forall b, In b post -> b <> c) /\
                   (pre <> [] -> c = last pre NULL /\
                      Mem.mem (Proc.heap U) (c + Proc.OFF_next) = Proc.get_next st p) /\
                   Mem.mcb (Proc.heap U) = Mem.mcb (Proc.heap st) /\
                   Mem.endMem (Proc.heap U) = Mem.endMem (Proc.heap st) /\
                   Mem.freelist (Proc.heap U) = Mem.freelist (Proc.heap st) /\
                   forall y, y <> c + Proc.OFF_next ->
                             Mem.mem (Proc.heap U) y = Mem.mem (Proc.heap st) y).
  { destruct pre as [| a0 pre'].
    - destruct HU as [-> _]. exists p. split; [simpl; auto|]. split.
      + intros ->. apply Hnr. simpl. auto.
      + split; [| split; [intros E; contradiction | auto]].
        intros b Hb ->. simpl in HndQ. apply NoDup_cons_iff in HndQ. tauto.
    - destruct HU as [-> _].
      assert (Hin : In (last (a0 :: pre') NULL) (a0 :: pre')) by (apply last_in; discriminate).
      exists (last (a0 :: pre') NULL). split; [apply in_or_app; left; right; exact Hin|].
      split.
      + intros E. apply Hnr. apply in_or_app. left. rewrite <- E. exact Hin.
      + split.
        * intros b Hb E. apply NoDup_remove_1 in HndQ.
          rewrite E in Hb. exact (NoDup_app_disj _ _ _ HndQ Hin Hb).
        * split; [intros _; split; [reflexivity|]; cbn; apply upd_same|].
          split; [reflexivity|]. split; [reflexivity|]. split; [reflexivity|].
          intros y Hy. cbn. apply upd_other. exact Hy. }
  destruct Hmem as (c & Hc & Ncr & Hcpost & Hcpre & Hm & Hen & Hfl & Hfr).
  assert (Hcell : forall a k, In a ((r :: pre) ++ p :: post) -> 0 < k < Proc.SZ_PCB ->
                    Mem.mem (Proc.heap U) (a + k) = Mem.mem (Proc.heap st) (a + k)).
  { intros a k Ha Hk. apply Hfr. unfold Proc.OFF_next.
    destruct (Hsep a c Ha Hc) as [<- | D]; lia. }
  assert (Hsa : forall a, In a ((r :: pre) ++ p :: post) ->
                  Proc.get_stackAddr U a = Proc.get_stackAddr st a).
  { intros a Ha. unfold Proc.get_stackAddr, Proc.load.
    apply Hcell; [exact Ha | unfold Proc.OFF_stackAddr, Proc.SZ_PCB; lia]. }
  split; [| split; [exact Hcell | unfold enough_fuel; rewrite Hm, Hen; reflexivity]].
  constructor; [constructor|..]; rewrite ?HrlU;
    change ([r] ++ pre ++ post) with ((r :: pre) ++ post).
  - apply (Rep_frame_payload (Proc.heap st) _ bs fl R Hm Hen Hfl).
    intros y Hy. apply Hfr. intros ->. apply Hy.
    apply (pcb_block_payload bs c); [apply Hpcb; exact Hc|].
    unfold Proc.OFF_next, Proc.SZ_PCB. lia.
  - split; [| exact Hend].
    assert (Hpost : qseg (Mem.mem (Proc.heap U)) (Proc.get_next st p) post NULL).
    { eapply qseg_frame; [| exact Hq2]. intros b Hb. apply Hfr.
      intros E. apply (Hcpost b Hb). lia. }
    destruct pre as [| a0 pre'].
    + destruct HU as [_ ->]. exact Hpost.
    + destruct HU as [_ ->]. destruct (Hcpre ltac:(discriminate)) as (Ec & Hnx).
      apply qseg_app. exists (Proc.get_next st p). split; [| exact Hpost].
      apply (qseg_relink (Mem.mem (Proc.heap st)) _ _ _ p); [discriminate | | exact Hq1 | |].
      * apply NoDup_app_remove_r in HndQ. exact HndQ.
      * rewrite <- Ec. exact Hnx.
      * intros a Ha Na. apply Hfr. rewrite <- Ec in Na. unfold Proc.OFF_next. lia.
  - apply NoDup_remove_1 in Hnd. exact Hnd.
  - intros a Ha. apply Hpcb. apply Hsub. exact Ha.
  - intros _. rewrite Hrun. fold r. unfold Proc.get_next, Proc.load.
    rewrite Hfr; [exact (Hnext Hr)|]. unfold Proc.OFF_next. lia.
  - intros a Ha. rewrite (Hsa a (Hsub a Ha)). apply Hstk. apply Hsub. exact Ha.
  - rewrite (flat_map_ext_in (owned U) (owned st)); [exact Hap'|].
    intros a Ha. apply owned_frame. apply Hsa. apply Hsub. exact Ha.
Qed.


(** [procDelete] of a queued process, up to its call of the scheduler. *)
Lemma procDelete_unlink_queued (fuel : nat) (st : Proc.state) (bs : list blk)
      (fl pre post : list Z) (p : Z) :
  PInvS st bs fl (pre ++ p :: post) -> Proc.runningProc st <> NULL ->
  (forall a, In a pre -> Proc.get_pid st a <> Proc.get_pid st p) ->
  (enough_fuel (Proc.heap st) <= fuel)%nat -> (length pre < fuel)%nat ->
  exists U bs' fl',
    Proc.procDelete_unlink fuel st (Proc.get_pid st p) = Ok U /\
    PInvS U bs' fl' (pre ++ post) /\
    Proc.runningProc U = Proc.runningProc st /\
    Proc.rsp U = Proc.rsp st /\ Proc.procId U = Proc.procId st /\
    (forall a k, In a (Proc.runningProc st :: pre ++ post) -> 0 < k < Proc.SZ_PCB ->
                 Mem.mem (Proc.heap U) (a + k) = Mem.mem (Proc.heap st) (a + k)) /\
    (forall a T, In (a, T, Mem.MAGIC_USED) bs' <->
                 In (a, T, Mem.MAGIC_USED) bs /\ a <> p - 16 /\
                 a <> Proc.get_stackAddr st p - 16).
Proof.
  intros HP Hr Hpid Hfuel Hlen.
  pose proof HP as [[R [Hq He] Hnd Hpcb Hnext] Hstk Hap].
  set (r := Proc.runningProc st) in *.
  assert (Hrl : running_list st = [r]).
  { unfold running_list. fold r. destruct (Z.eqb_spec r NULL); [contradiction | reflexivity]. }
  rewrite Hrl in *.
  change ([r] ++ pre ++ p :: post) with ((r :: pre) ++ p :: post) in *.
  pose proof (procDelete_find_some st (Proc.get_pid st p) p post pre fuel
                (Proc.readyQ st) NULL Hq Hpid eq_refl Hlen) as Hfind.
  assert (Np : p <> NULL).
  { eapply qseg_nonnull; [exact Hq|]. apply in_or_app; simpl; auto. }
  unfold Proc.procDelete_unlink. rewrite Hfind. cbn [bind].
  destruct (Z.eqb_spec p NULL) as [? | _]; [contradiction|]. cbn [negb].
  set (U0 := if p =? Proc.readyQ st then _ else _).
  (* the state after the branch *)
  assert (HU0 : Proc.runningProc U0 = r /\ Proc.rsp U0 = Proc.rsp st /\
                Proc.procId U0 = Proc.procId st /\
                Proc.readyQEnd U0 = last (pre ++ post) NULL /\
                match pre with
                | [] => Proc.heap U0 = Proc.heap st /\ Proc.readyQ U0 = Proc.get_next st p
                | _ :: _ =>
                    Proc.heap U0 = Mem.store (Proc.heap st) (last pre NULL + Proc.OFF_next)
                                             (Proc.get_next st p) /\
                    Proc.readyQ U0 = Proc.readyQ st
                end).
  { assert (HndQ : NoDup (pre ++ p :: post)).
    { change ((r :: pre) ++ p :: post) with (r :: (pre ++ p :: post)) in Hnd.
      apply NoDup_cons_iff in Hnd. tauto. }
    pose proof Hq as Hq'. apply qseg_app in Hq'. destruct Hq' as (x & Hq1 & Hq2).
    cbn [qseg] in Hq2. destruct Hq2 as (-> & _ & Hq2).
    change (Mem.mem (Proc.heap st) (p + Proc.OFF_next)) with (Proc.get_next st p) in Hq2.
    rewrite last_app_cons in He.
    destruct pre as [| a0 pre'].
    - cbn [qseg] in Hq1.
      assert (Et : (p =? Proc.readyQ st) = true) by (rewrite Hq1; apply Z.eqb_refl).
      subst U0. rewrite Et. cbn [Proc.readyQ Proc.set_readyQ]. cbn [app].
      destruct post as [| b post'].
      + cbn [qseg] in Hq2. rewrite Hq2, Z.eqb_refl. split_all; reflexivity.
      + cbn [qseg] in Hq2. destruct Hq2 as (Eb & Nb & _).
        assert (Et' : (Proc.get_next st p =? NULL) = false)
          by (rewrite Eb; apply Z.eqb_neq; exact Nb).
        rewrite Et'. split_all; try reflexivity.
        cbn [Proc.readyQEnd Proc.set_readyQ]. rewrite He. reflexivity.
    - cbn [qseg] in Hq1. destruct Hq1 as (Ea & _ & _).
      assert (Npa : p <> a0).
      { intros ->. simpl in HndQ. apply NoDup_cons_iff in HndQ.
        apply (proj1 HndQ). apply in_or_app. simpl. auto. }
      assert (Et : (p =? Proc.readyQ st) = false)
        by (rewrite Ea; apply Z.eqb_neq; exact Npa).
      subst U0. rewrite Et.
      destruct post as [| b post'].
      + cbn [qseg] in Hq2. simpl in He.
        assert (Et' : (p =? Proc.readyQEnd st) = true) by (rewrite He; apply Z.eqb_refl).
        rewrite Et', app_nil_r, Hq2. split_all; reflexivity.
      + assert (Npe : p <> Proc.readyQEnd st).
        { rewrite He. intros E.
          assert (Hin : In (last (p :: b :: post') NULL) (b :: post')).
          { rewrite last_cons. apply last_in. discriminate. }
          rewrite <- E in Hin. apply NoDup_remove_2 in HndQ. apply HndQ.
          apply in_or_app. right. exact Hin. }
        assert (Et' : (p =? Proc.readyQEnd st) = false) by (apply Z.eqb_neq; exact Npe).
        rewrite Et'. split_all; try reflexivity.
        cbn [Proc.readyQEnd Proc.set_next Proc.store Proc.set_heap]. rewrite He.
        rewrite last_app_cons. reflexivity. }
  destruct HU0 as (HUr & HUrsp & HUid & HUe & HUh).
  destruct (unlink_PInvS st U0 bs fl pre post p HP Hr HUr HUe HUh) as (PU & Hcell0 & Hf0).
  assert (Hin_p : In p ((r :: pre) ++ p :: post)) by (apply in_or_app; simpl; auto).
  assert (Hsub : forall a, In a ((r :: pre) ++ post) -> In a ((r :: pre) ++ p :: post)).
  { intros a Ha. apply in_app_or in Ha. apply in_or_app. simpl. tauto. }
  assert (Es : Proc.get_stackAddr U0 p = Proc.get_stackAddr st p).
  { unfold Proc.get_stackAddr, Proc.load.
    apply Hcell0; [exact Hin_p | unfold Proc.OFF_stackAddr, Proc.SZ_PCB; lia]. }
  rewrite Es. set (s := Proc.get_stackAddr st p) in *.
  assert (HrlU : running_list U0 = [r]).
  { unfold running_list. rewrite HUr.
    destruct (Z.eqb_spec r NULL); [contradiction | reflexivity]. }
  destruct (NoDup_flat_map_remove (owned st) (r :: pre) post p Hap) as (_ & Hown_p & Hno).
  assert (Hps : p - 16 <> s - 16).
  { unfold owned in Hown_p. fold s in Hown_p. unfold NULL in *.
    destruct (Z.eqb_spec s 0) as [E0 | N0]; [lia|].
    apply NoDup_cons_iff in Hown_p. simpl in Hown_p. intros E. apply (proj1 Hown_p). lia. }
  (* memFree(proc->stackAddr) *)
  destruct (memFree_PInvS fuel U0 bs fl (pre ++ post) s PU)
    as (h1 & bs1 & fl1 & E1 & P1 & Hu1 & Hfr1 & Hf1).
  { destruct (Hstk p Hin_p) as [H0 | (T & HT & _)]; [left; exact H0 | right].
    split; [exists T; exact HT|].
    rewrite HrlU. change ([r] ++ pre ++ post) with ((r :: pre) ++ post).
    rewrite (flat_map_ext_in (owned U0) (owned st)).
    - apply Hno. unfold owned. fold s.
      pose proof (Rep_block_bounds _ _ _ _ R HT) as Hb.
      unfold b_addr, NULL in *. simpl in Hb.
      destruct (Z.eqb_spec s 0); [lia | simpl; auto].
    - intros a Ha. apply owned_frame. unfold Proc.get_stackAddr, Proc.load.
      apply Hcell0; [apply Hsub; exact Ha | unfold Proc.OFF_stackAddr, Proc.SZ_PCB; lia]. }
  { rewrite Hf0. exact Hfuel. }
  rewrite E1. cbn [bind].
  set (U1 := Proc.set_heap U0 h1) in *.
  assert (Hcell1 : forall a k, In a ((r :: pre) ++ post) -> 0 < k < Proc.SZ_PCB ->
                     Mem.mem h1 (a + k) = Mem.mem (Proc.heap st) (a + k)).
  { intros a k Ha Hk. rewrite Hfr1; [apply Hcell0; [apply Hsub; exact Ha | exact Hk]|].
    apply (pcb_block_payload bs1 a); [| lia].
    apply (pinv_pcb _ _ _ _ (pinvs_inv _ _ _ _ P1)).
    change (running_list U1) with (running_list U0). rewrite HrlU. exact Ha. }
  (* memFree(proc) *)
  destruct (memFree_PInvS fuel U1 bs1 fl1 (pre ++ post) p P1)
    as (h2 & bs2 & fl2 & E2 & P2 & Hu2 & Hfr2 & Hf2).
  { right. split.
    - destruct (Hpcb p Hin_p) as (Sp & HSp & _). exists Sp. apply Hu1. auto.
    - change (running_list U1) with (running_list U0). rewrite HrlU.
      change ([r] ++ pre ++ post) with ((r :: pre) ++ post).
      rewrite (flat_map_ext_in (owned U1) (owned st)).
      + apply Hno. unfold owned. simpl. auto.
      + intros a Ha. apply owned_frame. unfold Proc.get_stackAddr, Proc.load.
        change (Proc.heap U1) with h1.
        apply Hcell1; [exact Ha | unfold Proc.OFF_stackAddr, Proc.SZ_PCB; lia]. }
  { change (Proc.heap U1) with h1. rewrite Hf1, Hf0. exact Hfuel. }
  rewrite E2. cbn [bind].
  exists (Proc.set_heap U1 h2), bs2, fl2. split; [reflexivity|]. split; [exact P2|].
  split; [exact HUr|]. split; [exact HUrsp|]. split; [exact HUid|]. split.
  - intros a k Ha Hk. change (Proc.heap (Proc.set_heap U1 h2)) with h2.
    change (r :: pre ++ post) with ((r :: pre) ++ post) in Ha.
    rewrite Hfr2; [apply Hcell1; assumption|].
    apply (pcb_block_payload bs2 a); [| lia].
    apply (pinv_pcb _ _ _ _ (pinvs_inv _ _ _ _ P2)).
    change (running_list (Proc.set_heap U1 h2)) with (running_list U0).
    rewrite HrlU. exact Ha.
  - intros a T. split.
    + intros H. apply Hu2 in H. destruct H as [H N2]. apply Hu1 in H. tauto.
    + intros (H & N2 & N1). apply Hu2. split; [| exact N2]. apply Hu1. auto.
Qed.




(** X14.  [procDelete(pid)] when the PID is that of a queued process, in
    a state that satisfies the invariants, with a process running: the
    first PCB [p] of the ready queue with the PID is taken out of the
    queue, its stack block and its PCB are given back to the allocator and
    are no longer in use, while every other block in use stays in use; the
    scheduler then runs once over the remaining processes (the caller
    keeps running if none is left); the call returns 0; the invariants
    hold again; and every remaining process keeps its stack pointer, PID,
    state field and stack. *)
Theorem procDelete_queued_process
        (fuel : nat) (st : Proc.state) (bs : list blk) (fl pre post : list Z) (p : Z) :
  PInvS st bs fl (pre ++ p :: post) -> Proc.runningProc st <> NULL ->
  (forall a, In a pre -> Proc.get_pid st a <> Proc.get_pid st p) ->
  (enough_fuel (Proc.heap st) <= fuel)%nat -> (length pre < fuel)%nat ->
  exists st' bs' fl' q',
    Proc.procDelete fuel st (Proc.get_pid st p) = Ok (0, st') /\
    Proc.runningProc st' :: q' = rot1 (Proc.runningProc st :: pre ++ post) /\
    PInvS st' bs' fl' q' /\
    (forall a T, In (a, T, Mem.MAGIC_USED) bs' <->
                 In (a, T, Mem.MAGIC_USED) bs /\ a <> p - 16 /\
                 a <> Proc.get_stackAddr st p - 16) /\
    Proc.procId st' = Proc.procId st /\
    (forall a, In a (Proc.runningProc st :: pre ++ post) ->
               cur_sp st' a = cur_sp st a /\
               Proc.get_pid st' a = Proc.get_pid st a /\
               Proc.get_state st' a = Proc.get_state st a /\
               Proc.get_stackAddr st' a = Proc.get_stackAddr st a).
Proof.
  intros HP Hr Hpid Hfuel Hlen.
  destruct (procDelete_unlink_queued fuel st bs fl pre post p HP Hr Hpid Hfuel Hlen)
    as (U & bs' & fl' & EU & PU & HUr & HUrsp & HUid & Hcell & Hused).
  unfold Proc.procDelete. rewrite EU. cbn [bind].
  assert (HU : forall a, In a (Proc.runningProc st :: pre ++ post) ->
                 cur_sp U a = cur_sp st a /\
                 Proc.get_pid U a = Proc.get_pid st a /\
                 Proc.get_state U a = Proc.get_state st a /\
                 Proc.get_stackAddr U a = Proc.get_stackAddr st a).
  { intros a Ha. unfold cur_sp. rewrite HUr, HUrsp.
    unfold Proc.get_stackPtr, Proc.get_pid, Proc.get_state, Proc.get_stackAddr, Proc.load.
    rewrite !(Hcell a) by
      (try exact Ha; unfold Proc.OFF_stackPtr, Proc.OFF_pid, Proc.OFF_state,
         Proc.OFF_stackAddr, Proc.SZ_PCB; lia).
    auto. }
  remember (pre ++ post) as rest eqn:Erest. destruct rest as [| r0 t].
  - assert (HrQ : Proc.readyQ U = NULL).
    { destruct PU as [[_ [Hq _] _ _ _] _ _]. exact Hq. }
    assert (Es : Proc.sched U = Ok U).
    { unfold Proc.sched. rewrite HrQ. reflexivity. }
    rewrite Es. cbn [bind].
    exists U, bs', fl', []. split; [reflexivity|].
    split; [rewrite HUr; reflexivity|]. split; [exact PU|].
    split; [exact Hused|]. split; [exact HUid | exact HU].
  - destruct (sched_PInvS U bs' fl' r0 t PU ltac:(rewrite HUr; exact Hr))
      as (st' & Es & P' & Hrun' & Hid' & Hkeep & _).
    rewrite Es. cbn [bind].
    exists st', bs', fl', (t ++ [Proc.runningProc st]).
    split; [reflexivity|]. split; [rewrite Hrun'; reflexivity|].
    split; [rewrite <- HUr; exact P'|]. split; [exact Hused|].
    split; [rewrite Hid'; exact HUid|].
    intros a Ha. rewrite HUr in Hkeep.
    destruct (Hkeep a Ha) as (K1 & K2 & K3 & K4).
    destruct (HU a Ha) as (U1 & U2 & U3 & U4).
    rewrite K1, K2, K3, K4. auto.
Qed.



(** The state after [procInit] and two calls of [procCreate]. *)
Lemma created2_PInvS :
  exists st bs fl,
    run_created = Ok st /\
    PInvS st bs fl [4112; 4184] /\ Proc.runningProc st = 135344.
Proof.
  destruct created_PInvS as (st0 & st1 & bs & fl & Eb & Ec & HP & Hrun & _).
  assert (Hr : Proc.runningProc st1 <> NULL) by (rewrite Hrun; discriminate).
  assert (Ea : exists h1 h2,
             Mem.memAlloc run_fuel (Proc.heap st1) Proc.SZ_PCB = Ok (135344, h1) /\
             Mem.memAlloc run_fuel h1 Proc.STACKSZ = Ok (135416, h2) /\
             Proc.procId st1 = 2).
  { clear - Eb Ec. vm_compute in Eb. injection Eb as <-.
    vm_compute in Ec. injection Ec as <-.
    do 2 eexists. split; [vm_compute; reflexivity|].
    split; [vm_compute; reflexivity | reflexivity]. }
  destruct Ea as (h1 & h2 & E1 & E2 & Hid).
  destruct (procCreate_PInvS run_fuel st1 bs fl [4112] 22 135344 135416 h1 h2 HP Hr E1
              ltac:(discriminate) E2 ltac:(discriminate))
    as (st & bs2 & fl2 & Ec2 & HP2 & Hrun2 & _).
  rewrite Hrun in HP2. exists st, bs2, fl2.
  split; [| split; [exact HP2 | exact Hrun2]].
  unfold run_created. rewrite Eb. cbn [bind]. rewrite Ec. cbn [bind]. rewrite Ec2.
  reflexivity.
Qed.

Lemma procDelete_queued_process_witness :
  exists st st',
    run_created = Ok st /\
    Proc.procDelete run_fuel st (Proc.get_pid st 4184) = Ok (0, st') /\
    Proc.get_pid st 4184 = 1 /\
    Proc.runningProc st' = 4112 /\ Proc.procId st' = Proc.procId st.
Proof.
  destruct created2_PInvS as (st & bs & fl & Erun & HP & Hrun).
  assert (F : Proc.get_pid st 4112 = 0 /\ Proc.get_pid st 4184 = 1 /\
              Mem.mcb (Proc.heap st) = space /\
              Mem.endMem (Proc.heap st) = space + SPACE_SIZE).
  { clear - Erun. vm_compute in Erun. injection Erun as <-.
    split_all; vm_compute; reflexivity. }
  destruct F as (F0 & F1 & Fm & Fe).
  destruct (procDelete_queued_process run_fuel st bs fl [4112] [] 4184 HP)
    as (st' & bs' & fl' & q' & E & Hring & _ & _ & Hid & _).
  - rewrite Hrun. discriminate.
  - intros a [<- | []]. rewrite F0, F1. discriminate.
  - unfold enough_fuel, run_fuel. rewrite Fm, Fe.
    replace (space + SPACE_SIZE - space) with SPACE_SIZE by lia. apply le_n.
  - unfold run_fuel, SPACE_SIZE. simpl length. lia.
  - exists st, st'. simpl in Hring. injection Hring as Hr' _. auto.
Defined.

Lemma C4_witness :
  (exists st,
      boot = Ok st /\
      Mem.get_magic (Proc.heap st) (5000 - Mem.SZ_MCB) <> Mem.MAGIC_USED /\
      Mem.memFree run_fuel (Proc.heap st) 5000 = Ok (Proc.heap st) /\
      Proc.readyQ st = NULL /\
      Proc.procYield st = Ok st /\
      Proc.get_pid st (Proc.runningProc st) <> 99 /\
      Proc.procDelete run_fuel st 99 = Ok (0, st)) /\
  (exists st st',
      run_created = Ok st /\
      Proc.runningProc st = 135344 /\
      Proc.procDelete run_fuel st 99 = Ok (0, st') /\
      Proc.runningProc st' = 4112 /\
      queue_ok st' [4184; 135344] /\
      st' <> st).
Proof.
  destruct C4_silent_errors as (_ & H2 & H3 & H4 & _).
  split.
  - eexists. split; [vm_compute; reflexivity|].
    refine ((fun Hm Hq Hp => conj Hm (conj (H2 _ _ _ Hm) (conj Hq (conj (H3 _ Hq)
              (conj Hp _))))) _ _ _).
    + refine (proj1 (proj2 (proj2 (H4 run_fuel _ [] 99 Hq _ _ Hp _))) eq_refl).
      * intros a [].
      * vm_compute. discriminate.
      * unfold run_fuel, SPACE_SIZE. simpl length. lia.
    + vm_compute. discriminate.
    + vm_compute. reflexivity.
    + vm_compute. discriminate.
  - destruct created2_PInvS as (st & bs & fl & Erun & HP & Hrun).
    assert (F : Proc.get_pid st 4112 = 0 /\ Proc.get_pid st 4184 = 1 /\
                Proc.get_pid st 135344 = 2).
    { clear - Erun. vm_compute in Erun. injection Erun as <-.
      split_all; vm_compute; reflexivity. }
    destruct F as (F0 & F1 & F2).
    pose proof HP as [[R [Hq He] Hnd Hpcb Hnext] _ _].
    assert (Hr : Proc.runningProc st <> NULL) by (rewrite Hrun; discriminate).
    assert (Hrl : running_list st = [135344]).
    { unfold running_list. rewrite Hrun. reflexivity. }
    pose proof (pcb_blocks_psep _ _ _ _ (rep_layout _ _ _ R) Hpcb) as Hsep.
    rewrite Hrl in Hnd, Hsep. rewrite <- Hrun in Hnd, Hsep.
    destruct (H4 run_fuel st [4112; 4184] 99 Hq) as (_ & _ & _ & H).
    + intros a [<- | [<- | []]]; [rewrite F0 | rewrite F1]; discriminate.
    + exact Hr.
    + rewrite Hrun, F2. discriminate.
    + unfold run_fuel. change (SPACE_SIZE / 32) with 32768. simpl length. lia.
    + destruct (H 4112 [4184] eq_refl He Hnd Hsep (Hnext Hr))
        as (st' & E & Hr' & _ & Hq' & Hne).
      rewrite Hrun in Hq'.
      exists st, st'. auto 10.
Defined.


(** * Further properties of the allocator, continued *)

(** ** The free list *)

(** Where [ins] puts a header in a list that is in descending order. *)
Lemma ins_split (sz : Z -> Z) (m : Z) (fl : list Z) :
  desc sz fl ->
  exists fl1 fl2,
    fl = fl1 ++ fl2 /\ ins sz m fl = fl1 ++ m :: fl2 /\
    (forall a, In a fl1 -> sz m < sz a) /\
    (forall a, In a fl2 -> sz a <= sz m).
Proof.
  induction fl as [| s r IH]; intros Hd.
  - exists [], []. simpl. tauto.
  - simpl in Hd. destruct Hd as [Hs Hd]. simpl.
    destruct (Z.ltb_spec (sz m) (sz s)) as [Hlt | Hge].
    + destruct (IH Hd) as (fl1 & fl2 & -> & E & H1 & H2).
      exists (s :: fl1), fl2. simpl. rewrite E. split_all; auto.
      intros a [<- | Ha]; auto.
    + exists [], (s :: r). simpl. split_all; auto; [tauto|].
      intros a [<- | Ha]; [lia|]. specialize (Hs a Ha). lia.
Qed.

(** X16.  [insertFree] on a free list in descending order of size puts the
    header [m] behind every strictly larger block and in front of every
    block that is not larger, so that the list stays in descending order;
    [removeFree] of [m] then gives back the list as it was, with both links
    of [m] cleared, and the two calls together change no byte outside the
    link pairs of [m] and of the headers of the list. *)
Theorem insertFree_then_removeFree
        (fuel : nat) (st : Mem.state) (m : Z) (fl : list Z) :
  lseg (Mem.mem st) NULL (Mem.freelist st) fl NULL ->
  NoDup fl -> sepl (m :: fl) -> ~ In m fl -> m <> NULL ->
  desc (Mem.get_size st) fl ->
  (length fl < fuel)%nat ->
  exists st' fl1 fl2,
    Mem.insertFree fuel st m = Ok st' /\
    fl = fl1 ++ fl2 /\
    lseg (Mem.mem st') NULL (Mem.freelist st') (fl1 ++ m :: fl2) NULL /\
    (forall a, In a fl1 -> Mem.get_size st m < Mem.get_size st a) /\
    (forall a, In a fl2 -> Mem.get_size st a <= Mem.get_size st m) /\
    desc (Mem.get_size st') (fl1 ++ m :: fl2) /\
    lseg (Mem.mem (Mem.removeFree st' m)) NULL
         (Mem.freelist (Mem.removeFree st' m)) fl NULL /\
    Mem.mem (Mem.removeFree st' m) (m + 16) = NULL /\
    Mem.mem (Mem.removeFree st' m) (m + 24) = NULL /\
    (forall x, (forall a, In a (m :: fl) -> x <> a + 16 /\ x <> a + 24) ->
               Mem.mem (Mem.removeFree st' m) x = Mem.mem st x).
Proof.
  intros Hl Hnd Hsep Hm Nm Hd Hf.
  destruct (insertFree_spec fuel st m fl Hl Hnd Hsep Hm Nm Hf)
    as (st' & E & Hl' & Hfr & _ & _).
  destruct (ins_split (Mem.get_size st) m fl Hd) as (fl1 & fl2 & Efl & Eins & H1 & H2).
  assert (Hincl : incl (ins (Mem.get_size st) m fl) (m :: fl)).
  { intros a Ha. apply in_ins in Ha. simpl. destruct Ha; auto. }
  assert (Hsz : forall a, In a (m :: fl) -> Mem.get_size st' a = Mem.get_size st a).
  { intros a Ha. unfold Mem.get_size, Mem.OFF_size. apply Hfr.
    intros b Hb. destruct (Hsep a b Ha Hb) as [<- | D]; unfold far in *; lia. }
  destruct (removeFree_spec st' m (ins (Mem.get_size st) m fl) Hl')
    as (Hl2 & Hfr2 & H16 & H24 & _ & _).
  { apply NoDup_ins; assumption. }
  { eapply sepl_incl; [exact Hincl | exact Hsep]. }
  { apply in_ins. left. reflexivity. }
  rewrite rem_ins_same in Hl2 by exact Hm.
  exists st', fl1, fl2. split; [exact E|]. split; [exact Efl|].
  split; [rewrite <- Eins; exact Hl'|]. split; [exact H1|]. split; [exact H2|].
  split.
  { rewrite <- Eins. eapply desc_ext; [| apply desc_ins; exact Hd].
    intros a Ha. apply Hsz. apply Hincl. exact Ha. }
  split; [exact Hl2|]. split; [exact H16|]. split; [exact H24|].
  intros x Hx. rewrite (Hfr2 x).
  - apply Hfr. exact Hx.
  - intros a Ha. apply Hx. apply Hincl. exact Ha.
Qed.

Lemma insertFree_then_removeFree_witness :
  exists st st',
    Mem.memInit 30 (fun _ => 0) 1000 706 = Ok st /\
    Mem.insertFree 30 st 2000 = Ok st' /\
    Mem.freelist (Mem.removeFree st' 2000) = Mem.freelist st.
Proof.
  destruct (memInit_spec 30 (fun _ => 0) 1000 706) as (st & E & R & _ & _);
    [lia | unfold INT_MAX; lia | lia |].
  assert (Ef : Mem.freelist st = 1000 /\ Mem.get_size st 1000 = 690 /\
               Mem.get_size st 2000 = 0).
  { clear - E. vm_compute in E. injection E as <-. split_all; reflexivity. }
  destruct Ef as (Ef & Es & Es').
  destruct (insertFree_then_removeFree 30 st 2000 [1000])
    as (st' & fl1 & fl2 & Ei & _ & _ & _ & _ & _ & Hl & _).
  - exact (rep_links _ _ _ R).
  - constructor; [intros [] | constructor].
  - intros a b [<- | [<- | []]] [<- | [<- | []]]; unfold far; lia.
  - intros [H | []]. discriminate H.
  - discriminate.
  - simpl. split; [intros b [] | exact I].
  - simpl. lia.
  - exists st, st'. split; [exact E|]. split; [exact Ei|].
    simpl in Hl. destruct Hl as (Hh & _). rewrite Ef. exact Hh.
Defined.

(** ** Alignment *)

Lemma adjust_aligned (sz : Z) : 0 <= sz <= INT_MAX - 3 -> (4 | Mem.adjust sz).
Proof.
  intros H. rewrite adjust_in_range by exact H. unfold adjust_spec.
  exists ((Z.max sz Mem.SZ_LINKS + 3) / 4). lia.
Qed.

Lemma aligned_app (base : Z) (l1 l2 : list blk) :
  aligned base (l1 ++ l2) <-> aligned base l1 /\ aligned base l2.
Proof.
  unfold aligned. split.
  - intros H. split; intros b Hb; apply H; apply in_or_app; auto.
  - intros [H1 H2] b Hb. apply in_app_or in Hb. destruct Hb; auto.
Qed.

Lemma aligned_cons (base : Z) (b : blk) (l : list blk) :
  aligned base (b :: l) <->
  ((4 | b_addr b - base) /\ (4 | b_size b)) /\ aligned base l.
Proof.
  unfold aligned. split.
  - intros H. split; [apply H; left; reflexivity | intros c Hc; apply H; right; exact Hc].
  - intros [H1 H2] c [<- | Hc]; auto.
Qed.

Lemma alloc_step_aligned (base sz m : Z) (bs bs' : list blk) :
  alloc_step sz m bs bs' -> (4 | sz) -> aligned base bs -> aligned base bs'.
Proof.
  intros [pre S post H1 H2 | pre S post H] Hsz; rewrite !aligned_app, !aligned_cons;
    intros (Hpre & (Ha & Hs) & Hpost).
  - auto.
  - split; [exact Hpre|]. split; [split; [exact Ha | exact Hsz]|].
    split; [| exact Hpost]. split.
    + destruct Ha as (k & Ha). destruct Hsz as (j & Hsz).
      exists (k + 4 + j). unfold b_addr in *. simpl in *. lia.
    + destruct Hs as (k & Hs). destruct Hsz as (j & Hsz).
      exists (k - j - 4). unfold b_size in *. simpl in *. lia.
Qed.

Lemma free_step_aligned (base m : Z) (bs bs' : list blk) :
  free_step m bs bs' -> aligned base bs -> aligned base bs'.
Proof.
  intros [pre S post _ _ | pre p P S post _ | pre S x X post _ | pre p P S x X post];
    rewrite !aligned_app, !aligned_cons.
  - auto.
  - intros (Hpre & (Ha & (k & Hs)) & (_ & (j & Hs')) & Hpost).
    split; [exact Hpre|]. split; [| exact Hpost]. split; [exact Ha|].
    exists (k + 4 + j). unfold b_size in *. simpl in *. lia.
  - intros (Hpre & (Ha & (k & Hs)) & (_ & (j & Hs')) & Hpost).
    split; [exact Hpre|]. split; [| exact Hpost]. split; [exact Ha|].
    exists (k + 4 + j). unfold b_size in *. simpl in *. lia.
  - intros (Hpre & (Ha & (k & Hs)) & (_ & (j & Hs')) & (_ & (i & Hs'')) & Hpost).
    split; [exact Hpre|]. split; [| exact Hpost]. split; [exact Ha|].
    exists (k + 4 + j + 4 + i). unfold b_size in *. simpl in *. lia.
Qed.

(** Alignment along every run of the allocator on a region whose size is
    a multiple of 4. *)
Lemma reach_aligned (base size : Z) (st : Mem.state) (live : list Z) :
  0 < base -> 32 <= size <= INT_MAX -> (4 | size) ->
  reach base size st live ->
  exists bs fl,
    Rep st bs fl /\ live_used live bs /\ aligned base bs.
Proof.
  intros Hb Hs H4 H. induction H as
      [fuel m0 st E
      | st live fuel sz p st' H IH Hsz E Hp
      | st live fuel sz st' H IH E
      | st live fuel p st' H IH Hin E
      | st live fuel st' H IH E
      | st live p x v H IH Hin Hx].
  - destruct fuel as [| fuel]; [discriminate E|].
    destruct (memInit_spec (S fuel) m0 base size Hb Hs ltac:(lia))
      as (st1 & E1 & R & Hm & He).
    rewrite E1 in E. injection E as <-.
    eexists _, _. split; [exact R|]. split.
    + split; [constructor|].
      intros p. split; [intros [] | intros (S' & [H | []]); discriminate H].
    + intros b [<- | []]. unfold b_addr, b_size. simpl. split.
      * exists 0. lia.
      * destruct H4 as (k & H4). exists (k - 4). lia.
  - destruct IH as (bs & fl & R & Hlu & Hal).
    destruct (memAlloc_Rep _ _ _ _ _ _ _ R (adjust_ok _ Hsz) E Hp)
      as (bs' & fl' & R' & Hstep & _).
    exists bs', fl'. split; [exact R'|]. split.
    + eapply live_used_alloc; eauto. apply (rep_layout _ _ _ R).
    + eapply alloc_step_aligned; eauto. apply adjust_aligned. exact Hsz.
  - destruct IH as (bs & fl & R & Hlu & Hal).
    destruct (memAlloc_null_same _ _ _ _ _ _ R E) as [-> _].
    exists bs, fl. auto.
  - destruct IH as (bs & fl & R & Hlu & Hal).
    destruct (proj1 (proj2 Hlu p) Hin) as (S' & Hblk).
    destruct (memFree_Rep _ _ _ _ _ _ _ R Hblk E)
      as (bs' & fl' & R' & Hstep & _).
    exists bs', fl'. split; [exact R'|]. split.
    + eapply live_used_free; eauto. apply (rep_layout _ _ _ R).
    + eapply free_step_aligned; eauto.
  - simpl in E. injection E as <-. exact IH.
  - destruct IH as (bs & fl & R & Hlu & Hal).
    destruct (proj1 (proj2 Hlu p) Hin) as (S' & Hblk).
    exists bs, fl. split; [| auto].
    apply Rep_store_payload; [exact R|].
    exists (p - 16, S', Mem.MAGIC_USED). split; [exact Hblk|]. split; [reflexivity|].
    pose proof (hdrs_in _ _ _ _ (rep_hdrs _ _ _ R) Hblk) as [_ Hsz].
    unfold b_addr, b_size in *. simpl in *.
    unfold Mem.get_size, Mem.OFF_size in Hx. rewrite Hsz in Hx. lia.
Qed.

(** X17.  On a region whose size is a multiple of 4, along every run in
    which the client keeps to the interface, every pointer that
    [memAlloc] has returned and that is not freed yet lies a multiple of
    4 bytes from the base of the region, and its block holds a multiple of
    4 bytes, at least 16. *)
Theorem memAlloc_pointers_aligned
        (base size : Z) (st : Mem.state) (live : list Z) (p : Z) :
  0 < base -> 32 <= size <= INT_MAX -> (4 | size) ->
  reach base size st live -> In p live ->
  (4 | p - base) /\ (4 | Mem.get_size st (p - 16)) /\
  16 <= Mem.get_size st (p - 16).
Proof.
  intros Hb Hs H4 H Hin.
  destruct (reach_aligned base size st live Hb Hs H4 H) as (bs & fl & R & Hlu & Hal).
  destruct (proj1 (proj2 Hlu p) Hin) as (S' & Hblk).
  destruct (Hal _ Hblk) as [(k & Ha) Hs'].
  pose proof (hdrs_in _ _ _ _ (rep_hdrs _ _ _ R) Hblk) as [_ Hsz].
  pose proof (Rep_block_bounds _ _ _ _ R Hblk) as (_ & HS & _).
  unfold b_addr, b_size in *. simpl in *.
  unfold Mem.get_size, Mem.OFF_size. rewrite Hsz.
  split; [exists (k + 4); lia|]. split; [exact Hs' | lia].
Qed.

Lemma memAlloc_pointers_aligned_witness :
  exists st1,
    (exists st0, Mem.memInit 30 (fun _ => 0) 1000 704 = Ok st0 /\
                 Mem.memAlloc 30 st0 5 = Ok (1016, st1)) /\
    (4 | 1016 - 1000) /\ (4 | Mem.get_size st1 (1016 - 16)).
Proof.
  assert (E : exists st0 st1, Mem.memInit 30 (fun _ => 0) 1000 704 = Ok st0 /\
                              Mem.memAlloc 30 st0 5 = Ok (1016, st1)).
  { do 2 eexists. split; [vm_compute; reflexivity | vm_compute; reflexivity]. }
  destruct E as (st0 & st1 & E0 & E1).
  exists st1. split; [exists st0; auto|].
  assert (Hr : reach 1000 704 st1 [1016]).
  { eapply reach_alloc; [eapply reach_init; exact E0 | | exact E1 | discriminate].
    unfold INT_MAX. lia. }
  destruct (memAlloc_pointers_aligned 1000 704 st1 [1016] 1016) as (H1 & H2 & _);
    [lia | unfold INT_MAX; lia | exists 176; lia | exact Hr | simpl; auto |].
  split; assumption.
Defined.


(** ** The live blocks *)




(** ** Freeing twice *)

Section DoubleFree.
Import Mem.

(** When the block before [m] absorbs [m], the magic of the header of [m]
    is left 0. *)
Lemma memFree_prev_merge_magic (fuel : nat) (st : state) (pre post : list blk)
      (fl : list Z) (p P m S : Z) :
  Rep st (pre ++ (p, P, MAGIC_FREE) :: (m, S, MAGIC_USED) :: post) fl ->
  (length fl < fuel)%nat ->
  exists st1,
    memFree_prev fuel (mark_free st m) m = Ok (st1, p) /\
    mem st1 (m + 8) = 0.
Proof.
  intros R Hfuel.
  change (pre ++ (p, P, MAGIC_FREE) :: (m, S, MAGIC_USED) :: post)
    with (pre ++ [(p, P, MAGIC_FREE); (m, S, MAGIC_USED)] ++ post) in R.
  set (mid := [(p, P, MAGIC_FREE); (m, S, MAGIC_USED)]) in *.
  pose proof (rep_layout _ _ _ R) as Hlay.
  pose proof (layout_sepl _ _ _ Hlay) as HsepU.
  set (U := map b_addr (pre ++ mid ++ post)) in *.
  destruct (proj1 (layout_app _ _ _ _) Hlay) as (lo & Hpre & Hlay2).
  destruct (proj1 (layout_app _ _ _ _) Hlay2) as (hi & Hmid & Hpost).
  pose proof Hmid as Hmid0. simpl in Hmid0. unfold b_addr, b_size in Hmid0.
  simpl in Hmid0. destruct Hmid0 as (Elo & HP & Em & HS & Ehi).
  subst lo. symmetry in Ehi. rewrite <- Em in Ehi.
  pose proof (layout_le _ _ _ Hpre) as Hle1. pose proof (layout_le _ _ _ Hpost) as Hle2.
  pose proof (rep_base _ _ _ R) as Hbase. pose proof (rep_len _ _ _ R) as Hlen.
  unfold INT_MAX in Hlen.
  pose proof (rep_hdrs _ _ _ R) as Hh. apply hdrs_app in Hh. destruct Hh as [_ Hh].
  apply hdrs_app in Hh. destruct Hh as [Hh Hhpost].
  simpl in Hh. unfold b_addr, b_size, b_magic in Hh. simpl in Hh.
  destruct Hh as (Hp0 & Hp8 & Hp12 & Hm0 & Hm8 & Hm12 & _).
  assert (HpU : In p U /\ In m U).
  { unfold U, mid. rewrite !map_app, !in_app_iff. simpl.
    split; [right; left; left | right; left; right; left]; reflexivity. }
  destruct HpU as [HpU HmU].
  assert (HflU : incl fl U) by (intros a Ha; eapply Rep_fl_addr; eauto).
  assert (Hpfl : In p fl).
  { apply (rep_free _ _ _ R). rewrite !free_addrs_app, !in_app_iff.
    right. left. simpl. auto. }
  assert (Hother : forall a, In a fl -> a <> p ->
                             In a (map b_addr (pre ++ post)) /\ (a + 32 <= p \/ hi <= a)).
  { intros a Ha Hne.
    destruct (fl_outside_run _ _ _ _ _ a R Ha) as [Hin _].
    { unfold mid, free_addrs. simpl. intros [E | []].
      unfold b_addr in E. simpl in E. congruence. }
    split; [exact Hin|]. apply in_map_iff in Hin. destruct Hin as (c & <- & Hc).
    apply in_app_or in Hc. destruct Hc as [Hc | Hc].
    - pose proof (layout_in _ _ _ _ Hpre Hc). lia.
    - pose proof (layout_in _ _ _ _ Hpost Hc). lia. }
  pose proof (mark_free_mem st m) as Hm0mem.
  destruct (mark_free_globals st m) as (Hmcb0 & Hend0 & Hfl0).
  remember (mark_free st m) as st0 eqn:Est0. clear Est0.
  unfold memFree_prev. cells. rewrite Hm0mem. upd_simpl.
  rewrite Hm0, Hp8.
  destruct (Z.eqb_spec p NULL) as [E | _]; [unfold NULL in E; lia|].
  rewrite Z.eqb_refl. cbn [negb andb]. cbv iota.
  upd_simpl. rewrite ?Hm0, ?Hp12, ?Hm12.
  rewrite (u64_id P), (u64_id S) by lia. rewrite u64_id by lia.
  rewrite wrap32_id by (unfold in_int, INT_MIN, INT_MAX; lia).
  set (E := upd (upd (upd (upd (upd (mem st) (m + 8) MAGIC_FREE) (m + 16) NULL)
                            (m + 24) NULL) (m + 8) 0) (p + 12) (P + (S + 16))).
  set (bp := match post with [] => true | _ => false end).
  assert (Hhi : if bp then hi = endMem st else hi + 32 <= endMem st).
  { unfold bp. destruct post as [| c r]; simpl in Hpost; [exact Hpost|].
    destruct Hpost as (_ & Sc & Hr). apply layout_le in Hr. lia. }
  match goal with |- context [mcbNext ?s m] =>
    assert (Hmn : mcbNext s m = if bp then NULL else hi) end.
  { unfold mcbNext. cells. unfold E. upd_simpl. rewrite Hm12, Hend0, <- Ehi.
    destruct bp; [rewrite Hhi, Z.eqb_refl; reflexivity|].
    destruct (Z.eqb_spec hi (endMem st)); [lia | reflexivity]. }
  rewrite Hmn.
  assert (Hnx : ((if bp then NULL else hi) =? NULL) = bp).
  { destruct bp; [reflexivity | apply Z.eqb_neq; unfold NULL; lia]. }
  rewrite Hnx.
  match goal with |- context [removeFree ?s _] => set (st0c := s) end.
  assert (Hmem0c : mem st0c = if bp then E else upd E hi p).
  { unfold st0c. destruct bp; reflexivity. }
  assert (Hg0c : mcb st0c = mcb st /\ endMem st0c = endMem st /\
                 freelist st0c = freelist st).
  { unfold st0c. destruct bp; simpl; auto. }
  destruct Hg0c as (Hmcb0c & Hend0c & Hfl0c).
  clearbody st0c. clear Hmn Hnx.
  assert (Hpm : mem st0c m = p).
  { rewrite Hmem0c. unfold E. destruct bp; upd_simpl; exact Hm0. }
  rewrite Hpm.
  (* the free list before the two list operations *)
  assert (Hl0c : lseg (mem st0c) NULL (freelist st0c) fl NULL).
  { rewrite Hfl0c. eapply lseg_frame; [| exact (rep_links _ _ _ R)].
    intros a Ha. rewrite Hmem0c. unfold E.
    destruct (Z.eq_dec a p) as [-> | Hne].
    - destruct bp; split; upd_tac.
    - destruct (Hother a Ha Hne) as [_ O]. destruct bp; split; upd_tac. }
  destruct (removeFree_spec st0c p fl Hl0c (rep_nodup _ _ _ R)
              (sepl_incl _ _ HflU HsepU) Hpfl)
    as (Hl2 & Hfr2 & _ & _ & Hmcb2 & Hend2).
  remember (removeFree st0c p) as st2 eqn:Est2. clear Est2.
  destruct (insertFree_spec fuel st2 p (rem p fl)) as (st3 & E3 & Hl3 & Hfr3 & Hmcb3 & Hend3).
  { exact Hl2. }
  { apply NoDup_rem, (rep_nodup _ _ _ R). }
  { eapply sepl_incl; [| exact HsepU].
    intros a [<- | Ha]; [exact HpU|]. apply in_rem in Ha. apply HflU. tauto. }
  { rewrite in_rem. tauto. }
  { unfold NULL. lia. }
  { pose proof (length_rem p fl). lia. }
  rewrite E3. cbn [bind]. exists st3. split; [reflexivity|].
  assert (Hfr23 : frameL fl (mem st0c) (mem st3)).
  { eapply frameL_trans; [exact Hfr2|]. eapply frameL_incl; [| exact Hfr3].
    intros a [<- | Ha]; [exact Hpfl|]. apply in_rem in Ha. tauto. }
  rewrite (frameL_hdr fl U (mem st0c) (mem st3) m 8 Hfr23 HsepU HflU HmU) by lia.
  rewrite Hmem0c. unfold E. destruct bp; upd_tac.
Qed.

(** Merging with the block behind [w] changes no byte of the payload of
    [w] behind its link pair. *)
Lemma memFree_next_merge_inside (fuel : nat) (st : state) (pre post : list blk)
      (fl : list Z) (w W x X : Z) :
  Rep st (pre ++ (w, W, MAGIC_FREE) :: (x, X, MAGIC_FREE) :: post) fl ->
  (length fl < fuel)%nat ->
  exists st3,
    memFree_next fuel st w = Ok st3 /\
    forall y, w + 32 <= y < w + 16 + W -> mem st3 y = mem st y.
Proof.
  intros R Hfuel.
  change (pre ++ (w, W, MAGIC_FREE) :: (x, X, MAGIC_FREE) :: post)
    with (pre ++ [(w, W, MAGIC_FREE); (x, X, MAGIC_FREE)] ++ post) in R.
  set (mid := [(w, W, MAGIC_FREE); (x, X, MAGIC_FREE)]) in *.
  pose proof (rep_layout _ _ _ R) as Hlay.
  pose proof (layout_sepl _ _ _ Hlay) as HsepU.
  set (U := map b_addr (pre ++ mid ++ post)) in *.
  destruct (proj1 (layout_app _ _ _ _) Hlay) as (lo & Hpre & Hlay2).
  destruct (proj1 (layout_app _ _ _ _) Hlay2) as (hi & Hmid & Hpost).
  pose proof Hmid as Hmid0. simpl in Hmid0. unfold b_addr, b_size in Hmid0.
  simpl in Hmid0. destruct Hmid0 as (Elo & HW & Ex & HX & Ehi).
  subst lo. symmetry in Ehi. rewrite <- Ex in Ehi.
  pose proof (layout_le _ _ _ Hpre) as Hle1. pose proof (layout_le _ _ _ Hpost) as Hle2.
  pose proof (rep_base _ _ _ R) as Hbase. pose proof (rep_len _ _ _ R) as Hlen.
  unfold INT_MAX in Hlen.
  pose proof (rep_hdrs _ _ _ R) as Hh. apply hdrs_app in Hh. destruct Hh as [_ Hh].
  apply hdrs_app in Hh. destruct Hh as [Hh Hhpost].
  simpl in Hh. unfold b_addr, b_size, b_magic in Hh. simpl in Hh.
  destruct Hh as (Hw0 & Hw8 & Hw12 & Hx0 & Hx8 & Hx12 & _).
  assert (HwU : In w U /\ In x U).
  { unfold U, mid. rewrite !map_app, !in_app_iff. simpl.
    split; [right; left; left | right; left; right; left]; reflexivity. }
  destruct HwU as [HwU HxU].
  assert (HflU : incl fl U) by (intros a Ha; eapply Rep_fl_addr; eauto).
  assert (Hwfl : In w fl /\ In x fl).
  { split; apply (rep_free _ _ _ R); rewrite !free_addrs_app, !in_app_iff;
      right; left; simpl; auto. }
  destruct Hwfl as [Hwfl Hxfl].
  assert (Hother : forall a, In a fl -> a <> w -> a <> x ->
                             In a (map b_addr (pre ++ post)) /\ (a + 32 <= w \/ hi <= a)).
  { intros a Ha Hne1 Hne2.
    destruct (fl_outside_run _ _ _ _ _ a R Ha) as [Hin _].
    { unfold mid, free_addrs. simpl. intros [E | [E | []]];
        unfold b_addr in E; simpl in E; congruence. }
    split; [exact Hin|]. apply in_map_iff in Hin. destruct Hin as (c & <- & Hc).
    apply in_app_or in Hc. destruct Hc as [Hc | Hc].
    - pose proof (layout_in _ _ _ _ Hpre Hc). lia.
    - pose proof (layout_in _ _ _ _ Hpost Hc). lia. }
  unfold memFree_next. rewrite (mcbNext_eq st w W) by exact Hw12.
  rewrite <- Ex.
  destruct (Z.eqb_spec x (endMem st)); [lia|].
  destruct (Z.eqb_spec x NULL) as [E | _]; [unfold NULL in E; lia|].
  change (get_magic st x) with (mem st (x + 8)). rewrite Hx8, Z.eqb_refl.
  cbn [negb andb]. cbv iota.
  (* the successor leaves the free list *)
  destruct (removeFree_spec st x fl (rep_links _ _ _ R) (rep_nodup _ _ _ R)
              (sepl_incl _ _ HflU HsepU) Hxfl)
    as (Hl1 & Hfr1 & _ & _ & Hmcb1 & Hend1).
  remember (removeFree st x) as st1 eqn:Est1. clear Est1.
  assert (Hcell1 : forall c k, In c U -> k = 0 \/ k = 8 \/ k = 12 ->
                               mem st1 (c + k) = mem st (c + k)).
  { intros c k Hc Hk. eapply frameL_hdr; eauto. }
  cells.
  rewrite (upd_other _ _ _ (w + 12)) by lia.
  rewrite (upd_other _ _ _ (x + 12)) by lia.
  rewrite (Hcell1 w 12 HwU), (Hcell1 x 12 HxU), Hw12, Hx12 by lia.
  rewrite (u64_id W), (u64_id X) by lia. rewrite u64_id by lia.
  rewrite wrap32_id by (unfold in_int, INT_MIN, INT_MAX; lia).
  set (E := upd (upd (mem st1) (x + 8) 0) (w + 12) (W + (16 + X))).
  set (bp := match post with [] => true | _ => false end).
  assert (Hhi : if bp then hi = endMem st else hi + 32 <= endMem st).
  { unfold bp. destruct post as [| c r]; simpl in Hpost; [exact Hpost|].
    destruct Hpost as (_ & Sc & Hr). apply layout_le in Hr. lia. }
  match goal with |- context [mcbNext ?s x] =>
    assert (Hmn : mcbNext s x = if bp then NULL else hi) end.
  { rewrite (mcbNext_eq _ x X).
    - cbn [endMem]. rewrite Hend1, <- Ehi.
      destruct bp; [rewrite Hhi, Z.eqb_refl; reflexivity|].
      destruct (Z.eqb_spec hi (endMem st)); [lia | reflexivity].
    - cells. unfold E. upd_simpl. rewrite (Hcell1 x 12 HxU) by lia. exact Hx12. }
  rewrite Hmn.
  assert (Hnx : ((if bp then NULL else hi) =? NULL) = bp).
  { destruct bp; [reflexivity | apply Z.eqb_neq; unfold NULL; lia]. }
  rewrite Hnx.
  match goal with |- context [removeFree ?s w] => set (st1c := s) end.
  assert (Hmem1c : mem st1c = if bp then E else upd E hi w).
  { unfold st1c. destruct bp; reflexivity. }
  assert (Hg1c : mcb st1c = mcb st /\ endMem st1c = endMem st /\
                 freelist st1c = freelist st1).
  { unfold st1c. destruct bp; simpl; auto. }
  destruct Hg1c as (Hmcb1c & Hend1c & Hfl1c).
  clearbody st1c. clear Hmn Hnx.
  assert (Hl1c : lseg (mem st1c) NULL (freelist st1c) (rem x fl) NULL).
  { rewrite Hfl1c. eapply lseg_frame; [| exact Hl1].
    intros a Ha. apply in_rem in Ha. destruct Ha as [Ha Hnx].
    rewrite Hmem1c. unfold E.
    destruct (Z.eq_dec a w) as [-> | Hne].
    - destruct bp; split; upd_tac.
    - destruct (Hother a Ha Hne Hnx) as [_ O]. destruct bp; split; upd_tac. }
  destruct (removeFree_spec st1c w (rem x fl) Hl1c) as (Hl2 & Hfr2 & _ & _ & Hmcb2 & Hend2).
  { apply NoDup_rem, (rep_nodup _ _ _ R). }
  { eapply sepl_incl; [| exact HsepU]. intros a Ha. apply in_rem in Ha.
    apply HflU. tauto. }
  { rewrite in_rem. split; [exact Hwfl | lia]. }
  remember (removeFree st1c w) as st2 eqn:Est2. clear Est2.
  assert (Hincl2 : incl (w :: rem w (rem x fl)) fl).
  { intros a [<- | Ha]; [exact Hwfl|]. apply in_rem in Ha. destruct Ha as [Ha _].
    apply in_rem in Ha. tauto. }
  destruct (insertFree_spec fuel st2 w (rem w (rem x fl)))
    as (st3 & E3 & Hl3 & Hfr3 & Hmcb3 & Hend3).
  { exact Hl2. }
  { apply NoDup_rem, NoDup_rem, (rep_nodup _ _ _ R). }
  { eapply sepl_incl; [| exact HsepU]. intros a Ha. apply HflU, Hincl2, Ha. }
  { rewrite in_rem. tauto. }
  { unfold NULL. lia. }
  { pose proof (length_rem w (rem x fl)). pose proof (length_rem x fl). lia. }
  rewrite E3. exists st3. split; [reflexivity|].
  assert (Hfr13 : frameL fl (mem st1c) (mem st3)).
  { eapply frameL_trans.
    - eapply frameL_incl; [| exact Hfr2]. intros a Ha. apply in_rem in Ha. tauto.
    - eapply frameL_incl; [| exact Hfr3]. exact Hincl2. }
  intros y Hy.
  assert (Hy' : forall a, In a fl -> y <> a + 16 /\ y <> a + 24).
  { intros a Ha. destruct (Z.eq_dec a w) as [-> | Nw]; [lia|].
    destruct (Z.eq_dec a x) as [-> | Nx]; [lia|].
    destruct (Hother a Ha Nw Nx) as [_ O]. lia. }
  rewrite (Hfr13 y Hy'), Hmem1c. unfold E.
  destruct bp; upd_simpl; apply Hfr1; exact Hy'.
Qed.

(** The magic that [memFree] leaves in the header of the block it frees. *)
Lemma memFree_clears_magic (fuel : nat) (st : state) (bs : list blk) (fl : list Z)
      (m S : Z) :
  Rep st bs fl -> In (m, S, MAGIC_USED) bs -> (Datatypes.S (length fl) < fuel)%nat ->
  exists st',
    memFree fuel st (m + 16) = Ok st' /\
    (mem st' (m + 8) = MAGIC_FREE \/ mem st' (m + 8) = 0).
Proof.
  intros R Hin Hfuel.
  apply in_split in Hin. destruct Hin as (pre & post & ->).
  pose proof (Rep_block_hdr _ _ _ _ _ R) as (_ & Hg & _).
  pose proof (Rep_block_bounds _ _ _ (m, S, MAGIC_USED) R
                ltac:(apply in_or_app; simpl; auto)) as (Hm0 & HS & _).
  unfold b_addr, b_magic, b_size in Hg, Hm0, HS. simpl in Hg, Hm0, HS.
  unfold memFree.
  destruct (Z.eqb_spec (m + 16) NULL) as [E | _]; [unfold NULL in E; lia|].
  unfold SZ_MCB. replace (m + 16 - 16) with m by lia.
  change (get_magic st m) with (mem st (m + 8)). rewrite Hg, Z.eqb_refl.
  cbn [negb]. cbv iota.
  destruct (Z.eqb_spec m NULL) as [E | _]; [unfold NULL in E; lia|].
  cbv zeta.
  assert (Hprev : last_not_free pre \/
                  exists pre' p P, pre = pre' ++ [(p, P, MAGIC_FREE)]).
  { destruct (exists_last_or_nil pre) as [-> | (pre' & q & ->)].
    - left. intros l q E. destruct l; discriminate.
    - destruct q as [[p P] g]. destruct (Z.eq_dec g MAGIC_FREE) as [-> | Hne].
      + right. eauto.
      + left. apply last_not_free_snoc. exact Hne. }
  assert (Hnext : head_not_free post \/
                  exists x X post', post = (x, X, MAGIC_FREE) :: post').
  { destruct post as [| [[x X] g] post'].
    - left. intros c r E. discriminate.
    - destruct (Z.eq_dec g MAGIC_FREE) as [-> | Hne].
      + right. eauto.
      + left. apply head_not_free_cons. exact Hne. }
  destruct Hprev as [Hprev | (pre' & p & P & ->)].
  - destruct (memFree_prev_keep fuel st pre post fl m S R Hprev ltac:(lia))
      as (st1 & E1 & R1 & _).
    rewrite E1. cbn [bind]. cbv beta iota.
    destruct Hnext as [Hnext | (x & X & post' & ->)].
    + rewrite (memFree_next_keep fuel st1 pre post _ m S MAGIC_FREE R1 Hnext).
      exists st1. split; [reflexivity|]. left.
      exact (proj1 (proj2 (Rep_block_hdr _ _ _ _ _ R1))).
    + destruct (memFree_next_merge fuel st1 pre post' _ m S x X R1
                  ltac:(rewrite length_ins; lia))
        as (st2 & E2 & R2 & _).
      rewrite E2. exists st2. split; [reflexivity|]. left.
      exact (proj1 (proj2 (Rep_block_hdr _ _ _ _ _ R2))).
  - rewrite <- app_assoc in R. cbn [app] in R.
    destruct (memFree_prev_merge fuel st pre' post fl p P m S R ltac:(lia))
      as (st1 & E1 & R1 & _).
    destruct (memFree_prev_merge_magic fuel st pre' post fl p P m S R ltac:(lia))
      as (st1' & E1' & Hz).
    rewrite E1 in E1'. injection E1' as <-.
    rewrite E1. cbn [bind]. cbv beta iota.
    pose proof (Rep_block_bounds _ _ _ (p, P, MAGIC_FREE) R
                  ltac:(apply in_or_app; simpl; auto)) as (_ & HP & _).
    pose proof (rep_layout _ _ _ R) as Hlay.
    apply layout_split in Hlay. destruct Hlay as (_ & _ & Hlay & _).
    unfold b_addr, b_size in HP, Hlay. simpl in HP, Hlay.
    destruct Hlay as (Em & _). unfold b_addr in Em. simpl in Em.
    destruct Hnext as [Hnext | (x & X & post' & ->)].
    + rewrite (memFree_next_keep fuel st1 pre' post _ p (P + 16 + S) MAGIC_FREE R1 Hnext).
      exists st1. split; [reflexivity|]. right. exact Hz.
    + destruct (memFree_next_merge_inside fuel st1 pre' post' _ p (P + 16 + S) x X R1
                  ltac:(rewrite length_ins; pose proof (length_rem p fl); lia))
        as (st2 & E2 & Hin).
      rewrite E2. exists st2. split; [reflexivity|]. right.
      rewrite Hin by lia. exact Hz.
Qed.

End DoubleFree.

(** X19.  Freeing a block twice in a row: the first [memFree(p)] of a
    block in use leaves in its header a magic that is not that of a block
    in use (that of a free block, or 0 when the free block before it has
    absorbed it), so that the second [memFree(p)] returns at its test of
    the magic with nothing changed. *)
Theorem memFree_twice_is_once
        (fuel fuel' : nat) (st st' : Mem.state) (bs : list blk) (fl : list Z) (p S : Z) :
  Rep st bs fl -> In (p - 16, S, Mem.MAGIC_USED) bs ->
  Mem.memFree fuel st p = Ok st' ->
  (Mem.get_magic st' (p - 16) = Mem.MAGIC_FREE \/ Mem.get_magic st' (p - 16) = 0) /\
  Mem.memFree fuel' st' p = Ok st'.
Proof.
  intros R Hin E.
  set (F := Nat.max fuel (enough_fuel st)).
  pose proof (memFree_mono st p fuel F _ (Nat.le_max_l _ _) E) as EF.
  destruct (memFree_clears_magic F st bs fl (p - 16) S R Hin
              (Rep_enough _ _ _ _ R (Nat.le_max_r _ _))) as (st1 & E1 & Hg).
  replace (p - 16 + 16) with p in E1 by lia.
  rewrite E1 in EF. injection EF as <-.
  change (Mem.get_magic st1 (p - 16)) with (Mem.mem st1 (p - 16 + 8)).
  split; [exact Hg|].
  unfold Mem.memFree. destruct (p =? NULL); [reflexivity|].
  change (Mem.get_magic st1 (p - Mem.SZ_MCB)) with (Mem.mem st1 (p - 16 + 8)).
  destruct Hg as [-> | ->]; reflexivity.
Qed.

Lemma memFree_twice_is_once_witness :
  exists st0 st1 st2,
    Mem.memInit 30 (fun _ => 0) 1000 706 = Ok st0 /\
    Mem.memAlloc 30 st0 100 = Ok (1016, st1) /\
    Mem.memFree 30 st1 1016 = Ok st2 /\
    Mem.memFree 30 st2 1016 = Ok st2.
Proof.
  destruct (memInit_spec 30 (fun _ => 0) 1000 706) as (st0 & E0 & R0 & Hm & He);
    [lia | unfold INT_MAX; lia | lia |].
  assert (Ea : exists st1, Mem.memAlloc 30 st0 100 = Ok (1016, st1)).
  { clear - E0. vm_compute in E0. injection E0 as <-. eexists. vm_compute. reflexivity. }
  destruct Ea as (st1 & Ea).
  destruct (memAlloc_Rep 30 st0 _ _ 100 1016 st1 R0 ltac:(vm_compute; discriminate) Ea
              ltac:(discriminate))
    as (bs1 & fl1 & R1 & Hstep & _).
  destruct (alloc_step_block _ _ _ _ Hstep) as (S1 & _ & Hblk).
  assert (Ef : exists st2, Mem.memFree 30 st1 1016 = Ok st2).
  { clear - E0 Ea. vm_compute in E0. injection E0 as <-.
    vm_compute in Ea. injection Ea as <-. eexists. vm_compute. reflexivity. }
  destruct Ef as (st2 & Ef).
  exists st0, st1, st2. split; [exact E0|]. split; [exact Ea|]. split; [exact Ef|].
  exact (proj2 (memFree_twice_is_once 30 30 st1 st2 bs1 fl1 1016 S1 R1 Hblk Ef)).
Defined.
